(* ===== verification/_CoqProject ===== *)
-Q . S2P
Prelude.v
Proc.v
Errors.v
Semaphore.v
GoStrings.v
Container.v
PoolState.v
PoolIdles.v
Runtimes.v
PoolOps.v
PoolSem.v
PoolInv.v
PoolSound.v
PoolOpSound.v
PoolWp.v
PoolRun.v
Pool.v
PoolGet.v
PoolSeq.v
PoolUpkeep.v
PoolLoops.v
PoolShutdown.v
DockerLogs.v
Docker.v
DockerSafe.v
DockerPause.v
DockerHttp.v
Entities.v
Payload.v
Runner.v
RunnerSafe.v
RunnerLogs.v
LogLines.v
LogStreams.v
LogProgress.v
RunnerPool.v
Batcher.v
Base64.v
Json.v
Units.v
UnitsFloat.v
JsonText.v
JsonPrint.v
JsonCopy.v
FunctionDoc.v
ActivationDoc.v
PayloadDoc.v
JsonMarshal.v
Ack.v
Crypto.v
Message.v
MessageSpec.v
KafkaRunner.v
KafkaSpec.v
HttpRunner.v
Offsets.v
KafkaSetup.v
Urls.v
Couch.v
Documents.v
JsonDecode.v
FunctionDecode.v
FunctionDecodeSpec.v
RuntimesSpec.v
Composition.v
FunctionCache.v
FunctionCacheSpec.v
CouchSpec.v
Main.v
Startup.v
Perf.v
Firewall.v
FirewallSpec.v
FirewallSync.v
FirewallExec.v
Shutdown.v
