(* ===== verification/Prelude.v ===== *)
(** * The functions invoker: root of the development

    The program under [src/] receives invocations of functions through Kafka
    and HTTP, takes a container for each from a pool of Docker containers, runs
    the function in it, answers, and stores the activation in CouchDB.  This
    library models its parts as Rocq definitions that follow the code statement
    by statement, and proves what each part and their combinations guarantee.

    ** How programs are represented

    Pure code is a function.  A method that touches shared or outside state is
    a value of [proc E A] (Proc.v): a tree of the atomic operations [E] it
    performs (a critical section, an atomic add, a call to another component),
    ending in its result.  Errors are values of [result] (Errors.v), panics of
    the code's own making the value [Panics] of [outcome].  A program is run by
    a handler ([run], [attempt]), by a relation that leaves open what the
    environment answers ([runs]), or interleaved with any number of others
    ([step], [reachable]).  Statements about all interleavings are proved with
    ghost tokens: [wp] checks each program against a contract per operation,
    and [wp_adequate] turns the soundness of the operations into an invariant.
    Background loops and state machines that no program value captures (the
    batcher, the pause handshake, the firewall's goroutine, the loops of
    compare-and-swaps) are step relations.  Programs of [proc] are finite trees,
    so a program given answers returns; where the code loops until something
    happens the loop has fuel with a theorem that it is enough, or is a step
    relation with a theorem that it ends.

    ** Parts and files

    - Prelude.v, Proc.v, Errors.v, GoStrings.v: machine integers ([u64],
      [i64]), sums, ranging over maps in any order ([MapRange]), programs, Go's
      errors and strings.
    - Container.v, Entities.v, Payload.v, Runtimes.v: the data and texts of
      [pkg/exec/container.go], [pkg/entities], [pkg/protocol],
      [pkg/exec/payload.go] and [pkg/exec/runtimes.go].
    - The pool, [pkg/exec/pool.go].  PoolState.v: the fields guarded by the two
      mutexes and the sections under them; PoolOps.v: [Get], [Put],
      [PutToDestroy], [reap], [reconcilePrewarm], [Shutdown] and the background
      rounds; PoolSem.v: what each atomic operation does to the state;
      Semaphore.v: the interface of the weighted semaphore.  PoolIdles.v,
      PoolInv.v, PoolSound.v, PoolOpSound.v, PoolWp.v prove the sections, the
      invariant, the operations and the contracts; PoolRun.v runs scripts.
      Pool.v, PoolGet.v, PoolSeq.v and PoolUpkeep.v state the properties.
      PoolLoops.v: the three goroutines that [NewContainerPool] starts, with
      their rounds among the calls, and the owner that calls [Shutdown], which
      closes the channels, waits for the goroutines and removes what is left;
      PoolShutdown.v: what that guarantees.
    - Docker containers, [pkg/exec/docker/container.go].  DockerLogs.v: log
      lines; Docker.v: the factory and the methods; DockerSafe.v: IPs, retries,
      memory; DockerPause.v: the pause handshake; DockerHttp.v: requests.
    - The runner, [pkg/runner/runner.go].  Runner.v: [Invoke]; RunnerSafe.v:
      its protocol and response; RunnerLogs.v: log collection; RunnerPool.v:
      the runner as the pool's client.
    - Between the two.  LogLines.v: reading lines of a stream as it arrives;
      LogStreams.v: the goroutines of [consumeLogs] that carry the output of a
      container to the [collectLogs] of one invocation after another;
      LogProgress.v: that all of it arrives.
    - Entry points.  Json.v, Base64.v, Crypto.v, Message.v, MessageSpec.v:
      [ParseActivationMessage] with [pkg/encryption]; Ack.v: [ack.go];
      KafkaRunner.v, KafkaSpec.v: [pkg/kafka/runner.go] and the workers of
      [cmd/invoker/main.go]; HttpRunner.v: [pkg/http/runner.go]; Offsets.v: the
      shared highest offset; Shutdown.v: the goroutines of [main] and the
      order in which it shuts them down; Startup.v: [main] up to there, and
      [pkg/logging/level.go]; KafkaSetup.v: the rest of [pkg/kafka/kafka.go] and
      [pkg/tls]; Main.v: what else [main] computes, the goroutine that refreshes
      the blocked namespaces, the routes of the HTTP server (for paths that
      [http.ServeMux] does not clean first), and [FetchLastOffset].
    - The tools.  Perf.v: [cmd/createperf] and [cmd/lifecycleperf].
    - Documents.  FunctionDoc.v: code and limits of functions; ActivationDoc.v:
      activations and annotations; PayloadDoc.v: what is sent to containers;
      Units.v, UnitsFloat.v: [pkg/units].
    - The text of documents, what [encoding/json] does for the program.
      JsonText.v: reading; JsonPrint.v: writing strings; JsonCopy.v: raw
      messages; JsonMarshal.v: writing trees of values; JsonDecode.v: decoding
      into Go's types, with the structs of the program; FunctionDecode.v: the
      document of a function, whose parts decode their own texts;
      FunctionDecodeSpec.v: that such documents read back; RuntimesSpec.v: the
      table of [pkg/exec/runtimes.go]; Documents.v: completion messages and
      what the batcher writes; Composition.v: from the runtime's answer to the
      controller and the database.
    - CouchDB.  Urls.v, Couch.v, CouchSpec.v: [pkg/couchdb/client.go];
      Batcher.v: [pkg/couchdb/batcher.go]; FunctionCache.v,
      FunctionCacheSpec.v: [pkg/entities/function_cache.go].
    - The firewall.  Firewall.v, FirewallSpec.v: the table of
      [pkg/firewall/firewall.go]; FirewallSync.v: [Reconcile],
      [pkg/firewall/events.go] and the goroutine of [main]; FirewallExec.v:
      [pkg/firewall/docker_exec.go].

    ** How the parts meet

    A worker reads a message and stores its offset; [kafkaInvoke] parses,
    decides whether to execute, calls the runner and writes the answer
    (KafkaSpec.v proves it for the real runner, HttpRunner.v likewise for
    HTTP).  The runner's calls of the pool are those of the client [caller],
    whose calls are the programs of the pool's methods (RunnerPool.v); the
    pool's theorems hold for any number of such clients.  Third-party code is
    met through classes: [WeightedSemaphore], [LRU], [FastJSON], [GCM],
    [TableRestore], [PEM], [FloatText], [HttpTimeouts], and [Unicode] and [Lowercase] for texts
    that are not ASCII; their laws are classes of their own or fields, with an
    instance wherever a theorem uses them.  What depends on [encoding/json]
    takes its functions as parameters; Composition.v, RuntimesSpec.v and
    CouchSpec.v put in those of JsonMarshal.v, JsonDecode.v and
    FunctionDecode.v.

    ** What the theorems show

    - Safety of the pool under all interleavings: containers are in one place,
      memory is accounted for, nothing panics, everything is given back; [Get]
      hands out what was asked for, isolated by namespace; what eviction,
      reaping, prewarming (while others take containers) and shutdown achieve;
      and interleavings that exceed the memory limit, or break the order of the
      lists that eviction goes by.
    - The end of the pool: when [Shutdown] returns, its goroutines have too and
      everything is removed but what it reports; it can return from wherever
      the goroutines are, unless the prewarming goroutine is about to retry,
      and a retry after the channels are closed is the only way to panic.
    - Docker: IPs are neither lost nor shared, the pause handshake never
      leaves a container paused in use and always ends, log lines and
      responses are cut as documented, sentinels may be missed at the buffer's
      edge.
    - Invocations: the protocol of [Invoke], its response and status, its logs,
      its use of the pool; one answer per message or request, unless parsing
      panics, which is told apart as a result of its own; what the parser makes
      of any message, and that what was encrypted arrives.
    - Logs: of all that is written to a container nothing is lost or changed on
      its way to its invocations; if what is written for each ends in the
      sentinels each gets its own lines, up to its limit, and without the
      timeout they all arrive.
    - Storage: each activation is written once, requests are retried in
      bounds, functions are read once per stay in the cache, documents and
      sizes read back.
    - Texts: every activation that [Invoke] returns has a document with an object
      as its result, whatever bytes the runtime answered; the controller can read
      what it is sent exactly if the identifiers quoted in it allow it, and the
      database can if they need no escapes; the configuration of runtimes is
      read the same in every order; the document of a function is decoded into the
      function, in whatever order its members are; gigabyte seconds are finite.
    - Firewall: the restored table has the computed rules and keeps the rest, but
      for chains that are named like the invoker's; doing it again changes nothing, and the last table written is that of
      the current cluster; a line longer than the scanner's limit cuts off
      the rest.
    - Start: nothing is received before everything that an invocation needs is
      there, errors end the program before that, and connections are closed;
      what a request to create a topic does at the broker is left open.
    - Shutdown: whatever the goroutines are doing when the signal arrives,
      nothing is used after it has been shut down, everything that was
      received is served, its activations are written, and [main] can return.

    ** Bounds and fuel

    Waiting for a new container to respond (Docker.v) takes at most [pollTries]
    rounds, as many as fit into its 30 seconds at 50 ms and two more;
    [consumeStream] gets as much fuel as its input has characters and one more,
    since every [ReadLine] takes one; [makeSpace] gets the number of idle
    containers and one more, since every round removes one; [requestLoop] gets
    [requestTries] rounds, more than the waits and the timeouts of the HTTP
    client that the two minutes have room for; the reader of documents gets the length of its text, and its equations
    ([value_eq], [elems_eq], [fields_eq]) hold without fuel.  A line
    of the firewall's table may have 65535 characters, the limit of
    [bufio.Scanner].  Integers are unbounded [Z] where the code cannot reach
    the ends of their type, and wrapped by [u64] and [i64] where it can.

    ** Not modelled

    Generated mocks, metrics and the logging of messages, which nothing in the
    program reads; the clock's wrapper; envconfig, which fills the configuration
    of [main]; the handlers for metrics and profiling and the statistics of the
    tools; of [encoding/json] the text of a floating-point number, which is a
    class, the limit of 10000 nested values, and what is left in the elements of
    a slice that two repeated members have shortened before; fastjson, which reads
    the code and the limits of a function, a class; AES-GCM itself, of which only that a
    sealed text opens is assumed; Kubernetes' and Docker's own behaviour, which
    is left open; two invocations' outputs mixed on one stream, that of an
    earlier one coming first.  Go's memory model is sequential consistency here: shared
    fields are accessed under their mutex or atomically. *)

From Stdlib Require Export ZArith Lia.
From stdpp Require Export base tactics list option gmap strings sorting.

#[global] Open Scope Z_scope.
#[global] Set Default Goal Selector "!".

Declare Scope go_scope.
Delimit Scope go_scope with go.

(** ** Machine integers

    [uint64] values are kept as [Z] in [[0, 2^64)] and [int64] values as [Z] in
    [[-2^63, 2^63)]; arithmetic wraps as in Go. *)

Definition u64 (z : Z) : Z := z `mod` 2 ^ 64.
Definition i64 (z : Z) : Z := (z + 2 ^ 63) `mod` 2 ^ 64 - 2 ^ 63.

Notation "a +u b" := (u64 (a + b)) (at level 50, left associativity) : go_scope.
Notation "a -u b" := (u64 (a - b)) (at level 50, left associativity) : go_scope.
Notation "a *u b" := (u64 (a * b)) (at level 40, left associativity) : go_scope.

Lemma u64_range z : 0 <= u64 z < 2 ^ 64.
Proof. apply Z.mod_pos_bound. lia. Qed.

Lemma u64_small z : 0 <= z < 2 ^ 64 -> u64 z = z.
Proof. apply Z.mod_small. Qed.

Lemma u64_idemp_add_r a b : u64 (a + u64 b) = u64 (a + b).
Proof. unfold u64. rewrite Zplus_mod_idemp_r. done. Qed.

Lemma u64_idemp_add_l a b : u64 (u64 a + b) = u64 (a + b).
Proof. unfold u64. rewrite Zplus_mod_idemp_l. done. Qed.

(** Adding the two's complement of [m] to a counter that holds at least [m]
    subtracts it exactly. *)
Lemma u64_add_neg a m : 0 <= m <= a -> a < 2 ^ 64 -> u64 (a + u64 (- m)) = a - m.
Proof. intros. rewrite u64_idemp_add_r. apply u64_small. lia. Qed.

Lemma i64_small z : - 2 ^ 63 <= z < 2 ^ 63 -> i64 z = z.
Proof. intros. unfold i64. rewrite Z.mod_small; lia. Qed.

(** ** Sums over lists and over maps of lists *)

Fixpoint sumZ {A} (f : A -> Z) (l : list A) : Z :=
  match l with
  | [] => 0
  | x :: l' => f x + sumZ f l'
  end.

Lemma sumZ_nil {A} (f : A -> Z) : sumZ f [] = 0.
Proof. done. Qed.
Lemma sumZ_cons {A} (f : A -> Z) x l : sumZ f (x :: l) = f x + sumZ f l.
Proof. done. Qed.
Lemma sumZ_app {A} (f : A -> Z) l1 l2 : sumZ f (l1 ++ l2) = sumZ f l1 + sumZ f l2.
Proof. induction l1; cbn; lia. Qed.
Lemma sumZ_perm {A} (f : A -> Z) l1 l2 : l1 ≡ₚ l2 -> sumZ f l1 = sumZ f l2.
Proof. induction 1; cbn; lia. Qed.
Lemma sumZ_nonneg {A} (f : A -> Z) l : (forall x, x ∈ l -> 0 <= f x) -> 0 <= sumZ f l.
Proof.
  induction l as [|a l IH]; intros H; cbn; [lia|].
  assert (0 <= f a) by (apply H; set_solver). assert (0 <= sumZ f l); [|lia].
  apply IH. set_solver.
Qed.
Lemma sumZ_le {A} (f g : A -> Z) l :
  (forall x, x ∈ l -> f x <= g x) -> sumZ f l <= sumZ g l.
Proof.
  induction l as [|a l IH]; intros H; cbn; [lia|].
  assert (f a <= g a) by (apply H; set_solver).
  assert (sumZ f l <= sumZ g l); [|lia]. apply IH. set_solver.
Qed.
Lemma sumZ_ext {A} (f g : A -> Z) l : (forall x, x ∈ l -> f x = g x) -> sumZ f l = sumZ g l.
Proof.
  intros H. apply Z.le_antisymm; apply sumZ_le; intros x Hx; rewrite (H x Hx); lia.
Qed.
Lemma sumZ_elem_le {A} (f : A -> Z) l x :
  (forall y, y ∈ l -> 0 <= f y) -> x ∈ l -> f x <= sumZ f l.
Proof.
  intros Hnn Hx. apply list_elem_of_split in Hx as (l1 & l2 & ->).
  rewrite sumZ_app, sumZ_cons.
  assert (0 <= sumZ f l1) by (apply sumZ_nonneg; set_solver).
  assert (0 <= sumZ f l2) by (apply sumZ_nonneg; set_solver). lia.
Qed.

(** Filters that keep everything or nothing. *)
Section filters.
Context {A : Type} (P : A -> Prop) `{!forall x, Decision (P x)}.

Lemma filter_all (l : list A) : (forall x, x ∈ l -> P x) -> filter P l = l.
Proof.
  induction l as [|x l IH]; intros Hall; [done|].
  rewrite filter_cons_True by (apply Hall; set_solver). f_equal. apply IH. set_solver.
Qed.

Lemma filter_none (l : list A) : (forall x, x ∈ l -> ~ P x) -> filter P l = [].
Proof.
  induction l as [|x l IH]; intros Hall; [done|].
  rewrite filter_cons_False by (apply Hall; set_solver). apply IH. set_solver.
Qed.

Lemma Forall_filter (Q : A -> Prop) (l : list A) : Forall Q l -> Forall Q (filter P l).
Proof. rewrite !Forall_forall. intros HQ x [_ Hx]%list_elem_of_filter. by apply HQ. Qed.
End filters.

(** All elements of the lists a map holds. *)
Section map_of_lists.
Context {K A : Type} `{Countable K}.

Definition elems (m : gmap K (list A)) : list A := concat (map_to_list m).*2.
Definition lists_at (k : K) (m : gmap K (list A)) : list A := default [] (m !! k).
Definition msum (f : A -> Z) (m : gmap K (list A)) : Z := sumZ f (elems m).

Lemma elems_insert_new m k l : m !! k = None -> elems (<[k := l]> m) ≡ₚ l ++ elems m.
Proof.
  intros Hk. unfold elems.
  rewrite (map_to_list_insert m k l Hk). done.
Qed.

Lemma elems_delete m k : elems m ≡ₚ lists_at k m ++ elems (delete k m).
Proof.
  unfold lists_at. destruct (m !! k) as [l|] eqn:E; cbn.
  - rewrite <- (elems_insert_new (delete k m) k l) by apply lookup_delete_eq.
    rewrite insert_delete_eq, insert_id by done. done.
  - rewrite delete_id; done.
Qed.

Lemma elems_insert m k l : elems (<[k := l]> m) ≡ₚ l ++ elems (delete k m).
Proof.
  rewrite <- insert_delete_eq. apply elems_insert_new, lookup_delete_eq.
Qed.

Lemma elem_of_elems m x : x ∈ elems m <-> exists k l, m !! k = Some l /\ x ∈ l.
Proof.
  unfold elems. rewrite list_elem_of_In, in_concat. split.
  - intros (l & Hl & Hx). apply list_elem_of_In in Hl, Hx.
    apply list_elem_of_fmap in Hl as ([k l'] & -> & Hkl).
    apply elem_of_map_to_list in Hkl. eauto.
  - intros (k & l & Hk & Hx). exists l. split; apply list_elem_of_In; [|done].
    apply list_elem_of_fmap. exists (k, l). by rewrite elem_of_map_to_list.
Qed.

Lemma msum_lookup f m k : msum f m = sumZ f (lists_at k m) + msum f (delete k m).
Proof. unfold msum. rewrite (sumZ_perm f _ _ (elems_delete m k)), sumZ_app. done. Qed.

Lemma msum_insert f m k l :
  msum f (<[k := l]> m) = msum f m - sumZ f (lists_at k m) + sumZ f l.
Proof.
  rewrite (msum_lookup f m k). unfold msum.
  rewrite (sumZ_perm f _ _ (elems_insert m k l)), sumZ_app. lia.
Qed.

Lemma msum_delete f m k : msum f (delete k m) = msum f m - sumZ f (lists_at k m).
Proof. rewrite (msum_lookup f m k). lia. Qed.

Lemma msum_empty f : msum f ∅ = 0.
Proof. unfold msum, elems. by rewrite map_to_list_empty. Qed.

Lemma msum_nonneg f m : (forall x, x ∈ elems m -> 0 <= f x) -> 0 <= msum f m.
Proof. apply sumZ_nonneg. Qed.
End map_of_lists.

(** ** Go maps

    [range] over a Go map visits every entry once, in an order the language
    leaves open; two loops over the same map may differ. *)
Class MapRange (K A : Type) `{Countable K} := {
  go_range : nat -> gmap K A -> list (K * A);
  go_range_perm n m : go_range n m ≡ₚ map_to_list m
}.

(** Ranging over a map in the order of [map_to_list]. *)
#[export] Instance range_in_order K A `{Countable K} : MapRange K A :=
  {| go_range _ m := map_to_list m; go_range_perm _ _ := reflexivity _ |}.

Lemma elems_range {K A} `{MapRange K (list A)} n m :
  concat (go_range n m).*2 ≡ₚ elems m.
Proof. unfold elems. by rewrite (go_range_perm n m). Qed.

Create HintDb invoker.
Create Rewrite HintDb invoker.
#[export] Hint Rewrite @sumZ_app @sumZ_cons @sumZ_nil @msum_insert @msum_delete @msum_empty
  : invoker.
#[export] Hint Resolve u64_range u64_small sumZ_nonneg msum_nonneg : invoker.

(** Case analysis on the conditions and matches of a definition. *)
Ltac go_cases :=
  repeat (case_match; simplify_eq/=; try done).
