(* ===== verification/Proc.v ===== *)
(** * Effectful programs, their interleavings and a token logic

    The methods of the program that talk to the outside world or to shared
    state are written as values of [proc E A]: trees of atomic operations [E]
    ending in a result.  The same tree is given three readings:
    - [run]: sequential execution against a deterministic handler (executable);
    - [runs]: sequential execution against a relation that leaves the answers
      of the environment open;
    - [step]: interleaved execution of any number of threads, one atomic
      operation at a time, new threads being started at any moment.

    [wp] is a small weakest-precondition calculus over per-thread ghost tokens;
    [wp_adequate] turns one local soundness lemma per operation into an
    invariant of every interleaving. *)
From S2P Require Export Prelude.

Inductive proc (E : Type -> Type) (A : Type) : Type :=
| Ret (a : A)
| Vis {X : Type} (e : E X) (k : X -> proc E A).
Arguments Ret {E A} a.
Arguments Vis {E A X} e k.

Fixpoint proc_bind {E A B} (p : proc E A) (f : A -> proc E B) : proc E B :=
  match p with
  | Ret a => f a
  | Vis e k => Vis e (fun x => proc_bind (k x) f)
  end.

Definition trigger {E X} (e : E X) : proc E X := Vis e Ret.

#[export] Instance proc_MRet E : MRet (proc E) := fun A => Ret.
#[export] Instance proc_MBind E : MBind (proc E) := fun A B f p => proc_bind p f.

(** Go's [for _, x := range l] with a body that has effects. *)
Fixpoint for_each {E A} (l : list A) (body : A -> proc E unit) : proc E unit :=
  match l with
  | [] => Ret tt
  | x :: l' => proc_bind (body x) (fun _ => for_each l' body)
  end.

(** The same with an accumulator. *)
Fixpoint for_fold {E A B} (l : list A) (acc : B) (body : B -> A -> proc E B) : proc E B :=
  match l with
  | [] => Ret acc
  | x :: l' => proc_bind (body acc x) (fun acc' => for_fold l' acc' body)
  end.

(** A loop that may return early from the enclosing function. *)
Fixpoint for_early {E A B} (l : list A) (body : A -> proc E (option B)) : proc E (option B) :=
  match l with
  | [] => Ret None
  | x :: l' => proc_bind (body x) (fun r =>
      match r with Some b => Ret (Some b) | None => for_early l' body end)
  end.

(** ** Sequential execution *)
Section run.
Context {E : Type -> Type} {S : Type} (handler : forall X, E X -> S -> X * S).

Fixpoint run {A} (p : proc E A) (s : S) : A * S :=
  match p with
  | Ret a => (a, s)
  | Vis e k => let '(x, s') := handler _ e s in run (k x) s'
  end.

Lemma run_bind {A B} (p : proc E A) (f : A -> proc E B) s :
  run (proc_bind p f) s = let '(a, s') := run p s in run (f a) s'.
Proof.
  revert s. induction p as [a|X e k IH]; intros s; cbn; [done|].
  destruct (handler X e s). apply IH.
Qed.
End run.

Section runs.
Context {E : Type -> Type} {S : Type} (exec : forall X, E X -> S -> X -> S -> Prop).

Fixpoint runs {A} (p : proc E A) (s : S) (a : A) (s' : S) : Prop :=
  match p with
  | Ret a' => a' = a /\ s' = s
  | Vis e k => exists x s1, exec _ e s x s1 /\ runs (k x) s1 a s'
  end.

Lemma runs_bind {A B} (p : proc E A) (f : A -> proc E B) s b s' :
  runs (proc_bind p f) s b s' <-> exists a s1, runs p s a s1 /\ runs (f a) s1 b s'.
Proof.
  revert s. induction p as [a|X e k IH]; intros s; cbn.
  - split; [eauto|]. by intros (? & ? & [-> ->] & ?).
  - setoid_rewrite IH. split.
    + intros (x & s1 & He & a & s2 & Hp & Hf). eauto 10.
    + intros (a & s1 & (x & s2 & He & Hp) & Hf). eauto 10.
Qed.
End runs.

(** ** Programs that never wait for something that does not come

    Every operation has an answer, whatever the answers before, and the end is as [Q] says. *)
Section completes.
Context {E : Type -> Type} {S : Type} (exec : forall X, E X -> S -> X -> S -> Prop).

Fixpoint completes {A} (p : proc E A) (s : S) (Q : A -> S -> Prop) : Prop :=
  match p with
  | Ret a => Q a s
  | Vis e k => (exists x s', exec _ e s x s') /\ forall x s', exec _ e s x s' -> completes (k x) s' Q
  end.

Lemma completes_mono {A} (p : proc E A) s (Q Q' : A -> S -> Prop) :
  (forall a s', Q a s' -> Q' a s') -> completes p s Q -> completes p s Q'.
Proof.
  intros HQ. revert s. induction p as [a|X e k IH]; intros s; cbn; [apply HQ|].
  intros [He Hk]. split; [done|]. intros x s' Hx. by apply IH, Hk.
Qed.

Lemma completes_bind {A B} (p : proc E A) (f : A -> proc E B) s Q :
  completes p s (fun a s' => completes (f a) s' Q) -> completes (proc_bind p f) s Q.
Proof.
  revert s. induction p as [a|X e k IH]; intros s; cbn; [done|].
  intros [He Hk]. split; [done|]. intros x s' Hx. by apply IH, Hk.
Qed.

Lemma completes_for_fold {A B} (l : list A) (acc : B) (body : B -> A -> proc E B) (R : list A -> S -> Prop) s Q :
  R l s ->
  (forall b x l' s', R (x :: l') s' -> completes (body b x) s' (fun _ s'' => R l' s'')) ->
  (forall b s', R [] s' -> Q b s') ->
  completes (for_fold l acc body) s Q.
Proof.
  intros HR Hbody HQ. revert s acc HR. induction l as [|x l IH]; intros s acc HR; cbn; [auto|].
  apply completes_bind. eapply completes_mono; [|by apply Hbody]. auto.
Qed.

Lemma completes_runs {A} (p : proc E A) s Q : completes p s Q -> exists a s', runs exec p s a s'.
Proof.
  revert s. induction p as [a|X e k IH]; intros s; cbn; [by exists a, s|].
  intros [(x & s1 & Hx) Hk]. destruct (IH x s1 (Hk _ _ Hx)) as (a & s' & Hr). by exists a, s', x, s1.
Qed.
End completes.

(** ** What a program returns, whatever the answers to its operations *)
Fixpoint always {E A} (p : proc E A) (Q : A -> Prop) : Prop :=
  match p with
  | Ret a => Q a
  | Vis e k => forall x, always (k x) Q
  end.

Lemma always_mono {E A} (p : proc E A) (Q Q' : A -> Prop) :
  (forall a, Q a -> Q' a) -> always p Q -> always p Q'.
Proof. intros HQ. induction p as [a|X e k IH]; cbn; [apply HQ|]. eauto. Qed.

Lemma always_bind {E A B} (p : proc E A) (f : A -> proc E B) Q :
  always p (fun a => always (f a) Q) -> always (proc_bind p f) Q.
Proof. induction p as [a|X e k IH]; cbn; [done|]. auto. Qed.

Lemma runs_always {E S A} (exec : forall X, E X -> S -> X -> S -> Prop) (p : proc E A) s a s' Q :
  runs exec p s a s' -> always p Q -> Q a.
Proof.
  revert s. induction p as [b|X e k IH]; cbn; intros s; [by intros [<- _]|].
  intros (x & s1 & _ & Hr) Ha. by eapply IH.
Qed.

(** ** Programs within larger ones

    A program over some operations as part of a program over more. *)
Variant sum_op (E F : Type -> Type) (X : Type) : Type :=
| inl_op (e : E X)
| inr_op (f : F X).
Arguments inl_op {E F X} e.
Arguments inr_op {E F X} f.

Fixpoint proc_map {E F A} (f : forall X, E X -> F X) (p : proc E A) : proc F A :=
  match p with
  | Ret a => Ret a
  | Vis e k => Vis (f _ e) (fun x => proc_map f (k x))
  end.

(** Running the part is running it on its own, seen through [view]. *)
Lemma runs_map {E F S T A} (f : forall X, E X -> F X)
    (exec : forall X, F X -> S -> X -> S -> Prop) (exec0 : forall X, E X -> T -> X -> T -> Prop)
    (view : T -> S) (p : proc E A) t a s' :
  (forall X (e : E X) t x s, exec X (f X e) (view t) x s -> exists t', s = view t' /\ exec0 X e t x t') ->
  runs exec (proc_map f p) (view t) a s' -> exists t', s' = view t' /\ runs exec0 p t a t'.
Proof.
  intros Hexec. revert t. induction p as [b|X e k IH]; cbn; intros t Hr.
  - destruct Hr as [-> ->]. by exists t.
  - destruct Hr as (x & s1 & He & Hr). apply Hexec in He as (t1 & -> & He).
    apply IH in Hr as (t' & -> & Hr). exists t'. split; [done|]. by exists x, t1.
Qed.

(** Replacing every operation by a program that implements it. *)
Fixpoint proc_interp {E F A} (h : forall X, E X -> proc F X) (p : proc E A) : proc F A :=
  match p with
  | Ret a => Ret a
  | Vis e k => proc_bind (h _ e) (fun x => proc_interp h (k x))
  end.

(** Programs that do the same. *)
Inductive proc_equiv {E A} : proc E A -> proc E A -> Prop :=
| equiv_ret a : proc_equiv (Ret a) (Ret a)
| equiv_vis {X} (e : E X) k k' : (forall x, proc_equiv (k x) (k' x)) -> proc_equiv (Vis e k) (Vis e k').

#[export] Instance proc_equiv_refl {E A} : Reflexive (@proc_equiv E A).
Proof. intros p. induction p as [a|X e k IH]; by constructor. Qed.

Lemma proc_equiv_bind {E A B} (p : proc E A) (f g : A -> proc E B) :
  (forall a, proc_equiv (f a) (g a)) -> proc_equiv (proc_bind p f) (proc_bind p g).
Proof. intros Hfg. induction p as [a|X e k IH]; cbn; [apply Hfg|by constructor]. Qed.

Lemma proc_equiv_runs {E S A} (exec : forall X, E X -> S -> X -> S -> Prop) (p q : proc E A) s a s' :
  proc_equiv p q -> runs exec p s a s' <-> runs exec q s a s'.
Proof.
  intros Hpq. revert s. induction Hpq as [b|X e k k' Hk IH]; intros s; cbn; [done|].
  split; intros (x & s1 & He & Hr); exists x, s1; (split; [done|]); by apply (IH x s1).
Qed.

(** ** Programs restricted to some of the operations *)
Section only.
Context {E : Type -> Type} (allowed : forall X, E X -> bool).

Fixpoint only {A} (p : proc E A) : Prop :=
  match p with
  | Ret _ => True
  | Vis e k => allowed _ e = true /\ forall x, only (k x)
  end.

Lemma only_bind {A B} (p : proc E A) (f : A -> proc E B) :
  only p -> (forall a, only (f a)) -> only (proc_bind p f).
Proof. induction p as [a|X e k IH]; cbn; [auto|]. intros [? ?] ?. auto. Qed.

Lemma only_for_fold {A B} (l : list A) (body : B -> A -> proc E B) :
  (forall b x, only (body b x)) -> forall b, only (for_fold l b body).
Proof.
  intros Hb. induction l as [|x l IH]; intros b; cbn; [done|]. by apply only_bind.
Qed.

Lemma only_for_each {A} (l : list A) (body : A -> proc E unit) :
  (forall x, only (body x)) -> only (for_each l body).
Proof. intros Hb. induction l as [|x l IH]; cbn; [done|]. by apply only_bind. Qed.

(** What every allowed operation keeps, the program keeps. *)
Lemma runs_only {S T} (exec : forall X, E X -> S -> X -> S -> Prop) (view : S -> T)
    {A} (p : proc E A) s a s' :
  (forall X (e : E X) s x s', allowed X e = true -> exec X e s x s' -> view s' = view s) ->
  only p -> runs exec p s a s' -> view s' = view s.
Proof.
  intros Hexec. revert s. induction p as [b|X e k IH]; cbn; intros s Hp Hr.
  - by destruct Hr as [_ ->].
  - destruct Hp as [He Hk], Hr as (x & s1 & Hx & Hr).
    rewrite (IH x s1 (Hk x) Hr). by eapply Hexec.
Qed.
End only.

Lemma only_weaken {E A} (allowed allowed' : forall X, E X -> bool) (p : proc E A) :
  (forall X (e : E X), allowed X e = true -> allowed' X e = true) -> only allowed p -> only allowed' p.
Proof. intros Ha. induction p as [a|X e k IH]; cbn; [done|]. intros [He Hk]. auto. Qed.

(** ** Interleaved execution *)
Section interleaving.
Context {E : Type -> Type} {S : Type}.
Context (exec : forall X, E X -> S -> X -> S -> Prop).
Context (client : proc E unit -> Prop).

Definition config : Type := S * list (proc E unit).

Inductive step : config -> config -> Prop :=
| step_op s s' ps1 ps2 X (e : E X) k x :
    exec X e s x s' -> step (s, ps1 ++ Vis e k :: ps2) (s', ps1 ++ k x :: ps2)
| step_start s ps p :
    client p -> step (s, ps) (s, ps ++ [p]).

Definition reachable (s0 : S) : config -> Prop := rtc step (s0, []).

Lemma reachable_step s0 c c' : reachable s0 c -> step c c' -> reachable s0 c'.
Proof. intros. by eapply rtc_r. Qed.

(** Executing a script of thread choices, to exhibit concrete runs. *)
Lemma step_thread s s' ps i X (e : E X) k x :
  ps !! i = Some (Vis e k) -> exec X e s x s' ->
  step (s, ps) (s', take i ps ++ k x :: drop (Datatypes.S i) ps).
Proof.
  intros Hi He. rewrite <- (take_drop_middle ps i _ Hi) at 1. by constructor.
Qed.
End interleaving.

(** ** Execution against a partial handler, [None] where an operation has to wait *)
Section attempt.
Context {E : Type -> Type} {S : Type} (handle : forall X, E X -> S -> option (X * S)).

Fixpoint attempt {A} (p : proc E A) (s : S) : option (A * S) :=
  match p with
  | Ret a => Some (a, s)
  | Vis e k =>
      match handle _ e s with
      | Some (x, s') => attempt (k x) s'
      | None => None
      end
  end.

Context (exec : forall X, E X -> S -> X -> S -> Prop).
Context (handle_sound : forall X (e : E X) s x s', handle X e s = Some (x, s') -> exec X e s x s').

Lemma attempt_runs {A} (p : proc E A) s a s' :
  attempt p s = Some (a, s') -> runs exec p s a s'.
Proof using handle_sound.
  revert s. induction p as [b|X e k IH]; cbn; intros s Hr; [by simplify_eq|].
  destruct (handle X e s) as [[x s1]|] eqn:He; [|done].
  exists x, s1. split; [by apply handle_sound|auto].
Qed.

(** The newest thread runs to its end. *)
Lemma attempt_reachable client s0 s ps p s' :
  reachable exec client s0 (s, ps ++ [p]) -> attempt p s = Some (tt, s') ->
  reachable exec client s0 (s', ps ++ [Ret tt]).
Proof using handle_sound.
  revert s. induction p as [[]|X e k IH]; cbn; intros s Hr Ha; [by simplify_eq|].
  destruct (handle X e s) as [[x s1]|] eqn:He; [|done].
  apply (IH x s1); [|done]. eapply reachable_step; [exact Hr|].
  apply (step_op exec client s s1 ps [] X e k x). by apply handle_sound.
Qed.

(** A script of an interleaved run: start a thread, or let a thread do one operation. *)
Inductive cue := Start (p : proc E unit) | Move (i : nat).

Fixpoint play (script : list cue) (c : config) : option config :=
  match script with
  | [] => Some c
  | Start p :: script' => play script' (c.1, c.2 ++ [p])
  | Move i :: script' =>
      match c.2 !! i with
      | Some (Vis e k) =>
          match handle _ e c.1 with
          | Some (x, s') => play script' (s', take i c.2 ++ k x :: drop (Datatypes.S i) c.2)
          | None => None
          end
      | _ => None
      end
  end.

Lemma play_reachable client s0 script c c' :
  Forall (fun q => match q with Start p => client p | Move _ => True end) script ->
  reachable exec client s0 c -> play script c = Some c' -> reachable exec client s0 c'.
Proof using handle_sound.
  intros Hs. revert c. induction Hs as [|[p|i] script Hq Hs IH]; intros [s ps] Hr Hp; cbn in Hp.
  - by simplify_eq.
  - eapply IH; [|exact Hp]. eapply reachable_step; [exact Hr|]. by constructor.
  - destruct (ps !! i) as [[|X e k]|] eqn:Hi; [done| |done].
    destruct (handle X e s) as [[x s1]|] eqn:He; [|done].
    eapply IH; [|exact Hp]. eapply reachable_step; [exact Hr|].
    eapply step_thread; [exact Hi|]. by apply handle_sound.
Qed.
End attempt.
Arguments Start {E} p.
Arguments Move {E} i.

(** ** The token logic *)
Section wp.
Context {E : Type -> Type} {T : Type}.
Context (wp_op : forall X, E X -> T -> (X -> T -> Prop) -> Prop).

Fixpoint wp {A} (p : proc E A) (t : T) (Q : A -> T -> Prop) : Prop :=
  match p with
  | Ret a => Q a t
  | Vis e k => wp_op _ e t (fun x t' => wp (k x) t' Q)
  end.

Context (wp_op_mono : forall X (e : E X) t (Q Q' : X -> T -> Prop),
  (forall x t', Q x t' -> Q' x t') -> wp_op X e t Q -> wp_op X e t Q').

Lemma wp_mono {A} (p : proc E A) t (Q Q' : A -> T -> Prop) :
  (forall a t', Q a t' -> Q' a t') -> wp p t Q -> wp p t Q'.
Proof using wp_op_mono.
  intros HQ. revert t. induction p as [a|X e k IH]; intros t; cbn; [by apply HQ|].
  apply wp_op_mono. auto.
Qed.

Lemma wp_bind {A B} (p : proc E A) (f : A -> proc E B) t Q :
  wp p t (fun a t' => wp (f a) t' Q) -> wp (proc_bind p f) t Q.
Proof using wp_op_mono.
  revert t. induction p as [a|X e k IH]; intros t; cbn; [done|].
  apply wp_op_mono. auto.
Qed.

Lemma wp_for_each {A} (l : list A) (body : A -> proc E unit) (R : list A -> T -> Prop) t Q :
  R l t ->
  (forall x l' t', R (x :: l') t' -> wp (body x) t' (fun _ t'' => R l' t'')) ->
  (forall t', R [] t' -> Q tt t') ->
  wp (for_each l body) t Q.
Proof using wp_op_mono.
  intros HR Hbody HQ. revert t HR.
  induction l as [|x l IH]; intros t HR; cbn; [auto|].
  apply wp_bind. eapply wp_mono; [|by apply Hbody]. auto.
Qed.

Lemma wp_for_fold {A B} (l : list A) (acc : B) (body : B -> A -> proc E B)
    (R : list A -> T -> Prop) t Q :
  R l t ->
  (forall b x l' t', R (x :: l') t' -> wp (body b x) t' (fun _ t'' => R l' t'')) ->
  (forall b t', R [] t' -> Q b t') ->
  wp (for_fold l acc body) t Q.
Proof using wp_op_mono.
  intros HR Hbody HQ. revert t acc HR.
  induction l as [|x l IH]; intros t acc HR; cbn; [auto|].
  apply wp_bind. eapply wp_mono; [|by apply Hbody]. auto.
Qed.

Lemma wp_for_early {A B} (l : list A) (body : A -> proc E (option B)) t Q :
  (forall x, wp (body x) t (fun r t' => t' = t /\ forall b, r = Some b -> Q (Some b) t)) ->
  Q None t ->
  wp (for_early l body) t Q.
Proof using wp_op_mono.
  intros Hbody HQ. induction l as [|x l IH]; cbn; [done|].
  apply wp_bind. eapply wp_mono; [|apply Hbody]. intros [b|] t' [-> Hb]; cbn; auto.
Qed.

(** Adequacy: local soundness of every operation gives a global invariant. *)
Context {S : Type} (exec : forall X, E X -> S -> X -> S -> Prop).
Context (client : proc E unit -> Prop) (t0 : T) (fin : T -> Prop).
Context (Inv : S -> list T -> Prop).
Context (op_sound : forall X (e : E X) s x s' T1 t T2 (Q : X -> T -> Prop),
  exec X e s x s' -> Inv s (T1 ++ t :: T2) -> wp_op X e t Q ->
  exists t', Q x t' /\ Inv s' (T1 ++ t' :: T2)).
Context (start_sound : forall s ts, Inv s ts -> Inv s (ts ++ [t0])).
Context (client_ok : forall p, client p -> wp p t0 (fun _ => fin)).

Definition threads_ok (ps : list (proc E unit)) (ts : list T) : Prop :=
  Forall2 (fun p t => wp p t (fun _ => fin)) ps ts.

Lemma wp_preserved c c' ts :
  step exec client c c' -> threads_ok c.2 ts -> Inv c.1 ts ->
  exists ts', threads_ok c'.2 ts' /\ Inv c'.1 ts'.
Proof using op_sound start_sound client_ok.
  intros Hstep Hok HI. destruct Hstep as [s s' ps1 ps2 X e k x He|s ps p Hp]; cbn in *.
  - apply Forall2_app_inv_l in Hok as (T1 & T2' & H1 & H2 & ->).
    apply Forall2_cons_inv_l in H2 as (t & T2 & Ht & H2 & ->).
    destruct (op_sound _ _ _ _ _ _ _ _ _ He HI Ht) as (t' & Hk & HI').
    exists (T1 ++ t' :: T2). split; [|done]. apply Forall2_app; [done|]. by constructor.
  - exists (ts ++ [t0]). split; [|by apply start_sound].
    apply Forall2_app; [done|]. constructor; [by apply client_ok|constructor].
Qed.

Theorem wp_adequate s0 c :
  Inv s0 [] -> reachable exec client s0 c ->
  exists ts, threads_ok c.2 ts /\ Inv c.1 ts.
Proof using op_sound start_sound client_ok.
  intros H0 Hr. unfold reachable in Hr.
  assert (exists ts, threads_ok (s0, @nil (proc E unit)).2 ts /\ Inv (s0, @nil (proc E unit)).1 ts)
    as Hinit by (exists []; split; [constructor|done]).
  revert Hinit. induction Hr as [c|c1 c2 c3 Hstep _ IH]; [done|].
  intros (ts & Hok & HI). apply IH. by eapply wp_preserved.
Qed.
End wp.
