(* ===== verification/Errors.v ===== *)
(** * Go errors and results

    [error] values as the trees that [errors.Is] and [errors.As] walk, and the
    error types of [pkg/exec] and [pkg/entities].  Of the text of an error only
    what the program inspects is kept: the format of an [fmt.Errorf] call and
    the message of a leaf, not the formatted operands. *)
From S2P Require Export Proc.

(** [exec.ContainerState]. *)
Record ContainerState := {
  Status : string;
  Running : bool;
  Paused : bool;
  OOMKilled : bool;
  Dead : bool;
  ExitCode : Z;
  StateError : string;
  StartedAt : string;
  FinishedAt : string
}.

(** The zero value of the struct. *)
Definition ContainerState_zero : ContainerState :=
  {| Status := ""; Running := false; Paused := false; OOMKilled := false; Dead := false;
     ExitCode := 0; StateError := ""; StartedAt := ""; FinishedAt := "" |}.

Definition ContainerStateStatusExited : string := "exited".

Inductive go_error :=
  (** [errors.New] and errors of other packages that the program only prints or searches. *)
| ErrText (msg : string)
  (** Package-level error values, compared by identity: [context.DeadlineExceeded], ... *)
| Sentinel (name : string)
  (** [fmt.Errorf] with the operands of its [%w] verbs. *)
| Errorf (format : string) (wrapped : list go_error)
  (** [exec.ContainerBrokenDuringReuseError]. *)
| ContainerBrokenDuringReuseError (State : ContainerState) (cause : go_error)
  (** [exec.ResponseLimitExceededError]. *)
| ResponseLimitExceededError (ContentLength : Z).

Definition DeadlineExceeded : go_error := Sentinel "context.DeadlineExceeded".
Definition Canceled : go_error := Sentinel "context.Canceled".
Definition ErrFunctionNotFound : go_error := Sentinel "entities.ErrFunctionNotFound".
Definition errNotFound : go_error := Sentinel "couchdb.errNotFound".

(** [Unwrap]: the errors directly below one. *)
Definition unwrap (e : go_error) : list go_error :=
  match e with
  | Errorf _ ws => ws
  | ContainerBrokenDuringReuseError _ cause => [cause]
  | _ => []
  end.

(** The tree of an error in the pre-order in which [errors.Is] and
    [errors.As] visit it. *)
Fixpoint chain (e : go_error) : list go_error :=
  e :: match e with
       | Errorf _ ws => flat_map chain ws
       | ContainerBrokenDuringReuseError _ cause => chain cause
       | _ => []
       end.

(** [errors.Is] against a package-level error value. *)
Definition errors_Is (e : go_error) (name : string) : bool :=
  existsb (fun x => match x with Sentinel n => bool_decide (n = name) | _ => false end) (chain e).

Definition isDeadlineExceeded e := errors_Is e "context.DeadlineExceeded".
Definition isCanceled e := errors_Is e "context.Canceled".
Definition isFunctionNotFound e := errors_Is e "entities.ErrFunctionNotFound".
Definition isNotFound e := errors_Is e "couchdb.errNotFound".

(** [errors.As]: the first error of the wanted type. *)
Fixpoint find_first {A B} (f : A -> option B) (l : list A) : option B :=
  match l with
  | [] => None
  | x :: l' => match f x with Some b => Some b | None => find_first f l' end
  end.

Definition as_ContainerBroken (e : go_error) : option ContainerState :=
  find_first (fun x => match x with
                       | ContainerBrokenDuringReuseError s _ => Some s
                       | _ => None end) (chain e).

Definition as_ResponseLimit (e : go_error) : option Z :=
  find_first (fun x => match x with
                       | ResponseLimitExceededError n => Some n
                       | _ => None end) (chain e).

(** Results: a value or an error. *)
Inductive result (A : Type) := Ok (a : A) | Err (e : go_error).
Arguments Ok {A} a.
Arguments Err {A} e.

#[export] Instance result_MRet : MRet result := fun A => Ok.
#[export] Instance result_MBind : MBind result := fun A B f r =>
  match r with Ok a => f a | Err e => Err e end.
#[export] Instance result_FMap : FMap result := fun A B f r =>
  match r with Ok a => Ok (f a) | Err err => Err err end.

Definition is_ok {A} (r : result A) : bool := match r with Ok _ => true | Err _ => false end.

(** A call that returns, or panics. *)
Inductive outcome (A : Type) := Done (a : A) | Panics.
Arguments Done {A} a.
Arguments Panics {A}.

#[export] Instance outcome_MRet : MRet outcome := fun A => Done.
#[export] Instance outcome_MBind : MBind outcome := fun A B f o =>
  match o with Done a => f a | Panics => Panics end.

(** Calls that may also fail: the first failure is returned. *)
Definition call_bind {A B} (o : outcome (result A)) (f : A -> outcome (result B)) :
    outcome (result B) :=
  match o with
  | Done (Ok a) => f a
  | Done (Err e) => Done (Err e)
  | Panics => Panics
  end.

(** Wrapping one error keeps everything [errors.Is] and [errors.As] can find. *)
Lemma errors_Is_wrap fmt e n : errors_Is (Errorf fmt [e]) n = errors_Is e n.
Proof. unfold errors_Is; cbn. rewrite app_nil_r. done. Qed.
Lemma as_ContainerBroken_wrap fmt e :
  as_ContainerBroken (Errorf fmt [e]) = as_ContainerBroken e.
Proof. unfold as_ContainerBroken; cbn. rewrite app_nil_r. done. Qed.
Lemma as_ResponseLimit_wrap fmt e : as_ResponseLimit (Errorf fmt [e]) = as_ResponseLimit e.
Proof. unfold as_ResponseLimit; cbn. rewrite app_nil_r. done. Qed.
#[export] Hint Rewrite errors_Is_wrap as_ContainerBroken_wrap as_ResponseLimit_wrap : invoker.
