(* ===== verification/Semaphore.v ===== *)
(** * The weighted semaphore

    Interface of [golang.org/x/sync/semaphore.Weighted], which is not part of
    the repository: the operations the pool calls and their documented
    behaviour.  [sem_acquire] describes the moment at which a (possibly
    blocked) [Acquire] goes through, [None] meaning that it has to wait;
    [sem_release] is [None] where [Release] panics. *)
From S2P Require Export Errors.

Class WeightedSemaphore := {
  semaphore : Type;
  NewWeighted : Z -> semaphore;
  sem_size : semaphore -> Z;
  sem_held : semaphore -> Z;
  sem_acquire : Z -> semaphore -> option semaphore;
  sem_release : Z -> semaphore -> option semaphore
}.

Class WeightedSemaphoreLaws `{WeightedSemaphore} := {
  sem_new_size n : 0 <= n -> sem_size (NewWeighted n) = n;
  sem_new_held n : sem_held (NewWeighted n) = 0;
  (** [Acquire]: "acquires the semaphore with a weight of n, blocking until resources are
      available". *)
  sem_acquire_spec n s s' : 0 <= n -> sem_acquire n s = Some s' ->
    sem_size s' = sem_size s /\ sem_held s' = sem_held s + n /\ sem_held s' <= sem_size s;
  (** [Release]: "releases the semaphore with a weight of n"; panics with "released more
      than held". *)
  sem_release_spec n s : 0 <= n -> n <= sem_held s ->
    exists s', sem_release n s = Some s' /\ sem_size s' = sem_size s /\
               sem_held s' = sem_held s - n
}.

(** A concrete semaphore without waiters: size and current weight. *)
Module CountingSemaphore.
#[export] Instance counting : WeightedSemaphore := {|
  semaphore := Z * Z;
  NewWeighted n := (n, 0);
  sem_size := fst;
  sem_held := snd;
  sem_acquire n '(size, cur) := if size - cur <? n then None else Some (size, cur + n);
  sem_release n '(size, cur) := if cur <? n then None else Some (size, cur - n)
|}.

#[export] Instance counting_laws : WeightedSemaphoreLaws.
Proof.
  split; cbn.
  - done.
  - done.
  - intros n [size cur] [size' cur'] ? H. cbn in *. case_match; simplify_eq. lia.
  - intros n [size cur] ? ?. cbn in *. case_match; [lia|]. eexists. split; [done|]. done.
Qed.
End CountingSemaphore.
