(* ===== verification/GoStrings.v ===== *)
(** * Go strings

    A Go [string] or [[]byte] is a Rocq [string] (a list of 8-bit characters);
    the functions of packages [strings] and [fmt] that the program uses. *)
From S2P Require Export Errors.
From Stdlib Require Export Ascii.
From stdpp Require Export pretty.
#[global] Open Scope Z_scope.

Definition double_quote : ascii := "034"%char.

Definition str_len (s : string) : Z := Z.of_nat (String.length s).

Definition HasPrefix (s prefix : string) : bool := String.prefix prefix s.

Fixpoint drop_str (n : nat) (s : string) : string :=
  match n, s with
  | O, _ => s
  | S n', EmptyString => EmptyString
  | S n', String _ s' => drop_str n' s'
  end.

Fixpoint take_str (n : nat) (s : string) : string :=
  match n, s with
  | O, _ => EmptyString
  | S n', EmptyString => EmptyString
  | S n', String c s' => String c (take_str n' s')
  end.

Definition HasSuffix (s suffix : string) : bool :=
  (String.length suffix <=? String.length s)%nat &&
  bool_decide (drop_str (String.length s - String.length suffix) s = suffix).

Definition TrimPrefix (s prefix : string) : string :=
  if HasPrefix s prefix then drop_str (String.length prefix) s else s.

Definition TrimSuffix (s suffix : string) : string :=
  if HasSuffix s suffix then take_str (String.length s - String.length suffix) s else s.

(** [strings.Contains]. *)
Fixpoint Contains (s sub : string) : bool :=
  HasPrefix s sub ||
  match s with
  | EmptyString => false
  | String _ s' => Contains s' sub
  end.

(** [strings.Join]. *)
Fixpoint Join (l : list string) (sep : string) : string :=
  match l with
  | [] => ""
  | [s] => s
  | s :: l' => s +:+ sep +:+ Join l' sep
  end.

(** [%d] on an integer. *)
Definition fmt_d (z : Z) : string := pretty z.

(** Keeping the characters of a class, as [ReplaceAllLiteralString(s, "")] does for the
    complement of the class. *)
Fixpoint filter_str (f : Ascii.ascii -> bool) (s : string) : string :=
  match s with
  | EmptyString => EmptyString
  | String c s' => if f c then String c (filter_str f s') else filter_str f s'
  end.

Definition ascii_Z (c : Ascii.ascii) : Z := Z.of_N (Ascii.N_of_ascii c).

(** [c] lies between the characters [lo] and [hi]. *)
Definition in_range (lo hi c : Ascii.ascii) : bool :=
  (ascii_Z lo <=? ascii_Z c) && (ascii_Z c <=? ascii_Z hi).

(** [strings.Repeat] of one character. *)
Fixpoint repeat_char (c : Ascii.ascii) (n : nat) : string :=
  match n with O => "" | S n' => String c (repeat_char c n') end.

(** [strings.Map], on the characters. *)
Fixpoint map_str (f : ascii -> ascii) (s : string) : string :=
  match s with
  | EmptyString => EmptyString
  | String c s' => String (f c) (map_str f s')
  end.


(** ** Lemmas *)
Lemma length_repeat_char c n : String.length (repeat_char c n) = n.
Proof. induction n; cbn; auto. Qed.
Lemma app_str_cons c s t : String c s +:+ t = String c (s +:+ t).
Proof. done. Qed.
Lemma length_drop_str n s : String.length (drop_str n s) = (String.length s - n)%nat.
Proof. revert n. induction s; intros [|n]; cbn; auto. Qed.
Lemma length_take_str n s : String.length (take_str n s) = min n (String.length s).
Proof. revert n. induction s; intros [|n]; cbn; auto. Qed.
Lemma length_take_str_le n s :
  (n <= String.length s)%nat -> String.length (take_str n s) = n.
Proof. rewrite length_take_str. lia. Qed.
Lemma take_drop_str n s : take_str n s +:+ drop_str n s = s.
Proof.
  revert n. induction s as [|c s IH]; intros [|n]; cbn; auto.
  rewrite app_str_cons. by rewrite IH.
Qed.
Lemma drop_str_app s t : drop_str (String.length s) (s +:+ t) = t.
Proof. induction s; auto. Qed.
Lemma take_str_app s t : take_str (String.length s) (s +:+ t) = s.
Proof.
  induction s as [|c s IH]; [by destruct t|].
  rewrite app_str_cons. cbn. by rewrite IH.
Qed.
Lemma length_app_str s t : String.length (s +:+ t) = (String.length s + String.length t)%nat.
Proof. induction s as [|c s IH]; [done|]. rewrite app_str_cons. cbn. by rewrite IH. Qed.
Lemma str_len_app s t : str_len (s +:+ t) = str_len s + str_len t.
Proof. unfold str_len. rewrite length_app_str. lia. Qed.
Lemma str_len_nonneg s : 0 <= str_len s.
Proof. unfold str_len. lia. Qed.
Lemma app_str_nil_l s : "" +:+ s = s.
Proof. done. Qed.
Lemma app_str_nil_r s : s +:+ "" = s.
Proof. induction s as [|c s IH]; [done|]. by rewrite app_str_cons, IH. Qed.
Lemma app_str_assoc s t u : s +:+ t +:+ u = (s +:+ t) +:+ u.
Proof. induction s as [|c s IH]; [done|]. by rewrite !app_str_cons, IH. Qed.

Lemma HasSuffix_app s suf : HasSuffix (s +:+ suf) suf = true.
Proof.
  unfold HasSuffix. rewrite length_app_str. apply andb_true_intro. split.
  - apply Nat.leb_le. lia.
  - replace (_ + _ - _)%nat with (String.length s) by lia.
    rewrite drop_str_app. by apply bool_decide_eq_true.
Qed.

Lemma HasSuffix_inv s suf :
  HasSuffix s suf = true ->
  s = take_str (String.length s - String.length suf) s +:+ suf.
Proof.
  unfold HasSuffix. intros [_ H%bool_decide_eq_true]%andb_prop.
  rewrite <- H at 2. by rewrite take_drop_str.
Qed.

Lemma TrimSuffix_app s suf : TrimSuffix (s +:+ suf) suf = s.
Proof.
  unfold TrimSuffix. rewrite HasSuffix_app, length_app_str.
  replace (_ + _ - _)%nat with (String.length s) by lia. apply take_str_app.
Qed.

Lemma HasPrefix_app p s : HasPrefix (p +:+ s) p = true.
Proof.
  unfold HasPrefix. induction p as [|c p IH]; [by destruct s|].
  rewrite app_str_cons. cbn. by destruct (Ascii.ascii_dec c c).
Qed.

Lemma TrimPrefix_app p s : TrimPrefix (p +:+ s) p = s.
Proof. unfold TrimPrefix. rewrite HasPrefix_app. apply drop_str_app. Qed.

Lemma HasPrefix_inv s p : HasPrefix s p = true -> s = p +:+ drop_str (String.length p) s.
Proof.
  unfold HasPrefix. revert p.
  induction s as [|c s IH]; intros [|d p]; cbn; intros H; try done.
  destruct (Ascii.ascii_dec d c) as [->|]; [|done]. rewrite app_str_cons. by rewrite <- IH.
Qed.

#[export] Hint Rewrite length_drop_str length_take_str length_app_str str_len_app app_str_nil_r
  : invoker.
#[export] Hint Resolve str_len_nonneg : invoker.
