(* ===== verification/Container.v ===== *)
(** * Containers as the pool and the runner see them

    [pkg/exec/container.go]: constants, log lines and the cleanup helper, and
    the handle type standing for a [Container] interface value. *)
From S2P Require Export GoStrings.

(** ** Sizes ([pkg/units]) *)
Definition Byte : Z := 1.
Definition Kilobyte : Z := 1024.
Definition Megabyte : Z := 1024 * 1024.
Definition Gigabyte : Z := 1024 * 1024 * 1024.

(** [exec.ResponseLimit] and [exec.MaxLogLimit]. *)
Definition ResponseLimit : Z := 1 * Megabyte.
Definition MaxLogLimit : Z := 256 * Kilobyte.
Definition LogStreamStdout : string := "stdout".
Definition LogStreamStderr : string := "stderr".

(** [exec.LogLine]; instants are nanoseconds. *)
Record LogLine := {
  Message : string;
  Stream : string;
  Time : Z;
  IsSentinel : bool
}.

(** A [Container] interface value: the reference that distinguishes it from all
    others and the IP its [IP()] method returns. *)
Record Container := { c_ref : nat; c_IP : string }.

#[export] Instance Container_eq_dec : EqDecision Container.
Proof. solve_decision. Defined.

(** [exec.CleanupContainer], for a container given by its [State] and [Remove] methods. *)
Definition CleanupContainer {E} (state : proc E (result ContainerState))
    (remove : proc E (option go_error)) (err : go_error) : proc E go_error :=
  st ← state;
  let err := match st with
             | Ok _ => Errorf "%w, state = %+v" [err]
             | Err _ => err
             end in
  rm ← remove;
  match rm with
  | Some rmErr => Ret (Errorf "%w. The subsequent remove failed with %w" [err; rmErr])
  | None => Ret err
  end.
