(* ===== verification/PoolState.v ===== *)
(** * The container pool: data and critical sections

    [pkg/exec/pool.go]: the state of a [ContainerPool] and, as pure functions,
    the code that runs while [idlesMux] or [prewarmMux] is held. *)
From S2P Require Export Container Semaphore.

(** ** Keys and containers *)

(** [protocol.ActivationMessageFunction]. *)
Record ActivationMessageFunction := {
  fn_Namespace : string;
  fn_Name : string;
  fn_Version : string;
  fn_Revision : string;
  fn_Binding : string
}.

Record WarmContainerKey := {
  InvocationNamespace : string;
  Function : ActivationMessageFunction
}.

Record PrewarmContainerKey := { Kind : string; Memory : Z }.

#[export] Instance ActivationMessageFunction_eq_dec : EqDecision ActivationMessageFunction.
Proof. solve_decision. Defined.
#[export] Instance WarmContainerKey_eq_dec : EqDecision WarmContainerKey.
Proof. solve_decision. Defined.
#[export] Instance PrewarmContainerKey_eq_dec : EqDecision PrewarmContainerKey.
Proof. solve_decision. Defined.
#[export] Instance ActivationMessageFunction_countable : Countable ActivationMessageFunction.
Proof.
  apply (inj_countable'
    (fun f => (fn_Namespace f, fn_Name f, fn_Version f, fn_Revision f, fn_Binding f))
    (fun '(a, b, c, d, e) => Build_ActivationMessageFunction a b c d e)).
  by intros [].
Defined.
#[export] Instance WarmContainerKey_countable : Countable WarmContainerKey.
Proof.
  apply (inj_countable' (fun k => (InvocationNamespace k, Function k))
                        (fun '(a, b) => Build_WarmContainerKey a b)).
  by intros [].
Defined.
#[export] Instance PrewarmContainerKey_countable : Countable PrewarmContainerKey.
Proof.
  apply (inj_countable' (fun k => (Kind k, Memory k))
                        (fun '(a, b) => Build_PrewarmContainerKey a b)).
  by intros [].
Defined.

(** The zero value of the key, which prewarmed containers carry. *)
Definition WarmContainerKey_zero : WarmContainerKey :=
  {| InvocationNamespace := "";
     Function := {| fn_Namespace := ""; fn_Name := ""; fn_Version := ""; fn_Revision := "";
                    fn_Binding := "" |} |}.

(** [PooledContainer]; [firewallCleanup] identifies the cleanup closure, if any. *)
Record PooledContainer := {
  container : Container;
  initializedFor : WarmContainerKey;
  lastUsed : Z;
  memory : Z;
  firewallCleanup : option nat
}.

#[export] Instance PooledContainer_eq_dec : EqDecision PooledContainer.
Proof. solve_decision. Defined.

Definition ref (c : PooledContainer) : nat := c_ref (container c).
Definition IP (c : PooledContainer) : string := c_IP (container c).

Definition set_firewallCleanup (h : option nat) (c : PooledContainer) : PooledContainer :=
  {| container := container c; initializedFor := initializedFor c; lastUsed := lastUsed c;
     memory := memory c; firewallCleanup := h |}.
Definition set_initializedFor (k : WarmContainerKey) (c : PooledContainer) : PooledContainer :=
  {| container := container c; initializedFor := k; lastUsed := lastUsed c;
     memory := memory c; firewallCleanup := firewallCleanup c |}.
Definition set_lastUsed (t : Z) (c : PooledContainer) : PooledContainer :=
  {| container := container c; initializedFor := initializedFor c; lastUsed := t;
     memory := memory c; firewallCleanup := firewallCleanup c |}.

(** ** What [idlesMux] guards *)
Record Idles := {
  idlesMemory : Z;
  idles : gmap WarmContainerKey (list PooledContainer)
}.

Local Open Scope go_scope.

(** The search of the longest unused container: the head of every list is its oldest. *)
Definition older (acc : option PooledContainer)
    (entry : WarmContainerKey * list PooledContainer) : option PooledContainer :=
  match entry.2 with
  | [] => acc
  | c :: _ =>
      match acc with
      | None => Some c
      | Some longestUnused =>
          if lastUsed c <? lastUsed longestUnused then Some c else Some longestUnused
      end
  end.

Definition longestUnusedContainer
    (entries : list (WarmContainerKey * list PooledContainer)) : option PooledContainer :=
  foldl older None entries.

(** Outcome of the eviction loop; [SpaceStuck] is the slice expression out of
    range and [SpaceOutOfFuel] the bound of the model. *)
Inductive space_result :=
| SpaceMade (st : Idles) (containersToDelete : list PooledContainer)
| SpaceNotFound (st : Idles) (containersToDelete : list PooledContainer)
| SpaceStuck
| SpaceOutOfFuel.

Section idles_sections.
Context {MR : MapRange WarmContainerKey (list PooledContainer)}.

(** The loop of [getContainer] that evicts until there is enough space. *)
Fixpoint makeSpace (fuel seed : nat) (inFlightMemory maxMemory : Z) (st : Idles)
    (containersToDelete : list PooledContainer) : space_result :=
  match fuel with
  | O => SpaceOutOfFuel
  | S fuel' =>
      match longestUnusedContainer (go_range seed (idles st)) with
      | None => SpaceNotFound st containersToDelete
      | Some c =>
          match idles st !! initializedFor c with
          | Some (_ :: rest) =>
              let st' := {| idlesMemory := idlesMemory st -u memory c;
                            idles := <[initializedFor c := rest]> (idles st) |} in
              let deleted := containersToDelete ++ [c] in
              if idlesMemory st' +u inFlightMemory <=? maxMemory
              then SpaceMade st' deleted
              else makeSpace fuel' (S seed) inFlightMemory maxMemory st' deleted
          | _ => SpaceStuck
          end
      end
  end.

(** Number of idle containers: the fuel of the loop. *)
Definition idle_count (st : Idles) : nat := List.length (elems (idles st)).

Inductive take_result :=
| TakeWarm (c : PooledContainer)
| TakeCold (containersToDelete : list PooledContainer)
| TakeNoSpace
| TakePanic.

(** The critical section of [getContainer] under [idlesMux]. *)
Definition takeIdle (seed : nat) (maxMemory : Z) (data : WarmContainerKey)
    (inFlightMemory : Z) (st : Idles) : take_result * Idles :=
  match last (lists_at data (idles st)) with
  | Some c =>
      (TakeWarm c,
       {| idlesMemory := idlesMemory st -u memory c;
          idles := <[data := removelast (lists_at data (idles st))]> (idles st) |})
  | None =>
      if maxMemory <? idlesMemory st +u inFlightMemory then
        match makeSpace (S (idle_count st)) seed inFlightMemory maxMemory st [] with
        | SpaceMade st' deleted => (TakeCold deleted, st')
        | SpaceNotFound st' _ => (TakeNoSpace, st')
        | _ => (TakePanic, st)
        end
      else (TakeCold [], st)
  end.

(** The critical section of [Put]. *)
Definition putIdle (c : PooledContainer) (st : Idles) : Idles :=
  {| idlesMemory := idlesMemory st +u memory c;
     idles := <[initializedFor c := lists_at (initializedFor c) (idles st) ++ [c]]> (idles st) |}.

(** The critical section of [reap]. *)
Fixpoint deleteUntil (olderThan : Z) (containers : list PooledContainer) : nat :=
  match containers with
  | [] => 0%nat
  | c :: rest => if olderThan <? lastUsed c then 0%nat else S (deleteUntil olderThan rest)
  end.

Definition reapBucket (olderThan : Z) (acc : list PooledContainer * Idles)
    (entry : WarmContainerKey * list PooledContainer) : list PooledContainer * Idles :=
  let '(toDelete, st) := acc in
  let '(data, containers) := entry in
  let n := deleteUntil olderThan containers in
  let toKeep := drop n containers in
  (toDelete ++ take n containers,
   {| idlesMemory := foldl (fun m c => m -u memory c) (idlesMemory st) (take n containers);
      idles := match toKeep with
               | [] => delete data (idles st)
               | _ => <[data := toKeep]> (idles st)
               end |}).

Definition reapIdles (seed : nat) (olderThan : Z) (st : Idles) : list PooledContainer * Idles :=
  foldl (reapBucket olderThan) ([], st) (go_range seed (idles st)).
End idles_sections.
