(* ===== verification/PoolIdles.v ===== *)
(** * The idle containers of the pool: correctness of the critical sections

    Invariant of what [idlesMux] guards ([idles_ok]), its preservation by
    taking, putting, evicting and reaping, and what each of them achieves. *)
From S2P Require Export PoolState.

(** Every container is filed under the key it was initialized for and the
    memory counter is the sum over all of them. *)
Definition keyed (m : gmap WarmContainerKey (list PooledContainer)) : Prop :=
  forall k l c, m !! k = Some l -> c ∈ l -> initializedFor c = k.

Definition idles_ok (st : Idles) : Prop :=
  keyed (idles st) /\
  (forall c, c ∈ elems (idles st) -> 0 <= memory c) /\
  idlesMemory st = msum memory (idles st) /\
  idlesMemory st < 2 ^ 64.

(** Every list is ordered by [lastUsed], the oldest container first. *)
Definition used_before (c d : PooledContainer) : Prop := lastUsed c <= lastUsed d.
Definition lists_sorted (m : gmap WarmContainerKey (list PooledContainer)) : Prop :=
  forall k l, m !! k = Some l -> StronglySorted used_before l.

Lemma keyed_insert m k l :
  keyed m -> (forall c, c ∈ l -> initializedFor c = k) -> keyed (<[k := l]> m).
Proof.
  intros Hm Hl k' l' c. rewrite lookup_insert. case_decide; [|by apply Hm].
  intros ?; simplify_eq. by apply Hl.
Qed.

Lemma keyed_delete m k : keyed m -> keyed (delete k m).
Proof. intros Hm k' l c [_ Hl]%lookup_delete_Some. by apply Hm. Qed.

Lemma lists_at_elems {K A} `{Countable K} (m : gmap K (list A)) k x :
  x ∈ lists_at k m -> x ∈ elems m.
Proof.
  intros Hx. rewrite (elems_delete m k). set_solver.
Qed.

Lemma lists_at_keyed m k c : keyed m -> c ∈ lists_at k m -> initializedFor c = k.
Proof.
  unfold lists_at. destruct (m !! k) as [l|] eqn:E; cbn; [|set_solver].
  intros Hm Hc. by eapply Hm.
Qed.

Lemma elems_shrink {K A} `{Countable K} (m : gmap K (list A)) k l' x :
  l' ⊆ lists_at k m -> x ∈ elems (<[k := l']> m) -> x ∈ elems m.
Proof.
  intros Hl. rewrite elems_insert, (elems_delete m k), !elem_of_app.
  intros [?|?]; [left; by apply Hl|by right].
Qed.

Lemma idles_ok_insert st k l l' mem :
  idles_ok st -> lists_at k (idles st) = l -> l' ⊆ l ->
  mem = idlesMemory st - sumZ memory l + sumZ memory l' ->
  sumZ memory l' <= sumZ memory l ->
  idles_ok {| idlesMemory := mem; idles := <[k := l']> (idles st) |}.
Proof.
  intros (Hk & Hnn & Hmem & Hmax) Hl Hsub -> Hle. split; [|split; [|split]]; cbn.
  - apply keyed_insert; [done|]. intros c Hc. eapply lists_at_keyed; [done|]. set_solver.
  - intros c Hc. apply Hnn. eapply elems_shrink; [|done]. by rewrite Hl.
  - rewrite msum_insert, Hl. lia.
  - lia.
Qed.

Lemma memory_le_total st c :
  idles_ok st -> c ∈ elems (idles st) -> 0 <= memory c <= idlesMemory st.
Proof.
  intros (_ & Hnn & -> & _) Hc. split; [by apply Hnn|]. by apply sumZ_elem_le.
Qed.

(** ** The longest unused container *)
Lemma older_spec acc e :
  match older acc e with
  | None => acc = None /\ e.2 = []
  | Some c =>
      (acc = Some c \/ exists rest, e.2 = c :: rest) /\
      (forall a, acc = Some a -> lastUsed c <= lastUsed a) /\
      (forall c' rest, e.2 = c' :: rest -> lastUsed c <= lastUsed c')
  end.
Proof.
  unfold older. destruct e as [k [|c l]], acc as [a|]; cbn;
    try destruct (Z.ltb_spec (lastUsed c) (lastUsed a));
    try (split; [|split]; intros); simplify_eq; eauto; lia.
Qed.

Lemma longestUnused_spec entries acc :
  match foldl older acc entries with
  | None => acc = None /\ forall e, e ∈ entries -> e.2 = []
  | Some c =>
      (acc = Some c \/ exists e rest, e ∈ entries /\ e.2 = c :: rest) /\
      (forall a, acc = Some a -> lastUsed c <= lastUsed a) /\
      (forall e c' rest, e ∈ entries -> e.2 = c' :: rest -> lastUsed c <= lastUsed c')
  end.
Proof.
  revert acc. induction entries as [|e entries IH]; intros acc; cbn.
  { destruct acc; [|set_solver]. split; [by left|].
    split; [by intros ? [= ->]|set_solver]. }
  specialize (IH (older acc e)). pose proof (older_spec acc e) as Ho.
  destruct (foldl older _ entries) as [c|].
  - destruct IH as (Hin & Hacc & Hrest). split; [|split].
    + destruct Hin as [Hin|(e' & r & ? & ?)].
      * rewrite Hin in Ho. destruct Ho as ([?|[rest ?]] & _); [by left|].
        right. exists e, rest. set_solver.
      * right. exists e', r. set_solver.
    + intros a ->. destruct (older (Some a) e) as [o|]; [|by destruct Ho].
      specialize (Hacc o eq_refl). destruct Ho as (_ & Ha & _). specialize (Ha a eq_refl). lia.
    + intros e' c' rest [->|He']%elem_of_cons He2; [|by eapply Hrest].
      destruct (older acc e) as [o|]; [|by destruct Ho as [_ ?]; congruence].
      specialize (Hacc o eq_refl). destruct Ho as (_ & _ & Hc). specialize (Hc _ _ He2). lia.
  - destruct IH as [Hacc Hnil]. rewrite Hacc in Ho. destruct Ho as [-> ?]. split; [done|].
    intros e' [->|He]%elem_of_cons; auto.
Qed.

Section sections.
Context {MR : MapRange WarmContainerKey (list PooledContainer)}.

Lemma go_range_elem seed m (e : WarmContainerKey * list PooledContainer) :
  e ∈ go_range seed m <-> m !! e.1 = Some e.2.
Proof. rewrite (go_range_perm seed m). destruct e. apply elem_of_map_to_list. Qed.

Lemma longestUnused_idle seed m :
  keyed m ->
  match longestUnusedContainer (go_range seed m) with
  | None => elems m = []
  | Some c =>
      (exists rest, m !! initializedFor c = Some (c :: rest)) /\
      (forall k c' rest, m !! k = Some (c' :: rest) -> lastUsed c <= lastUsed c')
  end.
Proof.
  intros Hkey. unfold longestUnusedContainer.
  pose proof (longestUnused_spec (go_range seed m) None) as Hs.
  destruct (foldl older None _) as [c|].
  - destruct Hs as ([?|([k l] & rest & He & Hl)] & _ & Hmin); [done|]. cbn in Hl. subst l.
    apply go_range_elem in He; cbn in He. split.
    + assert (initializedFor c = k) as -> by (eapply Hkey; [done|set_solver]). eauto.
    + intros k' c' rest' Hk'. apply (Hmin (k', c' :: rest') c' rest'); [|done].
      by apply go_range_elem.
  - destruct Hs as [_ Hnil].
    destruct (elems m) as [|c l] eqn:E; [done|exfalso].
    assert (c ∈ elems m) as (k & l' & Hk & Hc)%elem_of_elems by (rewrite E; set_solver).
    specialize (Hnil (k, l')). cbn in Hnil. rewrite Hnil in Hc; [set_solver|].
    by apply go_range_elem.
Qed.

(** ** Making space *)

(** Evicting the head [c] of its list. *)
Definition evict (st : Idles) (c : PooledContainer) (rest : list PooledContainer) : Idles :=
  {| idlesMemory := u64 (idlesMemory st - memory c);
     idles := <[initializedFor c := rest]> (idles st) |}.

Lemma evict_ok st c rest :
  idles_ok st -> idles st !! initializedFor c = Some (c :: rest) ->
  idles_ok (evict st c rest) /\
  elems (idles st) ≡ₚ c :: elems (idles (evict st c rest)) /\
  idlesMemory (evict st c rest) = idlesMemory st - memory c.
Proof.
  intros Hok Hc.
  assert (lists_at (initializedFor c) (idles st) = c :: rest) as Hl
    by (unfold lists_at; by rewrite Hc).
  assert (Hp : elems (idles st) ≡ₚ c :: elems (idles (evict st c rest))).
  { cbn. rewrite (elems_delete _ (initializedFor c)), Hl, elems_insert. done. }
  assert (0 <= memory c <= idlesMemory st).
  { apply memory_le_total; [done|]. rewrite Hp. set_solver. }
  destruct Hok as (? & ? & ? & ?) eqn:E.
  assert (idlesMemory (evict st c rest) = idlesMemory st - memory c) as Hm
    by (cbn; apply u64_small; lia).
  split; [|done]. unfold evict. cbn in Hm. rewrite Hm.
  eapply idles_ok_insert; [done|exact Hl|set_solver| |]; cbn; lia.
Qed.

Lemma evict_sorted st c rest :
  lists_sorted (idles st) -> idles st !! initializedFor c = Some (c :: rest) ->
  lists_sorted (idles (evict st c rest)).
Proof.
  intros Hs Hc k l. cbn. rewrite lookup_insert. case_decide; [|by apply Hs].
  intros ?; simplify_eq. by apply Hs, StronglySorted_inv in Hc as [? _].
Qed.

(** A head that is oldest among the heads of sorted lists is oldest overall. *)
Lemma oldest_head st c rest :
  lists_sorted (idles st) -> idles st !! initializedFor c = Some (c :: rest) ->
  (forall k c' rest, idles st !! k = Some (c' :: rest) -> lastUsed c <= lastUsed c') ->
  forall d, d ∈ elems (idles st) -> lastUsed c <= lastUsed d.
Proof.
  intros Hs Hc Hmin d (k & l & Hk & Hd)%elem_of_elems.
  destruct l as [|c' l]; [set_solver|]. specialize (Hmin _ _ _ Hk).
  apply Hs, StronglySorted_inv in Hk as [_ Hall].
  apply elem_of_cons in Hd as [->|Hd]; [done|].
  rewrite Forall_forall in Hall. specialize (Hall _ Hd). unfold used_before in Hall. lia.
Qed.

(** What the eviction loop achieves; [done] are the containers it evicted. *)
Lemma makeSpace_spec fuel : forall seed infl max st acc,
  idles_ok st -> 0 <= infl <= max -> idlesMemory st + infl < 2 ^ 64 ->
  (List.length (elems (idles st)) < fuel)%nat ->
  max < idlesMemory st + infl ->
  exists st' done,
    makeSpace fuel seed infl max st acc = SpaceMade st' (acc ++ done) /\
    idles_ok st' /\
    elems (idles st) ≡ₚ done ++ elems (idles st') /\
    idlesMemory st' + infl <= max /\
    (forall pre d, done = pre ++ [d] -> max < idlesMemory st - sumZ memory pre + infl) /\
    (lists_sorted (idles st) -> lists_sorted (idles st') /\
       forall d c, d ∈ done -> c ∈ elems (idles st') -> lastUsed d <= lastUsed c).
Proof.
  induction fuel as [|fuel IH]; intros seed infl max st acc Hok Hinfl Hlt Hfuel Hover; [lia|].
  cbn [makeSpace]. pose proof (longestUnused_idle seed _ (proj1 Hok)) as Hlong.
  destruct (longestUnusedContainer _) as [c|].
  2: { exfalso. destruct Hok as (_ & _ & Hmem & _).
       unfold msum in Hmem. rewrite Hlong in Hmem. cbn in Hmem. lia. }
  destruct Hlong as [(rest & Hc) Hmin]. rewrite Hc.
  destruct (evict_ok st c rest Hok Hc) as (Hok' & Hperm & Hmem').
  assert (0 <= memory c <= idlesMemory st).
  { apply memory_le_total; [done|]. rewrite Hperm. set_solver. }
  pose proof (u64_small (idlesMemory (evict st c rest) + infl)) as Hu.
  assert (0 <= idlesMemory (evict st c rest)) by (rewrite Hmem'; lia).
  fold (evict st c rest). rewrite Hu by lia.
  destruct (Z.leb_spec (idlesMemory (evict st c rest) + infl) max) as [Hfit|Hmore].
  - exists (evict st c rest), [c]. split; [done|]. split; [done|]. split; [done|].
    split; [done|]. split.
    + intros pre d Heq. destruct pre as [|? [|]]; simplify_eq/=. lia.
    + intros Hs. split; [by apply evict_sorted|].
      intros d c' ->%list_elem_of_singleton Hc'.
      eapply (oldest_head st); [done..|]. rewrite Hperm. set_solver.
  - destruct (IH (S seed) infl max (evict st c rest) (acc ++ [c])) as
      (st' & evd & Heq & Hok'' & Hperm' & Hfit & Hnec & Hsort); [done..|lia| |done|].
    { apply Permutation_length in Hperm. cbn in Hperm. cbn. lia. }
    exists st', (c :: evd). split; [by rewrite Heq, <- app_assoc|]. split; [done|].
    split; [by rewrite Hperm, Hperm'|]. split; [done|]. split.
    + intros [|c0 pre] d Heq'; simplify_eq/=; [lia|].
      specialize (Hnec pre d eq_refl). lia.
    + intros Hs. destruct Hsort as [Hs' Hold]; [by apply evict_sorted|].
      split; [done|]. intros d c' [->|Hd]%elem_of_cons Hc'; [|by apply Hold].
      eapply (oldest_head st); [done..|]. rewrite Hperm, Hperm'. set_solver.
Qed.

(** ** Taking a container *)
Lemma takeIdle_spec seed max data infl st :
  idles_ok st -> 0 <= infl <= max -> idlesMemory st + infl < 2 ^ 64 ->
  match takeIdle seed max data infl st with
  | (TakeWarm c, st') =>
      idles_ok st' /\ initializedFor c = data /\
      lists_at data (idles st) = lists_at data (idles st') ++ [c] /\
      elems (idles st) ≡ₚ c :: elems (idles st') /\
      idlesMemory st' = idlesMemory st - memory c
  | (TakeCold deleted, st') =>
      idles_ok st' /\ lists_at data (idles st) = [] /\
      elems (idles st) ≡ₚ deleted ++ elems (idles st') /\
      idlesMemory st' + infl <= max /\
      idlesMemory st' = idlesMemory st - sumZ memory deleted /\
      (forall pre d, deleted = pre ++ [d] -> max < idlesMemory st - sumZ memory pre + infl) /\
      (lists_sorted (idles st) -> lists_sorted (idles st') /\
         forall d c, d ∈ deleted -> c ∈ elems (idles st') -> lastUsed d <= lastUsed c)
  | _ => False
  end.
Proof.
  intros Hok Hinfl Hlt. unfold takeIdle.
  destruct (last (lists_at data (idles st))) as [c|] eqn:El.
  - apply last_Some in El as [l El]. rewrite El, removelast_last.
    assert (Hp : elems (idles st) ≡ₚ c :: elems (<[data := l]> (idles st))).
    { rewrite (elems_delete _ data), El, elems_insert, <- app_assoc.
      symmetry. apply Permutation_middle. }
    assert (Hc : 0 <= memory c <= idlesMemory st).
    { apply memory_le_total; [done|]. rewrite Hp. set_solver. }
    assert (Hm : u64 (idlesMemory st - memory c) = idlesMemory st - memory c).
    { apply u64_small. destruct Hok as (_ & _ & _ & ?). lia. }
    split; [|split; [|split; [|split]]]; cbn; rewrite ?Hm.
    + eapply idles_ok_insert; [done|exact El|set_solver| |];
        autorewrite with invoker; lia.
    + eapply (lists_at_keyed (idles st)); [apply Hok|]. rewrite El. set_solver.
    + unfold lists_at. rewrite lookup_insert_eq. done.
    + done.
    + done.
  - apply last_None in El. destruct Hok as (Hk & Hnn & Hmem & Hmax) eqn:E.
    assert (0 <= msum memory (idles st)) by (by apply msum_nonneg).
    rewrite u64_small by lia. destruct (Z.ltb_spec max (idlesMemory st + infl)) as [Hov|Hfit].
    + destruct (makeSpace_spec (S (idle_count st)) seed infl max st []) as
        (st' & deleted & -> & Hok' & Hperm & Hrest); [done..|unfold idle_count; lia|done|].
      cbn [app] in *. destruct Hrest as (? & ? & ?). split_and!; try done.
      destruct Hok' as (_ & _ & -> & _). rewrite Hmem. unfold msum.
      rewrite (sumZ_perm memory _ _ Hperm), sumZ_app. lia.
    + split_and!; try done; cbn; [lia| |].
      * intros [|] ? ?; simplify_eq/=.
      * intros Hs. split; [done|]. set_solver.
Qed.

(** ** Returning a container *)
Lemma putIdle_spec c st :
  idles_ok st -> 0 <= memory c -> idlesMemory st + memory c < 2 ^ 64 ->
  idles_ok (putIdle c st) /\
  elems (idles (putIdle c st)) ≡ₚ c :: elems (idles st) /\
  idlesMemory (putIdle c st) = idlesMemory st + memory c /\
  last (lists_at (initializedFor c) (idles (putIdle c st))) = Some c.
Proof.
  intros (Hk & Hnn & Hmem & Hmax) Hc Hlt.
  assert (Hp : elems (idles (putIdle c st)) ≡ₚ c :: elems (idles st)).
  { cbn. rewrite elems_insert, (elems_delete (idles st) (initializedFor c)), <- app_assoc.
    symmetry. apply Permutation_middle. }
  assert (0 <= msum memory (idles st)) by (by apply msum_nonneg).
  assert (Hm : idlesMemory (putIdle c st) = idlesMemory st + memory c)
    by (cbn; apply u64_small; lia).
  split; [split; [|split; [|split]]|split; [done|split; [done|]]].
  - cbn. apply keyed_insert; [done|].
    intros d [Hd| ->%list_elem_of_singleton]%elem_of_app; [|done].
    by eapply lists_at_keyed.
  - intros d. rewrite Hp. intros [->|Hd]%elem_of_cons; auto.
  - rewrite Hm, Hmem. unfold msum. rewrite (sumZ_perm memory _ _ Hp). cbn. lia.
  - lia.
  - cbn. unfold lists_at at 1. rewrite lookup_insert_eq. cbn. apply last_snoc.
Qed.

(** ** Reaping *)
Lemma deleteUntil_le t l : (deleteUntil t l <= List.length l)%nat.
Proof. induction l as [|c l IH]; cbn; [lia|]. case_match; cbn; lia. Qed.

Lemma deleteUntil_old t l d : d ∈ take (deleteUntil t l) l -> lastUsed d <= t.
Proof.
  induction l as [|c l IH]; cbn; [set_solver|].
  destruct (Z.ltb_spec t (lastUsed c)); cbn; [set_solver|].
  intros [->|Hd]%elem_of_cons; [lia|auto].
Qed.

Lemma deleteUntil_young t l c rest :
  drop (deleteUntil t l) l = c :: rest -> t < lastUsed c.
Proof.
  induction l as [|d l IH]; cbn; [done|].
  destruct (Z.ltb_spec t (lastUsed d)); cbn; [|done]. by intros [= -> _].
Qed.

Lemma sub_fold mem l :
  0 <= sumZ memory l <= mem -> (forall c, c ∈ l -> 0 <= memory c) -> mem < 2 ^ 64 ->
  foldl (fun m c => u64 (m - memory c)) mem l = mem - sumZ memory l.
Proof.
  clear MR. revert mem. induction l as [|c l IH]; intros mem Hsum Hnn Hlt; cbn in *; [lia|].
  assert (0 <= memory c) by (apply Hnn; set_solver).
  assert (0 <= sumZ memory l) by (apply sumZ_nonneg; set_solver).
  rewrite u64_small by lia. rewrite IH; [lia|lia|set_solver|lia].
Qed.

Definition kept (t : Z) (l : list PooledContainer) : option (list PooledContainer) :=
  match drop (deleteUntil t l) l with [] => None | l' => Some l' end.

Lemma lists_at_insert_or_delete k l' (m : gmap WarmContainerKey (list PooledContainer)) :
  elems (match l' with [] => delete k m | _ => <[k := l']> m end) ≡ₚ l' ++ elems (delete k m).
Proof. clear MR. destruct l'; [done|]. apply elems_insert. Qed.

Lemma reapBucket_spec t del st k l :
  idles_ok st -> idles st !! k = Some l ->
  let '(del', st') := reapBucket t (del, st) (k, l) in
  let new := take (deleteUntil t l) l in
  del' = del ++ new /\ idles_ok st' /\
  elems (idles st) ≡ₚ new ++ elems (idles st') /\
  idles st' !! k = kept t l /\
  (forall k', k' <> k -> idles st' !! k' = idles st !! k').
Proof.
  clear MR. intros (Hk & Hnn & Hmem & Hmax) Hl. cbn.
  set (n := deleteUntil t l).
  assert (Hat : lists_at k (idles st) = l) by (unfold lists_at; by rewrite Hl).
  assert (Hp : elems (idles st) ≡ₚ take n l ++
    elems (match drop n l with [] => delete k (idles st) | _ => <[k := drop n l]> (idles st) end)).
  { rewrite lists_at_insert_or_delete, (elems_delete _ k), Hat, app_assoc, take_drop. done. }
  assert (forall c, c ∈ take n l -> 0 <= memory c) as Hnn'.
  { intros c Hc. apply Hnn. rewrite Hp. set_solver. }
  assert (Hsum : msum memory (idles st) = sumZ memory (take n l) + sumZ memory
     (elems (match drop n l with [] => delete k (idles st) | _ => <[k := drop n l]> (idles st) end))).
  { unfold msum at 1. by rewrite (sumZ_perm memory _ _ Hp), sumZ_app. }
  assert (0 <= sumZ memory (take n l)) by (by apply sumZ_nonneg).
  assert (0 <= sumZ memory (elems
     (match drop n l with [] => delete k (idles st) | _ => <[k := drop n l]> (idles st) end))).
  { apply sumZ_nonneg. intros c Hc. apply Hnn. rewrite Hp. set_solver. }
  rewrite sub_fold by (done || lia).
  split; [done|]. split; [split; [|split; [|split]]|split; [done|split]]; cbn.
  - destruct (drop n l) as [|c l'] eqn:Ed; [by apply keyed_delete|].
    apply keyed_insert; [done|]. intros d Hd. eapply Hk; [done|].
    rewrite <- (take_drop n l), Ed. set_solver.
  - intros c Hc. apply Hnn. rewrite Hp. set_solver.
  - unfold msum. lia.
  - lia.
  - unfold kept. fold n. destruct (drop n l); [apply lookup_delete_eq|apply lookup_insert_eq].
  - intros k' Hne. destruct (drop n l); [by apply lookup_delete_ne|by apply lookup_insert_ne].
Qed.

Lemma reap_fold t entries : forall del st,
  NoDup entries.*1 -> (forall e, e ∈ entries -> idles st !! e.1 = Some e.2) -> idles_ok st ->
  exists new st',
    foldl (reapBucket t) (del, st) entries = (del ++ new, st') /\
    idles_ok st' /\
    elems (idles st) ≡ₚ new ++ elems (idles st') /\
    (forall d, d ∈ new -> lastUsed d <= t) /\
    (forall k, k ∉ entries.*1 -> idles st' !! k = idles st !! k) /\
    (forall k l, (k, l) ∈ entries -> idles st' !! k = kept t l).
Proof.
  clear MR. induction entries as [|[k l] entries IH]; intros del st Hnd Hin Hok; cbn [foldl].
  { exists [], st. rewrite app_nil_r. split_and!; try done; set_solver. }
  cbn in Hnd. apply NoDup_cons in Hnd as [Hk Hnd].
  assert (Hl : idles st !! k = Some l) by (apply (Hin (k, l)); set_solver).
  pose proof (reapBucket_spec t del st k l Hok Hl) as Hb.
  destruct (reapBucket t (del, st) (k, l)) as [del1 st1].
  destruct Hb as (-> & Hok1 & Hp1 & Hk1 & Hoth1).
  destruct (IH (del ++ take (deleteUntil t l) l) st1) as
    (new & st' & Heq & Hok' & Hp & Hold & Hout & Hkept); [done| |done|].
  { intros [k' l'] He. cbn. rewrite Hoth1.
    - apply (Hin (k', l')). set_solver.
    - intros ->. apply Hk. apply list_elem_of_fmap. by exists (k, l'). }
  exists (take (deleteUntil t l) l ++ new), st'. rewrite Heq, app_assoc.
  split_and!; [done|done| | | |].
  - by rewrite Hp1, Hp, app_assoc.
  - intros d [Hd|Hd]%elem_of_app; [by eapply deleteUntil_old|auto].
  - intros k' [Hne Hk']%not_elem_of_cons. rewrite Hout by done. by apply Hoth1.
  - intros k' l' [[= -> ->]|He]%elem_of_cons; [|by apply Hkept]. by rewrite Hout.
Qed.

Lemma reapIdles_spec seed t st :
  idles_ok st ->
  exists toDelete st',
    reapIdles seed t st = (toDelete, st') /\
    idles_ok st' /\
    elems (idles st) ≡ₚ toDelete ++ elems (idles st') /\
    (forall d, d ∈ toDelete -> lastUsed d <= t) /\
    (forall k, idles st' !! k = l ← idles st !! k; kept t l).
Proof.
  intros Hok. unfold reapIdles.
  destruct (reap_fold t (go_range seed (idles st)) [] st) as
    (new & st' & Heq & Hok' & Hp & Hold & Hout & Hkept); [|by intros ? ?%go_range_elem|done|].
  { rewrite (go_range_perm seed (idles st)). apply NoDup_fst_map_to_list. }
  exists new, st'. split_and!; [done..|]. intros k.
  destruct (idles st !! k) as [l|] eqn:E; cbn.
  - apply Hkept. by apply go_range_elem.
  - rewrite Hout; [done|]. intros ([k' l] & -> & He)%list_elem_of_fmap.
    apply go_range_elem in He. cbn in *. congruence.
Qed.

Lemma kept_young t l l' :
  StronglySorted used_before l -> kept t l = Some l' ->
  StronglySorted used_before l' /\ forall c, c ∈ l' -> t < lastUsed c.
Proof.
  clear MR. unfold kept. intros Hs.
  assert (Hs' : StronglySorted used_before (drop (deleteUntil t l) l)).
  { rewrite <- (take_drop (deleteUntil t l) l) in Hs. by eapply StronglySorted_app_1_r. }
  destruct (drop _ l) as [|c rest] eqn:Ed; [done|]. intros [= <-]. split; [done|].
  apply deleteUntil_young in Ed. apply StronglySorted_inv in Hs' as [_ Hall].
  rewrite Forall_forall in Hall. unfold used_before in Hall.
  intros d [->|Hd]%elem_of_cons; [done|]. specialize (Hall _ Hd). lia.
Qed.
End sections.
