(* ===== verification/Runtimes.v ===== *)
(** * Runtime manifests

    [pkg/exec/runtimes.go]: the manifests, and how the configuration (already
    split into families of versions) is turned into a table queried by kind. *)
From S2P Require Export Container.

Record RuntimeStemcellConfig := { Count : Z; sc_Memory : Z }.

Record RuntimeManifest := {
  rm_Kind : string;
  Default : bool;
  Image : string;
  Stemcells : list RuntimeStemcellConfig
}.

(** [RuntimeManifests]: by kind, and by [family:default]. *)
Definition RuntimeManifests : Type := gmap string RuntimeManifest.

(** The string an image description is flattened to. *)
Definition imageString (prefix name tag : string) : string :=
  prefix +:+ "/" +:+ name +:+ ":" +:+ tag.

Definition defaultName (familyName : string) : string := familyName +:+ ":default".

(** One iteration of the inner loop of [Decode]. *)
Definition addVersion (familyName : string) (manifests : RuntimeManifests)
    (version : RuntimeManifest) : result RuntimeManifests :=
  let manifests := <[rm_Kind version := version]> manifests in
  if Default version then
    match manifests !! defaultName familyName with
    | Some _ => Err (Errorf "at least two versions of family %q specified as default" [])
    | None => Ok (<[defaultName familyName := version]> manifests)
    end
  else Ok manifests.

Fixpoint addFamily (familyName : string) (manifests : RuntimeManifests)
    (family : list RuntimeManifest) : result RuntimeManifests :=
  match family with
  | [] => Ok manifests
  | version :: family' =>
      manifests' ← addVersion familyName manifests version;
      addFamily familyName manifests' family'
  end.

Fixpoint addFamilies (manifests : RuntimeManifests)
    (rawManifests : list (string * list RuntimeManifest)) : result RuntimeManifests :=
  match rawManifests with
  | [] => Ok manifests
  | (familyName, family) :: rest =>
      manifests' ← addFamily familyName manifests family;
      addFamilies manifests' rest
  end.

(** [RuntimeManifests.Decode] after the two JSON documents are parsed. *)
Definition Decode {MR : MapRange string (list RuntimeManifest)} (seed : nat)
    (rawManifests : gmap string (list RuntimeManifest)) : result RuntimeManifests :=
  addFamilies ∅ (go_range seed rawManifests).
