(* ===== verification/PoolOps.v ===== *)
(** * The container pool: methods

    The methods of [ContainerPool] as programs over the atomic operations they
    perform: acquiring and releasing the semaphore, the atomic counter, the
    critical sections of [PoolState], channel operations, and calls to the
    container, the factory, the firewall and the clock. *)
From S2P Require Export PoolIdles Runtimes.

(** ** Atomic operations *)
Inductive pool_op : Type -> Type :=
  (* pool.inFlight, pool.inFlightMemory, pool.containersCreated *)
| SemAcquire (n : Z) : pool_op (option go_error)
| SemRelease (n : Z) : pool_op unit
| InFlightMemoryAdd (delta : Z) : pool_op Z
| ContainersCreatedAdd (delta : Z) : pool_op Z
  (* code under idlesMux *)
| LockedTakeIdle (data : WarmContainerKey) (inFlightMemory : Z) : pool_op take_result
| LockedPutIdle (c : PooledContainer) : pool_op unit
| LockedReapIdles (olderThan : Z) : pool_op (list PooledContainer)
| LockedAllIdles : pool_op (list PooledContainer)
  (* code under prewarmMux *)
| LockedTakePrewarm (key : PrewarmContainerKey) : pool_op (option PooledContainer)
| LockedNecessaryCreations : pool_op (list (PrewarmContainerKey * Z))
| LockedAddPrewarm (key : PrewarmContainerKey) (c : PooledContainer) : pool_op unit
| LockedAllPrewarm : pool_op (list PooledContainer)
  (* channels *)
| SendToDelete (c : PooledContainer) : pool_op unit
| ReceiveToDelete : pool_op PooledContainer
| PokePrewarm : pool_op unit
| ReceivePoke : pool_op unit
| CloseBackground : pool_op unit
| WaitBackground : pool_op unit                  (* pool.grp.Wait() *)
  (* the container, its factory, the firewall, the clock *)
| CallUnpauseIfNeeded (c : Container) : pool_op (option go_error)
| CallPauseEventually (c : Container) : pool_op unit
| CallState (c : Container) : pool_op (result ContainerState)
| CallRemove (c : Container) : pool_op (option go_error)
| CallCreateContainer (kind : string) (memory : Z) (name : string) : pool_op (result Container)
| CallNeedsFirewall (namespace : string) : pool_op bool
| CallSetupFirewall (containerIP namespace : string) : pool_op (result nat)
| CallFirewallCleanup (h : nat) : pool_op (option go_error)
| TimeNow : pool_op Z
  (* what the caller of [Get] does with the container *)
| BeginInvocation (c : PooledContainer) : pool_op unit
| EndInvocation (c : PooledContainer) : pool_op bool.

Notation poolM := (proc pool_op).

(** ** Removing containers *)

(** [PooledContainer.Remove]. *)
Definition PooledContainer_Remove (c : PooledContainer) : poolM (option go_error) :=
  match firewallCleanup c with
  | None => trigger (CallRemove (container c))
  | Some h =>
      fw ← trigger (CallFirewallCleanup h);
      match fw with
      | Some err =>
          Ret (Some (Errorf "failed to remove firewall: %w. The container is not removed" [err]))
      | None =>
          rm ← trigger (CallRemove (container c));
          match rm with
          | Some err => Ret (Some (Errorf "failed to remove container: %w" [err]))
          | None => Ret None
          end
      end
  end.

Definition CleanupPooled (c : PooledContainer) (err : go_error) : poolM go_error :=
  CleanupContainer (trigger (CallState (container c))) (PooledContainer_Remove c) err.

Definition isBrokenByUser (c : PooledContainer) : poolM bool :=
  st ← trigger (CallState (container c));
  match st with
  | Err _ => Ret false
  | Ok state => Ret (OOMKilled state || bool_decide (Status state = ContainerStateStatusExited))
  end.

(** ** Names of containers *)
Definition validContainerNameChar (c : Ascii.ascii) : bool :=
  in_range "a" "z" c || in_range "A" "Z" c || in_range "0" "9" c ||
  bool_decide (c = "_"%char) || bool_decide (c = "."%char) || bool_decide (c = "-"%char).

Definition sanitizeForContainerName (part : string) : string :=
  filter_str validContainerNameChar part.

Definition specificContainerName (i : Z) (namespace action : string) : string :=
  "wsk_" +:+ fmt_d i +:+ "_" +:+ sanitizeForContainerName namespace +:+ "_" +:+
  sanitizeForContainerName action.

Definition prewarmContainerName (i : Z) (kind : string) : string :=
  "wsk_" +:+ fmt_d i +:+ "_prewarm_" +:+ sanitizeForContainerName kind.

(** ** Get *)

(** The firewall of a container that was idle, lines 293 to 313. *)
Definition adjustWarmFirewall (namespace : string) (c : PooledContainer) :
    poolM (result PooledContainer) :=
  needs ← trigger (CallNeedsFirewall namespace);
  match firewallCleanup c, needs with
  | None, true =>
      r ← trigger (CallSetupFirewall (IP c) namespace);
      match r with
      | Err err =>
          e ← CleanupPooled c (Errorf "failed to setup firewall for warm container: %w" [err]);
          Ret (Err e)
      | Ok cleanup => Ret (Ok (set_firewallCleanup (Some cleanup) c))
      end
  | Some h, false =>
      r ← trigger (CallFirewallCleanup h);
      match r with
      | Some err =>
          e ← CleanupPooled c (Errorf "failed to remove firewall for warm container: %w" [err]);
          Ret (Err e)
      | None => Ret (Ok (set_firewallCleanup None c))
      end
  | _, _ => Ret (Ok c)
  end.

(** A container that was idle: lines 272 to 317. *)
Definition getWarm (namespace : string) (c : PooledContainer) :
    poolM (result (PooledContainer * bool)) :=
  u ← trigger (CallUnpauseIfNeeded (container c));
  match u with
  | Some unpauseErr =>
      st ← trigger (CallState (container c));
      match st with
      | Err stateErr =>
          Ret (Err (Errorf "failed to unpause idle container: %w. The subsequent state-fetching failed with: %w" [unpauseErr; stateErr]))
      | Ok state =>
          rm ← PooledContainer_Remove c;
          match rm with
          | Some removeErr =>
              Ret (Err (Errorf "failed to unpause idle container: %w, state = %+v. The subsequent remove failed with %w" [unpauseErr; removeErr]))
          | None =>
              Ret (Err (ContainerBrokenDuringReuseError state
                     (Errorf "failed to unpause idle container: %w" [unpauseErr])))
          end
      end
  | None =>
      r ← adjustWarmFirewall namespace c;
      match r with
      | Err e => Ret (Err e)
      | Ok c' => Ret (Ok (c', true))
      end
  end.

(** A prewarmed container: lines 384 to 410. *)
Definition getPrewarmed (namespace : string) (data : WarmContainerKey) (c : PooledContainer) :
    poolM (result (PooledContainer * bool)) :=
  _ ← trigger PokePrewarm;
  needs ← trigger (CallNeedsFirewall namespace);
  if needs : bool then
    r ← trigger (CallSetupFirewall (IP c) namespace);
    match r with
    | Err err =>
        e ← CleanupPooled c (Errorf "failed to setup firewall for prewarm container: %w" [err]);
        Ret (Err e)
    | Ok cleanup =>
        Ret (Ok (set_initializedFor data (set_firewallCleanup (Some cleanup) c), false))
    end
  else Ret (Ok (set_initializedFor data c, false)).

(** A new container: lines 414 to 445. *)
Definition getCold (namespace : string) (fnMeta : ActivationMessageFunction) (kind : string)
    (memory : Z) (data : WarmContainerKey) : poolM (result (PooledContainer * bool)) :=
  containerNumber ← trigger (ContainersCreatedAdd 1);
  r ← trigger (CallCreateContainer kind memory
                 (specificContainerName containerNumber namespace (fn_Name fnMeta)));
  match r with
  | Err err => Ret (Err (Errorf "failed to create a container: %w" [err]))
  | Ok ctr =>
      let pooled := {| container := ctr; initializedFor := data; lastUsed := 0;
                       memory := memory; firewallCleanup := None |} in
      needs ← trigger (CallNeedsFirewall namespace);
      if needs : bool then
        fw ← trigger (CallSetupFirewall (c_IP ctr) namespace);
        match fw with
        | Err err =>
            e ← CleanupContainer (trigger (CallState ctr)) (trigger (CallRemove ctr))
                  (Errorf "failed to setup firewall for cold container: %w" [err]);
            Ret (Err e)
        | Ok cleanup => Ret (Ok (set_firewallCleanup (Some cleanup) pooled, false))
        end
      else Ret (Ok (pooled, false))
  end.

Definition getContainer (namespace : string) (fnMeta : ActivationMessageFunction) (kind : string)
    (memory inFlightMemory : Z) : poolM (result (PooledContainer * bool)) :=
  let data := {| InvocationNamespace := namespace; Function := fnMeta |} in
  taken ← trigger (LockedTakeIdle data inFlightMemory);
  match taken with
  | TakeWarm c => getWarm namespace c
  | TakeNoSpace => Ret (Err (ErrText "unable to make enough space in container pool"))
  | TakePanic => Ret (Err (ErrText "runtime error: slice bounds out of range"))
  | TakeCold containersToDelete =>
      _ ← for_each containersToDelete (fun c => trigger (SendToDelete c));
      p ← trigger (LockedTakePrewarm {| Kind := kind; Memory := memory |});
      match p with
      | Some c => getPrewarmed namespace data c
      | None => getCold namespace fnMeta kind memory data
      end
  end.

Definition Get (namespace : string) (fnMeta : ActivationMessageFunction) (kind : string)
    (memory : Z) : poolM (result (PooledContainer * bool)) :=
  acq ← trigger (SemAcquire (i64 memory));
  match acq with
  | Some err => Ret (Err (Errorf "failed to acquire semaphore: %w" [err]))
  | None =>
      inFlightMemory ← trigger (InFlightMemoryAdd memory);
      r ← getContainer namespace fnMeta kind memory inFlightMemory;
      match r with
      | Err err =>
          _ ← trigger (InFlightMemoryAdd (u64 (- memory)));
          _ ← trigger (SemRelease (i64 memory));
          Ret (Err (Errorf "failed to get container: %w" [err]))
      | Ok res => Ret (Ok res)
      end
  end.

(** ** Put and PutToDestroy; the deferred calls run in reverse order *)
Definition release (c : PooledContainer) : poolM unit :=
  _ ← trigger (InFlightMemoryAdd (u64 (- memory c)));
  trigger (SemRelease (i64 (memory c))).

Definition Put (c : PooledContainer) : poolM unit :=
  now ← trigger TimeNow;
  let c := set_lastUsed now c in
  _ ← trigger (CallPauseEventually (container c));
  _ ← trigger (LockedPutIdle c);
  release c.

Definition PutToDestroy (c : PooledContainer) : poolM (option go_error) :=
  rm ← PooledContainer_Remove c;
  _ ← release c;
  match rm with
  | Some err => Ret (Some (Errorf "failed to delete container when returning it: %w" [err]))
  | None => Ret None
  end.

(** ** Background work *)

(** Unpause if needed and remove; shared by the deleter, the reaper and the
    shutdown, which differ in the texts only. *)
Definition unpauseAndRemove (unpauseText removeText : string) (c : PooledContainer) :
    poolM (option go_error) :=
  u ← trigger (CallUnpauseIfNeeded (container c));
  broken ← match u with
           | None => Ret true
           | Some _ => isBrokenByUser c
           end;
  match u, broken with
  | Some err, false =>
      e ← CleanupPooled c (Errorf unpauseText [err]);
      Ret (Some e)
  | _, _ =>
      rm ← PooledContainer_Remove c;
      match rm with
      | Some err => Ret (Some (Errorf removeText [err]))
      | None => Ret None
      end
  end.

(** One round of the goroutine that empties [containersToDeleteForSpace]. *)
Definition deleteForSpace (c : PooledContainer) : poolM unit :=
  _ ← unpauseAndRemove "failed to unpause container: %w" "%w" c;
  Ret tt.
Definition deleterRound : poolM unit :=
  c ← trigger ReceiveToDelete;
  deleteForSpace c.

(** [reap]; the multierror is the list of the errors appended to it. *)
Definition reap (olderThan : Z) : poolM (list go_error) :=
  toDelete ← trigger (LockedReapIdles olderThan);
  for_fold toDelete [] (fun errs c =>
    r ← unpauseAndRemove "failed to unpause container during reaping: %w"
          "failed to delete container during reaping: %w" c;
    match r with
    | Some e => Ret (errs ++ [e])
    | None => Ret errs
    end).

(** One prewarm container: the body of the inner loop of [reconcilePrewarm]. *)
Definition createPrewarm (key : PrewarmContainerKey) : poolM (option go_error) :=
  containerNumber ← trigger (ContainersCreatedAdd 1);
  r ← trigger (CallCreateContainer (Kind key) (Memory key)
                 (prewarmContainerName containerNumber (Kind key)));
  match r with
  | Err err => Ret (Some (Errorf "failed to create prewarm container: %w" [err]))
  | Ok ctr =>
      _ ← trigger (LockedAddPrewarm key
             {| container := ctr; initializedFor := WarmContainerKey_zero; lastUsed := 0;
                memory := Memory key; firewallCleanup := None |});
      Ret None
  end.

Definition reconcilePrewarm : poolM (option go_error) :=
  necessaryCreations ← trigger LockedNecessaryCreations;
  for_early necessaryCreations (fun '(key, toCreate) =>
    for_early (replicate (Z.to_nat toCreate) tt) (fun _ => createPrewarm key)).

(** One round of the goroutine that serves [prewarmPoke]. *)
Definition prewarmOnce : poolM unit :=
  r ← reconcilePrewarm;
  match r with
  | Some _ => trigger PokePrewarm
  | None => Ret tt
  end.
Definition prewarmRound : poolM unit :=
  _ ← trigger ReceivePoke;
  prewarmOnce.

(** The end of [Shutdown], lines 592 to 624. *)
Definition sweep : poolM (list go_error) :=
  idle ← trigger LockedAllIdles;
  errs ← for_fold idle [] (fun errs c =>
    r ← unpauseAndRemove "failed to unpause idle container: %w"
          "failed to delete idle container: %w" c;
    match r with
    | Some e => Ret (errs ++ [e])
    | None => Ret errs
    end);
  prewarm ← trigger LockedAllPrewarm;
  for_fold prewarm errs (fun errs c =>
    r ← PooledContainer_Remove c;
    match r with
    | Some e => Ret (errs ++ [Errorf "failed to delete prewarm container: %w" [e]])
    | None => Ret errs
    end).

Definition Shutdown : poolM (list go_error) :=
  _ ← trigger CloseBackground;
  _ ← trigger WaitBackground;
  sweep.

(** ** The caller

    How [Runner.Invoke] uses the pool: a container obtained from [Get] runs the
    invocation and goes back through [PutToDestroy] if it turned out to be
    broken, through [Put] otherwise. *)
Record request := {
  req_namespace : string;
  req_function : ActivationMessageFunction;
  req_kind : string;
  req_memory : Z
}.

Definition req_key (r : request) : WarmContainerKey :=
  {| InvocationNamespace := req_namespace r; Function := req_function r |}.

Definition invocation (r : request) : poolM unit :=
  got ← Get (req_namespace r) (req_function r) (req_kind r) (req_memory r);
  match got with
  | Err _ => Ret tt
  | Ok (c, _) =>
      _ ← trigger (BeginInvocation c);
      broken ← trigger (EndInvocation c);
      if broken : bool then (_ ← PutToDestroy c; Ret tt) else Put c
  end.
