(* ===== verification/PoolSem.v ===== *)
(** * The container pool: state and meaning of the atomic operations

    The fields of [ContainerPool] together with what the operations observe of
    the outside world, and [pool_exec], the relation that says which answers
    and successor states each atomic operation can have. *)
From S2P Require Export PoolOps.

(** ** State *)
Section state.
Context `{WeightedSemaphore}.

Record pstate := mkState {
  maxMemory : Z;
  runtimeManifests : RuntimeManifests;
  containersCreated : Z;
  inFlight : semaphore;
  inFlightMemory : Z;
  idlesState : Idles;
  prewarmed : gmap PrewarmContainerKey (list PooledContainer);
  (* one pending request at most *)
  prewarmPoke : bool;
  containersToDeleteForSpace : list PooledContainer;
  (* the outside world: the clock, the references handed out by the factory, the
     containers with a scheduled pause, the removed ones, those running an invocation *)
  clock : Z;
  nextRef : nat;
  pausePending : gset nat;
  removed : gset nat;
  executing : list PooledContainer
}.

Definition set_containersCreated v s := mkState (maxMemory s) (runtimeManifests s) v
  (inFlight s) (inFlightMemory s) (idlesState s) (prewarmed s) (prewarmPoke s)
  (containersToDeleteForSpace s) (clock s) (nextRef s) (pausePending s) (removed s) (executing s).
Definition set_inFlight v s := mkState (maxMemory s) (runtimeManifests s) (containersCreated s)
  v (inFlightMemory s) (idlesState s) (prewarmed s) (prewarmPoke s)
  (containersToDeleteForSpace s) (clock s) (nextRef s) (pausePending s) (removed s) (executing s).
Definition set_inFlightMemory v s := mkState (maxMemory s) (runtimeManifests s) (containersCreated s)
  (inFlight s) v (idlesState s) (prewarmed s) (prewarmPoke s)
  (containersToDeleteForSpace s) (clock s) (nextRef s) (pausePending s) (removed s) (executing s).
Definition set_idlesState v s := mkState (maxMemory s) (runtimeManifests s) (containersCreated s)
  (inFlight s) (inFlightMemory s) v (prewarmed s) (prewarmPoke s)
  (containersToDeleteForSpace s) (clock s) (nextRef s) (pausePending s) (removed s) (executing s).
Definition set_prewarmed v s := mkState (maxMemory s) (runtimeManifests s) (containersCreated s)
  (inFlight s) (inFlightMemory s) (idlesState s) v (prewarmPoke s)
  (containersToDeleteForSpace s) (clock s) (nextRef s) (pausePending s) (removed s) (executing s).
Definition set_prewarmPoke v s := mkState (maxMemory s) (runtimeManifests s) (containersCreated s)
  (inFlight s) (inFlightMemory s) (idlesState s) (prewarmed s) v
  (containersToDeleteForSpace s) (clock s) (nextRef s) (pausePending s) (removed s) (executing s).
Definition set_toDelete v s := mkState (maxMemory s) (runtimeManifests s) (containersCreated s)
  (inFlight s) (inFlightMemory s) (idlesState s) (prewarmed s) (prewarmPoke s)
  v (clock s) (nextRef s) (pausePending s) (removed s) (executing s).
Definition set_clock v s := mkState (maxMemory s) (runtimeManifests s) (containersCreated s)
  (inFlight s) (inFlightMemory s) (idlesState s) (prewarmed s) (prewarmPoke s)
  (containersToDeleteForSpace s) v (nextRef s) (pausePending s) (removed s) (executing s).
Definition set_nextRef v s := mkState (maxMemory s) (runtimeManifests s) (containersCreated s)
  (inFlight s) (inFlightMemory s) (idlesState s) (prewarmed s) (prewarmPoke s)
  (containersToDeleteForSpace s) (clock s) v (pausePending s) (removed s) (executing s).
Definition set_pausePending v s := mkState (maxMemory s) (runtimeManifests s) (containersCreated s)
  (inFlight s) (inFlightMemory s) (idlesState s) (prewarmed s) (prewarmPoke s)
  (containersToDeleteForSpace s) (clock s) (nextRef s) v (removed s) (executing s).
Definition set_removed v s := mkState (maxMemory s) (runtimeManifests s) (containersCreated s)
  (inFlight s) (inFlightMemory s) (idlesState s) (prewarmed s) (prewarmPoke s)
  (containersToDeleteForSpace s) (clock s) (nextRef s) (pausePending s) v (executing s).
Definition set_executing v s := mkState (maxMemory s) (runtimeManifests s) (containersCreated s)
  (inFlight s) (inFlightMemory s) (idlesState s) (prewarmed s) (prewarmPoke s)
  (containersToDeleteForSpace s) (clock s) (nextRef s) (pausePending s) (removed s) v.

(** [NewContainerPool]: the fields of the struct literal, with the initial poke. *)
Definition NewContainerPool (userMemory : Z) (manifests : RuntimeManifests) : pstate :=
  mkState userMemory manifests 0 (NewWeighted (i64 userMemory)) 0
    {| idlesMemory := 0; idles := ∅ |} ∅ true [] 0 0 ∅ ∅ [].
End state.

(** [containersToDeleteForSpace] is a channel with 16 slots. *)
Definition toDeleteCapacity : nat := 16.

(** The map built under [prewarmMux] at the start of [reconcilePrewarm]. *)
Definition addNecessary (prewarmed : gmap PrewarmContainerKey (list PooledContainer))
    (necessary : gmap PrewarmContainerKey Z) (entry : string * RuntimeManifest) :
    gmap PrewarmContainerKey Z :=
  let '(family, runtimeManifest) := entry in
  if HasSuffix family ":default" then necessary
  else foldl (fun acc stemcellConfig =>
         let prewarmData := {| Kind := rm_Kind runtimeManifest; Memory := sc_Memory stemcellConfig |} in
         <[prewarmData := Count stemcellConfig
                          - Z.of_nat (List.length (lists_at prewarmData prewarmed))]> acc)
         necessary (Stemcells runtimeManifest).

Definition necessaryCreations (prewarmed : gmap PrewarmContainerKey (list PooledContainer))
    (manifests : list (string * RuntimeManifest)) : gmap PrewarmContainerKey Z :=
  foldl (addNecessary prewarmed) ∅ manifests.

(** ** Meaning of the operations *)
Section exec.
Context `{WeightedSemaphore}.
Context {MI : MapRange WarmContainerKey (list PooledContainer)}.
Context {MP : MapRange PrewarmContainerKey (list PooledContainer)}.
Context {MM : MapRange string RuntimeManifest} {MN : MapRange PrewarmContainerKey Z}.

Definition pool_exec (X : Type) (op : pool_op X) : pstate -> X -> pstate -> Prop :=
  match op in pool_op X return pstate -> X -> pstate -> Prop with
  | SemAcquire n => fun s r s' =>
      (exists sm, r = None /\ sem_acquire n (inFlight s) = Some sm /\ s' = set_inFlight sm s) \/
      (exists err, r = Some err /\ s' = s)
  | SemRelease n => fun s _ s' =>
      exists sm, sem_release n (inFlight s) = Some sm /\ s' = set_inFlight sm s
  | InFlightMemoryAdd d => fun s r s' =>
      r = u64 (inFlightMemory s + d) /\ s' = set_inFlightMemory r s
  | ContainersCreatedAdd d => fun s r s' =>
      r = u64 (containersCreated s + d) /\ s' = set_containersCreated r s
  | LockedTakeIdle data infl => fun s r s' =>
      exists seed st', takeIdle seed (maxMemory s) data infl (idlesState s) = (r, st') /\
                       s' = set_idlesState st' s
  | LockedPutIdle c => fun s _ s' => s' = set_idlesState (putIdle c (idlesState s)) s
  | LockedReapIdles olderThan => fun s r s' =>
      exists seed st', reapIdles seed olderThan (idlesState s) = (r, st') /\
                       s' = set_idlesState st' s
  | LockedAllIdles => fun s r s' =>
      exists seed, r = concat (go_range seed (idles (idlesState s))).*2 /\ s' = s
  | LockedTakePrewarm key => fun s r s' =>
      match lists_at key (prewarmed s) with
      | [] => r = None /\ s' = s
      | c :: rest => r = Some c /\ s' = set_prewarmed (<[key := rest]> (prewarmed s)) s
      end
  | LockedNecessaryCreations => fun s r s' =>
      exists seed seed',
        r = go_range seed' (necessaryCreations (prewarmed s) (go_range seed (runtimeManifests s)))
        /\ s' = s
  | LockedAddPrewarm key c => fun s _ s' =>
      s' = set_prewarmed (<[key := lists_at key (prewarmed s) ++ [c]]> (prewarmed s)) s
  | LockedAllPrewarm => fun s r s' =>
      exists seed, r = concat (go_range seed (prewarmed s)).*2 /\ s' = s
  | SendToDelete c => fun s _ s' =>
      (List.length (containersToDeleteForSpace s) < toDeleteCapacity)%nat /\
      s' = set_toDelete (containersToDeleteForSpace s ++ [c]) s
  | ReceiveToDelete => fun s c s' =>
      exists q, containersToDeleteForSpace s = c :: q /\ s' = set_toDelete q s
  | PokePrewarm => fun s _ s' => s' = set_prewarmPoke true s
  | ReceivePoke => fun s _ s' => prewarmPoke s = true /\ s' = set_prewarmPoke false s
  | CloseBackground => fun s _ s' => s' = s
  (* the goroutines have emptied their channels *)
  | WaitBackground => fun s _ s' =>
      containersToDeleteForSpace s = [] /\ prewarmPoke s = false /\ s' = s
  | CallUnpauseIfNeeded c => fun s _ s' =>
      c_ref c ∈ pausePending s /\ s' = set_pausePending (pausePending s ∖ {[c_ref c]}) s
  | CallPauseEventually c => fun s _ s' =>
      s' = set_pausePending ({[c_ref c]} ∪ pausePending s) s
  | CallState _ => fun s _ s' => s' = s
  | CallRemove c => fun s r s' =>
      match r with
      | None => s' = set_removed ({[c_ref c]} ∪ removed s) s
      | Some _ => s' = s
      end
  | CallCreateContainer _ _ _ => fun s r s' =>
      match r with
      | Err _ => s' = s
      | Ok c => c_ref c = nextRef s /\ s' = set_nextRef (S (nextRef s)) s
      end
  | CallNeedsFirewall _ => fun s _ s' => s' = s
  | CallSetupFirewall _ _ => fun s _ s' => s' = s
  | CallFirewallCleanup _ => fun s _ s' => s' = s
  | TimeNow => fun s t s' => clock s <= t /\ s' = set_clock t s
  | BeginInvocation c => fun s _ s' => s' = set_executing (c :: executing s) s
  | EndInvocation c => fun s _ s' =>
      exists l1 l2, executing s = l1 ++ c :: l2 /\ s' = set_executing (l1 ++ l2) s
  end.

(** The places where the pool keeps containers. *)
Definition idle_containers (s : pstate) : list PooledContainer := elems (idles (idlesState s)).
Definition prewarm_containers (s : pstate) : list PooledContainer := elems (prewarmed s).

(** The goroutines that use a pool: invocations of functions whose memory limit is
    determined by the function ([mem_of]), the reaper, the deleter, the reconciler. *)
Inductive pool_client (mem_of : WarmContainerKey -> Z) : poolM unit -> Prop :=
| client_invocation r :
    req_memory r = mem_of (req_key r) -> pool_client mem_of (invocation r)
| client_reap t : pool_client mem_of (_ ← reap t; Ret tt)
| client_deleter : pool_client mem_of deleterRound
| client_prewarm : pool_client mem_of prewarmRound.

Definition pool_reachable (mem_of : WarmContainerKey -> Z) (max : Z)
    (manifests : RuntimeManifests) : pstate * list (poolM unit) -> Prop :=
  reachable pool_exec (pool_client mem_of) (NewContainerPool max manifests).
End exec.
