(* ===== verification/PoolInv.v ===== *)
(** * The container pool: ghost tokens and the global invariant

    Every goroutine carries a token: how much of the semaphore and of the
    in-flight counter it holds, how much of that is backed by a container, and
    which containers it owns.  [pool_inv] relates the tokens of all goroutines
    to the shared state; [pool_op_sound] shows that every atomic operation,
    run by a goroutine whose token allows it, preserves it. *)
From S2P Require Export PoolSem.

(** ** Tokens *)
Inductive ownership := Plain | PauseScheduled | Running.

#[export] Instance ownership_eq_dec : EqDecision ownership.
Proof. solve_decision. Defined.

Record token := mkToken {
  tk_sem : Z;      (* weight held of pool.inFlight *)
  tk_cnt : Z;      (* share of pool.inFlightMemory *)
  tk_res : Z;      (* share of tk_cnt that is past the space check of getContainer *)
  tk_use : Z;      (* memory of the containers running an invocation *)
  tk_own : gmap nat ownership
}.

Definition token0 : token := mkToken 0 0 0 0 ∅.
Definition add_sem n t := mkToken (tk_sem t + n) (tk_cnt t) (tk_res t) (tk_use t) (tk_own t).
Definition set_cnt n r t := mkToken (tk_sem t) n r (tk_use t) (tk_own t).
Definition add_res n t := mkToken (tk_sem t) (tk_cnt t) (tk_res t + n) (tk_use t) (tk_own t).
Definition add_use n t := mkToken (tk_sem t) (tk_cnt t) (tk_res t) (tk_use t + n) (tk_own t).
Definition set_own o t := mkToken (tk_sem t) (tk_cnt t) (tk_res t) (tk_use t) o.
Definition own_as (c : nat) (o : ownership) t := set_own (<[c := o]> (tk_own t)) t.
Definition disown (c : nat) t := set_own (delete c (tk_own t)) t.
Definition own_all (cs : list PooledContainer) t : token :=
  foldr (fun c => own_as (ref c) PauseScheduled) t cs.

(** A prewarmed container has the memory of its key and no firewall of its own. *)
Definition prewarm_for (key : PrewarmContainerKey) (c : PooledContainer) : Prop :=
  memory c = Memory key /\ firewallCleanup c = None.

Section inv.
Context `{WeightedSemaphoreLaws}.
Context {MI : MapRange WarmContainerKey (list PooledContainer)}.
Context {MP : MapRange PrewarmContainerKey (list PooledContainer)}.
Context {MM : MapRange string RuntimeManifest} {MN : MapRange PrewarmContainerKey Z}.
Context (mem_of : WarmContainerKey -> Z) (max : Z).

(** ** What an operation needs of the token and does to it *)
Definition pool_wp (X : Type) (op : pool_op X) : token -> (X -> token -> Prop) -> Prop :=
  match op in pool_op X return token -> (X -> token -> Prop) -> Prop with
  | SemAcquire n => fun t Q =>
      0 <= n /\ (forall e, Q (Some e) t) /\ Q None (add_sem n t)
  | SemRelease n => fun t Q => 0 <= n <= tk_sem t - tk_cnt t /\ Q tt (add_sem (- n) t)
  | InFlightMemoryAdd d => fun t Q =>
      exists m r, d = u64 m /\ tk_use t <= r <= tk_cnt t + m /\ r <= tk_res t /\
        tk_cnt t + m <= tk_sem t /\
        forall v, 0 <= v <= max -> Q v (set_cnt (tk_cnt t + m) r t)
  | ContainersCreatedAdd _ => fun t Q => forall v, Q v t
  | LockedTakeIdle data v => fun t Q =>
      0 <= v <= max /\ tk_res t + mem_of data <= tk_cnt t /\
      (forall c, initializedFor c = data -> memory c = mem_of data ->
         tk_own t !! ref c = None ->
         Q (TakeWarm c) (own_as (ref c) PauseScheduled (add_res (mem_of data) t))) /\
      (forall cs, NoDup (ref <$> cs) -> (forall c, c ∈ cs -> tk_own t !! ref c = None) ->
         Q (TakeCold cs) (own_all cs (add_res (mem_of data) t)))
  | LockedPutIdle c => fun t Q =>
      tk_own t !! ref c = Some PauseScheduled /\ memory c = mem_of (initializedFor c) /\
      memory c <= tk_res t - tk_use t /\
      Q tt (disown (ref c) (add_res (- memory c) t))
  | LockedReapIdles _ => fun t Q =>
      forall cs, NoDup (ref <$> cs) -> (forall c, c ∈ cs -> tk_own t !! ref c = None) ->
        Q cs (own_all cs t)
  | LockedTakePrewarm key => fun t Q =>
      Q None t /\
      forall c, prewarm_for key c -> tk_own t !! ref c = None ->
        Q (Some c) (own_as (ref c) Plain t)
  | LockedNecessaryCreations => fun t Q => forall l, Q l t
  | LockedAddPrewarm key c => fun t Q =>
      tk_own t !! ref c = Some Plain /\ prewarm_for key c /\ Q tt (disown (ref c) t)
  | SendToDelete c => fun t Q =>
      tk_own t !! ref c = Some PauseScheduled /\ Q tt (disown (ref c) t)
  | ReceiveToDelete => fun t Q =>
      forall c, tk_own t !! ref c = None -> Q c (own_as (ref c) PauseScheduled t)
  | PokePrewarm => fun t Q => Q tt t
  | ReceivePoke => fun t Q => Q tt t
  | CallUnpauseIfNeeded c => fun t Q =>
      tk_own t !! c_ref c = Some PauseScheduled /\ forall r, Q r (own_as (c_ref c) Plain t)
  | CallPauseEventually c => fun t Q =>
      tk_own t !! c_ref c = Some Plain /\ Q tt (own_as (c_ref c) PauseScheduled t)
  | CallState _ => fun t Q => forall r, Q r t
  | CallRemove c => fun t Q =>
      tk_own t !! c_ref c = Some Plain /\
      (forall e, Q (Some e) t) /\ Q None (disown (c_ref c) t)
  | CallCreateContainer _ _ _ => fun t Q =>
      (forall e, Q (Err e) t) /\
      forall c, tk_own t !! c_ref c = None -> Q (Ok c) (own_as (c_ref c) Plain t)
  | CallNeedsFirewall _ => fun t Q => forall r, Q r t
  | CallSetupFirewall _ _ => fun t Q => forall r, Q r t
  | CallFirewallCleanup _ => fun t Q => forall r, Q r t
  | TimeNow => fun t Q => forall r, Q r t
  | BeginInvocation c => fun t Q =>
      tk_own t !! ref c = Some Plain /\ 0 <= memory c <= tk_res t - tk_use t /\
      Q tt (own_as (ref c) Running (add_use (memory c) t))
  | EndInvocation c => fun t Q =>
      tk_own t !! ref c = Some Running /\ 0 <= memory c <= tk_use t /\
      forall r, Q r (own_as (ref c) Plain (add_use (- memory c) t))
  (* only after all goroutines have ended *)
  | LockedAllIdles => fun _ _ => False
  | LockedAllPrewarm => fun _ _ => False
  | CloseBackground => fun _ _ => False
  | WaitBackground => fun _ _ => False
  end.

Lemma pool_wp_mono X (op : pool_op X) t (Q Q' : X -> token -> Prop) :
  (forall x t', Q x t' -> Q' x t') -> pool_wp X op t Q -> pool_wp X op t Q'.
Proof.
  intros HQ. destruct op; cbn; unfold prewarm_for; intros Hw;
    repeat match goal with
    | H : _ /\ _ |- _ => destruct H
    | H : exists _, _ |- _ => destruct H
    end; repeat (split || eexists); eauto; lia.
Qed.

(** ** The invariant *)
Definition token_ok (t : token) : Prop :=
  0 <= tk_use t <= tk_res t /\ tk_res t <= tk_cnt t <= tk_sem t.

Record accounting (s : pstate) (ts : list token) : Prop := {
  acc_max : maxMemory s = max;
  acc_size : sem_size (inFlight s) = max;
  acc_held : sem_held (inFlight s) = sumZ tk_sem ts;
  acc_le : sumZ tk_sem ts <= max;
  acc_cnt : inFlightMemory s = sumZ tk_cnt ts;
  acc_use : sumZ memory (executing s) = sumZ tk_use ts;
  acc_tokens : Forall token_ok ts;
  acc_idles : idles_ok (idlesState s);
  acc_bound : idlesMemory (idlesState s) + sumZ tk_res ts <= 2 * max
}.

Record filed (s : pstate) : Prop := {
  filed_idle c : c ∈ idle_containers s -> memory c = mem_of (initializedFor c);
  filed_prewarm key l c : prewarmed s !! key = Some l -> c ∈ l -> prewarm_for key c
}.

(** Occurrences of the container with reference [r]. *)
Definition is_ref (r : nat) (c : PooledContainer) : Z := if decide (ref c = r) then 1 else 0.
Definition occ (r : nat) (l : list PooledContainer) : Z := sumZ (is_ref r) l.
Definition owned (r : nat) (t : token) : Z :=
  match tk_own t !! r with Some _ => 1 | None => 0 end.
Definition running (r : nat) (t : token) : Z :=
  match tk_own t !! r with Some Running => 1 | _ => 0 end.
Definition stored (r : nat) (s : pstate) : Z :=
  occ r (idle_containers s) + occ r (prewarm_containers s)
  + occ r (containersToDeleteForSpace s).

Record exclusive (s : pstate) (ts : list token) : Prop := {
  excl_one r : stored r s + sumZ (owned r) ts <= 1;
  excl_fresh r : (nextRef s <= r)%nat -> stored r s + sumZ (owned r) ts = 0;
  excl_removed r : r ∈ removed s ->
    (r < nextRef s)%nat /\ stored r s + sumZ (owned r) ts = 0;
  excl_running r : occ r (executing s) = sumZ (running r) ts
}.

Definition pause_agrees (s : pstate) (t : token) : Prop :=
  forall r o, tk_own t !! r = Some o -> (r ∈ pausePending s <-> o = PauseScheduled).

Record paused (s : pstate) (ts : list token) : Prop := {
  paused_idle c : c ∈ idle_containers s -> ref c ∈ pausePending s;
  paused_queue c : c ∈ containersToDeleteForSpace s -> ref c ∈ pausePending s;
  paused_prewarm c : c ∈ prewarm_containers s -> ref c ∉ pausePending s;
  paused_fresh r : r ∈ pausePending s -> (r < nextRef s)%nat;
  paused_tokens : Forall (pause_agrees s) ts
}.

Record pool_inv (s : pstate) (ts : list token) : Prop := {
  inv_acc : accounting s ts;
  inv_filed : filed s;
  inv_excl : exclusive s ts;
  inv_paused : paused s ts
}.
End inv.
