(* ===== verification/PoolSound.v ===== *)
(** * The container pool: the atomic operations preserve the invariant *)
From S2P Require Export PoolInv.

(** ** Occurrences *)
Lemma is_ref_range r c : 0 <= is_ref r c <= 1.
Proof. unfold is_ref. case_decide; lia. Qed.
Lemma is_ref_self c : is_ref (ref c) c = 1.
Proof. unfold is_ref. by rewrite decide_True. Qed.
Lemma occ_nonneg r l : 0 <= occ r l.
Proof. apply sumZ_nonneg. intros c _. apply is_ref_range. Qed.
Lemma occ_cons r c l : occ r (c :: l) = is_ref r c + occ r l.
Proof. done. Qed.
Lemma occ_app r l1 l2 : occ r (l1 ++ l2) = occ r l1 + occ r l2.
Proof. apply sumZ_app. Qed.
#[global] Arguments occ : simpl never.
Lemma occ_perm r l1 l2 : l1 ≡ₚ l2 -> occ r l1 = occ r l2.
Proof. apply sumZ_perm. Qed.
Lemma occ_elem c l : c ∈ l -> 1 <= occ (ref c) l.
Proof.
  intros (l1 & l2 & ->)%list_elem_of_split. rewrite occ_app, occ_cons, is_ref_self.
  pose proof (occ_nonneg (ref c) l1). pose proof (occ_nonneg (ref c) l2). lia.
Qed.
Lemma occ_pos_elem r l : 1 <= occ r l -> exists c, c ∈ l /\ ref c = r.
Proof.
  induction l as [|c l IH]; [done|]. rewrite occ_cons. unfold is_ref. case_decide as E.
  - intros _. exists c. set_solver.
  - intros Ho. destruct IH as (d & ? & ?); [lia|]. exists d. set_solver.
Qed.
Lemma occ_NoDup l : (forall r, occ r l <= 1) -> NoDup (ref <$> l).
Proof.
  induction l as [|c l IH]; intros Ho; cbn; [constructor|]. constructor.
  - intros (d & Hd & Hin)%list_elem_of_fmap. specialize (Ho (ref c)).
    rewrite occ_cons, is_ref_self in Ho. apply occ_elem in Hin. rewrite <- Hd in Hin. lia.
  - apply IH. intros r. specialize (Ho r). rewrite occ_cons in Ho.
    pose proof (is_ref_range r c). lia.
Qed.
Lemma NoDup_occ l r : NoDup (ref <$> l) -> occ r l <= 1.
Proof.
  induction l as [|c l IH]; [done|]. cbn. intros [Hc Hl]%NoDup_cons. rewrite occ_cons.
  unfold is_ref. case_decide as E; [|specialize (IH Hl); lia].
  destruct (Z.le_gt_cases 1 (occ r l)) as [(d & Hd & Hr)%occ_pos_elem|]; [|lia].
  exfalso. apply Hc. apply list_elem_of_fmap. exists d. by rewrite E, Hr.
Qed.

(** ** Tokens *)
Lemma owned_range r t : 0 <= owned r t <= 1.
Proof. unfold owned. case_match; lia. Qed.
Lemma running_owned r t : 0 <= running r t <= owned r t.
Proof. unfold running, owned. repeat case_match; lia. Qed.
Lemma owned_some r t o : tk_own t !! r = Some o -> owned r t = 1.
Proof. unfold owned. by intros ->. Qed.
Lemma owned_none r t : owned r t = 0 -> tk_own t !! r = None.
Proof. unfold owned. by case_match. Qed.
Lemma owned_as r c o t : owned r (own_as c o t) = if decide (c = r) then 1 else owned r t.
Proof. unfold owned, own_as. cbn. rewrite lookup_insert. by case_decide. Qed.
Lemma owned_disown r c t : owned r (disown c t) = if decide (c = r) then 0 else owned r t.
Proof. unfold owned, disown. cbn. rewrite lookup_delete. by case_decide. Qed.

Lemma own_all_lookup cs t r :
  tk_own (own_all cs t) !! r =
    if decide (1 <= occ r cs) then Some PauseScheduled else tk_own t !! r.
Proof.
  induction cs as [|c cs IH]; [done|]. cbn [own_all foldr]. fold (own_all cs t).
  unfold own_as at 1. cbn. rewrite lookup_insert, IH, occ_cons. unfold is_ref.
  pose proof (occ_nonneg r cs). repeat case_decide; (done || lia).
Qed.
Lemma own_all_numbers cs t :
  tk_sem (own_all cs t) = tk_sem t /\ tk_cnt (own_all cs t) = tk_cnt t /\
  tk_res (own_all cs t) = tk_res t /\ tk_use (own_all cs t) = tk_use t.
Proof. induction cs; cbn; auto. Qed.
Lemma owned_own_all r cs t :
  owned r (own_all cs t) = if decide (1 <= occ r cs) then 1 else owned r t.
Proof. unfold owned at 1. rewrite own_all_lookup. case_decide; done. Qed.

Section sound.
Context `{WeightedSemaphoreLaws}.
Context {MI : MapRange WarmContainerKey (list PooledContainer)}.
Context {MP : MapRange PrewarmContainerKey (list PooledContainer)}.
Context {MM : MapRange string RuntimeManifest} {MN : MapRange PrewarmContainerKey Z}.
Context (mem_of : WarmContainerKey -> Z) (max : Z).

(** ** Accounting *)
Lemma acc_sums s ts : accounting max s ts ->
  0 <= sumZ tk_use ts <= sumZ tk_res ts /\ sumZ tk_res ts <= sumZ tk_cnt ts <= sumZ tk_sem ts.
Proof.
  intros Ha. pose proof (acc_tokens _ _ _ Ha) as Hts. rewrite Forall_forall in Hts.
  split; split; (apply sumZ_nonneg || apply sumZ_le);
    intros t Ht; specialize (Hts t Ht); unfold token_ok in Hts; lia.
Qed.

Lemma acc_token s T1 t T2 : accounting max s (T1 ++ t :: T2) -> token_ok t.
Proof.
  intros Ha. pose proof (acc_tokens _ _ _ Ha) as Hts. rewrite Forall_forall in Hts.
  apply Hts. set_solver.
Qed.

(** Changing one token along with the state. *)
Lemma acc_step s s' T1 t t' T2 :
  accounting max s (T1 ++ t :: T2) ->
  maxMemory s' = maxMemory s -> sem_size (inFlight s') = sem_size (inFlight s) ->
  sem_held (inFlight s') - sem_held (inFlight s) = tk_sem t' - tk_sem t ->
  sem_held (inFlight s') <= max ->
  inFlightMemory s' - inFlightMemory s = tk_cnt t' - tk_cnt t ->
  sumZ memory (executing s') - sumZ memory (executing s) = tk_use t' - tk_use t ->
  token_ok t' -> idles_ok (idlesState s') ->
  idlesMemory (idlesState s') + tk_res t' <= idlesMemory (idlesState s) + tk_res t
    \/ idlesMemory (idlesState s') <= max ->
  accounting max s' (T1 ++ t' :: T2).
Proof.
  intros Ha Hmax Hsize Hheld Hle Hcnt Huse Htok Hidle Hbound.
  assert (Htoks : Forall token_ok (T1 ++ t' :: T2)).
  { pose proof (acc_tokens _ _ _ Ha) as Hts.
    rewrite Forall_app, Forall_cons in *. destruct Hts as (? & ? & ?). by split_and!. }
  pose proof (acc_sums _ _ Ha) as Hsums.
  assert (Hs' : sumZ tk_res (T1 ++ t' :: T2) <= sumZ tk_cnt (T1 ++ t' :: T2)
                <= sumZ tk_sem (T1 ++ t' :: T2)).
  { rewrite Forall_forall in Htoks. unfold token_ok in Htoks.
    split; apply sumZ_le; intros x Hx; specialize (Htoks x Hx); lia. }
  destruct Ha. constructor; autorewrite with invoker in *; try done; lia.
Qed.

Lemma acc_same s s' T1 t t' T2 :
  accounting max s (T1 ++ t :: T2) ->
  maxMemory s' = maxMemory s -> inFlight s' = inFlight s ->
  inFlightMemory s' = inFlightMemory s -> executing s' = executing s ->
  idlesState s' = idlesState s ->
  tk_sem t' = tk_sem t -> tk_cnt t' = tk_cnt t -> tk_res t' = tk_res t ->
  tk_use t' = tk_use t ->
  accounting max s' (T1 ++ t' :: T2).
Proof.
  intros Ha E1 E2 E3 E4 E5 F1 F2 F3 F4.
  eapply acc_step; [exact Ha|..]; rewrite ?E1, ?E2, ?E3, ?E4, ?E5, ?F1, ?F2, ?F3, ?F4; try lia.
  - rewrite (acc_held _ _ _ Ha). apply (acc_le _ _ _ Ha).
  - pose proof (acc_token _ _ _ _ Ha). unfold token_ok in *. lia.
  - apply Ha.
Qed.

(** ** Exclusive ownership *)
Lemma excl_sum r (s : pstate) T1 t T2 :
  exclusive s (T1 ++ t :: T2) ->
  stored r s + sumZ (owned r) T1 + owned r t + sumZ (owned r) T2 <= 1.
Proof. intros He. pose proof (excl_one _ _ He r). autorewrite with invoker in *. lia. Qed.

Lemma owned_sum_nonneg r ts : 0 <= sumZ (owned r) ts.
Proof. apply sumZ_nonneg. intros t _. apply owned_range. Qed.
Lemma stored_nonneg r (s : pstate) : 0 <= stored r s.
Proof.
  unfold stored. pose proof (occ_nonneg r (idle_containers s)).
  pose proof (occ_nonneg r (prewarm_containers s)).
  pose proof (occ_nonneg r (containersToDeleteForSpace s)). lia.
Qed.

(** Nobody else has what one goroutine owns. *)
Lemma excl_owner r (s : pstate) T1 t T2 :
  exclusive s (T1 ++ t :: T2) -> owned r t = 1 ->
  stored r s = 0 /\ sumZ (owned r) T1 = 0 /\ sumZ (owned r) T2 = 0.
Proof.
  intros He Ho. pose proof (excl_sum r s T1 t T2 He). pose proof (stored_nonneg r s).
  pose proof (owned_sum_nonneg r T1). pose proof (owned_sum_nonneg r T2). lia.
Qed.

(** A goroutine owns nothing that is stored. *)
Lemma excl_stored r (s : pstate) T1 t T2 :
  exclusive s (T1 ++ t :: T2) -> 1 <= stored r s -> owned r t = 0.
Proof.
  intros He Ho. pose proof (excl_sum r s T1 t T2 He). pose proof (owned_range r t).
  pose proof (owned_sum_nonneg r T1). pose proof (owned_sum_nonneg r T2). lia.
Qed.

Lemma sum_zero_elem r ts t : sumZ (owned r) ts = 0 -> t ∈ ts -> tk_own t !! r = None.
Proof.
  intros Hs Ht. apply owned_none. pose proof (sumZ_elem_le (owned r) ts t) as Hle.
  specialize (Hle ltac:(intros; apply owned_range) Ht). pose proof (owned_range r t). lia.
Qed.

Lemma excl_step s s' T1 t t' T2 :
  exclusive s (T1 ++ t :: T2) ->
  nextRef s' = nextRef s -> removed s' = removed s ->
  (forall r, stored r s' + owned r t' <= stored r s + owned r t) ->
  (forall r, occ r (executing s') - occ r (executing s) = running r t' - running r t) ->
  exclusive s' (T1 ++ t' :: T2).
Proof.
  intros He Hn Hrem Hso Hrun. constructor; intros r.
  - pose proof (excl_one _ _ He r). specialize (Hso r). autorewrite with invoker in *. lia.
  - intros Hr. rewrite Hn in Hr. pose proof (excl_fresh _ _ He r Hr). specialize (Hso r).
    autorewrite with invoker in *. pose proof (stored_nonneg r s').
    pose proof (owned_sum_nonneg r T1). pose proof (owned_sum_nonneg r T2).
    pose proof (owned_range r t'). lia.
  - rewrite Hrem, Hn. intros Hr. destruct (excl_removed _ _ He r Hr) as [? Hz]. split; [done|].
    specialize (Hso r). autorewrite with invoker in *. pose proof (stored_nonneg r s').
    pose proof (owned_sum_nonneg r T1). pose proof (owned_sum_nonneg r T2).
    pose proof (owned_range r t'). lia.
  - pose proof (excl_running _ _ He r). specialize (Hrun r).
    autorewrite with invoker in *. lia.
Qed.

Lemma excl_remove (s : pstate) T1 t T2 c :
  exclusive s (T1 ++ t :: T2) -> tk_own t !! c = Some Plain ->
  exclusive (set_removed ({[c]} ∪ removed s) s) (T1 ++ disown c t :: T2).
Proof.
  intros He Ho. assert (Hown := owned_some _ _ _ Ho).
  assert (He' : exclusive s (T1 ++ disown c t :: T2)).
  { eapply excl_step; [done..| |]; intros r; rewrite ?owned_disown.
    - pose proof (owned_range r t). case_decide; lia.
    - unfold running, disown. cbn. rewrite lookup_delete. case_decide; [|lia].
      subst. rewrite Ho. lia. }
  destruct (excl_owner c s T1 t T2 He Hown) as (Hs & H1 & H2).
  constructor; cbn; try apply He'. intros r Hr. apply elem_of_union in Hr as [Hr|Hr];
    [|by apply (excl_removed _ _ He')].
  apply elem_of_singleton in Hr as ->. split.
  - destruct (Nat.lt_ge_cases c (nextRef s)) as [|Hge]; [done|].
    apply (excl_fresh _ _ He) in Hge. autorewrite with invoker in Hge. lia.
  - autorewrite with invoker. rewrite owned_disown, decide_True by done.
    change (stored c (set_removed _ s)) with (stored c s). lia.
Qed.

Lemma excl_create (s : pstate) T1 t T2 :
  exclusive s (T1 ++ t :: T2) ->
  exclusive (set_nextRef (S (nextRef s)) s) (T1 ++ own_as (nextRef s) Plain t :: T2).
Proof.
  intros He. pose proof (excl_fresh _ _ He (nextRef s) (le_n _)) as Hf.
  autorewrite with invoker in Hf.
  pose proof (owned_sum_nonneg (nextRef s) T1). pose proof (owned_sum_nonneg (nextRef s) T2).
  pose proof (owned_range (nextRef s) t). pose proof (stored_nonneg (nextRef s) s).
  assert (Heq : forall r, r <> nextRef s ->
    sumZ (owned r) (T1 ++ own_as (nextRef s) Plain t :: T2) = sumZ (owned r) (T1 ++ t :: T2)).
  { intros r Hne. autorewrite with invoker. rewrite owned_as, decide_False by done. lia. }
  constructor; cbn; intros r.
  - destruct (decide (r = nextRef s)) as [->|Hne].
    + autorewrite with invoker. rewrite owned_as, decide_True by done.
      change (stored (nextRef s) (set_nextRef _ s)) with (stored (nextRef s) s). lia.
    + rewrite Heq by done. apply (excl_one _ _ He).
  - intros Hr. rewrite Heq by lia. apply (excl_fresh _ _ He). lia.
  - intros Hr. destruct (excl_removed _ _ He r Hr) as [Hlt Hz]. split; [lia|].
    rewrite Heq by lia. done.
  - rewrite (excl_running _ _ He). autorewrite with invoker.
    assert (running r (own_as (nextRef s) Plain t) = running r t) as ->; [|lia].
    unfold running, own_as. cbn. rewrite lookup_insert. case_decide; [|done]. subst.
    rewrite owned_none by lia. done.
Qed.

(** ** Pending pauses *)
Lemma paused_step (s s' : pstate) T1 t t' T2 :
  paused s (T1 ++ t :: T2) ->
  pausePending s' = pausePending s -> (nextRef s <= nextRef s')%nat ->
  (forall c, c ∈ idle_containers s' -> ref c ∈ pausePending s) ->
  (forall c, c ∈ containersToDeleteForSpace s' -> ref c ∈ pausePending s) ->
  (forall c, c ∈ prewarm_containers s' -> ref c ∉ pausePending s) ->
  pause_agrees s t' ->
  paused s' (T1 ++ t' :: T2).
Proof.
  intros Hp E Hn Hi Hq Hw Ht. constructor; rewrite ?E; try done.
  - intros r Hr. apply (paused_fresh _ _ Hp) in Hr. lia.
  - pose proof (paused_tokens _ _ Hp) as Hts. unfold pause_agrees in *. rewrite E.
    rewrite Forall_app, Forall_cons in *. destruct Hts as (? & ? & ?). by split_and!.
Qed.

Lemma paused_token (s : pstate) T1 t T2 : paused s (T1 ++ t :: T2) -> pause_agrees s t.
Proof.
  intros Hp. pose proof (paused_tokens _ _ Hp) as Hts. rewrite Forall_forall in Hts.
  apply Hts. set_solver.
Qed.

Lemma owner_known (s : pstate) T1 t T2 r :
  exclusive s (T1 ++ t :: T2) -> owned r t = 1 -> (r < nextRef s)%nat.
Proof.
  intros He Ho. destruct (Nat.lt_ge_cases r (nextRef s)) as [|Hge]; [done|].
  pose proof (excl_fresh _ _ He r Hge) as Hz. autorewrite with invoker in Hz.
  pose proof (stored_nonneg r s). pose proof (owned_sum_nonneg r T1).
  pose proof (owned_sum_nonneg r T2). lia.
Qed.

Lemma not_stored_elem (s : pstate) r c :
  stored r s = 0 ->
  c ∈ idle_containers s \/ c ∈ prewarm_containers s \/ c ∈ containersToDeleteForSpace s ->
  ref c <> r.
Proof.
  intros Hs Hc <-. unfold stored in Hs. pose proof (occ_nonneg (ref c) (idle_containers s)).
  pose proof (occ_nonneg (ref c) (prewarm_containers s)).
  pose proof (occ_nonneg (ref c) (containersToDeleteForSpace s)).
  destruct Hc as [Hc|[Hc|Hc]]; apply occ_elem in Hc; lia.
Qed.

(** A goroutine changes the pause state of a container it owns. *)
Lemma paused_change (s : pstate) T1 t T2 r o pending' :
  paused s (T1 ++ t :: T2) -> exclusive s (T1 ++ t :: T2) -> owned r t = 1 ->
  (forall r', r' <> r -> r' ∈ pending' <-> r' ∈ pausePending s) ->
  (r ∈ pending' <-> o = PauseScheduled) ->
  paused (set_pausePending pending' s) (T1 ++ own_as r o t :: T2).
Proof.
  intros Hp He Ho Hoth Hr. destruct (excl_owner r s T1 t T2 He Ho) as (Hs & H1 & H2).
  pose proof (not_stored_elem s r) as Hne. constructor; cbn.
  - intros c Hc. apply Hoth; [by eauto|]. by apply (paused_idle _ _ Hp).
  - intros c Hc. apply Hoth; [by eauto 10|]. by apply (paused_queue _ _ Hp).
  - intros c Hc. rewrite Hoth by eauto. by apply (paused_prewarm _ _ Hp).
  - intros r' Hr'. destruct (decide (r' = r)) as [->|Hne'].
    + by apply (owner_known s T1 t T2).
    + apply Hoth in Hr'; [|done]. by apply (paused_fresh _ _ Hp).
  - assert (Hother : forall ts, sumZ (owned r) ts = 0 -> Forall (pause_agrees s) ts ->
      Forall (pause_agrees (set_pausePending pending' s)) ts).
    { intros ts Hz. rewrite !Forall_forall. intros Hag x Hx r' o' Hr'. cbn.
      assert (r' <> r). { intros ->. rewrite (sum_zero_elem r ts x) in Hr'; done. }
      rewrite Hoth by done. by apply (Hag x). }
    pose proof (paused_tokens _ _ Hp) as Hts. rewrite Forall_app, Forall_cons in *.
    destruct Hts as (Hf1 & Ht & Hf2). split_and!; [by apply Hother| |by apply Hother].
    intros r' o'. unfold own_as. cbn. rewrite lookup_insert. case_decide as E.
    + subst. by intros [= <-].
    + intros Hr'. rewrite Hoth by done. by apply Ht.
Qed.

(** ** Operations that move numbers only, or nothing that matters *)
Lemma inv_numbers s s' T1 t t' T2 :
  pool_inv mem_of max s (T1 ++ t :: T2) -> tk_own t' = tk_own t ->
  idlesState s' = idlesState s -> prewarmed s' = prewarmed s ->
  containersToDeleteForSpace s' = containersToDeleteForSpace s ->
  nextRef s' = nextRef s -> pausePending s' = pausePending s -> removed s' = removed s ->
  executing s' = executing s ->
  accounting max s' (T1 ++ t' :: T2) ->
  pool_inv mem_of max s' (T1 ++ t' :: T2).
Proof.
  intros [Ha Hf He Hp] Hown E1 E2 E3 E4 E5 E6 E7 Ha'.
  assert (Es : forall r, stored r s' = stored r s)
    by (intros r; unfold stored, idle_containers, prewarm_containers; congruence).
  constructor; [done| | |].
  - destruct Hf as [Hi Hw]. constructor; unfold idle_containers; [rewrite E1|rewrite E2]; auto.
  - eapply excl_step; [done..| |]; intros r; rewrite ?Es, ?E7;
      unfold owned, running; rewrite Hown; lia.
  - eapply paused_step; [done..|lia| | | |];
      unfold idle_containers, prewarm_containers; rewrite ?E1, ?E2, ?E3; try apply Hp.
    unfold pause_agrees. rewrite Hown. by eapply (paused_token s T1 t T2).
Qed.

Lemma inv_frame s s' T1 t T2 :
  pool_inv mem_of max s (T1 ++ t :: T2) ->
  maxMemory s' = maxMemory s -> inFlight s' = inFlight s ->
  inFlightMemory s' = inFlightMemory s ->
  idlesState s' = idlesState s -> prewarmed s' = prewarmed s ->
  containersToDeleteForSpace s' = containersToDeleteForSpace s ->
  nextRef s' = nextRef s -> pausePending s' = pausePending s -> removed s' = removed s ->
  executing s' = executing s ->
  pool_inv mem_of max s' (T1 ++ t :: T2).
Proof.
  intros Hinv. intros. eapply inv_numbers; [done..|]. eapply acc_same; [|done..].
  apply Hinv.
Qed.

(** ** Moving containers between the pool and a goroutine *)
Lemma pause_agrees_own_all (s : pstate) cs t :
  pause_agrees s t -> (forall c, c ∈ cs -> ref c ∈ pausePending s) ->
  pause_agrees s (own_all cs t).
Proof.
  intros Ht Hcs r o. rewrite own_all_lookup. case_decide as Ho; [|apply Ht].
  intros [= <-]. apply occ_pos_elem in Ho as (c & Hc & <-). split; [done|]. auto.
Qed.

Lemma running_own_all r cs t :
  (forall c, c ∈ cs -> tk_own t !! ref c = None) -> running r (own_all cs t) = running r t.
Proof.
  intros Hcs. unfold running. rewrite own_all_lookup. case_decide as Ho; [|done].
  apply occ_pos_elem in Ho as (c & Hc & <-). by rewrite Hcs.
Qed.

(** Containers [cs] leave the idle lists or the queue for a goroutine. *)
Lemma inv_obtain s s' T1 t t' T2 cs :
  pool_inv mem_of max s (T1 ++ t :: T2) ->
  tk_own t' = tk_own (own_all cs t) ->
  accounting max s' (T1 ++ t' :: T2) ->
  (forall c, c ∈ cs -> ref c ∈ pausePending s) ->
  (forall c, c ∈ cs -> tk_own t !! ref c = None) ->
  prewarmed s' = prewarmed s -> nextRef s' = nextRef s -> pausePending s' = pausePending s ->
  removed s' = removed s -> executing s' = executing s ->
  (forall c, c ∈ idle_containers s' -> c ∈ idle_containers s) ->
  (forall c, c ∈ containersToDeleteForSpace s' -> c ∈ containersToDeleteForSpace s) ->
  (forall r, stored r s = occ r cs + stored r s') ->
  pool_inv mem_of max s' (T1 ++ t' :: T2).
Proof.
  intros [Ha Hf He Hp] Hown Ha' Hpend Hnone E1 E2 E3 E4 E5 Hi Hq Hst.
  constructor; [done| | |].
  - destruct Hf as [Hfi Hfw]. constructor; [auto|]. rewrite E1. exact Hfw.
  - eapply excl_step; [done..| |]; intros r.
    + specialize (Hst r). assert (owned r t' = owned r (own_all cs t)) as ->
        by (unfold owned; by rewrite Hown).
      rewrite owned_own_all. pose proof (owned_range r t). pose proof (occ_nonneg r cs).
      case_decide; lia.
    + rewrite E5. assert (running r t' = running r (own_all cs t)) as ->
        by (unfold running; by rewrite Hown).
      rewrite running_own_all by done. lia.
  - eapply paused_step; [done..|lia| | | |].
    + intros c Hc. apply (paused_idle _ _ Hp). auto.
    + intros c Hc. apply (paused_queue _ _ Hp). auto.
    + unfold prewarm_containers. rewrite E1. apply Hp.
    + unfold pause_agrees. rewrite Hown. apply pause_agrees_own_all; [|done].
      by eapply (paused_token s T1 t T2).
Qed.
End sound.
