(* ===== verification/PoolOpSound.v ===== *)
(** * The container pool: soundness of every atomic operation *)
From S2P Require Export PoolSound.

Section op_sound.
Context `{WeightedSemaphoreLaws}.
Context {MI : MapRange WarmContainerKey (list PooledContainer)}.
Context {MP : MapRange PrewarmContainerKey (list PooledContainer)}.
Context {MM : MapRange string RuntimeManifest} {MN : MapRange PrewarmContainerKey Z}.
Context (mem_of : WarmContainerKey -> Z) (max : Z).
Context (max_range : 0 <= max < 2 ^ 62).

Notation inv := (pool_inv mem_of max).

Lemma acc_idles_bound s ts : accounting max s ts ->
  0 <= idlesMemory (idlesState s) <= 2 * max.
Proof.
  intros Ha. pose proof (acc_sums _ _ _ Ha). pose proof (acc_bound _ _ _ Ha).
  destruct (acc_idles _ _ _ Ha) as (_ & Hnn & -> & _).
  pose proof (msum_nonneg memory (idles (idlesState s)) Hnn).
  pose proof (acc_idles _ _ _ Ha) as (_ & _ & Hm & _). lia.
Qed.

Lemma sound_acquire s T1 t T2 n sm :
  inv s (T1 ++ t :: T2) -> 0 <= n -> sem_acquire n (inFlight s) = Some sm ->
  inv (set_inFlight sm s) (T1 ++ add_sem n t :: T2).
Proof.
  intros Hinv Hn Hsm. destruct (sem_acquire_spec _ _ _ Hn Hsm) as (Hsz & Hh & Hle).
  eapply inv_numbers; [done..|].
  pose proof (acc_token _ _ _ _ _ (inv_acc _ _ _ _ Hinv)) as Htok.
  eapply (acc_step _ s); [apply Hinv|done|done|..]; cbn; try lia.
  - rewrite <- (acc_size _ _ _ (inv_acc _ _ _ _ Hinv)). lia.
  - unfold token_ok in *. cbn. lia.
  - apply Hinv.
Qed.

Lemma sound_release s T1 t T2 n sm :
  inv s (T1 ++ t :: T2) -> 0 <= n <= tk_sem t - tk_cnt t ->
  sem_release n (inFlight s) = Some sm ->
  inv (set_inFlight sm s) (T1 ++ add_sem (- n) t :: T2).
Proof.
  intros Hinv Hn Hsm. pose proof (inv_acc _ _ _ _ Hinv) as Ha.
  pose proof (acc_token _ _ _ _ _ Ha) as Htok. unfold token_ok in Htok.
  pose proof (acc_held _ _ _ Ha) as Hheld. pose proof (acc_le _ _ _ Ha) as Hle.
  assert (n <= sem_held (inFlight s)).
  { rewrite Hheld. pose proof (sumZ_elem_le tk_sem (T1 ++ t :: T2) t) as Hel.
    specialize (Hel ltac:(intros y Hy; pose proof (acc_tokens _ _ _ Ha) as Hts;
      rewrite Forall_forall in Hts; specialize (Hts y Hy); unfold token_ok in Hts; lia)
      ltac:(set_solver)). lia. }
  destruct (sem_release_spec n (inFlight s)) as (sm' & Hsm' & Hsz & Hh); [lia|done|].
  assert (sm' = sm) as -> by congruence.
  eapply inv_numbers; [done..|].
  eapply (acc_step _ s); [done|done|done|..]; cbn; try lia.
  - unfold token_ok. cbn. lia.
  - apply Ha.
Qed.

Lemma sound_inFlightMemory s T1 t T2 m r :
  inv s (T1 ++ t :: T2) -> tk_use t <= r <= tk_cnt t + m -> r <= tk_res t ->
  tk_cnt t + m <= tk_sem t ->
  let v := u64 (inFlightMemory s + u64 m) in
  0 <= v <= max /\
  inv (set_inFlightMemory v s) (T1 ++ set_cnt (tk_cnt t + m) r t :: T2).
Proof.
  intros Hinv Hr Hrr Hm v. pose proof (inv_acc _ _ _ _ Hinv) as Ha.
  pose proof (acc_token _ _ _ _ _ Ha) as Htok. unfold token_ok in Htok.
  pose proof (acc_cnt _ _ _ Ha) as Hc. pose proof (acc_le _ _ _ Ha) as Hle.
  assert (Hts : Forall token_ok (T1 ++ set_cnt (tk_cnt t + m) r t :: T2)).
  { pose proof (acc_tokens _ _ _ Ha) as Hts. rewrite Forall_app, Forall_cons in *.
    destruct Hts as (? & ? & ?). split_and!; try done. unfold token_ok; cbn. lia. }
  assert (Hsum : 0 <= sumZ tk_cnt (T1 ++ set_cnt (tk_cnt t + m) r t :: T2)
                 <= sumZ tk_sem (T1 ++ set_cnt (tk_cnt t + m) r t :: T2)).
  { rewrite Forall_forall in Hts. split; [apply sumZ_nonneg|apply sumZ_le];
      intros x Hx; specialize (Hts x Hx); unfold token_ok in Hts; lia. }
  autorewrite with invoker in *. cbn [tk_cnt tk_sem set_cnt] in Hsum.
  assert (Hv : v = inFlightMemory s + m).
  { unfold v. rewrite u64_idemp_add_r. apply u64_small. lia. }
  split; [lia|]. eapply inv_numbers; [done..|].
  eapply (acc_step _ s); [done|done|done|..]; cbn; try lia.
  - rewrite (acc_held _ _ _ Ha). autorewrite with invoker. lia.
  - unfold token_ok. cbn. lia.
  - apply Ha.
Qed.

Lemma obtained_fresh s T1 t T2 r :
  inv s (T1 ++ t :: T2) -> 1 <= stored r s -> tk_own t !! r = None.
Proof. intros Hinv Hr. apply owned_none. eapply excl_stored; [apply Hinv|done]. Qed.

Lemma stored_le_one s T1 t T2 r : inv s (T1 ++ t :: T2) -> stored r s <= 1.
Proof.
  intros Hinv. pose proof (excl_sum r s T1 t T2 (inv_excl _ _ _ _ Hinv)).
  pose proof (owned_sum_nonneg r T1). pose proof (owned_sum_nonneg r T2).
  pose proof (owned_range r t). lia.
Qed.

Lemma stored_idles s st cs r :
  idle_containers s ≡ₚ cs ++ elems (idles st) ->
  stored r s = occ r cs + stored r (set_idlesState st s).
Proof.
  intros Hp. unfold stored, idle_containers in *. cbn. rewrite (occ_perm r _ _ Hp), occ_app.
  unfold prewarm_containers. cbn. lia.
Qed.

(** Containers [cs] that leave the idle lists are new to the goroutine. *)
Lemma idles_taken s T1 t T2 st cs :
  inv s (T1 ++ t :: T2) -> idle_containers s ≡ₚ cs ++ elems (idles st) ->
  NoDup (ref <$> cs) /\ (forall c, c ∈ cs -> tk_own t !! ref c = None) /\
  (forall c, c ∈ cs -> ref c ∈ pausePending s).
Proof.
  intros Hinv Hp.
  assert (Hle : forall r, occ r cs <= stored r s).
  { intros r. rewrite (stored_idles s st cs r Hp).
    pose proof (stored_nonneg r (set_idlesState st s)). lia. }
  split_and!.
  - apply occ_NoDup. intros r. specialize (Hle r).
    pose proof (stored_le_one s T1 t T2 r Hinv). lia.
  - intros c Hc. eapply obtained_fresh; [done|]. apply occ_elem in Hc.
    specialize (Hle (ref c)). lia.
  - intros c Hc. apply (paused_idle _ _ (inv_paused _ _ _ _ Hinv)). rewrite Hp. set_solver.
Qed.

Lemma sound_takeIdle s T1 t T2 data v seed r st' :
  inv s (T1 ++ t :: T2) -> 0 <= v <= max -> tk_res t + mem_of data <= tk_cnt t ->
  0 <= mem_of data ->
  takeIdle seed (maxMemory s) data v (idlesState s) = (r, st') ->
  match r with
  | TakeWarm c =>
      initializedFor c = data /\ memory c = mem_of data /\ tk_own t !! ref c = None /\
      inv (set_idlesState st' s)
          (T1 ++ own_as (ref c) PauseScheduled (add_res (mem_of data) t) :: T2)
  | TakeCold cs =>
      NoDup (ref <$> cs) /\ (forall c, c ∈ cs -> tk_own t !! ref c = None) /\
      inv (set_idlesState st' s) (T1 ++ own_all cs (add_res (mem_of data) t) :: T2)
  | _ => False
  end.
Proof.
  intros Hinv Hv Hres Hnn Htake. pose proof (inv_acc _ _ _ _ Hinv) as Ha.
  pose proof (acc_idles_bound _ _ Ha) as Hib. pose proof (acc_token _ _ _ _ _ Ha) as Htok.
  unfold token_ok in Htok.
  pose proof (takeIdle_spec seed (maxMemory s) data v (idlesState s) (acc_idles _ _ _ Ha)) as Hs.
  rewrite Htake, (acc_max _ _ _ Ha) in Hs. specialize (Hs Hv ltac:(lia)).
  destruct r as [c|cs| |]; [| |done|done].
  - destruct Hs as (Hok' & Hkey & _ & Hperm & Hmem).
    assert (Hc : memory c = mem_of data).
    { rewrite (filed_idle _ _ (inv_filed _ _ _ _ Hinv)); [by rewrite Hkey|].
      unfold idle_containers. rewrite Hperm. set_solver. }
    destruct (idles_taken s T1 t T2 st' [c] Hinv Hperm) as (_ & Hnone & Hpend).
    split_and!; [done|done|apply Hnone; set_solver|].
    apply (inv_obtain mem_of max s _ T1 t _ T2 [c]); try done.
    + eapply (acc_step _ s); [done|done|done|..]; cbn; try lia.
      * rewrite (acc_held _ _ _ Ha). apply (acc_le _ _ _ Ha).
      * unfold token_ok. cbn. lia.
      * done.
    + intros d Hd. unfold idle_containers in *. cbn in Hd. rewrite Hperm. set_solver.
    + intros r. by apply stored_idles.
  - destruct Hs as (Hok' & _ & Hperm & Hfit & _).
    destruct (idles_taken s T1 t T2 st' cs Hinv Hperm) as (Hnd & Hnone & Hpend).
    split_and!; [done|done|].
    destruct (own_all_numbers cs (add_res (mem_of data) t)) as (N1 & N2 & N3 & N4).
    apply (inv_obtain mem_of max s _ T1 t _ T2 cs); try done.
    + apply map_eq. intros r. by rewrite !own_all_lookup.
    + eapply (acc_step _ s); [done|done|done|..]; cbn in *; rewrite ?N1, ?N2, ?N3, ?N4; try lia.
      * rewrite (acc_held _ _ _ Ha). apply (acc_le _ _ _ Ha).
      * unfold token_ok. rewrite N1, N2, N3, N4. lia.
      * done.
    + intros d Hd. unfold idle_containers in *. cbn in Hd. rewrite Hperm. set_solver.
    + intros r. by apply stored_idles.
Qed.

Lemma sound_reapIdles s T1 t T2 seed olderThan cs st' :
  inv s (T1 ++ t :: T2) -> reapIdles seed olderThan (idlesState s) = (cs, st') ->
  NoDup (ref <$> cs) /\ (forall c, c ∈ cs -> tk_own t !! ref c = None) /\
  inv (set_idlesState st' s) (T1 ++ own_all cs t :: T2).
Proof.
  intros Hinv Hreap. pose proof (inv_acc _ _ _ _ Hinv) as Ha.
  pose proof (acc_token _ _ _ _ _ Ha) as Htok.
  destruct (reapIdles_spec seed olderThan _ (acc_idles _ _ _ Ha)) as
    (cs' & st'' & Heq & Hok' & Hperm & _). rewrite Hreap in Heq. simplify_eq.
  destruct (idles_taken s T1 t T2 st'' cs' Hinv Hperm) as (Hnd & Hnone & Hpend).
  split_and!; [done|done|].
  destruct (own_all_numbers cs' t) as (N1 & N2 & N3 & N4).
  assert (Hle : idlesMemory st'' <= idlesMemory (idlesState s)).
  { destruct Hok' as (_ & _ & -> & _). destruct (acc_idles _ _ _ Ha) as (_ & Hnn & -> & _).
    unfold msum. rewrite (sumZ_perm memory _ _ Hperm), sumZ_app.
    assert (0 <= sumZ memory cs'); [|lia]. apply sumZ_nonneg. intros c Hc. apply Hnn.
    rewrite Hperm. set_solver. }
  apply (inv_obtain mem_of max s _ T1 t _ T2 cs'); try done.
  - eapply (acc_step _ s); [done|done|done|..]; cbn in *; rewrite ?N1, ?N2, ?N3, ?N4; try lia.
    + rewrite (acc_held _ _ _ Ha). apply (acc_le _ _ _ Ha).
    + unfold token_ok in *. rewrite N1, N2, N3, N4. lia.
    + done.
  - intros d Hd. unfold idle_containers in *. cbn in Hd. rewrite Hperm. set_solver.
  - intros r. by apply stored_idles.
Qed.

Lemma sound_receive s T1 t T2 c q :
  inv s (T1 ++ t :: T2) -> containersToDeleteForSpace s = c :: q ->
  tk_own t !! ref c = None /\
  inv (set_toDelete q s) (T1 ++ own_as (ref c) PauseScheduled t :: T2).
Proof.
  intros Hinv Hq.
  assert (Hst : forall r, stored r s = occ r [c] + stored r (set_toDelete q s)).
  { intros r. unfold stored, idle_containers, prewarm_containers. cbn. rewrite Hq, !occ_cons.
    change (occ r []) with 0. lia. }
  assert (Hnone : tk_own t !! ref c = None).
  { eapply obtained_fresh; [done|]. rewrite Hst, occ_cons, is_ref_self.
    pose proof (stored_nonneg (ref c) (set_toDelete q s)). change (occ (ref c) []) with 0. lia. }
  split; [done|]. apply (inv_obtain mem_of max s _ T1 t _ T2 [c]); try done.
  - eapply acc_same; [apply Hinv|done..].
  - intros d ->%list_elem_of_singleton.
    apply (paused_queue _ _ (inv_paused _ _ _ _ Hinv)). rewrite Hq. set_solver.
  - intros d ->%list_elem_of_singleton. done.
  - cbn. rewrite Hq. set_solver.
Qed.

(** ** Giving containers back to the pool *)
Lemma disown_stored r (s s' : pstate) c t o :
  tk_own t !! ref c = Some o -> stored r s' = is_ref r c + stored r s ->
  stored r s' + owned r (disown (ref c) t) <= stored r s + owned r t.
Proof.
  intros Ho ->. rewrite owned_disown. unfold is_ref.
  case_decide as E; subst; [rewrite (owned_some _ _ _ Ho)|]; lia.
Qed.

Lemma running_disown r c t o :
  tk_own t !! c = Some o -> o <> Running -> running r (disown c t) = running r t.
Proof.
  intros Ho Hne. unfold running, disown. cbn. rewrite lookup_delete.
  case_decide; [|done]. subst. rewrite Ho. by destruct o.
Qed.

Lemma agrees_disown (s : pstate) c t : pause_agrees s t -> pause_agrees s (disown c t).
Proof. intros Ht r o. unfold disown. cbn. intros [_ Hr]%lookup_delete_Some. by apply Ht. Qed.

(** A goroutine hands the container [c] it owns over to the pool. *)
Lemma inv_give s s' T1 t t' T2 c o :
  inv s (T1 ++ t :: T2) -> tk_own t !! ref c = Some o -> o <> Running ->
  tk_own t' = tk_own (disown (ref c) t) ->
  accounting max s' (T1 ++ t' :: T2) -> filed mem_of s' ->
  nextRef s' = nextRef s -> pausePending s' = pausePending s ->
  removed s' = removed s -> executing s' = executing s ->
  (forall r, stored r s' = is_ref r c + stored r s) ->
  (forall d, d ∈ idle_containers s' -> d ∈ idle_containers s \/ d = c /\ o = PauseScheduled) ->
  (forall d, d ∈ containersToDeleteForSpace s' ->
     d ∈ containersToDeleteForSpace s \/ d = c /\ o = PauseScheduled) ->
  (forall d, d ∈ prewarm_containers s' -> d ∈ prewarm_containers s \/ d = c /\ o = Plain) ->
  inv s' (T1 ++ t' :: T2).
Proof.
  intros [Ha Hf He Hp] Ho Hne Hown Ha' Hf' E1 E2 E3 E4 Hst Hi Hq Hw.
  assert (Hag := paused_token s T1 t T2 Hp (ref c) o Ho).
  constructor; [done|done| |].
  - eapply excl_step; [done..| |]; intros r.
    + assert (owned r t' = owned r (disown (ref c) t)) as -> by (unfold owned; by rewrite Hown).
      eapply disown_stored; [done|]. apply Hst.
    + rewrite E4. assert (running r t' = running r (disown (ref c) t)) as ->
        by (unfold running; by rewrite Hown).
      erewrite running_disown by done. lia.
  - eapply paused_step; [done..|lia| | | |].
    + intros d [Hd|[-> ->]]%Hi; [by apply (paused_idle _ _ Hp)|by apply Hag].
    + intros d [Hd|[-> ->]]%Hq; [by apply (paused_queue _ _ Hp)|by apply Hag].
    + intros d [Hd|[-> ->]]%Hw; [by apply (paused_prewarm _ _ Hp)|by rewrite Hag].
    + unfold pause_agrees. rewrite Hown. apply agrees_disown.
      by eapply (paused_token s T1 t T2).
Qed.

Lemma sound_putIdle s T1 t T2 c :
  inv s (T1 ++ t :: T2) -> tk_own t !! ref c = Some PauseScheduled ->
  memory c = mem_of (initializedFor c) -> 0 <= mem_of (initializedFor c) ->
  memory c <= tk_res t - tk_use t ->
  inv (set_idlesState (putIdle c (idlesState s)) s)
      (T1 ++ disown (ref c) (add_res (- memory c) t) :: T2).
Proof.
  intros Hinv Ho Hmem Hnn Hres. pose proof (inv_acc _ _ _ _ Hinv) as Ha.
  pose proof (acc_token _ _ _ _ _ Ha) as Htok. unfold token_ok in Htok.
  pose proof (acc_idles_bound _ _ Ha) as Hib.
  assert (tk_res t <= max).
  { pose proof (sumZ_elem_le tk_cnt (T1 ++ t :: T2) t) as Hel.
    specialize (Hel ltac:(intros y Hy; pose proof (acc_tokens _ _ _ Ha) as Hts;
      rewrite Forall_forall in Hts; specialize (Hts y Hy); unfold token_ok in Hts; lia)
      ltac:(set_solver)).
    pose proof (acc_sums _ _ _ Ha). pose proof (acc_le _ _ _ Ha). lia. }
  destruct (putIdle_spec c (idlesState s)) as (Hok' & Hperm & Hm & _);
    [apply Ha|lia|lia|].
  eapply (inv_give s _ T1 t _ T2 c PauseScheduled); try done.
  - eapply (acc_step _ s); [done|done|done|..]; cbn [maxMemory inFlight inFlightMemory executing
      idlesState set_idlesState tk_sem tk_cnt tk_res tk_use disown set_own add_res]; try lia.
    + rewrite (acc_held _ _ _ Ha). apply (acc_le _ _ _ Ha).
    + unfold token_ok. cbn. lia.
    + done.
  - destruct (inv_filed _ _ _ _ Hinv) as [Hfi Hfw]. constructor; [|done].
    intros d. unfold idle_containers. cbn [idlesState set_idlesState]. rewrite Hperm.
    intros [->|Hd]%elem_of_cons; auto.
  - intros r. unfold stored, idle_containers, prewarm_containers.
    cbn [idlesState set_idlesState prewarmed containersToDeleteForSpace].
    rewrite (occ_perm r _ _ Hperm), occ_cons. lia.
  - intros d. unfold idle_containers. cbn [idlesState set_idlesState]. rewrite Hperm.
    set_solver.
  - cbn. auto.
  - cbn. auto.
Qed.

Lemma sound_send s T1 t T2 c :
  inv s (T1 ++ t :: T2) -> tk_own t !! ref c = Some PauseScheduled ->
  inv (set_toDelete (containersToDeleteForSpace s ++ [c]) s) (T1 ++ disown (ref c) t :: T2).
Proof.
  intros Hinv Ho. eapply (inv_give s _ T1 t _ T2 c PauseScheduled); try done.
  - eapply acc_same; [apply Hinv|done..].
  - destruct (inv_filed _ _ _ _ Hinv). by constructor.
  - intros r. unfold stored, idle_containers, prewarm_containers.
    cbn [idlesState set_toDelete prewarmed containersToDeleteForSpace].
    rewrite occ_app, occ_cons. change (occ r []) with 0. lia.
  - cbn. auto.
  - cbn. set_solver.
  - cbn. auto.
Qed.

Lemma sound_addPrewarm s T1 t T2 key c :
  inv s (T1 ++ t :: T2) -> tk_own t !! ref c = Some Plain -> prewarm_for key c ->
  inv (set_prewarmed (<[key := lists_at key (prewarmed s) ++ [c]]> (prewarmed s)) s)
      (T1 ++ disown (ref c) t :: T2).
Proof.
  intros Hinv Ho Hmem.
  assert (Hperm : elems (<[key := lists_at key (prewarmed s) ++ [c]]> (prewarmed s))
                  ≡ₚ c :: elems (prewarmed s)).
  { rewrite elems_insert, (elems_delete (prewarmed s) key), <- app_assoc.
    symmetry. apply Permutation_middle. }
  eapply (inv_give s _ T1 t _ T2 c Plain); try done.
  - eapply acc_same; [apply Hinv|done..].
  - destruct (inv_filed _ _ _ _ Hinv) as [Hfi Hfw]. constructor; [done|].
    intros k l d. cbn. rewrite lookup_insert. case_decide; [|by apply Hfw].
    subst. intros [= <-] [Hd| ->%list_elem_of_singleton]%elem_of_app; [|done].
    unfold lists_at in Hd. destruct (prewarmed s !! k) eqn:E; [|set_solver]. by eapply Hfw.
  - intros r. unfold stored, idle_containers, prewarm_containers.
    cbn [idlesState set_prewarmed prewarmed containersToDeleteForSpace].
    rewrite (occ_perm r _ _ Hperm), occ_cons. lia.
  - cbn. auto.
  - cbn. auto.
  - intros d. unfold prewarm_containers. cbn [set_prewarmed prewarmed]. rewrite Hperm.
    set_solver.
Qed.

Lemma sound_takePrewarm s T1 t T2 key c rest :
  inv s (T1 ++ t :: T2) -> lists_at key (prewarmed s) = c :: rest ->
  prewarm_for key c /\ tk_own t !! ref c = None /\
  inv (set_prewarmed (<[key := rest]> (prewarmed s)) s) (T1 ++ own_as (ref c) Plain t :: T2).
Proof.
  intros Hinv Hl. destruct Hinv as [Ha Hf He Hp] eqn:E; clear E.
  assert (Hk : prewarmed s !! key = Some (c :: rest)).
  { unfold lists_at in Hl. destruct (prewarmed s !! key); cbn in Hl; congruence. }
  assert (Hmem : prewarm_for key c) by (eapply (filed_prewarm _ _ Hf); [done|set_solver]).
  assert (Hperm : prewarm_containers s ≡ₚ c :: elems (<[key := rest]> (prewarmed s))).
  { unfold prewarm_containers. rewrite (elems_delete _ key), Hl, elems_insert. done. }
  set (s' := set_prewarmed (<[key := rest]> (prewarmed s)) s).
  assert (Hst : forall r, stored r s = is_ref r c + stored r s').
  { intros r. unfold stored. rewrite (occ_perm r _ _ Hperm), occ_cons.
    unfold s', idle_containers, prewarm_containers. cbn. lia. }
  assert (Hnone : tk_own t !! ref c = None).
  { eapply obtained_fresh; [done|]. rewrite Hst, is_ref_self.
    pose proof (stored_nonneg (ref c) s'). lia. }
  split_and!; [done|done|]. constructor.
  - by eapply acc_same.
  - constructor; [apply Hf|]. intros k l d. cbn. rewrite lookup_insert.
    case_decide; [|by apply Hf]. subst. intros [= <-] Hd.
    eapply (filed_prewarm _ _ Hf); [done|set_solver].
  - eapply excl_step; [done..| |]; intros r.
    + rewrite owned_as, (Hst r). unfold is_ref. pose proof (owned_range r t).
      repeat case_decide; lia.
    + unfold running, own_as. cbn. rewrite lookup_insert. case_decide; [|lia].
      subst. rewrite Hnone. lia.
  - eapply paused_step; [done..| | | |].
    + apply Hp.
    + apply Hp.
    + intros d Hd. apply (paused_prewarm _ _ Hp). rewrite Hperm. unfold prewarm_containers in Hd.
      cbn in Hd. set_solver.
    + intros r o. unfold own_as. cbn. rewrite lookup_insert. case_decide as E.
      * subst. intros [= <-].
        assert (ref c ∉ pausePending s); [|done].
        apply (paused_prewarm _ _ Hp). rewrite Hperm. set_solver.
      * by apply (paused_token s T1 t T2 Hp).
Qed.

(** ** Using a container *)
Lemma sound_pause_state s T1 t T2 r o o' pending' :
  inv s (T1 ++ t :: T2) -> tk_own t !! r = Some o -> o <> Running -> o' <> Running ->
  (forall r', r' <> r -> r' ∈ pending' <-> r' ∈ pausePending s) ->
  (r ∈ pending' <-> o' = PauseScheduled) ->
  inv (set_pausePending pending' s) (T1 ++ own_as r o' t :: T2).
Proof.
  intros [Ha Hf He Hp] Ho Hne Hne' Hoth Hr. constructor.
  - by eapply acc_same.
  - destruct Hf. by constructor.
  - eapply excl_step; [done..| |]; intros r'.
    + change (stored r' (set_pausePending pending' s)) with (stored r' s). rewrite owned_as.
      case_decide as E; [|lia]. subst. rewrite (owned_some _ _ _ Ho). lia.
    + unfold running, own_as. cbn. rewrite lookup_insert. case_decide as E; [|lia].
      subst. rewrite Ho. destruct o, o'; done || lia.
  - eapply paused_change; [done..|by eapply owned_some|done|done].
Qed.

Lemma sound_remove s T1 t T2 c :
  inv s (T1 ++ t :: T2) -> tk_own t !! c = Some Plain ->
  inv (set_removed ({[c]} ∪ removed s) s) (T1 ++ disown c t :: T2).
Proof.
  intros [Ha Hf He Hp] Ho. constructor.
  - by eapply acc_same.
  - destruct Hf. by constructor.
  - by apply excl_remove.
  - eapply paused_step; [done..|cbn; lia| | | |]; try apply Hp.
    apply agrees_disown. by eapply (paused_token s T1 t T2).
Qed.

Lemma sound_create s T1 t T2 c :
  inv s (T1 ++ t :: T2) -> c_ref c = nextRef s ->
  tk_own t !! c_ref c = None /\
  inv (set_nextRef (S (nextRef s)) s) (T1 ++ own_as (c_ref c) Plain t :: T2).
Proof.
  intros [Ha Hf He Hp] ->. split.
  { apply owned_none. pose proof (excl_fresh _ _ He (nextRef s) (le_n _)) as Hz.
    autorewrite with invoker in Hz. pose proof (stored_nonneg (nextRef s) s).
    pose proof (owned_sum_nonneg (nextRef s) T1). pose proof (owned_sum_nonneg (nextRef s) T2).
    pose proof (owned_range (nextRef s) t). lia. }
  constructor.
  - by eapply acc_same.
  - destruct Hf. by constructor.
  - by apply excl_create.
  - eapply paused_step; [done..|cbn; lia| | | |]; try apply Hp.
    intros r o. unfold own_as. cbn. rewrite lookup_insert. case_decide as E.
    + subst. intros [= <-]. split; [|done]. intros Hr%(paused_fresh _ _ Hp). lia.
    + by apply (paused_token s T1 t T2 Hp).
Qed.

(** Starting or ending an invocation changes the executing containers, one
    ownership and the memory in use. *)
Lemma inv_executing s T1 t t' T2 c o o' ex :
  inv s (T1 ++ t :: T2) -> tk_own t !! ref c = Some o ->
  o <> PauseScheduled -> o' <> PauseScheduled ->
  tk_own t' = <[ref c := o']> (tk_own t) -> tk_sem t' = tk_sem t -> tk_cnt t' = tk_cnt t ->
  tk_res t' = tk_res t -> 0 <= tk_use t' <= tk_res t ->
  sumZ memory ex - sumZ memory (executing s) = tk_use t' - tk_use t ->
  (forall r, occ r ex - occ r (executing s) = running r t' - running r t) ->
  inv (set_executing ex s) (T1 ++ t' :: T2).
Proof.
  intros [Ha Hf He Hp] Ho Hne Hne' Hown E1 E2 E3 E4 Hex Hocc.
  pose proof (acc_token _ _ _ _ _ Ha) as Htok. constructor.
  - eapply (acc_step _ s); [done|done|done|..]; cbn; try lia.
    + rewrite (acc_held _ _ _ Ha). apply (acc_le _ _ _ Ha).
    + unfold token_ok in *. lia.
    + apply Ha.
  - destruct Hf. by constructor.
  - eapply excl_step; [done..| |done]. intros r.
    change (stored r (set_executing ex s)) with (stored r s).
    assert (owned r t' = owned r (own_as (ref c) o' t)) as ->
      by (unfold owned; by rewrite Hown).
    rewrite owned_as. case_decide as E; [|lia]. subst. rewrite (owned_some _ _ _ Ho). lia.
  - eapply paused_step; [done..|cbn; lia| | | |]; try apply Hp.
    intros r o''. rewrite Hown, lookup_insert. case_decide as E.
    + subst. intros [= <-]. rewrite (paused_token s T1 t T2 Hp _ _ Ho). done.
    + by apply (paused_token s T1 t T2 Hp).
Qed.

Lemma running_set r c o t t' :
  tk_own t' = <[c := o]> (tk_own t) ->
  running r t' = if decide (c = r) then (if decide (o = Running) then 1 else 0) else running r t.
Proof.
  intros Hown. unfold running. rewrite Hown, lookup_insert. case_decide; [|done].
  by destruct o.
Qed.

Lemma sound_begin s T1 t T2 c :
  inv s (T1 ++ t :: T2) -> tk_own t !! ref c = Some Plain ->
  0 <= memory c <= tk_res t - tk_use t ->
  inv (set_executing (c :: executing s) s)
      (T1 ++ own_as (ref c) Running (add_use (memory c) t) :: T2).
Proof.
  intros Hinv Ho Hmem. pose proof (acc_token _ _ _ _ _ (inv_acc _ _ _ _ Hinv)) as Htok.
  unfold token_ok in Htok.
  eapply (inv_executing _ _ _ _ _ c Plain Running); try done; cbn; try lia.
  intros r. rewrite (running_set r (ref c) Running t) by done. rewrite occ_cons. unfold is_ref.
  unfold running. repeat case_decide; try lia; try done. subst. rewrite Ho. lia.
Qed.

Lemma sound_end s T1 t T2 c l1 l2 :
  inv s (T1 ++ t :: T2) -> tk_own t !! ref c = Some Running ->
  0 <= memory c <= tk_use t -> executing s = l1 ++ c :: l2 ->
  inv (set_executing (l1 ++ l2) s)
      (T1 ++ own_as (ref c) Plain (add_use (- memory c) t) :: T2).
Proof.
  intros Hinv Ho Hmem Hex. pose proof (acc_token _ _ _ _ _ (inv_acc _ _ _ _ Hinv)) as Htok.
  unfold token_ok in Htok.
  eapply (inv_executing _ _ _ _ _ c Running Plain); try done; rewrite ?Hex; cbn; try lia.
  - autorewrite with invoker. lia.
  - intros r. rewrite (running_set r (ref c) Plain t) by done.
    rewrite !occ_app, occ_cons. unfold is_ref, running.
    repeat case_decide; try lia; try done. subst. rewrite Ho. lia.
Qed.

(** ** All operations *)
Theorem pool_op_sound X (op : pool_op X) s x s' T1 t T2 Q :
  (forall k, 0 <= mem_of k) ->
  pool_exec X op s x s' -> inv s (T1 ++ t :: T2) -> pool_wp mem_of max X op t Q ->
  exists t', Q x t' /\ inv s' (T1 ++ t' :: T2).
Proof.
  intros Hnn Hexec Hinv Hwp.
  assert (Hsame : (forall y, x = y -> Q y t) -> s' = s ->
    exists t', Q x t' /\ inv s' (T1 ++ t' :: T2)) by (intros HQ ->; exists t; auto).
  destruct op; cbn in Hexec, Hwp; try done;
    try (by apply Hsame; [intros ? <-; apply Hwp|]); clear Hsame.
  - destruct Hexec as [(sm & -> & Hsm & ->)|(err & -> & ->)];
      destruct Hwp as (? & ? & ?); eexists; (split; [done|]); [|done].
    by apply sound_acquire.
  - destruct Hexec as (sm & Hsm & ->), Hwp as [? ?]. eexists. split; [by destruct x|].
    by apply sound_release.
  - destruct Hexec as [-> ->], Hwp as (m & r & -> & ? & ? & ? & HQ).
    destruct (sound_inFlightMemory s T1 t T2 m r) as [? ?]; [done..|]. eauto.
  - destruct Hexec as [-> ->]. exists t. split; [done|]. by apply (inv_frame _ _ s).
  - destruct Hexec as (seed & st' & Htake & ->), Hwp as (? & ? & Hw & Hc).
    pose proof (sound_takeIdle s T1 t T2 data inFlightMemory seed x st') as Hs.
    specialize (Hs Hinv ltac:(done) ltac:(done) (Hnn _) Htake).
    destruct x; [| |done|done].
    + destruct Hs as (? & ? & ? & ?). eauto.
    + destruct Hs as (? & ? & ?). eauto.
  - destruct Hwp as (? & ? & ? & ?). subst. eexists. split; [by destruct x|].
    by apply sound_putIdle.
  - destruct Hexec as (seed & st' & Hreap & ->).
    destruct (sound_reapIdles s T1 t T2 seed olderThan x st') as (? & ? & ?); [done..|]. eauto.
  - destruct Hwp as [HN HS].
    destruct (lists_at key (prewarmed s)) as [|c rest] eqn:E; destruct Hexec as [-> ->]; [eauto|].
    destruct (sound_takePrewarm s T1 t T2 key c rest) as (? & ? & ?); [done..|]. eauto.
  - destruct Hexec as (? & ? & ? & ->). eauto.
  - destruct Hwp as (? & ? & ?). subst. eexists. split; [by destruct x|].
    by apply sound_addPrewarm.
  - destruct Hwp as (? & ?), Hexec as [_ ->]. eexists. split; [by destruct x|].
    by apply sound_send.
  - destruct Hexec as (q & Hq & ->).
    destruct (sound_receive s T1 t T2 x q) as (? & ?); [done..|]. eauto.
  - subst. exists t. split; [by destruct x|]. by apply (inv_frame _ _ s).
  - destruct Hexec as [_ ->]. exists t. split; [by destruct x|]. by apply (inv_frame _ _ s).
  - destruct Hexec as [_ ->], Hwp as [? HQ]. eexists. split; [done|].
    eapply sound_pause_state; [done..| |]; set_solver.
  - subst. destruct Hwp as [? HQ]. eexists. split; [by destruct x|].
    eapply sound_pause_state; [done..| |]; set_solver.
  - destruct Hwp as (? & ? & ?). destruct x; subst; [eauto|].
    eexists. split; [done|]. by apply sound_remove.
  - destruct Hwp as (? & ?). destruct x; [|subst; eauto]. destruct Hexec as [? ->].
    destruct (sound_create s T1 t T2 a) as (? & ?); [done..|]. eauto.
  - destruct Hexec as [_ ->]. exists t. split; [done|]. by apply (inv_frame _ _ s).
  - destruct Hwp as (? & ? & ?). subst. eexists. split; [by destruct x|]. by apply sound_begin.
  - destruct Hexec as (l1 & l2 & Hex & ->), Hwp as (? & ? & ?). eexists. split; [done|].
    by eapply sound_end.
Qed.
End op_sound.
