(* ===== verification/PoolWp.v ===== *)
(** * The container pool: contracts of the methods

    Each method of [PoolOps] against the token logic: what a goroutine must
    hold to call it and what it holds afterwards, whatever the environment
    answers. *)
From S2P Require Export PoolOpSound.

#[local] Arguments PooledContainer_Remove : simpl never.
#[local] Arguments isBrokenByUser : simpl never.
#[local] Arguments unpauseAndRemove : simpl never.
#[local] Arguments reconcilePrewarm : simpl never.
#[local] Arguments reap : simpl never.
#[local] Arguments Put : simpl never.
#[local] Arguments PutToDestroy : simpl never.
#[local] Arguments Get : simpl never.
#[local] Arguments createPrewarm : simpl never.
#[local] Arguments for_fold : simpl never.
#[local] Arguments for_early : simpl never.
#[local] Arguments CleanupContainer : simpl never.
#[local] Arguments CleanupPooled : simpl never.
#[local] Arguments adjustWarmFirewall : simpl never.
#[local] Arguments getWarm : simpl never.
#[local] Arguments getPrewarmed : simpl never.
#[local] Arguments getCold : simpl never.
#[local] Arguments getContainer : simpl never.
#[local] Arguments release : simpl never.
#[local] Arguments for_each : simpl never.
#[local] Arguments own_all : simpl never.

(** Tokens written out field by field. *)
Ltac token_norm :=
  unfold own_as, disown, add_res, add_sem, add_use, set_cnt, set_own in *;
  cbn [tk_sem tk_cnt tk_res tk_use tk_own] in *.

Section contracts.
Context (mem_of : WarmContainerKey -> Z) (max : Z).
Context (mem_range : forall k, 0 <= mem_of k < 2 ^ 63).

Notation pwp := (wp (pool_wp mem_of max)).

Lemma pwp_bind {A B} (p : poolM A) (f : A -> poolM B) t Q :
  pwp p t (fun a t' => pwp (f a) t' Q) -> pwp (proc_bind p f) t Q.
Proof. apply wp_bind, pool_wp_mono. Qed.

Lemma pwp_mono {A} (p : poolM A) t (Q Q' : A -> token -> Prop) :
  (forall a t', Q a t' -> Q' a t') -> pwp p t Q -> pwp p t Q'.
Proof. apply wp_mono, pool_wp_mono. Qed.

(** [o] and [o'] agree on every container but [r]. *)
Definition agree_but (r : nat) (o o' : gmap nat ownership) : Prop :=
  forall r', r' <> r -> o !! r' = o' !! r'.

(** Removing an owned container whose pause is not scheduled. *)
Lemma wp_PooledContainer_Remove c t Q :
  tk_own t !! ref c = Some Plain ->
  (forall r o, agree_but (ref c) o (tk_own t) -> Q r (set_own o t)) ->
  pwp (PooledContainer_Remove c) t Q.
Proof.
  intros Ho HQ. unfold PooledContainer_Remove.
  assert (Hself : forall r, Q r t)
    by (intros r; specialize (HQ r (tk_own t) ltac:(done)); by destruct t).
  assert (Hgone : forall r, Q r (disown (ref c) t)).
  { intros r. apply HQ. intros r' Hne. by apply lookup_delete_ne. }
  destruct (firewallCleanup c); cbn; [intros [e|]; cbn; [done|]|]; split_and!; eauto.
Qed.

Lemma wp_CleanupContainer (ctr : Container) remove e t (P : gmap nat ownership -> Prop) Q :
  (forall Q', (forall r o, P o -> Q' r (set_own o t)) -> pwp remove t Q') ->
  (forall e' o, P o -> Q e' (set_own o t)) ->
  pwp (CleanupContainer (trigger (CallState ctr)) remove e) t Q.
Proof.
  intros Hrm HQ. unfold CleanupContainer. cbn. intros st. apply pwp_bind, Hrm.
  intros [e'|] o Ho; by apply HQ.
Qed.

Lemma wp_CleanupPooled c e t Q :
  tk_own t !! ref c = Some Plain ->
  (forall e' o, agree_but (ref c) o (tk_own t) -> Q e' (set_own o t)) ->
  pwp (CleanupPooled c e) t Q.
Proof.
  intros Ho HQ. eapply wp_CleanupContainer; [|exact HQ]. intros Q' HQ'.
  by apply wp_PooledContainer_Remove.
Qed.

(** What a container handed out by [Get] keeps of the one the pool had. *)
Definition same_container (c c' : PooledContainer) : Prop :=
  container c' = container c /\ memory c' = memory c.

Lemma wp_adjustWarmFirewall ns c t Q :
  tk_own t !! ref c = Some Plain -> (forall e o, Q (Err e) (set_own o t)) ->
  (forall c', same_container c c' -> initializedFor c' = initializedFor c -> Q (Ok c') t) ->
  pwp (adjustWarmFirewall ns c) t Q.
Proof.
  intros Ho He Hok. unfold adjustWarmFirewall. cbn. intros needs.
  destruct (firewallCleanup c) as [h|], needs; cbn; try (by apply Hok).
  - intros [e|]; cbn; [|by apply Hok]. apply pwp_bind, wp_CleanupPooled; [done|]. cbn. auto.
  - intros [h|e]; cbn; [by apply Hok|]. apply pwp_bind, wp_CleanupPooled; [done|]. cbn. auto.
Qed.

Lemma own_as_set_own r o o' t : own_as r o (set_own o' t) = set_own (<[r := o]> o') t.
Proof. done. Qed.

Lemma own_as_lookup r o t : tk_own (own_as r o t) !! r = Some o.
Proof. apply lookup_insert_eq. Qed.

Lemma wp_getWarm ns c t Q :
  tk_own t !! ref c = Some PauseScheduled -> (forall e o, Q (Err e) (set_own o t)) ->
  (forall c', same_container c c' -> initializedFor c' = initializedFor c ->
     Q (Ok (c', true)) (own_as (ref c) Plain t)) ->
  pwp (getWarm ns c) t Q.
Proof.
  intros Ho He Hok. unfold getWarm. cbn. split; [done|]. intros [unpauseErr|]; cbn.
  - intros [state|stateErr]; cbn; [|apply He].
    apply pwp_bind, wp_PooledContainer_Remove; [apply own_as_lookup|].
    intros [removeErr|] o _; apply He.
  - apply pwp_bind, wp_adjustWarmFirewall; [apply own_as_lookup| |]; auto.
Qed.

Lemma wp_getPrewarmed ns data c t Q :
  tk_own t !! ref c = Some Plain -> (forall e o, Q (Err e) (set_own o t)) ->
  (forall c', same_container c c' -> initializedFor c' = data -> Q (Ok (c', false)) t) ->
  pwp (getPrewarmed ns data c) t Q.
Proof.
  intros Ho He Hok. unfold getPrewarmed. cbn. intros [|]; cbn; [|by apply Hok].
  intros [h|e]; cbn; [by apply Hok|]. apply pwp_bind, wp_CleanupPooled; [done|]. cbn. auto.
Qed.

Lemma wp_getCold ns fn kind mem data t Q :
  (forall e o, Q (Err e) (set_own o t)) ->
  (forall c, memory c = mem -> initializedFor c = data ->
     Q (Ok (c, false)) (own_as (ref c) Plain t)) ->
  pwp (getCold ns fn kind mem data) t Q.
Proof.
  intros He Hok. unfold getCold. cbn. intros n.
  split; [intros e; specialize (He (Errorf "failed to create a container: %w" [e]) (tk_own t));
          by destruct t|].
  intros ctr Hctr. cbn. intros [|]; cbn; [|by apply (Hok (Build_PooledContainer ctr data 0 mem None))].
  intros [h|e]; cbn; [by apply (Hok (Build_PooledContainer ctr data 0 mem (Some h)))|].
  apply pwp_bind, (wp_CleanupContainer _ _ _ _ (fun _ => True)); [|intros e' o _; apply (He e' o)].
  intros Q' HQ'. cbn. split_and!; [apply own_as_lookup|intros e'|by apply HQ'].
  by apply (HQ' _ (<[c_ref ctr := Plain]> (tk_own t))).
Qed.

(** The containers evicted to make space go to the deleter. *)
Lemma wp_send_all cs t Q :
  NoDup (ref <$> cs) -> (forall o, Q tt (set_own o t)) ->
  pwp (for_each cs (fun c => trigger (SendToDelete c))) (own_all cs t) Q.
Proof.
  intros Hnd HQ.
  eapply (wp_for_each _ (pool_wp_mono mem_of max) _ _
    (fun cs' t' => NoDup (ref <$> cs') /\ (exists o, t' = set_own o t) /\
                   forall c, c ∈ cs' -> tk_own t' !! ref c = Some PauseScheduled)).
  - split_and!; [done| |].
    + exists (tk_own (own_all cs t)). destruct (own_all_numbers cs t) as (N1 & N2 & N3 & N4).
      unfold set_own. rewrite <- N1, <- N2, <- N3, <- N4. by destruct (own_all cs t).
    + intros c Hc. rewrite own_all_lookup. apply occ_elem in Hc. by rewrite decide_True.
  - intros c cs' t' (Hnd' & (o & ->) & Hall). cbn in Hnd'. apply NoDup_cons in Hnd' as [Hc Hnd'].
    cbn. split; [apply Hall; set_solver|]. split_and!; [done|by eexists|].
    intros d Hd. rewrite lookup_delete_ne.
    + apply Hall. set_solver.
    + intros Heq. apply Hc. rewrite Heq. by apply list_elem_of_fmap_2.
  - intros t' (_ & (o & ->) & _). apply HQ.
Qed.

(** ** Get *)
Lemma wp_getContainer ns fn kind mem infl t Q :
  mem = mem_of {| InvocationNamespace := ns; Function := fn |} ->
  0 <= infl <= max -> tk_res t + mem <= tk_cnt t ->
  (forall e o, Q (Err e) (add_res mem (set_own o t))) ->
  (forall c b o, memory c = mem ->
     initializedFor c = {| InvocationNamespace := ns; Function := fn |} ->
     o !! ref c = Some Plain -> Q (Ok (c, b)) (add_res mem (set_own o t))) ->
  pwp (getContainer ns fn kind mem infl) t Q.
Proof.
  intros -> Hinfl Hres He Hok. unfold getContainer. cbn. split_and!; [lia|lia|done| |].
  - intros c Hkey Hmem Hnone. cbn. apply wp_getWarm; [apply own_as_lookup| |].
    + intros e o. apply (He e o).
    + intros c' [Hc' Hm] Hk.
      token_norm.
      apply (Hok c' true (<[ref c := Plain]> (<[ref c := PauseScheduled]> (tk_own t))));
        [congruence|congruence|]. unfold ref. rewrite Hc'. apply lookup_insert_eq.
  - intros cs Hnd Hnone. cbn. apply pwp_bind, wp_send_all; [done|]. intros o. cbn. split.
    + apply wp_getCold; [intros e o'; apply (He e o')|].
      intros c Hm Hk.
      token_norm.
      apply (Hok c false (<[ref c := Plain]> o)); [done|done|]. apply lookup_insert_eq.
    + intros c [Hm _] Hn. apply wp_getPrewarmed; [apply own_as_lookup|intros e o'; apply (He e o')|].
      intros c' [Hc' Hm'] Hk.
      token_norm.
      apply (Hok c' false (<[ref c := Plain]> o)); [by rewrite Hm'|done|].
      unfold ref. rewrite Hc'. apply lookup_insert_eq.
Qed.

Lemma wp_Get ns fn kind mem t Q :
  mem = mem_of {| InvocationNamespace := ns; Function := fn |} -> token_ok t ->
  (forall e o, Q (Err e) (set_own o t)) ->
  (forall c b o, memory c = mem ->
     initializedFor c = {| InvocationNamespace := ns; Function := fn |} ->
     o !! ref c = Some Plain ->
     Q (Ok (c, b)) (mkToken (tk_sem t + mem) (tk_cnt t + mem) (tk_res t + mem) (tk_use t) o)) ->
  pwp (Get ns fn kind mem) t Q.
Proof.
  intros Hmem Ht He Hok. pose proof (mem_range {| InvocationNamespace := ns; Function := fn |}).
  assert (Hi : i64 mem = mem) by (apply i64_small; lia). unfold token_ok in Ht.
  unfold Get. rewrite Hi. cbn. split_and!; [lia| |].
  { intros e. specialize (He (Errorf "failed to acquire semaphore: %w" [e]) (tk_own t)).
    by destruct t. }
  exists mem, (tk_res t). split_and!; try lia; [by rewrite u64_small by lia|].
  intros v Hv. apply pwp_bind, wp_getContainer; cbn; [done|done|lia| |].
  - intros e o. exists (- mem), (tk_res t). split_and!; try lia.
    intros v' Hv'. split; [lia|].
    specialize (He (Errorf "failed to get container: %w" [e]) o).
    unfold add_sem, set_cnt; cbn.
    replace (tk_sem t + mem + - mem) with (tk_sem t) by lia.
    replace (tk_cnt t + mem + - mem) with (tk_cnt t) by lia. done.
  - intros c b o Hm Hk Ho. by apply Hok.
Qed.

(** ** Put and PutToDestroy *)
Lemma wp_release c t Q :
  0 <= memory c < 2 ^ 63 -> tk_use t <= tk_res t -> tk_res t - memory c <= tk_cnt t - memory c ->
  tk_use t <= tk_cnt t - memory c -> tk_cnt t <= tk_sem t ->
  Q tt (mkToken (tk_sem t - memory c) (tk_cnt t - memory c)
          (Z.min (tk_res t) (tk_cnt t - memory c)) (tk_use t) (tk_own t)) ->
  pwp (release c) t Q.
Proof.
  intros Hm H1 H2 H3 H4 HQ. unfold release. rewrite i64_small by lia. cbn.
  exists (- memory c), (Z.min (tk_res t) (tk_cnt t - memory c)). split_and!; try lia.
  intros v Hv. split; [lia|]. exact HQ.
Qed.

Lemma wp_Put c t Q :
  memory c = mem_of (initializedFor c) -> tk_own t !! ref c = Some Plain ->
  token_ok t -> memory c <= tk_res t - tk_use t ->
  (forall o, Q tt (mkToken (tk_sem t - memory c) (tk_cnt t - memory c) (tk_res t - memory c)
                     (tk_use t) o)) ->
  pwp (Put c) t Q.
Proof.
  intros Hm Ho Ht Hres HQ. pose proof (mem_range (initializedFor c)). unfold token_ok in Ht.
  unfold Put. cbn. intros now. change (ref (set_lastUsed now c)) with (ref c).
  split_and!; [done|apply lookup_insert_eq|done|lia|].
  apply wp_release; cbn; try lia.
  replace (Z.min (tk_res t + - memory c) (tk_cnt t - memory c)) with (tk_res t - memory c) by lia.
  apply HQ.
Qed.

Lemma wp_PutToDestroy c t Q :
  0 <= memory c < 2 ^ 63 -> tk_own t !! ref c = Some Plain ->
  token_ok t -> memory c <= tk_cnt t - tk_use t ->
  (forall r o, Q r (mkToken (tk_sem t - memory c) (tk_cnt t - memory c)
                 (Z.min (tk_res t) (tk_cnt t - memory c)) (tk_use t) o)) ->
  pwp (PutToDestroy c) t Q.
Proof.
  intros Hm Ho Ht Hres HQ. unfold token_ok in Ht. unfold PutToDestroy.
  apply pwp_bind, wp_PooledContainer_Remove; [done|]. intros r o _. cbn.
  apply pwp_bind, wp_release; cbn; try lia. destruct r; cbn; apply HQ.
Qed.

(** ** Background work *)
Lemma wp_isBrokenByUser c t Q : (forall b, Q b t) -> pwp (isBrokenByUser c) t Q.
Proof. intros HQ. unfold isBrokenByUser. cbn. intros [|]; apply HQ. Qed.

(** Unpausing and removing touches the ownership of that container only. *)
Lemma wp_unpauseAndRemove_keep txt txt' c t Q :
  tk_own t !! ref c = Some PauseScheduled ->
  (forall r o, agree_but (ref c) o (tk_own t) -> Q r (set_own o t)) ->
  pwp (unpauseAndRemove txt txt' c) t Q.
Proof.
  intros Ho HQ. unfold unpauseAndRemove. cbn. split; [done|].
  assert (Hkeep : forall o, agree_but (ref c) o (tk_own (own_as (ref c) Plain t)) ->
    agree_but (ref c) o (tk_own t)).
  { intros o Hag r Hne. rewrite Hag by done. by apply lookup_insert_ne. }
  assert (Hrm : forall Q', (forall r o, agree_but (ref c) o (tk_own t) -> Q' r (set_own o t)) ->
    pwp (PooledContainer_Remove c) (own_as (ref c) Plain t) Q').
  { intros Q' HQ'. apply wp_PooledContainer_Remove; [apply own_as_lookup|].
    intros r o Hag. apply HQ'. auto. }
  intros [e|]; cbn.
  - apply pwp_bind, wp_isBrokenByUser. intros [|]; cbn; apply pwp_bind.
    + apply Hrm. intros [|] o Hag; by apply HQ.
    + apply wp_CleanupPooled; [apply own_as_lookup|]. intros e' o Hag. apply HQ. auto.
  - apply pwp_bind, Hrm. intros [|] o Hag; by apply HQ.
Qed.

(** The token of a goroutine that has released everything it acquired. *)
Definition settled (t : token) : Prop :=
  tk_sem t = 0 /\ tk_cnt t = 0 /\ tk_res t = 0 /\ tk_use t = 0.

Lemma settled_set_own o t : settled t -> settled (set_own o t).
Proof. done. Qed.

(** Cleaning up a list of idle containers, as [reap] does. *)
Lemma wp_reap olderThan t Q :
  (forall errs o, Q errs (set_own o t)) -> pwp (reap olderThan) t Q.
Proof.
  intros HQ. unfold reap. cbn. intros cs Hnd Hnone.
  eapply (wp_for_fold _ (pool_wp_mono mem_of max) _ _ _
    (fun cs' t' => NoDup (ref <$> cs') /\ (exists o, t' = set_own o t) /\
                   forall c, c ∈ cs' -> tk_own t' !! ref c = Some PauseScheduled)).
  - split_and!; [done| |].
    + exists (tk_own (own_all cs t)). destruct (own_all_numbers cs t) as (N1 & N2 & N3 & N4).
      unfold set_own. rewrite <- N1, <- N2, <- N3, <- N4. by destruct (own_all cs t).
    + intros c Hc. rewrite own_all_lookup. apply occ_elem in Hc. by rewrite decide_True.
  - intros errs c cs' t' (Hnd' & (o & ->) & Hall).
    cbn in Hnd'. apply NoDup_cons in Hnd' as [Hc Hnd'].
    apply pwp_bind, (wp_unpauseAndRemove_keep _ _ c); [apply Hall; set_solver|].
    intros r o' Ho'. assert (NoDup (ref <$> cs') /\
      (exists o0, set_own o' (set_own o t) = set_own o0 t) /\
      (forall d, d ∈ cs' -> tk_own (set_own o' (set_own o t)) !! ref d = Some PauseScheduled)).
    { split_and!; [done|by eexists|]. intros d Hd. cbn. rewrite Ho'.
      - apply Hall. set_solver.
      - intros Heq. apply Hc. rewrite <- Heq. by apply list_elem_of_fmap_2. }
    by destruct r.
  - intros errs t' (_ & (o & ->) & _). apply HQ.
Qed.

Lemma wp_createPrewarm key t Q :
  (forall e, Q (Some e) t) -> Q None t -> pwp (createPrewarm key) t Q.
Proof.
  intros He HQ. unfold createPrewarm. cbn. intros n. split; [intros e; apply He|].
  intros c Hc. split_and!; [apply lookup_insert_eq|done|].
  unfold disown, own_as, set_own. cbn. rewrite delete_insert_id by done. by destruct t.
Qed.

Lemma wp_reconcilePrewarm t Q : (forall r, Q r t) -> pwp reconcilePrewarm t Q.
Proof.
  intros HQ. unfold reconcilePrewarm. cbn. intros l.
  apply (wp_for_early _ (pool_wp_mono mem_of max)); [|done].
  intros [key n]. apply (wp_for_early _ (pool_wp_mono mem_of max)); [|by split].
  intros _. apply wp_createPrewarm; [|by split]. intros e. split; [done|]. intros ? [= ->].
  split; [done|]. by intros ? [= ->].
Qed.

(** ** The goroutines *)
Lemma wp_invocation r :
  req_memory r = mem_of (req_key r) -> pwp (invocation r) token0 (fun _ => settled).
Proof.
  intros Hm. pose proof (mem_range (req_key r)) as Hr. unfold invocation.
  apply pwp_bind, wp_Get; [done|by unfold token_ok; cbn|by intros e o|].
  intros c b o Hmem Hkey Ho. cbn.
  split_and!; [done|lia|lia|apply lookup_insert_eq|lia|lia|]. intros [|]; cbn.
  - apply pwp_bind, wp_PutToDestroy; [lia|apply lookup_insert_eq|unfold token_ok; cbn; lia| |].
    + cbn. lia.
    + intros res o'. cbn. unfold settled. cbn. lia.
  - apply wp_Put; [by rewrite Hmem, Hkey|apply lookup_insert_eq|unfold token_ok; cbn; lia| |].
    + cbn. lia.
    + intros o'. unfold settled. cbn. lia.
Qed.

Lemma pool_client_ok p : pool_client mem_of p -> pwp p token0 (fun _ => settled).
Proof.
  intros [r Hr|t| |].
  - by apply wp_invocation.
  - apply pwp_bind, wp_reap. by intros errs o.
  - unfold deleterRound. cbn. intros c Hc.
    apply pwp_bind, wp_unpauseAndRemove_keep; [apply lookup_insert_eq|]. by intros r o _.
  - unfold prewarmRound. cbn. apply pwp_bind, wp_reconcilePrewarm. by intros [|].
Qed.
End contracts.
