(* ===== verification/PoolRun.v ===== *)
(** * The container pool: executable interleavings

    A deterministic environment in which every external call succeeds and time
    advances by one per reading, and a scheduler that runs a given choice of
    goroutines.  Used to exhibit concrete reachable states. *)
From S2P Require Export PoolWp.

Export CountingSemaphore.

Definition testIP : string := "172.18.0.2".

(** [None] where the operation has to wait. *)
Definition pool_handle (X : Type) (op : pool_op X) : pstate -> option (X * pstate) :=
  match op in pool_op X return pstate -> option (X * pstate) with
  | SemAcquire n => fun s =>
      match sem_acquire n (inFlight s) with
      | Some sm => Some (None, set_inFlight sm s)
      | None => None
      end
  | SemRelease n => fun s =>
      match sem_release n (inFlight s) with
      | Some sm => Some (tt, set_inFlight sm s)
      | None => None
      end
  | InFlightMemoryAdd d => fun s =>
      let v := u64 (inFlightMemory s + d) in Some (v, set_inFlightMemory v s)
  | ContainersCreatedAdd d => fun s =>
      let v := u64 (containersCreated s + d) in Some (v, set_containersCreated v s)
  | LockedTakeIdle data infl => fun s =>
      let '(r, st') := takeIdle 0 (maxMemory s) data infl (idlesState s) in
      Some (r, set_idlesState st' s)
  | LockedPutIdle c => fun s => Some (tt, set_idlesState (putIdle c (idlesState s)) s)
  | LockedReapIdles olderThan => fun s =>
      let '(r, st') := reapIdles 0 olderThan (idlesState s) in Some (r, set_idlesState st' s)
  | LockedAllIdles => fun s => Some (concat (go_range 0 (idles (idlesState s))).*2, s)
  | LockedTakePrewarm key => fun s =>
      match lists_at key (prewarmed s) with
      | [] => Some (None, s)
      | c :: rest => Some (Some c, set_prewarmed (<[key := rest]> (prewarmed s)) s)
      end
  | LockedNecessaryCreations => fun s =>
      Some (go_range 0 (necessaryCreations (prewarmed s) (go_range 0 (runtimeManifests s))), s)
  | LockedAddPrewarm key c => fun s =>
      Some (tt, set_prewarmed (<[key := lists_at key (prewarmed s) ++ [c]]> (prewarmed s)) s)
  | LockedAllPrewarm => fun s => Some (concat (go_range 0 (prewarmed s)).*2, s)
  | SendToDelete c => fun s =>
      if (List.length (containersToDeleteForSpace s) <? toDeleteCapacity)%nat
      then Some (tt, set_toDelete (containersToDeleteForSpace s ++ [c]) s) else None
  | ReceiveToDelete => fun s =>
      match containersToDeleteForSpace s with
      | c :: q => Some (c, set_toDelete q s)
      | [] => None
      end
  | PokePrewarm => fun s => Some (tt, set_prewarmPoke true s)
  | ReceivePoke => fun s => if prewarmPoke s then Some (tt, set_prewarmPoke false s) else None
  | CloseBackground => fun s => Some (tt, s)
  | WaitBackground => fun s =>
      match containersToDeleteForSpace s with
      | [] => if prewarmPoke s then None else Some (tt, s)
      | _ => None
      end
  | CallUnpauseIfNeeded c => fun s =>
      if decide (c_ref c ∈ pausePending s)
      then Some (None, set_pausePending (pausePending s ∖ {[c_ref c]}) s) else None
  | CallPauseEventually c => fun s =>
      Some (tt, set_pausePending ({[c_ref c]} ∪ pausePending s) s)
  | CallState _ => fun s => Some (Ok ContainerState_zero, s)
  | CallRemove c => fun s => Some (None, set_removed ({[c_ref c]} ∪ removed s) s)
  | CallCreateContainer _ _ _ => fun s =>
      Some (Ok {| c_ref := nextRef s; c_IP := testIP |}, set_nextRef (S (nextRef s)) s)
  | CallNeedsFirewall _ => fun s => Some (false, s)
  | CallSetupFirewall _ _ => fun s => Some (Ok 0%nat, s)
  | CallFirewallCleanup _ => fun s => Some (None, s)
  | TimeNow => fun s => Some (clock s + 1, set_clock (clock s + 1) s)
  | BeginInvocation c => fun s => Some (tt, set_executing (c :: executing s) s)
  | EndInvocation c => fun s =>
      match list_find (eq c) (executing s) with
      | Some (i, _) => Some (false, set_executing (take i (executing s) ++ drop (S i) (executing s)) s)
      | None => None
      end
  end.

Lemma pool_handle_sound X (op : pool_op X) s x s' :
  pool_handle X op s = Some (x, s') -> pool_exec X op s x s'.
Proof.
  destruct op; cbn; intros Hh; try (repeat case_match; simplify_eq; by eauto 10).
  - exists 0%nat. destruct (foldl _ _ _) as [r st'] eqn:E. simplify_eq. by exists st'.
  - exists 0%nat. by simplify_eq.
  - exists 0%nat, 0%nat. by simplify_eq.
  - exists 0%nat. by simplify_eq.
  - case_match; simplify_eq. split; [|done]. by apply Nat.ltb_lt.
  - simplify_eq. split; [lia|done].
  - destruct (list_find (eq c) (executing s)) as [[i d]|] eqn:E; simplify_eq.
    apply list_find_Some in E as (Hi & <- & _). eexists _, _. split; [|done].
    by rewrite take_drop_middle.
Qed.

(** Sequential execution in this environment. *)
Notation handled := (attempt pool_handle).

Lemma handled_runs {A} (p : poolM A) s a s' :
  handled p s = Some (a, s') -> runs pool_exec p s a s'.
Proof. apply attempt_runs, pool_handle_sound. Qed.

(** A schedule: start the invocation of a request, or let a goroutine take some steps. *)
Inductive action := Start (r : request) | StartReap (olderThan : Z) | StartDeleter
                  | StepN (thread steps : nat).

Definition step_one (i : nat) (c : config (E := pool_op) (S := pstate)) : option config :=
  match c.2 !! i with
  | Some (Vis e k) =>
      match pool_handle _ e c.1 with
      | Some (x, s') => Some (s', take i c.2 ++ k x :: drop (S i) c.2)
      | None => None
      end
  | _ => None
  end.

Fixpoint step_many (n i : nat) (c : config) : option config :=
  match n with
  | O => Some c
  | S n' => c' ← step_one i c; step_many n' i c'
  end.

Definition act (a : action) (c : config (E := pool_op) (S := pstate)) : option config :=
  match a with
  | Start r => Some (c.1, c.2 ++ [invocation r])
  | StartReap t => Some (c.1, c.2 ++ [_ ← reap t; Ret tt])
  | StartDeleter => Some (c.1, c.2 ++ [deleterRound])
  | StepN i n => step_many n i c
  end.

Fixpoint schedule (acts : list action) (c : config) : option config :=
  match acts with
  | [] => Some c
  | a :: acts' => c' ← act a c; schedule acts' c'
  end.

Definition well_sized (mem_of : WarmContainerKey -> Z) (a : action) : Prop :=
  match a with Start r => req_memory r = mem_of (req_key r) | _ => True end.

Section schedule_sound.
Context (mem_of : WarmContainerKey -> Z).
Notation pstep := (step pool_exec (pool_client mem_of)).

Lemma step_one_sound i c c' : step_one i c = Some c' -> pstep c c'.
Proof.
  destruct c as [s ps]. unfold step_one. cbn.
  destruct (ps !! i) as [[|X e k]|] eqn:Hi; try done.
  destruct (pool_handle X e s) as [[x s']|] eqn:He; [|done]. intros [= <-].
  eapply step_thread; [done|]. by apply pool_handle_sound.
Qed.

Lemma step_many_sound n i c c' : step_many n i c = Some c' -> rtc pstep c c'.
Proof.
  revert c. induction n as [|n IH]; cbn; intros c H; [by simplify_eq|].
  apply bind_Some in H as (c1 & H1 & H2).
  eapply rtc_l; [by eapply step_one_sound|by apply IH].
Qed.

Lemma act_sound a c c' : well_sized mem_of a -> act a c = Some c' -> rtc pstep c c'.
Proof.
  destruct c as [s ps]. destruct a; cbn; intros Hw H; [| | |by eapply step_many_sound];
    simplify_eq; apply rtc_once; constructor; by constructor.
Qed.

Lemma schedule_sound max manifests acts c :
  Forall (well_sized mem_of) acts ->
  schedule acts (NewContainerPool max manifests, []) = Some c ->
  pool_reachable mem_of max manifests c.
Proof.
  unfold pool_reachable, reachable.
  generalize (NewContainerPool max manifests, @nil (poolM unit)). intros c0 Hw. revert c0.
  induction Hw as [|a acts Ha _ IH]; cbn; intros c0 H; [by simplify_eq|].
  apply bind_Some in H as (c1 & H1 & H2).
  etransitivity; [by eapply act_sound|by apply IH].
Qed.
End schedule_sound.

(** ** Two functions of one tenant, used in the concrete runs *)
Definition test_function (name : string) : ActivationMessageFunction :=
  {| fn_Namespace := "guest"; fn_Name := name; fn_Version := "0.0.1"; fn_Revision := "1";
     fn_Binding := "" |}.
Definition test_request (name : string) : request :=
  {| req_namespace := "guest"; req_function := test_function name; req_kind := "nodejs:14";
     req_memory := 128 |}.
Definition mem_128 (k : WarmContainerKey) : Z := 128.
