(* ===== verification/Pool.v ===== *)
(** * The container pool: properties of every interleaving

    What holds in every state that invocations, the reaper, the deleter and the
    prewarm reconciler can reach together, one atomic operation at a time. *)
From S2P Require Export PoolRun.

Section pool.
Context `{WeightedSemaphoreLaws}.
Context {MI : MapRange WarmContainerKey (list PooledContainer)}.
Context {MP : MapRange PrewarmContainerKey (list PooledContainer)}.
Context {MM : MapRange string RuntimeManifest} {MN : MapRange PrewarmContainerKey Z}.
Context (mem_of : WarmContainerKey -> Z) (max : Z) (manifests : RuntimeManifests).

Lemma initial_inv :
  0 <= max < 2 ^ 62 -> pool_inv mem_of max (NewContainerPool max manifests) [].
Proof.
  intros Hmax. split; split; cbn; try done.
  - rewrite i64_small by lia. apply sem_new_size. lia.
  - apply sem_new_held.
  - lia.
  - split_and!; [|set_solver|done|done]. intros k l c Hl. cbn in Hl. by rewrite lookup_empty in Hl.
  - lia.
  - by intros c ?%elem_of_nil.
  - by intros c ?%elem_of_nil.
  - by intros c ?%elem_of_nil.
Qed.

Lemma start_inv s ts : pool_inv mem_of max s ts -> pool_inv mem_of max s (ts ++ [token0]).
Proof.
  intros [Ha Hf He Hp].
  assert (Hs : forall f, sumZ f (ts ++ [token0]) = sumZ f ts + f token0)
    by (intros f; rewrite sumZ_app; cbn; lia).
  split; [|done| |].
  - destruct Ha. split; rewrite ?Hs; cbn; rewrite ?Z.add_0_r; try done.
    apply Forall_app. split; [done|]. repeat constructor; cbn; lia.
  - destruct He. split; intros r; rewrite Hs; cbn; rewrite ?Z.add_0_r; auto.
  - destruct Hp. split; try done. apply Forall_app. split; [done|].
    constructor; [|by constructor]. intros r o Hr. cbn in Hr. by rewrite lookup_empty in Hr.
Qed.

Context (mem_range : forall k, 0 <= mem_of k < 2 ^ 63) (max_range : 0 <= max < 2 ^ 62).

(** Every reachable configuration has tokens that satisfy the invariant. *)
Lemma reachable_tokens c :
  pool_reachable mem_of max manifests c ->
  exists ts, threads_ok (pool_wp mem_of max) settled c.2 ts /\ pool_inv mem_of max c.1 ts.
Proof using All.
  apply (wp_adequate (pool_wp mem_of max) pool_exec (pool_client mem_of) token0 settled
           (pool_inv mem_of max)).
  - intros X e s x s' T1 t T2 Q. apply pool_op_sound; [lia|].
    intros k. apply mem_range.
  - apply start_inv.
  - intros p. by apply pool_client_ok.
  - by apply initial_inv.
Qed.

(** Where a container can be: idle, prewarmed, queued for deletion, running an invocation. *)
Definition places (s : pstate) : list PooledContainer :=
  idle_containers s ++ prewarm_containers s ++ containersToDeleteForSpace s ++ executing s.

Lemma occ_places r s :
  occ r (places s) = stored r s + occ r (executing s).
Proof. unfold places, stored. rewrite !occ_app. lia. Qed.

Lemma places_count r s ts :
  exclusive s ts -> occ r (places s) <= stored r s + sumZ (owned r) ts.
Proof.
  intros He. rewrite occ_places, (excl_running _ _ He).
  assert (sumZ (running r) ts <= sumZ (owned r) ts); [|lia].
  apply sumZ_le. intros t _. apply running_owned.
Qed.

(** C1: no container is ever in two places of the pool, or used by two
    invocations at once, and a removed container is in none of them. *)
Theorem pool_mutual_exclusion c :
  pool_reachable mem_of max manifests c ->
  NoDup (ref <$> places c.1) /\ forall x, x ∈ places c.1 -> ref x ∉ removed c.1.
Proof using All.
  intros (ts & _ & Hi)%reachable_tokens. destruct Hi as [_ _ He _]. split.
  - apply occ_NoDup. intros r. pose proof (places_count r _ _ He).
    pose proof (excl_one _ _ He r). lia.
  - intros x Hx (_ & Hz)%(excl_removed _ _ He). pose proof (places_count (ref x) _ _ He).
    apply occ_elem in Hx. lia.
Qed.

(** C2: the memory of the running invocations is covered by the in-flight
    counter, that by the semaphore, and that by the configured maximum; the
    idle counter is exact; and idle plus running containers never take more
    than twice the maximum. *)
Theorem pool_memory_accounting c :
  pool_reachable mem_of max manifests c ->
  sumZ memory (executing c.1) <= inFlightMemory c.1 <= sem_held (inFlight c.1) /\
  sem_held (inFlight c.1) <= maxMemory c.1 /\
  idlesMemory (idlesState c.1) = sumZ memory (idle_containers c.1) /\
  idlesMemory (idlesState c.1) + sumZ memory (executing c.1) <= 2 * maxMemory c.1.
Proof using All.
  intros (ts & _ & Hi)%reachable_tokens. destruct Hi as [Ha _ _ _].
  pose proof (acc_sums _ _ _ Ha) as Hs. destruct Ha as [-> _ -> Hle -> -> _ Hok Hb].
  destruct Hok as (_ & _ & Hm & _). unfold msum, idle_containers in *. lia.
Qed.

(** What must hold for the operation a goroutine is about to perform. *)
Definition op_safe (s : pstate) (X : Type) (op : pool_op X) : Prop :=
  match op with
  | SemRelease n => exists sm, sem_release n (inFlight s) = Some sm
  | LockedTakeIdle data v => forall seed,
      match takeIdle seed (maxMemory s) data v (idlesState s) with
      | (TakeNoSpace, _) | (TakePanic, _) => False
      | _ => True
      end
  | CallUnpauseIfNeeded c => c_ref c ∈ pausePending s
  | CallRemove c =>
      c_ref c ∉ removed s /\ forall d, d ∈ places s -> ref d <> c_ref c
  | BeginInvocation c => forall d, d ∈ places s -> ref d <> ref c
  | _ => True
  end.

Lemma owner_excludes s T1 t T2 r :
  exclusive s (T1 ++ t :: T2) -> tk_own t !! r = Some Plain ->
  r ∉ removed s /\ forall d, d ∈ places s -> ref d <> r.
Proof using Type.
  intros He Ho. pose proof (owned_some _ _ _ Ho). pose proof (excl_one _ _ He r) as Hone.
  assert (Hge : forall T, 0 <= sumZ (running r) T <= sumZ (owned r) T).
  { intros T. split; [apply sumZ_nonneg|apply sumZ_le]; intros u _; apply running_owned. }
  pose proof (Hge T1). pose proof (Hge T2).
  assert (running r t = 0) by (unfold running; by rewrite Ho).
  rewrite sumZ_app, sumZ_cons in Hone. split.
  - intros (_ & Hz)%(excl_removed _ _ He). rewrite sumZ_app, sumZ_cons in Hz.
    pose proof (stored_nonneg r s). lia.
  - intros d Hd <-. apply occ_elem in Hd. rewrite occ_places, (excl_running _ _ He) in Hd.
    rewrite sumZ_app, sumZ_cons in Hd. lia.
Qed.

Lemma wp_op_safe s T1 t T2 X (op : pool_op X) Q :
  pool_inv mem_of max s (T1 ++ t :: T2) -> pool_wp mem_of max X op t Q -> op_safe s X op.
Proof using H0 max_range.
  intros [Ha Hf He Hp] Hwp. destruct op; cbn in *; try done.
  - destruct Hwp as [Hn _].
    pose proof (acc_token _ _ _ _ _ Ha) as [? ?]. pose proof (acc_held _ _ _ Ha) as Hh.
    assert (Ht : forall T, Forall token_ok T -> 0 <= sumZ tk_sem T).
    { intros T HT. apply sumZ_nonneg. intros u Hu. rewrite Forall_forall in HT.
      specialize (HT u Hu). unfold token_ok in HT. lia. }
    pose proof (acc_tokens _ _ _ Ha) as [Ht1 [_ Ht2]%Forall_cons]%Forall_app.
    apply Ht in Ht1, Ht2. rewrite sumZ_app, sumZ_cons in Hh.
    destruct (sem_release_spec n (inFlight s)) as (sm & ? & _); [lia|lia|eauto].
  - destruct Hwp as [Hv _]. intros seed. pose proof (acc_idles_bound _ _ _ Ha).
    pose proof (takeIdle_spec seed (maxMemory s) data inFlightMemory (idlesState s)
      (acc_idles _ _ _ Ha)) as Hspec.
    rewrite (acc_max _ _ _ Ha) in *. specialize (Hspec ltac:(lia) ltac:(lia)).
    by destruct (takeIdle _ _ _ _ _) as [[] ?].
  - destruct Hwp as [Ho _].
    pose proof (paused_tokens _ _ Hp) as [_ [Hpt _]%Forall_cons]%Forall_app.
    by apply (Hpt _ _ Ho).
  - destruct Hwp as [Ho _]. by eapply owner_excludes.
  - destruct Hwp as [Ho _]. by eapply owner_excludes.
Qed.

Lemma next_op_safe s ps i X (op : pool_op X) k :
  pool_reachable mem_of max manifests (s, ps) -> ps !! i = Some (Vis op k) ->
  op_safe s X op.
Proof using All.
  intros (ts & Hok & Hi)%reachable_tokens Hps.
  apply list_elem_of_split_length in Hps as (ps1 & ps2 & -> & _).
  apply Forall2_app_inv_l in Hok as (T1 & T2' & _ & Hok & ->).
  apply Forall2_cons_inv_l in Hok as (t & T2 & Ht & _ & ->).
  by eapply wp_op_safe.
Qed.

(** C6: whatever the interleaving, the next operation of a goroutine neither
    panics nor waits forever: the semaphore is never released beyond what is
    held, eviction always finds the space and never slices an empty list, a
    container about to be unpaused has a pause scheduled, and a container
    about to be removed or handed to an invocation is nowhere else. Sends to
    channels that [Shutdown] has closed are the subject of PoolShutdown.v. *)
Theorem pool_never_panics s ps i X (op : pool_op X) k :
  pool_reachable mem_of max manifests (s, ps) -> ps !! i = Some (Vis op k) ->
  op_safe s X op.
Proof using All. intros Hr Hps. by eapply next_op_safe. Qed.

(** C31: when every goroutine has ended, all capacity has been given back: the
    in-flight counter and the semaphore are at zero and nothing executes. *)
Theorem pool_quiescence s ps :
  pool_reachable mem_of max manifests (s, ps) -> Forall (fun p => p = Ret tt) ps ->
  inFlightMemory s = 0 /\ sem_held (inFlight s) = 0 /\ sumZ memory (executing s) = 0.
Proof using All.
  intros (ts & Hok & [Ha _ _ _])%reachable_tokens Hret. cbn in *.
  assert (Hs : Forall settled ts).
  { clear Ha. unfold threads_ok in Hok. induction Hok as [|p t ps ts Hp _ IH]; [done|].
    apply Forall_cons in Hret as [-> Hret]. constructor; [exact Hp|by apply IH]. }
  assert (Hz : forall f : token -> Z, (forall t, settled t -> f t = 0) -> sumZ f ts = 0).
  { intros f Hf. clear -Hs Hf. induction Hs as [|t ts Ht _ IH]; cbn; [done|].
    rewrite (Hf t Ht), IH. done. }
  rewrite (acc_cnt _ _ _ Ha), (acc_held _ _ _ Ha), (acc_use _ _ _ Ha).
  split_and!; apply Hz; by intros t (? & ? & ? & ?).
Qed.
End pool.

(** ** Concrete runs *)

Definition pool_256 : config (E := pool_op) (S := pstate) := (NewContainerPool 256 ∅, []).
Definition isSome {A} (o : option A) : bool := match o with Some _ => true | None => false end.
Definition final (acts : list action) : config := default pool_256 (schedule acts pool_256).

(** [f] is idle, [g] is running, and a second [f] is about to take the idle one. *)
Definition busy_run : list action :=
  [Start (test_request "f"); StepN 0 14; Start (test_request "g"); StepN 1 8;
   Start (test_request "f"); StepN 2 2].
Definition ended_run : list action :=
  [Start (test_request "f"); StepN 0 14; Start (test_request "f"); StepN 1 12].

Lemma final_reachable acts :
  Forall (well_sized mem_128) acts -> isSome (schedule acts pool_256) = true ->
  pool_reachable mem_128 256 ∅ (final acts).
Proof.
  intros Hw Hc. apply (schedule_sound mem_128 256 ∅ acts); [done|].
  unfold final, pool_256 in *. by destruct (schedule _ _).
Qed.

(** Reachability of the configuration a closed list of actions leads to. *)
Ltac by_schedule :=
  apply final_reachable; [repeat constructor|vm_compute; reflexivity].

Lemma mem_128_range k : 0 <= mem_128 k < 2 ^ 63.
Proof. unfold mem_128. lia. Qed.

Lemma pool_mutual_exclusion_witness :
  NoDup (ref <$> places (final busy_run).1) /\
  forall x, x ∈ places (final busy_run).1 -> ref x ∉ removed (final busy_run).1.
Proof.
  apply (pool_mutual_exclusion mem_128 256 ∅ mem_128_range ltac:(lia)). by_schedule.
Defined.

Lemma pool_memory_accounting_witness :
  let s := (final busy_run).1 in
  sumZ memory (executing s) <= inFlightMemory s <= sem_held (inFlight s) /\
  sem_held (inFlight s) <= maxMemory s /\
  idlesMemory (idlesState s) = sumZ memory (idle_containers s) /\
  idlesMemory (idlesState s) + sumZ memory (executing s) <= 2 * maxMemory s.
Proof.
  apply (pool_memory_accounting mem_128 256 ∅ mem_128_range ltac:(lia)). by_schedule.
Defined.

(** The operation a goroutine is about to perform. *)
Definition next_op (c : pstate * list (poolM unit)) (i : nat) : Prop :=
  match (c.2 !! i : option (poolM unit)) with
  | Some (@Vis _ _ X op _) => op_safe c.1 X op
  | _ => False
  end.

Definition has_next_op (c : pstate * list (poolM unit)) (i : nat) : bool :=
  match (c.2 !! i : option (poolM unit)) with Some (Vis _ _) => true | _ => false end.

Lemma pool_never_panics_witness : next_op (final busy_run) 2.
Proof.
  assert (Hr : pool_reachable mem_128 256 ∅ (final busy_run)) by by_schedule.
  assert (Hn : has_next_op (final busy_run) 2 = true) by (vm_compute; reflexivity).
  revert Hr Hn. generalize (final busy_run). unfold next_op, has_next_op. intros [s ps]. cbn.
  destruct (ps !! 2%nat) as [[|X op k]|] eqn:E; intros Hr Hn; try discriminate.
  exact (pool_never_panics mem_128 256 ∅ mem_128_range ltac:(lia) s ps 2 X op k Hr E).
Defined.

Definition all_ended (c : pstate * list (poolM unit)) : bool :=
  forallb (fun p => match p with Ret tt => true | _ => false end) c.2.

Lemma all_ended_spec c : all_ended c = true -> Forall (fun p => p = Ret tt) c.2.
Proof.
  unfold all_ended. rewrite forallb_forall, Forall_forall. intros Hf p Hp.
  apply list_elem_of_In, Hf in Hp. by destruct p as [[]|].
Qed.

Lemma pool_quiescence_witness :
  let s := (final ended_run).1 in
  inFlightMemory s = 0 /\ sem_held (inFlight s) = 0 /\ sumZ memory (executing s) = 0.
Proof.
  assert (Hr : pool_reachable mem_128 256 ∅ (final ended_run)) by by_schedule.
  assert (Hn : all_ended (final ended_run) = true) by (vm_compute; reflexivity).
  apply all_ended_spec in Hn. revert Hr Hn. generalize (final ended_run). intros [s ps] Hr Hn.
  exact (pool_quiescence mem_128 256 ∅ mem_128_range ltac:(lia) s ps Hr Hn).
Defined.

(** Idle containers of [a] and [b]; an invocation of [c] has read the counter;
    then one of [a] takes its idle container, after which [c] finds enough room. *)
Definition race_run : list action :=
  [Start (test_request "a"); StepN 0 14; Start (test_request "b"); StepN 1 14;
   Start (test_request "c"); StepN 2 2; Start (test_request "a"); StepN 3 3;
   StepN 2 6; StepN 3 3].

(** The bound of twice the maximum is not idle talk: because [Get] reads the
    in-flight counter before it takes [idlesMux], a concurrent warm start makes
    the space check stale, and a pool of 256 MB (here 256 units) comes to hold
    384. *)
Theorem pool_overcommit_race :
  exists c, pool_reachable mem_128 256 ∅ c /\
    maxMemory c.1 = 256 /\
    idlesMemory (idlesState c.1) + sumZ memory (executing c.1) = 384.
Proof.
  exists (final race_run). split; [by_schedule|]. vm_compute. by split.
Qed.

(** Two invocations of [f] finish together: the first reads the clock, the
    second reads the clock and gets the lock first. *)
Definition unsorted_run : list action :=
  [Start (test_request "f"); Start (test_request "f"); StepN 0 10; StepN 1 14; StepN 0 4].

(** [Put] stamps [lastUsed] before it takes the lock, so a list of idle
    containers need not be ordered by [lastUsed], although [getContainer] and
    [reap] take the head of a list for its oldest container. *)
Theorem idles_not_always_sorted :
  exists c, pool_reachable mem_128 256 ∅ c /\ ~ lists_sorted (idles (idlesState c.1)).
Proof.
  exists (final unsorted_run). split; [by_schedule|]. intros Hs.
  specialize (Hs (req_key (test_request "f"))
    (lists_at (req_key (test_request "f")) (idles (idlesState (final unsorted_run).1)))).
  vm_compute in Hs. specialize (Hs eq_refl).
  apply StronglySorted_inv in Hs as [_ Hs%Forall_cons]. destruct Hs as [Hs _].
  apply Hs. reflexivity.
Qed.
