(* ===== verification/PoolGet.v ===== *)
(** * The container pool: what [Get] hands out

    The answers of [Get] when other goroutines run between any two of its
    operations: every operation may find the pool in any reachable state. *)
From S2P Require Export Pool.

(** One operation performed in some state satisfying [I]; the firewall answers
    according to [needs]. *)
Section interference.
Context `{WeightedSemaphore}.
Context {MI : MapRange WarmContainerKey (list PooledContainer)}.
Context {MP : MapRange PrewarmContainerKey (list PooledContainer)}.
Context {MM : MapRange string RuntimeManifest} {MN : MapRange PrewarmContainerKey Z}.
Context (I : pstate -> Prop) (needs : string -> bool).

Definition answers (X : Type) (op : pool_op X) : X -> Prop :=
  match op in pool_op X return X -> Prop with
  | CallNeedsFirewall namespace => fun b => b = needs namespace
  | _ => fun _ => True
  end.

Definition interfered (X : Type) (op : pool_op X) (_ : unit) (x : X) (_ : unit) : Prop :=
  (exists s s', I s /\ pool_exec X op s x s') /\ answers X op x.

(** [p] returns [a] in some interleaving. *)
Definition may_return {A} (p : poolM A) (a : A) : Prop := runs interfered p tt a tt.

Lemma may_return_bind {A B} (p : poolM A) (f : A -> poolM B) b :
  may_return (proc_bind p f) b -> exists a, may_return p a /\ may_return (f a) b.
Proof. intros (a & [] & ? & ?)%runs_bind. eauto. Qed.

Lemma may_return_vis {A X} (op : pool_op X) (k : X -> poolM A) a :
  may_return (Vis op k) a ->
  exists x, interfered X op tt x tt /\ may_return (k x) a.
Proof. intros (x & [] & ? & ?). eauto. Qed.

Lemma may_return_ret {A} (a b : A) : may_return (Ret a : poolM A) b -> b = a.
Proof. by intros [-> _]. Qed.
End interference.

#[global] Arguments may_return : simpl never.
#[local] Arguments getContainer : simpl never.
#[local] Arguments getWarm : simpl never.
#[local] Arguments getPrewarmed : simpl never.
#[local] Arguments getCold : simpl never.

(** Follow an execution, operation by operation. *)
Ltac follow_step :=
  match goal with
  | H : may_return _ _ (Ret _) _ |- _ => apply may_return_ret in H; simplify_eq
  | H : may_return _ _ (Vis _ _) _ |- _ => apply may_return_vis in H as (? & ? & H)
  | H : may_return _ _ (proc_bind _ _) _ |- _ => apply may_return_bind in H as (? & ? & H)
  | H : may_return _ _ (mbind _ _) _ |- _ => apply may_return_bind in H as (? & ? & H)
  | H : may_return _ _ (trigger _) _ |- _ => apply may_return_vis in H as (? & ? & H)
  | H : may_return _ _ (match ?x with _ => _ end) _ |- _ => destruct x eqn:?; simplify_eq/=
  | H : may_return _ _ (mret _) _ |- _ => apply may_return_ret in H; simplify_eq
  end.
Ltac follow := repeat follow_step.

Section get.
Context `{WeightedSemaphoreLaws}.
Context {MI : MapRange WarmContainerKey (list PooledContainer)}.
Context {MP : MapRange PrewarmContainerKey (list PooledContainer)}.
Context {MM : MapRange string RuntimeManifest} {MN : MapRange PrewarmContainerKey Z}.
Context (mem_of : WarmContainerKey -> Z) (max : Z) (manifests : RuntimeManifests).
Context (needs : string -> bool).
Context (mem_range : forall k, 0 <= mem_of k < 2 ^ 63) (max_range : 0 <= max < 2 ^ 62).

(** The pool's state at any moment of any interleaving. *)
Definition at_any_time (s : pstate) : Prop :=
  exists ps, pool_reachable mem_of max manifests (s, ps).

Notation returns := (may_return at_any_time needs).

Definition has_firewall (c : PooledContainer) : bool :=
  match firewallCleanup c with Some _ => true | None => false end.

(** The firewall answers met on the way, then the cases of the cleanup. *)
Ltac finish_returns :=
  repeat match goal with H : interfered _ _ _ (CallNeedsFirewall _) _ _ _ |- _ =>
    destruct H as [_ H]; cbn in H end;
  unfold has_firewall; cbn; split_and!; try done; congruence.

Lemma getWarm_returns ns c c' b :
  returns (getWarm ns c) (Ok (c', b)) ->
  initializedFor c' = initializedFor c /\ memory c' = memory c /\ has_firewall c' = needs ns.
Proof using All.
  unfold getWarm. intros Hr. follow.
  all: repeat match goal with H : firewallCleanup ?c = _ |- _ => revert H end.
  all: intros; destruct c; cbn in *; subst; finish_returns.
Qed.

Lemma getPrewarmed_returns ns data c c' b :
  firewallCleanup c = None -> returns (getPrewarmed ns data c) (Ok (c', b)) ->
  initializedFor c' = data /\ memory c' = memory c /\ has_firewall c' = needs ns.
Proof using All.
  unfold getPrewarmed. intros Hn Hr. follow.
  all: destruct c; cbn in *; subst; finish_returns.
Qed.

Lemma getCold_returns ns fn kind mem data c' b :
  returns (getCold ns fn kind mem data) (Ok (c', b)) ->
  initializedFor c' = data /\ memory c' = mem /\ has_firewall c' = needs ns.
Proof using All. unfold getCold. intros Hr. follow. all: finish_returns. Qed.

Lemma at_any_time_inv s : at_any_time s -> exists ts, pool_inv mem_of max s ts.
Proof using All. intros (ps & (ts & _ & ?)%reachable_tokens); eauto. Qed.

Lemma takeIdle_warm data infl c :
  interfered at_any_time needs _ (LockedTakeIdle data infl) tt (TakeWarm c) tt ->
  initializedFor c = data /\ memory c = mem_of data.
Proof using All.
  intros ((s & s' & (ts & [Ha Hf _ _])%at_any_time_inv & seed & st' & Ht & _) & _).
  unfold takeIdle in Ht.
  destruct (last _) as [d|] eqn:El; [|go_cases]. simplify_eq.
  apply last_Some in El as [l El].
  assert (Hin : c ∈ lists_at data (idles (idlesState s))) by (rewrite El; set_solver).
  destruct (acc_idles _ _ _ Ha) as [Hk _].
  pose proof (lists_at_keyed _ _ _ Hk Hin) as <-. split; [done|].
  apply (filed_idle _ _ Hf). by apply lists_at_elems in Hin.
Qed.

Lemma takePrewarm_answer key c :
  interfered at_any_time needs _ (LockedTakePrewarm key) tt (Some c) tt -> prewarm_for key c.
Proof using All.
  intros ((s & s' & (ts & [_ Hf _ _])%at_any_time_inv & Ht) & _). cbn in Ht.
  unfold lists_at in Ht. destruct (prewarmed s !! key) as [l|] eqn:E; [|by destruct Ht].
  destruct l as [|d l]; cbn in Ht; destruct Ht as [? _]; simplify_eq.
  apply (filed_prewarm _ _ Hf _ _ _ E). set_solver.
Qed.

(** C10: whatever other goroutines do meanwhile, a container obtained from
    [Get] for a function of a namespace was initialized for this very
    function and namespace or for none yet (then it is marked for them), has
    the memory of the function, and has a firewall of its own exactly if the
    namespace needs one. *)
Theorem Get_isolation ns fn kind c reused :
  let key := {| InvocationNamespace := ns; Function := fn |} in
  returns (Get ns fn kind (mem_of key)) (Ok (c, reused)) ->
  initializedFor c = key /\ memory c = mem_of key /\ has_firewall c = needs ns.
Proof using All.
  intros key Hr. unfold Get in Hr. follow.
  - edestruct takeIdle_warm as [Hk Hm]; [done|].
    edestruct getWarm_returns as (-> & -> & ->); [done|]. auto.
  - edestruct takePrewarm_answer as [Hm Hn]; [done|].
    edestruct getPrewarmed_returns as (-> & -> & ->); [exact Hn|done|]. auto.
  - by eapply getCold_returns.
Qed.
End get.

(** A method called by the newest goroutine, the others resting. *)
Lemma handled_may_return mem_of max manifests {A} (p : poolM A) (f : A -> poolM unit) s ps a s' :
  pool_reachable mem_of max manifests (s, ps ++ [proc_bind p f]) ->
  handled p s = Some (a, s') ->
  may_return (at_any_time mem_of max manifests) (fun _ => false) p a.
Proof.
  unfold may_return. revert s. induction p as [b|X op k IH]; cbn; intros s Hr Hh; [by simplify_eq|].
  destruct (pool_handle X op s) as [[x s1]|] eqn:E; [|done].
  exists x, tt. split.
  - split; [|destruct op; cbn in *; by simplify_eq].
    exists s, s1. split; [by exists (ps ++ [Vis op (fun x => proc_bind (k x) f)])|by apply pool_handle_sound].
  - apply (IH _ s1); [|done].
    eapply reachable_step; [exact Hr|]. apply (step_op pool_exec _ s s1 ps [] X op (fun y => proc_bind (k y) f)). by apply pool_handle_sound.
Qed.

Definition new_container (name : string) : PooledContainer :=
  {| container := {| c_ref := 0; c_IP := testIP |}; initializedFor := req_key (test_request name);
     lastUsed := 0; memory := 128; firewallCleanup := None |}.

Lemma Get_isolation_witness :
  initializedFor (new_container "f") = req_key (test_request "f") /\
  memory (new_container "f") = mem_128 (req_key (test_request "f")) /\
  has_firewall (new_container "f") = false.
Proof.
  apply (Get_isolation mem_128 256 ∅ (fun _ => false) mem_128_range ltac:(lia)
           "guest" (test_function "f") "nodejs:14" (new_container "f") false).
  eapply (handled_may_return _ _ _ _ _ (NewContainerPool 256 ∅) []).
  - apply rtc_once, (step_start _ _ _ []), (client_invocation mem_128 (test_request "f")).
    reflexivity.
  - vm_compute. reflexivity.
Defined.
