(* ===== verification/PoolSeq.v ===== *)
(** * The container pool: properties of whole method calls

    Method calls that run to completion one after the other, the operations
    answering as [pool_exec] allows: the memory limit, eviction, reaping,
    reconciliation of prewarmed containers, shutdown. *)
From S2P Require Export PoolGet.

#[local] Arguments unpauseAndRemove : simpl never.
#[local] Arguments reconcilePrewarm : simpl never.
#[local] Arguments getContainer : simpl never.
#[local] Arguments getWarm : simpl never.
#[local] Arguments getPrewarmed : simpl never.
#[local] Arguments getCold : simpl never.
#[local] Arguments PooledContainer_Remove : simpl never.
#[local] Arguments for_each : simpl never.
#[local] Arguments for_fold : simpl never.
#[local] Arguments for_early : simpl never.
#[local] Arguments release : simpl never.

Section calls.
Context `{WeightedSemaphoreLaws}.
Context {MI : MapRange WarmContainerKey (list PooledContainer)}.
Context {MP : MapRange PrewarmContainerKey (list PooledContainer)}.
Context {MM : MapRange string RuntimeManifest} {MN : MapRange PrewarmContainerKey Z}.

(** ** Code that does not touch the accounted memory *)
Definition quiet_op (X : Type) (op : pool_op X) : Prop :=
  match op with
  | SemAcquire _ | SemRelease _ | InFlightMemoryAdd _
  | LockedTakeIdle _ _ | LockedPutIdle _ | LockedReapIdles _ => False
  | LockedAddPrewarm key c => prewarm_for key c
  | _ => True
  end.

Definition quiet_answer (X : Type) (op : pool_op X) : X -> Prop :=
  match op in pool_op X return X -> Prop with
  | LockedTakePrewarm key => fun r =>
      match r with Some c => prewarm_for key c | None => True end
  | _ => fun _ => True
  end.

(** [p] performs such operations only, and its result satisfies [P]. *)
Fixpoint quietly {A} (p : poolM A) (P : A -> Prop) : Prop :=
  match p with
  | Ret a => P a
  | Vis op k => quiet_op _ op /\ forall x, quiet_answer _ op x -> quietly (k x) P
  end.

Definition memory_view (s : pstate) := (maxMemory s, inFlight s, inFlightMemory s, idlesState s).

Lemma quietly_bind {A B} (p : poolM A) (f : A -> poolM B) P :
  quietly p (fun a => quietly (f a) P) -> quietly (proc_bind p f) P.
Proof using All. induction p as [a|X op k IH]; cbn; [done|]. intros [? ?]. auto. Qed.

Lemma quietly_mono {A} (p : poolM A) (P Q : A -> Prop) :
  (forall a, P a -> Q a) -> quietly p P -> quietly p Q.
Proof using All. intros HPQ. induction p; cbn; [auto|]. intros [? ?]. auto. Qed.

Lemma quietly_for_each {A} (l : list A) (body : A -> poolM unit) :
  (forall x, quietly (body x) (fun _ => True)) -> quietly (for_each l body) (fun _ => True).
Proof using All.
  intros Hb. induction l as [|x l IH]; cbn [for_each]; [done|]. apply quietly_bind.
  eapply quietly_mono; [|apply Hb]. auto.
Qed.

Lemma quietly_for_fold {A B} (l : list A) (body : B -> A -> poolM B) :
  (forall b x, quietly (body b x) (fun _ => True)) ->
  forall b, quietly (for_fold l b body) (fun _ => True).
Proof using All.
  intros Hb. induction l as [|x l IH]; intros b; cbn [for_fold]; [done|]. apply quietly_bind.
  eapply quietly_mono; [|apply Hb]. auto.
Qed.

Lemma quietly_for_early {A B} (l : list A) (body : A -> poolM (option B)) :
  (forall x, quietly (body x) (fun _ => True)) -> quietly (for_early l body) (fun _ => True).
Proof using All.
  intros Hb. induction l as [|x l IH]; cbn [for_early]; [done|]. apply quietly_bind.
  eapply quietly_mono; [|apply Hb]. intros [b|] _; cbn; auto.
Qed.

(** Prewarmed containers are what their keys say. *)
Definition prewarm_ok (s : pstate) : Prop :=
  forall key c, c ∈ lists_at key (prewarmed s) -> prewarm_for key c.

Lemma quiet_exec_view X (op : pool_op X) s x s' :
  quiet_op X op -> pool_exec X op s x s' -> memory_view s' = memory_view s.
Proof using All.
  intros Hq He. destruct op; cbn in *; try done;
    repeat match goal with
    | Hx : exists _, _ |- _ => destruct Hx
    | Hx : _ /\ _ |- _ => destruct Hx
    | Hx : match ?y with _ => _ end |- _ => destruct y
    end; subst; done.
Qed.

Lemma prewarm_ok_insert s key l :
  prewarm_ok s -> (forall c, c ∈ l -> prewarm_for key c) ->
  prewarm_ok (set_prewarmed (<[key := l]> (prewarmed s)) s).
Proof using All.
  intros Hok Hl key' c. cbn. unfold lists_at. rewrite lookup_insert. case_decide; cbn.
  - subst. apply Hl.
  - apply Hok.
Qed.

Lemma quiet_exec_prewarm X (op : pool_op X) s x s' :
  quiet_op X op -> prewarm_ok s -> pool_exec X op s x s' ->
  prewarm_ok s' /\ quiet_answer X op x.
Proof using All.
  intros Hq Hok He. destruct op; cbn in *; try done;
    try (repeat match goal with
    | Hx : exists _, _ |- _ => destruct Hx
    | Hx : _ /\ _ |- _ => destruct Hx
    | Hx : match ?y with _ => _ end |- _ => destruct y
    end; subst; done).
  - pose proof (Hok key) as Hk. destruct (lists_at key (prewarmed s)) as [|c rest];
      destruct He as [-> ->]; [done|]. split; [|apply Hk; set_solver].
    apply prewarm_ok_insert; [done|]. intros d Hd. apply Hk. set_solver.
  - subst. split; [|done]. apply prewarm_ok_insert; [done|].
    intros d [Hd|Hd%list_elem_of_singleton]%elem_of_app; [by apply Hok|by subst].
Qed.

Lemma quietly_runs {A} (p : poolM A) P s a s' :
  quietly p P -> prewarm_ok s -> runs pool_exec p s a s' ->
  P a /\ memory_view s' = memory_view s /\ prewarm_ok s'.
Proof using All.
  revert s. induction p as [b|X op k IH]; cbn; intros s Hq Hok Hr.
  - by destruct Hr as [-> ->].
  - destruct Hq as [Hq Hk], Hr as (x & s1 & He & Hr).
    destruct (quiet_exec_prewarm _ _ _ _ _ Hq Hok He) as [Hok1 Hans].
    destruct (IH x s1 (Hk x Hans) Hok1 Hr) as (? & -> & ?). split_and!; [done| |done].
    by eapply quiet_exec_view.
Qed.

Ltac quiet_step :=
  cbn;
  match goal with
  | |- True => exact I
  | |- _ /\ _ => split
  | |- forall _, _ => intro
  | |- quietly (match ?x with _ => _ end) _ => destruct x eqn:?
  | |- quietly (proc_bind _ _) _ => apply quietly_bind
  | |- quietly (_ ≫= _) _ => apply quietly_bind
  | |- quietly (PooledContainer_Remove _) _ => unfold PooledContainer_Remove
  | |- quietly (isBrokenByUser _) _ => unfold isBrokenByUser
  end.
Ltac quiet := repeat quiet_step.

(** The container in a successful answer of [Get]. *)
Definition obtained (key : WarmContainerKey) (mem : Z) (r : result (PooledContainer * bool)) : Prop :=
  match r with
  | Ok (c, _) => initializedFor c = key /\ memory c = mem
  | Err _ => True
  end.

Lemma quiet_Remove c : quietly (PooledContainer_Remove c) (fun _ => True).
Proof using All. quiet. Qed.

Lemma quiet_getWarm ns c :
  quietly (getWarm ns c) (obtained (initializedFor c) (memory c)).
Proof using All.
  unfold getWarm, adjustWarmFirewall, CleanupPooled, CleanupContainer. quiet; done.
Qed.

Lemma quiet_getPrewarmed ns data c :
  quietly (getPrewarmed ns data c) (obtained data (memory c)).
Proof using All.
  unfold getPrewarmed, CleanupPooled, CleanupContainer. quiet; done.
Qed.

Lemma quiet_getCold ns fn kind mem data :
  quietly (getCold ns fn kind mem data) (obtained data mem).
Proof using All. unfold getCold, CleanupContainer. quiet; done. Qed.

Lemma quiet_unpauseAndRemove txt txt' c :
  quietly (unpauseAndRemove txt txt' c) (fun _ => True).
Proof using All. unfold unpauseAndRemove, CleanupPooled, CleanupContainer. quiet. Qed.

Lemma quiet_deleterRound : quietly deleterRound (fun _ => True).
Proof using All.
  unfold deleterRound. cbn. split; [done|]. intros c _. apply quietly_bind.
  by apply quiet_unpauseAndRemove.
Qed.

Lemma quiet_reconcilePrewarm : quietly reconcilePrewarm (fun _ => True).
Proof using All.
  unfold reconcilePrewarm. cbn. split; [done|]. intros l _.
  apply quietly_for_early. intros [key n]. apply quietly_for_early. intros _.
  unfold createPrewarm. quiet. by split.
Qed.

Lemma quiet_prewarmRound : quietly prewarmRound (fun _ => True).
Proof using All.
  unfold prewarmRound. cbn. split; [done|]. intros _ _. apply quietly_bind.
  eapply quietly_mono; [|apply quiet_reconcilePrewarm]. intros [|] _; quiet.
Qed.
End calls.

(** ** The memory limit when calls do not overlap *)
Section sequential.
Context `{WeightedSemaphoreLaws}.
Context {MI : MapRange WarmContainerKey (list PooledContainer)}.
Context {MP : MapRange PrewarmContainerKey (list PooledContainer)}.
Context {MM : MapRange string RuntimeManifest} {MN : MapRange PrewarmContainerKey Z}.
Context (mem_of : WarmContainerKey -> Z) (max : Z) (manifests : RuntimeManifests).
Context (mem_range : forall k, 0 <= mem_of k < 2 ^ 63) (max_range : 0 <= max < 2 ^ 62).

(** One complete call; the list holds the containers obtained and not yet returned. *)
Inductive call : pstate * list PooledContainer -> pstate * list PooledContainer -> Prop :=
| call_Get r c reused s s' used :
    req_memory r = mem_of (req_key r) ->
    runs pool_exec (Get (req_namespace r) (req_function r) (req_kind r) (req_memory r))
      s (Ok (c, reused)) s' ->
    call (s, used) (s', c :: used)
| call_Get_fails r e s s' used :
    req_memory r = mem_of (req_key r) ->
    runs pool_exec (Get (req_namespace r) (req_function r) (req_kind r) (req_memory r))
      s (Err e) s' ->
    call (s, used) (s', used)
| call_Put c s s' l1 l2 :
    runs pool_exec (Put c) s tt s' -> call (s, l1 ++ c :: l2) (s', l1 ++ l2)
| call_PutToDestroy c e s s' l1 l2 :
    runs pool_exec (PutToDestroy c) s e s' -> call (s, l1 ++ c :: l2) (s', l1 ++ l2)
| call_reap t errs s s' used :
    runs pool_exec (reap t) s errs s' -> call (s, used) (s', used)
| call_deleter s s' used :
    runs pool_exec deleterRound s tt s' -> call (s, used) (s', used)
| call_prewarm s s' used :
    runs pool_exec prewarmRound s tt s' -> call (s, used) (s', used).

Definition well_filed (c : PooledContainer) : Prop := memory c = mem_of (initializedFor c).

Record seq_inv (s : pstate) (used : list PooledContainer) : Prop := {
  seq_max : maxMemory s = max;
  seq_size : sem_size (inFlight s) = max;
  seq_held : sem_held (inFlight s) = sumZ memory used;
  seq_cnt : inFlightMemory s = sumZ memory used;
  seq_idles : idles_ok (idlesState s);
  seq_filed : forall c, c ∈ idle_containers s -> well_filed c;
  seq_used : Forall well_filed used;
  seq_prewarm : prewarm_ok s;
  seq_total : idlesMemory (idlesState s) + sumZ memory used <= max
}.

Lemma seq_inv_view s s' used :
  memory_view s' = memory_view s /\ prewarm_ok s' -> seq_inv s used -> seq_inv s' used.
Proof using All.
  unfold memory_view. intros [Hv Hp] [H1 H2 H3 H4 H5 H6 H7 _ H8].
  injection Hv as Em Ef Ei Es. split; unfold idle_containers in *; rewrite ?Em, ?Ef, ?Ei, ?Es; done.
Qed.

Lemma well_filed_nonneg c : well_filed c -> 0 <= memory c < 2 ^ 63.
Proof using All. intros ->. apply mem_range. Qed.

Lemma idles_nonneg st : idles_ok st -> 0 <= idlesMemory st.
Proof using All. intros (_ & Hnn & -> & _). by apply msum_nonneg. Qed.

Lemma used_nonneg used : Forall well_filed used -> 0 <= sumZ memory used.
Proof using All.
  intros Hu. apply sumZ_nonneg. intros c Hc. rewrite Forall_forall in Hu.
  by apply well_filed_nonneg, Hu.
Qed.

(** Giving back the weight of a container. *)
Lemma runs_release c s s' :
  0 <= memory c < 2 ^ 63 -> memory c <= inFlightMemory s < 2 ^ 63 ->
  memory c <= sem_held (inFlight s) ->
  runs pool_exec (release c) s tt s' ->
  maxMemory s' = maxMemory s /\ sem_size (inFlight s') = sem_size (inFlight s) /\
  sem_held (inFlight s') = sem_held (inFlight s) - memory c /\
  inFlightMemory s' = inFlightMemory s - memory c /\ idlesState s' = idlesState s /\
  prewarmed s' = prewarmed s.
Proof using All.
  intros Hc Hi Hh. unfold release. cbn. rewrite (i64_small (memory c)) by lia.
  intros (v & s1 & [-> ->] & [] & s2 & (sm & Hsm & ->) & _ & ->). cbn in *.
  destruct (sem_release_spec (memory c) (inFlight s)) as (sm' & Hsm' & Hs & Hd); [lia|lia|].
  rewrite Hsm in Hsm'. simplify_eq. rewrite u64_add_neg by lia. split_and!; try done; lia.
Qed.

(** The part of [Get] after the counter has been raised. *)
Lemma runs_getContainer ns fn kind v s r s' used :
  let key := {| InvocationNamespace := ns; Function := fn |} in
  maxMemory s = max -> idles_ok (idlesState s) ->
  (forall c, c ∈ idle_containers s -> well_filed c) -> Forall well_filed used -> prewarm_ok s ->
  idlesMemory (idlesState s) + sumZ memory used <= max ->
  v = sumZ memory used + mem_of key -> v <= max ->
  runs pool_exec (getContainer ns fn kind (mem_of key) v) s r s' ->
  maxMemory s' = max /\ inFlight s' = inFlight s /\ inFlightMemory s' = inFlightMemory s /\
  idles_ok (idlesState s') /\ (forall c, c ∈ idle_containers s' -> well_filed c) /\
  idlesMemory (idlesState s') + v <= max /\ prewarm_ok s' /\ obtained key (mem_of key) r.
Proof using All.
  intros key Hmax Hok Hf Hu Hpre Htot -> Hv. unfold getContainer. cbn.
  intros (x & s1 & (seed & st' & Htake & ->) & Hr).
  pose proof (used_nonneg _ Hu) as Hnn. pose proof (mem_range key).
  pose proof (idles_nonneg _ Hok).
  pose proof (takeIdle_spec seed (maxMemory s) key (sumZ memory used + mem_of key)
    (idlesState s) Hok) as Hspec. fold key in Htake. rewrite Htake, Hmax in Hspec.
  specialize (Hspec ltac:(lia) ltac:(lia)). unfold idle_containers in *.
  assert (Hpre1 : prewarm_ok (set_idlesState st' s)) by exact Hpre.
  destruct x as [c|deleted| |]; [| |done|done].
  - destruct Hspec as (Hok' & Hkey & _ & Hp & Hm).
    destruct (quietly_runs _ _ _ _ _ (quiet_getWarm ns c) Hpre1 Hr) as (Hob & Hview & Hpre').
    injection Hview as -> -> -> ->. cbn.
    assert (Hc : well_filed c) by (apply Hf; rewrite Hp; set_solver).
    unfold well_filed in Hc. rewrite Hkey in Hc, Hob. rewrite Hc in Hob.
    split_and!; try done; [|lia]. intros d Hd. apply Hf. rewrite Hp. set_solver.
  - destruct Hspec as (Hok' & _ & Hp & Hle & _ & _ & _).
    assert (Hq : quietly (_ ← for_each deleted (fun c => trigger (SendToDelete c));
                          p ← trigger (LockedTakePrewarm {| Kind := kind; Memory := mem_of key |});
                          match p with
                          | Some c => getPrewarmed ns key c
                          | None => getCold ns fn kind (mem_of key) key
                          end) (obtained key (mem_of key))).
    { apply quietly_bind. eapply quietly_mono; [|apply quietly_for_each; by intros].
      intros _ _. cbn. split; [done|]. intros [c|].
      - intros [Hm _]. cbn in Hm. rewrite <- Hm. apply quiet_getPrewarmed.
      - intros _. apply quiet_getCold. }
    destruct (quietly_runs _ _ _ _ _ Hq Hpre1 Hr) as (Hob & Hview & Hpre').
    injection Hview as -> -> -> ->. cbn. split_and!; try done.
    intros d Hd. apply Hf. rewrite Hp. set_solver.
Qed.

Lemma seq_Get ns fn kind s r s' used :
  let key := {| InvocationNamespace := ns; Function := fn |} in
  seq_inv s used -> runs pool_exec (Get ns fn kind (mem_of key)) s r s' ->
  match r with Ok (c, _) => seq_inv s' (c :: used) | Err _ => seq_inv s' used end.
Proof using All.
  intros key Hinv. pose proof (mem_range key) as Hk. unfold Get.
  cbn [mbind proc_MBind proc_bind trigger runs].
  rewrite (i64_small (mem_of key)) by lia.
  intros (x & s1 & Hacq & Hr). destruct Hacq as [(sm & -> & Hsm & ->)|(err & -> & ->)]; cbn in Hr.
  2: { by destruct Hr as [<- ->]. }
  destruct Hr as (v & s2 & [-> ->] & Hr). apply runs_bind in Hr as (got & s3 & Hgot & Hr).
  destruct (sem_acquire_spec _ _ _ (proj1 Hk) Hsm) as (Hsz & Hheld & Hle).
  destruct Hinv as [Hmax Hsize Hh Hcnt Hidl Hf Hu Hp Htot]. cbn in Hgot.
  pose proof (used_nonneg _ Hu). rewrite Hcnt in Hgot.
  rewrite u64_small in Hgot by lia.
  pose proof (runs_getContainer ns fn kind (sumZ memory used + mem_of key)
    (set_inFlightMemory (sumZ memory used + mem_of key) (set_inFlight sm s)) got s3 used
    Hmax Hidl Hf Hu Hp Htot eq_refl ltac:(lia) Hgot)
    as (Hm3 & Hs3 & Hc3 & Hidl3 & Hf3 & Htot3 & Hp3 & Hob). cbn in Hs3, Hc3.
  destruct got as [[c b]|e]; cbn in Hr.
  - destruct Hr as [<- ->]. destruct Hob as [Hkey Hmem].
    split; cbn; rewrite ?Hs3, ?Hc3, ?Hm3, ?Hmem; fold key; try done; try lia.
    constructor; [|done]. unfold well_filed. by rewrite Hmem, Hkey.
  - destruct Hr as (w & s4 & [-> ->] & [] & s5 & (sm' & Hsm' & ->) & <- & ->). cbn in *.
    rewrite Hs3 in Hsm'.
    destruct (sem_release_spec (mem_of key) sm) as (sm'' & Hsm'' & Hsz' & Hheld'); [lia|lia|].
    rewrite Hsm' in Hsm''. simplify_eq.
    split; cbn; rewrite ?Hc3; try done; try lia. rewrite u64_add_neg; lia.
Qed.

Lemma used_split l1 c l2 :
  Forall well_filed (l1 ++ c :: l2) ->
  Forall well_filed (l1 ++ l2) /\ well_filed c /\
  0 <= memory c < 2 ^ 63 /\ 0 <= sumZ memory l1 /\ 0 <= sumZ memory l2.
Proof using All.
  intros [H1 [Hc H2]%Forall_cons]%Forall_app. pose proof (used_nonneg _ H1).
  pose proof (used_nonneg _ H2). pose proof (well_filed_nonneg _ Hc).
  split_and!; try done; try lia. by apply Forall_app.
Qed.

Lemma seq_Put c s s' l1 l2 :
  seq_inv s (l1 ++ c :: l2) -> runs pool_exec (Put c) s tt s' -> seq_inv s' (l1 ++ l2).
Proof using All.
  intros [Hmax Hsize Hh Hcnt Hidl Hf Hu Hp Htot]. unfold Put. cbn.
  intros (t & s1 & [_ ->] & [] & s2 & -> & [] & s3 & -> & Hr).
  destruct (used_split _ _ _ Hu) as (Hu' & Hc & Hc0 & Hl1 & Hl2).
  autorewrite with invoker in *. pose proof (idles_nonneg _ Hidl).
  apply runs_release in Hr as (Hm' & Hs' & Hh' & Hc' & Hi' & Hpw); cbn in *; [|lia..].
  destruct (putIdle_spec (set_lastUsed t c) (idlesState s) Hidl) as (Hok & Hperm & Hmem & _);
    [cbn; lia|cbn; lia|].
  split; unfold idle_containers in *; rewrite ?Hi'; autorewrite with invoker; try done;
    try lia; try congruence.
  - intros d. rewrite Hperm. intros [->|Hd]%elem_of_cons; [done|by apply Hf].
  - intros key d Hd. rewrite Hpw in Hd. by apply Hp.
  - rewrite Hmem. cbn. lia.
Qed.

Lemma seq_PutToDestroy c e s s' l1 l2 :
  seq_inv s (l1 ++ c :: l2) -> runs pool_exec (PutToDestroy c) s e s' -> seq_inv s' (l1 ++ l2).
Proof using All.
  intros [Hmax Hsize Hh Hcnt Hidl Hf Hu Hp Htot]. unfold PutToDestroy.
  intros (rm & s1 & Hrm & Hr)%runs_bind.
  destruct (quietly_runs _ _ _ _ _ (quiet_Remove c) Hp Hrm) as (_ & Hview & Hp1).
  injection Hview as Em Ef Ei Es.
  apply runs_bind in Hr as ([] & s2 & Hr & Hend).
  assert (s' = s2) as -> by (destruct rm; cbn in Hend; tauto).
  destruct (used_split _ _ _ Hu) as (Hu' & Hc & Hc0 & Hl1 & Hl2).
  autorewrite with invoker in *. pose proof (idles_nonneg _ Hidl).
  apply runs_release in Hr as (Hm' & Hs' & Hh' & Hc' & Hi' & Hpw); [|lia|lia|rewrite Ef; lia].
  rewrite Em in Hm'. rewrite Ef in Hs', Hh'. rewrite Es in Hi'. rewrite Ei in Hc'.
  split; unfold idle_containers in *; rewrite ?Hi'; autorewrite with invoker; try done;
    try lia; try congruence.
  intros key d Hd. rewrite Hpw in Hd. by apply Hp1.
Qed.

Lemma seq_reap t errs s s' used :
  seq_inv s used -> runs pool_exec (reap t) s errs s' -> seq_inv s' used.
Proof using All.
  intros [Hmax Hsize Hh Hcnt Hidl Hf Hu Hp Htot]. unfold reap. cbn.
  intros (del & s1 & (seed & st' & Hreap & ->) & Hr).
  destruct (reapIdles_spec seed t (idlesState s) Hidl) as (del' & st'' & Heq & Hok & Hperm & _).
  rewrite Hreap in Heq. simplify_eq.
  assert (Hq : quietly (for_fold del' [] (fun errs c =>
    r ← unpauseAndRemove "failed to unpause container during reaping: %w"
          "failed to delete container during reaping: %w" c;
    match r with Some e => Ret (errs ++ [e]) | None => Ret errs end)) (fun _ => True)).
  { apply quietly_for_fold. intros b x. apply quietly_bind.
    eapply quietly_mono; [|apply quiet_unpauseAndRemove]. by intros [|]. }
  assert (Hp1 : prewarm_ok (set_idlesState st'' s)) by exact Hp.
  destruct (quietly_runs _ _ _ _ _ Hq Hp1 Hr) as (_ & Hview & Hp2).
  injection Hview as Em Ef Ei Es.
  assert (Hmem : idlesMemory st'' <= idlesMemory (idlesState s)).
  { destruct Hidl as (_ & Hnn & -> & _), Hok as (_ & _ & -> & _). unfold msum.
    rewrite (sumZ_perm _ _ _ Hperm), sumZ_app.
    assert (0 <= sumZ memory del'); [|lia]. apply sumZ_nonneg.
    intros c Hc. apply Hnn. rewrite Hperm. set_solver. }
  split; unfold idle_containers in *; rewrite ?Em, ?Ef, ?Ei, ?Es; try done; [|lia].
  intros c Hc. apply Hf. rewrite Hperm. set_solver.
Qed.

Lemma call_preserves s used s' used' :
  seq_inv s used -> call (s, used) (s', used') -> seq_inv s' used'.
Proof using All.
  intros Hinv Hcall. inversion Hcall; subst.
  - match goal with Hm : req_memory _ = _, Hr : runs _ _ _ _ _ |- _ =>
      rewrite Hm in Hr; by apply (seq_Get _ _ _ _ _ _ _ Hinv Hr) end.
  - match goal with Hm : req_memory _ = _, Hr : runs _ _ _ _ _ |- _ =>
      rewrite Hm in Hr; by apply (seq_Get _ _ _ _ _ _ _ Hinv Hr) end.
  - by eapply seq_Put.
  - by eapply seq_PutToDestroy.
  - by eapply seq_reap.
  - eapply seq_inv_view; [|done].
    by eapply quietly_runs; [apply quiet_deleterRound|apply (seq_prewarm _ _ Hinv)|].
  - eapply seq_inv_view; [|done].
    by eapply quietly_runs; [apply quiet_prewarmRound|apply (seq_prewarm _ _ Hinv)|].
Qed.

Lemma initial_seq : seq_inv (NewContainerPool max manifests) [].
Proof using All.
  destruct (initial_inv mem_of max manifests max_range) as [[] [] _ _].
  split; try done; try (cbn; lia).
  intros key c. cbn. unfold lists_at. rewrite lookup_empty. cbn. set_solver.
Qed.

Lemma calls_preserve c c' : rtc call c c' -> seq_inv c.1 c.2 -> seq_inv c'.1 c'.2.
Proof using All.
  induction 1 as [c|[s u] [s1 u1] c2 Hc _ IH]; [done|]. intros Hi. apply IH.
  by eapply call_preserves.
Qed.

(** As long as method calls do not overlap, the idle containers and those
    handed out never take more memory than the configured maximum, and the
    in-flight counter and the semaphore are exactly what is handed out. *)
Theorem sequential_limit s used :
  rtc call (NewContainerPool max manifests, []) (s, used) ->
  idlesMemory (idlesState s) + sumZ memory used <= maxMemory s /\
  idlesMemory (idlesState s) = sumZ memory (idle_containers s) /\
  inFlightMemory s = sumZ memory used /\ sem_held (inFlight s) = sumZ memory used.
Proof using All.
  intros Hr. pose proof (calls_preserve _ _ Hr initial_seq) as Hi. cbn in Hi.
  destruct Hi as [-> _ -> -> (_ & _ & Hm & _) _ _ _ ?]. unfold msum, idle_containers in *.
  by rewrite <- Hm.
Qed.
End sequential.

(** The state after one [Get] in a new pool of 256. *)
Definition got_f : option (result (PooledContainer * bool) * pstate) :=
  let r := test_request "f" in
  handled (Get (req_namespace r) (req_function r) (req_kind r) (req_memory r))
    (NewContainerPool 256 ∅).

Definition state_after {A} (o : option (A * pstate)) : pstate :=
  match o with Some (_, s) => s | None => NewContainerPool 0 ∅ end.

Lemma sequential_limit_witness :
  let s := state_after got_f in
  let used := [new_container "f"] in
  idlesMemory (idlesState s) + sumZ memory used <= maxMemory s /\
  idlesMemory (idlesState s) = sumZ memory (idle_containers s) /\
  inFlightMemory s = sumZ memory used /\ sem_held (inFlight s) = sumZ memory used.
Proof.
  apply (sequential_limit mem_128 256 ∅ mem_128_range ltac:(lia)). apply rtc_once.
  apply (call_Get mem_128 (test_request "f") (new_container "f") false); [reflexivity|].
  apply handled_runs. vm_compute. reflexivity.
Defined.
