(* ===== verification/PoolUpkeep.v ===== *)
(** * The container pool: eviction, reaping, prewarming and shutdown *)
From S2P Require Export PoolSeq.

#[local] Arguments unpauseAndRemove : simpl never.
#[local] Arguments createPrewarm : simpl never.
#[local] Arguments PooledContainer_Remove : simpl never.

(** ** Taking and reaping idle containers *)
Section idles.
Context {MI : MapRange WarmContainerKey (list PooledContainer)}.

Definition of_key (k : WarmContainerKey) (l : list PooledContainer) : list PooledContainer :=
  filter (fun c => initializedFor c = k) l.

(** The eviction takes the heads of the lists, each time the longest unused of them. *)
Definition evicts_heads (st st' : Idles) (evicted : list PooledContainer) : Prop :=
  (forall k, lists_at k (idles st) = of_key k evicted ++ lists_at k (idles st')) /\
  forall pre d post k h, evicted = pre ++ d :: post ->
    List.head (of_key k (d :: post) ++ lists_at k (idles st')) = Some h -> lastUsed d <= lastUsed h.

Lemma evicts_heads_nil st : evicts_heads st st [].
Proof using. split; [done|]. by intros [|]. Qed.

Lemma evicts_heads_cons st st' c rest evicted :
  idles st !! initializedFor c = Some (c :: rest) ->
  (forall k c' rest, idles st !! k = Some (c' :: rest) -> lastUsed c <= lastUsed c') ->
  evicts_heads (evict st c rest) st' evicted -> evicts_heads st st' (c :: evicted).
Proof using.
  intros Hc Hmin [Hl Hd]. assert (Hl' : forall k, lists_at k (idles st) = of_key k (c :: evicted) ++ lists_at k (idles st')).
  { intros k. specialize (Hl k). unfold of_key, evict, lists_at in *. cbn in Hl. rewrite filter_cons.
    destruct (decide (initializedFor c = k)) as [<-|Hne].
    - rewrite lookup_insert_eq in Hl. rewrite Hc. cbn in *. by rewrite Hl.
    - by rewrite lookup_insert_ne in Hl. }
  split; [done|]. intros [|x pre] d post k h; cbn [app]; intros [= -> ->] Hh; [|by eapply Hd].
  rewrite <- Hl' in Hh. unfold lists_at in Hh. destruct (idles st !! k) as [[|h' l]|] eqn:Hk; [done| |done].
  injection Hh as ->. by eapply Hmin.
Qed.

Lemma makeSpace_heads fuel : forall seed infl max st acc st' deleted,
  idles_ok st -> makeSpace fuel seed infl max st acc = SpaceMade st' deleted ->
  exists evicted, deleted = acc ++ evicted /\ evicts_heads st st' evicted.
Proof using.
  induction fuel as [|fuel IH]; intros seed infl max st acc st' deleted Hok; [done|]. cbn [makeSpace].
  pose proof (longestUnused_idle seed _ (proj1 Hok)) as Hlong. destruct (longestUnusedContainer _) as [c|]; [|done].
  destruct Hlong as [(rest & Hc) Hmin]. rewrite Hc. fold (evict st c rest).
  destruct (evict_ok st c rest Hok Hc) as (Hok' & _). destruct (_ <=? _).
  - intros [= <- <-]. exists [c]. split; [done|]. by apply (evicts_heads_cons _ _ _ rest), evicts_heads_nil.
  - intros (evicted & -> & He)%IH; [|done]. exists (c :: evicted). rewrite <- (assoc (++)). split; [done|].
    by apply (evicts_heads_cons _ _ _ rest).
Qed.

Lemma takeIdle_heads seed max data infl st deleted st' :
  idles_ok st -> takeIdle seed max data infl st = (TakeCold deleted, st') -> evicts_heads st st' deleted.
Proof using.
  unfold takeIdle. intros Hok. destruct (last _); [done|]. destruct (_ <? _).
  - destruct (makeSpace _ _ _ _ _ _) as [st1 del|st1 del| |] eqn:Hs; try done. intros [= <- <-].
    by apply makeSpace_heads in Hs as (evicted & -> & ?).
  - intros [= <- <-]. apply evicts_heads_nil.
Qed.

(** C32: under the lock, [getContainer] reuses the idle container of the function that was returned last,
    if there is one. Otherwise it evicts only as long as the new container does not fit, and leaves enough
    room when it is done. Of each function those returned first are evicted, and each time the one that
    has been unused for the longest among the ones returned first. Only if the lists are ordered by
    [lastUsed], which concurrent returns of containers can break, is nothing kept that has been unused
    for longer than something evicted. *)
Theorem takeIdle_reuses_or_evicts_lru seed max data infl st r st' :
  idles_ok st -> 0 <= infl <= max -> idlesMemory st + infl < 2 ^ 64 ->
  takeIdle seed max data infl st = (r, st') ->
  match r with
  | TakeWarm c =>
      lists_at data (idles st) = lists_at data (idles st') ++ [c] /\
      elems (idles st) ≡ₚ c :: elems (idles st')
  | TakeCold deleted =>
      lists_at data (idles st) = [] /\
      elems (idles st) ≡ₚ deleted ++ elems (idles st') /\
      idlesMemory st' + infl <= max /\
      (forall pre d, deleted = pre ++ [d] -> max < idlesMemory st - sumZ memory pre + infl) /\
      evicts_heads st st' deleted /\
      (lists_sorted (idles st) ->
       forall d c, d ∈ deleted -> c ∈ elems (idles st') -> lastUsed d <= lastUsed c)
  | _ => False
  end.
Proof using.
  intros Hok Hi Hlt Ht. pose proof (takeIdle_spec seed max data infl st Hok Hi Hlt) as Hsp.
  rewrite Ht in Hsp. destruct r as [c|del| |]; try done.
  - by destruct Hsp as (_ & _ & -> & ? & _).
  - destruct Hsp as (_ & ? & ? & ? & _ & ? & Hlru). split_and!; try done.
    + by eapply takeIdle_heads.
    + intros Hs. by destruct (Hlru Hs).
Qed.

(** [reap] takes exactly the containers not used since the given time
    out of the idle pool, keeps the rest, leaves no empty list behind, and
    keeps the lists ordered and the counter exact. *)
Theorem reapIdles_exact seed t st toDelete st' :
  idles_ok st -> lists_sorted (idles st) -> reapIdles seed t st = (toDelete, st') ->
  toDelete ≡ₚ filter (fun c => lastUsed c <= t) (elems (idles st)) /\
  elems (idles st') ≡ₚ filter (fun c => ~ lastUsed c <= t) (elems (idles st)) /\
  (forall k, idles st' !! k <> Some []) /\
  lists_sorted (idles st') /\ idlesMemory st' = sumZ memory (elems (idles st')).
Proof.
  intros Hok Hs Hr. destruct (reapIdles_spec seed t st Hok) as
    (del & st1 & Heq & (_ & _ & Hmem & _) & Hp & Hold & Hk).
  rewrite Hr in Heq. simplify_eq.
  assert (Hl : forall k l, idles st1 !! k = Some l ->
    exists l0, idles st !! k = Some l0 /\ kept t l0 = Some l).
  { intros k l Hkl. rewrite Hk in Hkl. by apply bind_Some in Hkl. }
  assert (Hyoung : forall c, c ∈ elems (idles st1) -> t < lastUsed c).
  { intros c (k & l & (l0 & H0 & Hkept)%Hl & Hc)%elem_of_elems.
    eapply kept_young; [by eapply Hs|done|done]. }
  rewrite !Hp, !filter_app. split_and!.
  - rewrite (filter_all _ del) by done. rewrite filter_none, app_nil_r; [done|].
    intros c Hc%Hyoung. lia.
  - rewrite (filter_none _ del), filter_all; [done| |].
    + intros c Hc%Hyoung. lia.
    + intros c Hc%Hold. lia.
  - intros k (l0 & _ & Hkept)%Hl. unfold kept in Hkept. by go_cases.
  - intros k l (l0 & H0 & Hkept)%Hl. eapply kept_young; [by eapply Hs|done].
  - done.
Qed.
End idles.

(** ** Reconciling the prewarmed containers *)
Section necessary.
Context (prewarmed : gmap PrewarmContainerKey (list PooledContainer)).

(** The configurations that count towards a key. *)
Definition wants (kind : string) (m : RuntimeManifest) (cfg : RuntimeStemcellConfig)
    (key : PrewarmContainerKey) : Prop :=
  HasSuffix kind ":default" = false /\ cfg ∈ Stemcells m /\
  key = {| Kind := rm_Kind m; Memory := sc_Memory cfg |}.

Definition missing (cfg : RuntimeStemcellConfig) (key : PrewarmContainerKey) : Z :=
  Count cfg - Z.of_nat (List.length (lists_at key prewarmed)).

(** Every entry of the map comes from a configuration ... *)
Definition from_config (ms : list (string * RuntimeManifest)) (acc : gmap PrewarmContainerKey Z) :=
  forall key n, acc !! key = Some n ->
    exists kind m cfg, (kind, m) ∈ ms /\ wants kind m cfg key /\ n = missing cfg key.
(** ... and every configuration has one. *)
Definition all_configs (ms : list (string * RuntimeManifest)) (acc : gmap PrewarmContainerKey Z) :=
  forall kind m cfg key, (kind, m) ∈ ms -> wants kind m cfg key -> is_Some (acc !! key).

Lemma addNecessary_spec ms kind m acc :
  from_config ms acc -> all_configs ms acc ->
  from_config (ms ++ [(kind, m)]) (addNecessary prewarmed acc (kind, m)) /\
  all_configs (ms ++ [(kind, m)]) (addNecessary prewarmed acc (kind, m)).
Proof.
  intros Hf Ha. unfold addNecessary.
  destruct (HasSuffix kind ":default") eqn:Hd.
  { split.
    - intros key n (k & m' & cfg & ? & ?)%Hf. exists k, m', cfg. set_solver.
    - intros k m' cfg key [?|[= -> ->]%list_elem_of_singleton]%elem_of_app Hw; [by eapply Ha|].
      destruct Hw as [Hw _]. congruence. }
  set (step := fun acc stemcellConfig => _).
  assert (Hgen : forall cfgs done acc,
    (forall key n, acc !! key = Some n ->
       (exists k m' cfg, (k, m') ∈ ms /\ wants k m' cfg key /\ n = missing cfg key) \/
       (exists cfg, cfg ∈ done /\ key = {| Kind := rm_Kind m; Memory := sc_Memory cfg |} /\
          n = missing cfg key)) ->
    (forall key n, foldl step acc cfgs !! key = Some n ->
       (exists k m' cfg, (k, m') ∈ ms /\ wants k m' cfg key /\ n = missing cfg key) \/
       (exists cfg, cfg ∈ done ++ cfgs /\ key = {| Kind := rm_Kind m; Memory := sc_Memory cfg |} /\
          n = missing cfg key))).
  { clear. induction cfgs as [|c cfgs IH]; intros dn acc Hacc; cbn; [by rewrite app_nil_r|].
    rewrite (cons_middle c dn cfgs), app_assoc. apply IH. intros key n. unfold step.
    rewrite lookup_insert. case_decide as E.
    - intros [= <-]. right. exists c. subst key. split; [set_solver|done].
    - intros [?|(c' & ? & ?)]%Hacc; [by left|]. right. exists c'. split; [set_solver|done]. }
  assert (Hsome : forall cfgs acc key,
    is_Some (acc !! key) \/
      (exists cfg, cfg ∈ cfgs /\ key = {| Kind := rm_Kind m; Memory := sc_Memory cfg |}) ->
    is_Some (foldl step acc cfgs !! key)).
  { clear. induction cfgs as [|c cfgs IH]; intros acc key Hk; cbn.
    - destruct Hk as [?|(? & ?%elem_of_nil & _)]; done.
    - apply IH. unfold step. rewrite lookup_insert. case_decide; [by left|].
      destruct Hk as [?|(c' & [->|?]%elem_of_cons & ->)]; [by left|done|right; eauto]. }
  split.
  - intros key n Hn. apply (Hgen (Stemcells m) [] acc) in Hn; [|intros ? ? ?%Hf; by left].
    destruct Hn as [(k & m' & cfg & ? & ?)|(cfg & ? & -> & ->)].
    + exists k, m', cfg. set_solver.
    + exists kind, m, cfg. unfold wants. cbn in *. set_solver.
  - intros k m' cfg key [?|[= -> ->]%list_elem_of_singleton]%elem_of_app Hw; apply Hsome.
    + left. by eapply Ha.
    + right. destruct Hw as (_ & ? & ->). eauto.
Qed.

Lemma necessaryCreations_spec ms :
  from_config ms (necessaryCreations prewarmed ms) /\
  all_configs ms (necessaryCreations prewarmed ms).
Proof.
  unfold necessaryCreations. induction ms as [|[kind m] ms [IHf IHa]] using rev_ind.
  - split; [by intros key n|]. intros k m cfg key ?%elem_of_nil. done.
  - rewrite foldl_app. cbn [foldl]. by apply addNecessary_spec.
Qed.
End necessary.

Section upkeep.
Context `{WeightedSemaphore}.
Context {MI : MapRange WarmContainerKey (list PooledContainer)}.
Context {MP : MapRange PrewarmContainerKey (list PooledContainer)}.
Context {MM : MapRange string RuntimeManifest} {MN : MapRange PrewarmContainerKey Z}.

Definition prewarm_count (key : PrewarmContainerKey) (s : pstate) : nat :=
  List.length (lists_at key (prewarmed s)).

(** *** Meanwhile

    The other goroutines make any calls, but only the reconciler adds prewarmed containers: there is one
    goroutine that runs it. What they take is recorded. *)
Definition leaves_prewarmed (X : Type) (op : pool_op X) : bool :=
  match op with LockedTakePrewarm _ | LockedAddPrewarm _ _ => false | _ => true end.

Inductive meanwhile : pstate * list PrewarmContainerKey -> pstate * list PrewarmContainerKey -> Prop :=
| meanwhile_takes key c s taken s' :
    pool_exec _ (LockedTakePrewarm key) s (Some c) s' -> meanwhile (s, taken) (s', taken ++ [key])
| meanwhile_other X (op : pool_op X) s x s' taken :
    leaves_prewarmed X op = true -> pool_exec X op s x s' -> meanwhile (s, taken) (s', taken).

(** An operation, after any number of steps of the others. *)
Definition disturbed (X : Type) (op : pool_op X) (st : pstate * list PrewarmContainerKey) (x : X)
    (st' : pstate * list PrewarmContainerKey) : Prop :=
  exists st1, rtc meanwhile st st1 /\ pool_exec X op st1.1 x st'.1 /\ st'.2 = st1.2.

Definition taken_count (key : PrewarmContainerKey) (taken : list PrewarmContainerKey) : nat :=
  List.length (filter (eq key) taken).

(** Between two states [new] containers have been added for a key, at the end of its list, and some have
    been taken from its front. *)
Definition evolves (key : PrewarmContainerKey) (new : nat) (st st' : pstate * list PrewarmContainerKey) : Prop :=
  runtimeManifests st'.1 = runtimeManifests st.1 /\
  exists n l, List.length l = new /\ (n <= prewarm_count key st.1 + new)%nat /\
    taken_count key st'.2 = (taken_count key st.2 + n)%nat /\
    lists_at key (prewarmed st'.1) = drop n (lists_at key (prewarmed st.1) ++ l).

Lemma evolves_refl key st st' :
  prewarmed st'.1 = prewarmed st.1 -> runtimeManifests st'.1 = runtimeManifests st.1 -> st'.2 = st.2 ->
  evolves key 0 st st'.
Proof using.
  intros Hp Hm Ht. split; [done|]. exists 0%nat, []. rewrite Hp, Ht, app_nil_r, drop_0.
  split_and!; try done; lia.
Qed.

Lemma evolves_trans key a b st1 st2 st3 :
  evolves key a st1 st2 -> evolves key b st2 st3 -> evolves key (a + b) st1 st3.
Proof using.
  intros (Hm & n & l & Hl & Hn & Ht & Hd) (Hm' & n' & l' & Hl' & Hn' & Ht' & Hd').
  unfold prewarm_count in *. rewrite Hd, length_drop, length_app in Hn'.
  split; [congruence|]. exists (n + n')%nat, (l ++ l'). unfold prewarm_count. rewrite length_app. split_and!; [lia|lia|lia|].
  rewrite Hd', Hd, <- drop_drop, (assoc (++) _ l l'), (drop_app_le (_ ++ l) l' n); [done|rewrite length_app; lia].
Qed.

Lemma evolves_count key new st st' :
  evolves key new st st' ->
  (prewarm_count key st'.1 + taken_count key st'.2 = prewarm_count key st.1 + new + taken_count key st.2)%nat /\
  (taken_count key st.2 <= taken_count key st'.2)%nat.
Proof using.
  intros (_ & n & l & Hl & Hn & -> & Hd). unfold prewarm_count in *. rewrite Hd, length_drop, length_app. lia.
Qed.

Lemma leaves_exec X (op : pool_op X) s x s' :
  leaves_prewarmed X op = true -> pool_exec X op s x s' ->
  prewarmed s' = prewarmed s /\ runtimeManifests s' = runtimeManifests s.
Proof using. intros Hl He. destruct op; cbn in *; try done; repeat case_match; naive_solver. Qed.

Lemma meanwhile_evolves key st st' : rtc meanwhile st st' -> evolves key 0 st st'.
Proof using.
  induction 1 as [st|st st1 st' Hs _ IH]; [by apply evolves_refl|].
  apply (evolves_trans key 0 0 _ st1); [|done]. destruct Hs as [k c s taken s' He|X op s x s' taken Hl He].
  - cbn in He. destruct (lists_at k (prewarmed s)) as [|c' rest] eqn:Hk; [by destruct He|].
    destruct He as [_ ->]. unfold evolves, taken_count, prewarm_count. cbn [fst snd].
    split; [done|]. rewrite filter_app, length_app, filter_cons. unfold lists_at at 2. cbn.
    destruct (decide (key = k)) as [<-|Hne].
    + exists 1%nat, []. rewrite lookup_insert_eq, Hk. cbn. rewrite app_nil_r. split_and!; done || lia.
    + exists 0%nat, []. rewrite lookup_insert_ne by done. cbn. rewrite app_nil_r. split_and!; done || lia.
  - destruct (leaves_exec _ _ _ _ _ Hl He) as [Hp Hm]. by apply evolves_refl.
Qed.

(** An operation of the reconciler. *)
Lemma disturbed_evolves key X (op : pool_op X) st x st' :
  leaves_prewarmed X op = true -> disturbed X op st x st' -> evolves key 0 st st'.
Proof using.
  intros Hl (st1 & Hm & He & Ht). apply (evolves_trans key 0 0 _ st1); [by apply meanwhile_evolves|].
  destruct (leaves_exec _ _ _ _ _ Hl He) as [Hp Hr]. by apply evolves_refl.
Qed.

Lemma add_evolves key k c st x st' :
  disturbed _ (LockedAddPrewarm k c) st x st' -> evolves key (if decide (k = key) then 1 else 0) st st'.
Proof using.
  destruct st' as [s' taken]. intros (st1 & Hm & He & Ht). cbn in He, Ht. subst s' taken.
  apply (evolves_trans key 0 _ _ st1); [by apply meanwhile_evolves|].
  unfold evolves, prewarm_count. cbn. split; [done|]. unfold lists_at at 2 4. destruct (decide (k = key)) as [->|Hne].
  - exists 0%nat, [c]. rewrite lookup_insert_eq. cbn. split_and!; done || lia.
  - exists 0%nat, []. rewrite lookup_insert_ne by done. cbn. rewrite app_nil_r. split_and!; done || lia.
Qed.

Lemma runs_createPrewarm key k st r st' :
  runs disturbed (createPrewarm k) st r st' ->
  exists new, evolves key new st st' /\ (r = None -> new = if decide (k = key) then 1 else 0)%nat /\
    (k <> key -> new = 0%nat).
Proof using.
  unfold createPrewarm. cbn. intros (v & st1 & H1 & x & st2 & H2 & Hr).
  apply (disturbed_evolves key) in H1; [|done]. apply (disturbed_evolves key) in H2; [|done].
  pose proof (evolves_trans _ _ _ _ _ _ H1 H2) as H12. destruct x as [ctr|e]; cbn in Hr.
  - destruct Hr as ([] & st3 & H3%(add_evolves key) & <- & ->). eexists.
    split; [exact (evolves_trans _ _ _ _ _ _ H12 H3)|]. by destruct (decide (k = key)).
  - destruct Hr as [<- ->]. by eexists.
Qed.

Lemma runs_createMany key k n : forall st r st',
  runs disturbed (for_early (replicate n tt) (fun _ => createPrewarm k)) st r st' ->
  exists new, evolves key new st st' /\ (r = None -> new = if decide (k = key) then n else 0)%nat /\
    (k <> key -> new = 0%nat).
Proof using.
  induction n as [|n IH]; cbn [replicate for_early]; intros st r st' Hr.
  { destruct Hr as [<- ->]. exists 0%nat. split; [by apply evolves_refl|]. by destruct (decide _). }
  apply runs_bind in Hr as (x & st1 & (a & Ha & Hn & H0)%(runs_createPrewarm key) & Hr). destruct x as [e|]; cbn in Hr.
  - destruct Hr as [<- ->]. by exists a.
  - apply IH in Hr as (b & Hb & Hn' & H0'). exists (a + b)%nat. split; [by eapply evolves_trans|].
    specialize (Hn eq_refl). split; [intros ->%Hn'; destruct (decide _); lia|].
    intros Hne. rewrite H0, H0' by done. done.
Qed.

(** How many of a key the list asks for. *)
Definition asked (key : PrewarmContainerKey) (l : list (PrewarmContainerKey * Z)) : nat :=
  sum_list ((fun '(k, n) => if decide (k = key) then Z.to_nat n else 0%nat) <$> l).

Lemma asked_cons key k n l :
  asked key ((k, n) :: l) = ((if decide (k = key) then Z.to_nat n else 0) + asked key l)%nat.
Proof using. done. Qed.

Lemma asked_none key l : key ∉ l.*1 -> asked key l = 0%nat.
Proof using.
  induction l as [|[k m] l IH]; intros Hin; [done|]. rewrite asked_cons.
  apply not_elem_of_cons in Hin as [Hne Hin]. rewrite decide_False by done. by rewrite IH.
Qed.

Lemma asked_unique key n l : NoDup l.*1 -> (key, n) ∈ l -> asked key l = Z.to_nat n.
Proof using.
  induction l as [|[k m] l IH]; intros Hnd Hin; [by apply elem_of_nil in Hin|].
  apply NoDup_cons in Hnd as [Hk Hnd]. rewrite asked_cons.
  apply elem_of_cons in Hin as [[= <- <-]|Hin].
  - rewrite decide_True, asked_none by done. lia.
  - rewrite decide_False; [by rewrite IH|]. intros ->. apply Hk, list_elem_of_fmap. by exists (key, n).
Qed.

Lemma runs_createAll key (l : list (PrewarmContainerKey * Z)) : forall st st',
  runs disturbed (for_early l (fun '(key, toCreate) =>
    for_early (replicate (Z.to_nat toCreate) tt) (fun _ => createPrewarm key))) st None st' ->
  evolves key (asked key l) st st'.
Proof using.
  unfold asked. induction l as [|[k n] l IH]; cbn [for_early]; intros st st' Hr.
  { destruct Hr as [_ ->]. by apply evolves_refl. }
  apply runs_bind in Hr as (x & st1 & (a & Ha & Hn & _)%(runs_createMany key) & Hr).
  destruct x as [e|]; cbn in Hr; [by destruct Hr|]. rewrite (Hn eq_refl) in Ha.
  exact (evolves_trans _ _ _ _ _ _ Ha (IH _ _ Hr)).
Qed.

(** What [Decode] guarantees of the table, as far as the reconciler needs it:
    entries that are not defaults are filed under their kind, and a kind has
    one stemcell configuration per memory size. *)
Definition manifests_ok (ms : RuntimeManifests) : Prop :=
  forall kind m, ms !! kind = Some m -> HasSuffix kind ":default" = false ->
    rm_Kind m = kind /\ NoDup (sc_Memory <$> Stemcells m).

(** Without the others. *)
Lemma runs_disturbed {A} (p : poolM A) s a s' taken :
  runs pool_exec p s a s' -> runs disturbed p (s, taken) a (s', taken).
Proof using.
  revert s. induction p as [b|X op k IH]; intros s; cbn; [by intros [-> ->]|].
  intros (x & s1 & He & Hr). exists x, (s1, taken). split; [|by apply IH].
  exists (s, taken). by split; [apply rtc_refl|].
Qed.

Lemma same_stemcell m cfg cfg' :
  NoDup (sc_Memory <$> Stemcells m) -> cfg ∈ Stemcells m -> cfg' ∈ Stemcells m ->
  sc_Memory cfg = sc_Memory cfg' -> cfg = cfg'.
Proof using.
  induction (Stemcells m) as [|c cs IH]; cbn; intros Hnd Hc Hc' Heq; [by apply elem_of_nil in Hc|].
  apply NoDup_cons in Hnd as [Hn Hnd].
  apply elem_of_cons in Hc as [->|Hc], Hc' as [->|Hc']; auto; exfalso; apply Hn, list_elem_of_fmap; eauto.
Qed.

(** C33: a reconciliation that reports no error, with a table that has one stemcell configuration per kind
    and size, and whatever the other goroutines do in between. For every configured kind and size it leaves
    no more prewarmed containers than configured, or than there were if these were more, and fewer only by
    those that were taken by others in the meantime: exactly as many if none was taken. For every other
    kind or size nothing is added: the containers are those that there were, without the ones taken. *)
Theorem reconcilePrewarm_reaches_target s s' taken :
  manifests_ok (runtimeManifests s) -> runs disturbed reconcilePrewarm (s, []) None (s', taken) ->
  (forall kind m cfg, runtimeManifests s !! kind = Some m ->
     HasSuffix kind ":default" = false -> cfg ∈ Stemcells m ->
     let key := {| Kind := kind; Memory := sc_Memory cfg |} in
     let target := Nat.max (prewarm_count key s) (Z.to_nat (Count cfg)) in
     (prewarm_count key s' <= target <= prewarm_count key s' + taken_count key taken)%nat) /\
  (forall key,
     (forall kind m cfg, runtimeManifests s !! kind = Some m -> ~ wants kind m cfg key) ->
     lists_at key (prewarmed s') = drop (taken_count key taken) (lists_at key (prewarmed s))).
Proof using.
  intros Hok Hr. unfold reconcilePrewarm in Hr.
  cbn [mbind proc_MBind proc_bind trigger runs] in Hr.
  destruct Hr as (l & [s2 taken2] & ([s1 taken1] & Hmean & (seed & seed' & Hl & Hs) & Ht) & Hr).
  cbn [fst snd] in *. subst taken2 s2 l.
  assert (Hrm : runtimeManifests s1 = runtimeManifests s)
    by exact (proj1 (meanwhile_evolves {| Kind := ""; Memory := 0 |} _ _ Hmean)).
  set (ms := go_range seed (runtimeManifests s1)) in *.
  assert (Hms : forall kind m, (kind, m) ∈ ms <-> runtimeManifests s !! kind = Some m).
  { intros kind m. subst ms. rewrite (go_range_perm seed), Hrm. apply elem_of_map_to_list. }
  set (nc := necessaryCreations (prewarmed s1) ms) in *.
  destruct (necessaryCreations_spec (prewarmed s1) ms) as [Hf Ha]. fold nc in Hf, Ha.
  assert (Hin : forall key n, (key, n) ∈ go_range seed' nc <-> nc !! key = Some n).
  { intros key n. rewrite (go_range_perm seed'). apply elem_of_map_to_list. }
  assert (Hnd : NoDup (go_range seed' nc).*1) by (rewrite (go_range_perm seed'); apply NoDup_fst_map_to_list).
  split.
  - intros kind m cfg Hm Hd Hcfg. set (key := {| Kind := kind; Memory := sc_Memory cfg |}).
    destruct (Hok _ _ Hm Hd) as [Hkind Hcfgs].
    assert (Hw : wants kind m cfg key) by (unfold wants; by rewrite Hkind).
    destruct (Ha kind m cfg key) as [n Hn]; [by apply Hms|done|].
    apply (meanwhile_evolves key), evolves_count in Hmean. apply (runs_createAll key), evolves_count in Hr.
    rewrite (asked_unique key n) in Hr by (done || by apply Hin). cbn [fst snd] in *.
    destruct (Hf _ _ Hn) as (kind' & m' & cfg' & Hm'%Hms & (Hd' & Hcfg' & Hkey) & ->).
    destruct (Hok _ _ Hm' Hd') as [Hkind' _]. injection Hkey as Hk1 Hk2.
    rewrite Hkind' in Hk1. subst kind'. simplify_eq.
    assert (cfg' = cfg) as -> by by apply (same_stemcell m).
    unfold missing in Hr. fold (prewarm_count key s1) in Hr.
    change (taken_count key []) with 0%nat in Hmean. lia.
  - intros key Hno. apply (runs_createAll key) in Hr. rewrite asked_none in Hr.
    + pose proof (evolves_trans key 0 0 _ _ _ (meanwhile_evolves key _ _ Hmean) Hr) as
        (_ & n & l & ->%nil_length_inv & _ & Ht & Hd). cbn [fst snd] in *.
      rewrite Hd, Ht, app_nil_r. done.
    + intros ([k n] & -> & Hkn%Hin)%list_elem_of_fmap.
      destruct (Hf _ _ Hkn) as (kind & m & cfg & Hm%Hms & Hw & _). by eapply Hno.
Qed.
End upkeep.

(** ** Shutdown *)
Section shutdown.
Context `{WeightedSemaphore}.
Context {MI : MapRange WarmContainerKey (list PooledContainer)}.
Context {MP : MapRange PrewarmContainerKey (list PooledContainer)}.
Context {MM : MapRange string RuntimeManifest} {MN : MapRange PrewarmContainerKey Z}.

Lemma exec_removed X (op : pool_op X) s x s' :
  pool_exec X op s x s' -> removed s ⊆ removed s'.
Proof.
  intros He. destruct op; cbn in *;
    repeat match goal with
    | Hx : exists _, _ |- _ => destruct Hx
    | Hx : _ /\ _ |- _ => destruct Hx
    | Hx : _ \/ _ |- _ => destruct Hx
    | Hx : match ?y with _ => _ end |- _ => destruct y
    end; subst; cbn; set_solver.
Qed.

Lemma runs_removed {A} (p : poolM A) s a s' :
  runs pool_exec p s a s' -> removed s ⊆ removed s'.
Proof.
  revert s. induction p as [b|X op k IH]; cbn; intros s Hr; [by destruct Hr as [_ ->]|].
  destruct Hr as (x & s1 & He & Hr). etransitivity; [by eapply exec_removed|by eapply IH].
Qed.

Lemma runs_Remove c s s' :
  runs pool_exec (PooledContainer_Remove c) s None s' -> ref c ∈ removed s'.
Proof.
  unfold PooledContainer_Remove. destruct (firewallCleanup c) as [h|]; cbn.
  - intros ([e|] & s1 & _ & Hr); cbn in Hr; [by destruct Hr|].
    destruct Hr as ([e|] & s2 & He & Hr); cbn in Hr; [by destruct Hr|].
    destruct Hr as [_ ->]. subst. cbn. set_solver.
  - intros (x & s1 & He & -> & ->). subst. cbn. set_solver.
Qed.

Lemma runs_unpauseAndRemove txt txt' c s s' :
  runs pool_exec (unpauseAndRemove txt txt' c) s None s' -> ref c ∈ removed s'.
Proof.
  unfold unpauseAndRemove. intros (u & s1 & _ & Hr)%runs_bind.
  apply runs_bind in Hr as (broken & s2 & _ & Hr).
  destruct u as [err|]; [destruct broken|];
    apply runs_bind in Hr as (x & s3 & Hx & Hr); try (destruct x; cbn in Hr; destruct Hr; done).
  all: destruct x; cbn in Hr; destruct Hr as [? ->]; try done; by eapply runs_Remove.
Qed.

(** Cleaning up a container touches nothing but this container. *)
Definition cleanup_op (X : Type) (op : pool_op X) : bool :=
  match op with
  | CallUnpauseIfNeeded _ | CallState _ | CallRemove _ | CallFirewallCleanup _ => true
  | _ => false
  end.

Lemma cleanup_prewarmed X (op : pool_op X) s x s' :
  cleanup_op X op = true -> pool_exec X op s x s' -> prewarmed s' = prewarmed s.
Proof. intros Hc He. destruct op; cbn in *; try done; repeat case_match; naive_solver. Qed.

Lemma only_Remove c : only cleanup_op (PooledContainer_Remove c).
Proof.
  unfold PooledContainer_Remove. destruct (firewallCleanup c); cbn; [|done].
  split; [done|]. intros [|]; cbn; [done|]. split; [done|]. by intros [|].
Qed.

Lemma only_unpauseAndRemove txt txt' c : only cleanup_op (unpauseAndRemove txt txt' c).
Proof.
  assert (Hrm : forall {B} (f : option go_error -> poolM B),
    (forall r, only cleanup_op (f r)) -> only cleanup_op (PooledContainer_Remove c ≫= f))
    by (intros; by apply only_bind; [apply only_Remove|]).
  unfold unpauseAndRemove. cbn. split; [done|]. intros [err|]; cbn; [|by apply Hrm; intros [|]].
  split; [done|]. intros [st|]; cbn.
  - destruct (_ || _); [by apply Hrm; intros [|]|]. cbn. split; [done|]. intros ?.
    apply only_bind; [|done]. by apply Hrm; intros [|].
  - split; [done|]. intros ?. apply only_bind; [|done]. by apply Hrm; intros [|].
Qed.

(** A loop that collects the errors of its steps. *)
Lemma runs_collect (wrap : go_error -> go_error) (body : PooledContainer -> poolM (option go_error)) :
  (forall c s s', runs pool_exec (body c) s None s' -> ref c ∈ removed s') ->
  forall l errs s errs' s',
  runs pool_exec (for_fold l errs (fun errs c =>
    r ← body c; match r with Some e => Ret (errs ++ [wrap e]) | None => Ret errs end)) s errs' s' ->
  exists failed gone,
    l ≡ₚ failed ++ gone /\ List.length errs' = (List.length errs + List.length failed)%nat /\
    forall c, c ∈ gone -> ref c ∈ removed s'.
Proof.
  intros Hbody. induction l as [|c l IH]; cbn [for_fold]; intros errs s errs' s' Hr.
  { destruct Hr as [<- ->]. exists [], []. split_and!; [done|cbn; lia|]. by intros ? ?%elem_of_nil. }
  apply runs_bind in Hr as (errs1 & s1 & Hc & Hr).
  apply runs_bind in Hc as (r & s2 & Hc & Hr1).
  destruct (IH _ _ _ _ Hr) as (failed & gone & Hp & Hlen & Hgone).
  destruct r as [e|]; cbn in Hr1; destruct Hr1 as [<- ->].
  - exists (c :: failed), gone. split_and!; [by rewrite Hp| |done].
    rewrite Hlen, length_app. cbn. lia.
  - exists failed, (c :: gone). split_and!; [rewrite Hp; apply Permutation_middle|done|].
    intros d [->|Hd]%elem_of_cons; [|auto]. apply (runs_removed _ _ _ _ Hr). by eapply Hbody.
Qed.

(** The end of [Shutdown] goes through every idle and every prewarmed container:
    apart from as many as it reports errors, all of them are removed. *)
Lemma sweep_removes_all s errs s' :
  runs pool_exec sweep s errs s' ->
  exists failed gone,
    idle_containers s ++ prewarm_containers s ≡ₚ failed ++ gone /\
    List.length failed = List.length errs /\ (forall c, c ∈ gone -> ref c ∈ removed s').
Proof.
  unfold sweep. intros Hr. apply runs_bind in Hr as (idle & s2 & (x' & s2' & (seed & -> & ->) & <- & ->) & Hr).
  apply runs_bind in Hr as (errs1 & s3 & Hidle & Hr).
  assert (Hpw : prewarmed s3 = prewarmed s).
  { eapply runs_only; [exact cleanup_prewarmed| |exact Hidle].
    apply only_for_fold. intros b c. apply only_bind; [apply only_unpauseAndRemove|].
    by intros [|]. }
  apply (runs_collect id) in Hidle as (failed & gone & Hp & Hlen & Hgone);
    [|intros; by eapply runs_unpauseAndRemove].
  apply runs_bind in Hr as (prewarm & s4 & (x' & s2' & (seed' & -> & ->) & <- & ->) & Hr).
  pose proof (runs_removed _ _ _ _ Hr) as Hsub.
  apply (runs_collect (fun e => Errorf "failed to delete prewarm container: %w" [e])) in Hr
    as (failed' & gone' & Hp' & Hlen' & Hgone'); [|intros; by eapply runs_Remove].
  change (concat (go_range seed (idles (idlesState s))).*2 ≡ₚ failed ++ gone) in Hp.
  rewrite Hpw in Hp'. exists (failed ++ failed'), (gone ++ gone'). split_and!.
  - unfold idle_containers, prewarm_containers.
    rewrite <- (elems_range seed), <- (elems_range seed').
    rewrite Hp, Hp', <- !app_assoc. apply Permutation_app_head.
    rewrite !app_assoc. apply Permutation_app_tail, Permutation_app_comm.
  - rewrite length_app. cbn in Hlen. lia.
  - intros c [Hc|Hc]%elem_of_app; auto.
Qed.

(** [Shutdown] on its own, once the background goroutines have emptied their channels. *)
Theorem Shutdown_removes_all s errs s' :
  runs pool_exec Shutdown s errs s' ->
  containersToDeleteForSpace s = [] /\
  exists failed gone,
    idle_containers s ++ prewarm_containers s ≡ₚ failed ++ gone /\
    List.length failed = List.length errs /\ (forall c, c ∈ gone -> ref c ∈ removed s').
Proof.
  unfold Shutdown. intros (x & s1 & -> & y & s2 & (Hq & _ & ->) & Hr). split; [done|]. by apply sweep_removes_all.
Qed.
End shutdown.

(** ** Concrete runs *)
Definition aged (name : string) (t : Z) (r : nat) : PooledContainer :=
  {| container := {| c_ref := r; c_IP := testIP |}; initializedFor := req_key (test_request name);
     lastUsed := t; memory := 128; firewallCleanup := None |}.

(** Three idle containers, those of [a] last used at 1 and 5, that of [b] at 3. *)
Definition three_idle : Idles :=
  putIdle (aged "b" 3 2) (putIdle (aged "a" 5 1) (putIdle (aged "a" 1 0)
    {| idlesMemory := 0; idles := ∅ |})).

Lemma three_idle_keys k l :
  idles three_idle !! k = Some l ->
  (k = req_key (test_request "b") /\ l = [aged "b" 3 2]) \/
  (k = req_key (test_request "a") /\ l = [aged "a" 1 0; aged "a" 5 1]).
Proof.
  intros Hl%elem_of_map_to_list.
  assert (Hm : map_to_list (idles three_idle) =
    [(req_key (test_request "a"), [aged "a" 1 0; aged "a" 5 1]);
     (req_key (test_request "b"), [aged "b" 3 2])] \/
    map_to_list (idles three_idle) =
    [(req_key (test_request "b"), [aged "b" 3 2]);
     (req_key (test_request "a"), [aged "a" 1 0; aged "a" 5 1])]) 
    by (first [left; vm_compute; reflexivity|right; vm_compute; reflexivity]).
  destruct Hm as [Hm|Hm]; rewrite Hm in Hl;
    apply elem_of_cons in Hl as [Hl|Hl%list_elem_of_singleton];
    apply pair_equal_spec in Hl as [-> ->];
    first [right; split; reflexivity|left; split; reflexivity].
Qed.

Lemma three_idle_ok : idles_ok three_idle /\ lists_sorted (idles three_idle).
Proof.
  assert (H0 : idles_ok {| idlesMemory := 0; idles := ∅ |}).
  { split_and!; [|set_solver|done|done]. intros k l c Hl. cbn in Hl. by rewrite lookup_empty in Hl. }
  split.
  - unfold three_idle. do 3 (apply putIdle_spec; [|vm_compute; intuition congruence..]). done.
  - intros k l [[-> ->]|[-> ->]]%three_idle_keys; repeat constructor; unfold used_before; cbn; lia.
Qed.

Lemma takeIdle_reuses_or_evicts_lru_witness :
  exists st',
    takeIdle 0 384 (req_key (test_request "c")) 256 three_idle =
      (TakeCold [aged "a" 1 0; aged "b" 3 2], st') /\ idlesMemory st' + 256 <= 384 /\
    (forall c, c ∈ elems (idles st') -> 3 <= lastUsed c).
Proof.
  assert (Hr : (takeIdle 0 384 (req_key (test_request "c")) 256 three_idle).1 =
    TakeCold [aged "a" 1 0; aged "b" 3 2]) by (vm_compute; reflexivity).
  assert (Hm : idlesMemory three_idle + 256 < 2 ^ 64) by (vm_compute; reflexivity).
  destruct three_idle_ok as [Hok Hs]. generalize dependent three_idle. intros st Hr Hm Hok Hs.
  destruct (takeIdle 0 384 (req_key (test_request "c")) 256 st) as [r st'] eqn:E.
  cbn in Hr. subst r. exists st'. split; [reflexivity|].
  destruct (takeIdle_reuses_or_evicts_lru 0 384 (req_key (test_request "c")) 256 st
    (TakeCold [aged "a" 1 0; aged "b" 3 2]) st' Hok ltac:(lia) Hm E) as (_ & _ & Hfit & _ & _ & Hlru).
  split; [exact Hfit|]. intros c Hc. apply (Hlru Hs (aged "b" 3 2) c); [set_solver|exact Hc].
Defined.

Lemma reapIdles_exact_witness :
  (reapIdles 0 3 three_idle).1 ≡ₚ
    filter (fun c => lastUsed c <= 3) (elems (idles three_idle)).
Proof.
  destruct three_idle_ok as [Hok Hs]. generalize dependent three_idle. intros st Hok Hs.
  apply (reapIdles_exact 0 3 st _ (reapIdles 0 3 st).2 Hok Hs). apply surjective_pairing.
Defined.

(** One kind with two prewarmed containers of 256 and one of 512 configured. *)
Definition nodejs_manifest : RuntimeManifest :=
  {| rm_Kind := "nodejs:14"; Default := true; Image := "openwhisk/action-nodejs-v14:latest";
     Stemcells := [{| Count := 2; sc_Memory := 256 |}; {| Count := 1; sc_Memory := 512 |}] |}.
Definition nodejs_manifests : RuntimeManifests :=
  <["nodejs:default" := nodejs_manifest]> (<["nodejs:14" := nodejs_manifest]> ∅).

Definition prewarmed_state : pstate :=
  state_after (handled reconcilePrewarm (NewContainerPool 1024 nodejs_manifests)).

Lemma reconcilePrewarm_reaches_target_witness :
  prewarm_count {| Kind := "nodejs:14"; Memory := 256 |} prewarmed_state = 2%nat.
Proof.
  destruct (reconcilePrewarm_reaches_target (NewContainerPool 1024 nodejs_manifests) prewarmed_state [])
    as [Ht _]; [| |specialize (Ht "nodejs:14" nodejs_manifest {| Count := 2; sc_Memory := 256 |})].
  - intros kind m Hm. change (nodejs_manifests !! kind = Some m) in Hm. unfold nodejs_manifests in Hm.
    apply (lookup_insert_Some (M := gmap string)) in Hm as [[<- <-]|[_ Hm]]; [done|].
    apply (lookup_insert_Some (M := gmap string)) in Hm as [[<- <-]|[_ Hm]].
    + intros _. split; [done|]. cbn. repeat constructor; set_solver.
    + exfalso. clear -Hm. by destruct kind; vm_compute in Hm.
  - apply runs_disturbed, handled_runs. vm_compute. reflexivity.
  - destruct Ht as [H1 H2]; [reflexivity|reflexivity|cbn; set_solver|].
    change (taken_count _ []) with 0%nat in H2. rewrite Nat.add_0_r in H2.
    apply Nat.le_antisymm; [exact H1|exact H2].
Defined.

Lemma Shutdown_removes_all_witness :
  let s := state_after (handled prewarmRound (final ended_run).1) in
  exists failed gone,
    idle_containers s ++ prewarm_containers s ≡ₚ failed ++ gone /\
    List.length failed = 0%nat /\
    (forall c, c ∈ gone -> ref c ∈ removed (state_after (handled Shutdown s))).
Proof.
  assert (Hr : match handled Shutdown (state_after (handled prewarmRound (final ended_run).1)) with
               | Some ([], _) => true | _ => false end = true) by (vm_compute; reflexivity).
  cbv zeta. generalize dependent (state_after (handled prewarmRound (final ended_run).1)). intros s Hr.
  destruct (handled Shutdown s) as [[[|e errs] s']|] eqn:E; try discriminate.
  exact (proj2 (Shutdown_removes_all s [] s' (handled_runs _ _ _ _ E))).
Defined.
