(* ===== verification/PoolLoops.v ===== *)
(** * The container pool: its goroutines and its shutdown

    [NewContainerPool] starts three goroutines: the reaper waits for its ticker
    or for [closeReaper], the deleter ranges over [containersToDeleteForSpace]
    and the prewarmer over [prewarmPoke].  [Shutdown] closes the channels, waits
    for the goroutines and removes what is left.  Their rounds are the programs
    of PoolOps.v, interleaved with each other and with invocations. *)
From stdpp Require Import functions.
From S2P Require Export PoolUpkeep.

Inductive goroutine := Reaper | Deleter | Prewarmer.

#[export] Instance goroutine_eq_dec : EqDecision goroutine.
Proof. solve_decision. Defined.

(** A goroutine waits in its loop, is in a round, which is a thread, or has returned. *)
Inductive loop := Waiting | Busy (thread : nat) | Ended.

#[export] Instance loop_eq_dec : EqDecision loop.
Proof. solve_decision. Defined.

Inductive phase := Serving | ShuttingDown (todo : poolM (list go_error)) | Down (errs : list go_error).

Section loops.
Context `{WeightedSemaphore}.

Record background := mkBackground {
  pool : pstate;
  threads : list (poolM unit);          (* the calls and the rounds so far *)
  loops : goroutine -> loop;
  closed : bool;                        (* prewarmPoke, closeReaper and containersToDeleteForSpace *)
  main : phase;                         (* what the owner of the pool does *)
  panicked : bool
}.

Definition set_loop (g : goroutine) (l : loop) (c : background) : background :=
  mkBackground (pool c) (threads c) (<[g := l]> (loops c)) (closed c) (main c) (panicked c).
Definition set_main (m : phase) (c : background) : background :=
  mkBackground (pool c) (threads c) (loops c) (closed c) m (panicked c).
Definition set_pool (s : pstate) (c : background) : background :=
  mkBackground s (threads c) (loops c) (closed c) (main c) (panicked c).
Definition spawn (p : poolM unit) (c : background) : background :=
  mkBackground (pool c) (threads c ++ [p]) (loops c) (closed c) (main c) (panicked c).
Definition move (i : nat) (s : pstate) (p : poolM unit) (c : background) : background :=
  mkBackground s (<[i := p]> (threads c)) (loops c) (closed c) (main c) (panicked c).

(** Operations that send to one of the channels. *)
Definition sends {X} (op : pool_op X) : bool :=
  match op with PokePrewarm | SendToDelete _ => true | _ => false end.

Context {MI : MapRange WarmContainerKey (list PooledContainer)}.
Context {MP : MapRange PrewarmContainerKey (list PooledContainer)}.
Context {MM : MapRange string RuntimeManifest} {MN : MapRange PrewarmContainerKey Z}.
Context (mem_of : WarmContainerKey -> Z) (max : Z) (manifests : RuntimeManifests) (maxContainerIdleTime : Z).

(** What a goroutine can begin to do in its loop; a receive is part of that. *)
Inductive round (s : pstate) : goroutine -> poolM unit -> pstate -> Prop :=
| round_reap now :                      (* a tick *)
    clock s <= now -> round s Reaper (_ ← reap (now - maxContainerIdleTime); Ret tt) s
| round_delete c q :
    containersToDeleteForSpace s = c :: q -> round s Deleter (deleteForSpace c) (set_toDelete q s)
| round_prewarm :
    prewarmPoke s = true -> round s Prewarmer prewarmOnce (set_prewarmPoke false s).

(** A channel that is closed is first emptied. *)
Definition drained (s : pstate) (g : goroutine) : Prop :=
  match g with
  | Reaper => True
  | Deleter => containersToDeleteForSpace s = []
  | Prewarmer => prewarmPoke s = false
  end.

(** Threads that are no rounds are calls. *)
Definition calls_returned (c : background) : Prop :=
  forall i p, threads c !! i = Some p -> p = Ret tt \/ exists g, loops c g = Busy i.

Inductive background_step (c : background) : background -> Prop :=
| step_call r :
    panicked c = false -> main c = Serving -> req_memory r = mem_of (req_key r) ->
    background_step c (spawn (invocation r) c)
| step_begin g p s' :
    panicked c = false -> loops c g = Waiting -> round (pool c) g p s' ->
    background_step c (set_loop g (Busy (List.length (threads c))) (spawn p (set_pool s' c)))
| step_thread_op i X (op : pool_op X) k x s' :
    panicked c = false -> threads c !! i = Some (Vis op k) ->
    (sends op = true -> closed c = false) -> pool_exec X op (pool c) x s' ->
    background_step c (move i s' (k x) c)
| step_end g i :
    panicked c = false -> loops c g = Busy i -> threads c !! i = Some (Ret tt) ->
    background_step c (set_loop g Waiting c)
| step_return g :
    panicked c = false -> loops c g = Waiting -> closed c = true -> drained (pool c) g ->
    background_step c (set_loop g Ended c)
  (* a send to a closed channel panics, also in a [select] *)
| step_panic i X (op : pool_op X) k :
    panicked c = false -> threads c !! i = Some (Vis op k) -> sends op = true -> closed c = true ->
    background_step c (mkBackground (pool c) (threads c) (loops c) (closed c) (main c) true)
  (* invocations have returned before the pool is shut down: [shutdown_loses_nothing] *)
| step_Shutdown :
    panicked c = false -> main c = Serving -> calls_returned c ->
    background_step c (set_main (ShuttingDown Shutdown) c)
| step_close k :
    panicked c = false -> main c = ShuttingDown (Vis CloseBackground k) ->
    background_step c (mkBackground (pool c) (threads c) (loops c) true (ShuttingDown (k tt)) false)
| step_wait k :
    panicked c = false -> main c = ShuttingDown (Vis WaitBackground k) -> (forall g, loops c g = Ended) ->
    background_step c (set_main (ShuttingDown (k tt)) c)
| step_sweep X (op : pool_op X) k x s' :
    panicked c = false -> main c = ShuttingDown (Vis op k) ->
    match op with CloseBackground | WaitBackground => False | _ => True end ->
    pool_exec X op (pool c) x s' ->
    background_step c (mkBackground s' (threads c) (loops c) (closed c) (ShuttingDown (k x)) false)
| step_down errs :
    panicked c = false -> main c = ShuttingDown (Ret errs) ->
    background_step c (set_main (Down errs) c).

(** [NewContainerPool]: without a limit for idle times there is no reaper. *)
Definition launched : background :=
  mkBackground (NewContainerPool max manifests) []
    (fun g => match g with Reaper => if 0 <? maxContainerIdleTime then Waiting else Ended | _ => Waiting end)
    false Serving false.

Definition background_reachable : background -> Prop := rtc background_step launched.
End loops.

(** ** What the rounds do *)

(** The operations of rounds, apart from creating containers and the retry of the prewarmer. *)
Definition quiet_op (X : Type) (op : pool_op X) : bool :=
  match op with
  | LockedReapIdles _ | CallUnpauseIfNeeded _ | CallState _ | CallRemove _ | CallFirewallCleanup _
  | ContainersCreatedAdd _ | LockedNecessaryCreations | LockedAddPrewarm _ _ => true
  | _ => false
  end.

Lemma cleanup_quiet X (op : pool_op X) : cleanup_op X op = true -> quiet_op X op = true.
Proof. by destruct op. Qed.

Lemma unpauseAndRemove_quiet txt txt' c : only quiet_op (unpauseAndRemove txt txt' c).
Proof. eapply only_weaken; [exact cleanup_quiet|apply only_unpauseAndRemove]. Qed.

Lemma quiet_deleteForSpace c : only quiet_op (deleteForSpace c).
Proof. apply only_bind; [apply unpauseAndRemove_quiet|done]. Qed.

Lemma quiet_reap t : only quiet_op (_ ← reap t; Ret tt).
Proof.
  apply only_bind; [|done]. split; [done|]. intros l. apply only_for_fold. intros errs c.
  apply only_bind; [apply unpauseAndRemove_quiet|by intros [|]].
Qed.

(** A program whose operations are quiet and that gives up, as [failed] says, where a container cannot be
    created; otherwise it returns what is [good]. *)
Fixpoint creating {A} (failed : poolM A -> Prop) (good : A -> Prop) (p : poolM A) : Prop :=
  match p with
  | Ret a => good a
  | @Vis _ _ X op k =>
      match op in pool_op X' return (X' -> poolM A) -> (X' -> Prop) -> Prop with
      | CallCreateContainer _ _ _ => fun k rest =>
          forall r, match r with Ok _ => rest r | Err _ => failed (k r) end
      | op' => fun _ rest => quiet_op _ op' = true /\ forall x, rest x
      end k (fun x => creating failed good (k x))
  end.

Lemma creating_bind {A B} (failed : poolM A -> Prop) good failed' good' (p : poolM A) (f : A -> poolM B) :
  creating failed good p -> (forall q, failed q -> failed' (proc_bind q f)) ->
  (forall a, good a -> creating failed' good' (f a)) -> creating failed' good' (proc_bind p f).
Proof.
  intros Hp Hq Hf. induction p as [a|X op k IH]; [by apply Hf|].
  destruct op; cbn in *; try (destruct Hp; split; [done|]; intros; by apply IH).
  intros [c|e]; [apply IH, (Hp (Ok c))|apply Hq, (Hp (Err e))].
Qed.

Definition gave_up {A} (q : poolM (option A)) : Prop := exists a, q = Ret (Some a).
Definition finished {A} (r : option A) : Prop := r = None.

Lemma creating_for_early {A B} (l : list A) (body : A -> poolM (option B)) :
  (forall x, creating gave_up finished (body x)) -> creating gave_up finished (for_early l body).
Proof.
  intros Hb. induction l as [|x l IH]; [done|]. cbn [for_early].
  eapply creating_bind; [apply Hb|by intros q (b & ->); exists b|by intros r ->].
Qed.

Definition retries (q : poolM unit) : Prop := q = trigger PokePrewarm.

Lemma creating_prewarmOnce : creating retries (fun _ => True) prewarmOnce.
Proof.
  eapply (creating_bind gave_up finished); [|by intros q (e & ->)|by intros r ->].
  unfold reconcilePrewarm. cbn. split; [done|]. intros l. apply creating_for_early. intros [key n].
  apply creating_for_early. intros []. unfold createPrewarm. cbn. split; [done|]. intros _ [c|e]; [done|by eexists].
Qed.

Lemma retries_last (q : poolM unit) :
  retries q -> match q with Ret _ => False | Vis _ k => forall x, k x = Ret tt end.
Proof. intros ->. cbn. by intros []. Qed.

(** What is left of a round. *)
Definition residual (g : goroutine) (p : poolM unit) : Prop :=
  match g with
  | Reaper | Deleter => only quiet_op p
  | Prewarmer => retries p \/ creating retries (fun _ => True) p
  end.

(** ** The invariant *)
Section invariant.
Context `{WeightedSemaphoreLaws}.
Context {MI : MapRange WarmContainerKey (list PooledContainer)}.
Context {MP : MapRange PrewarmContainerKey (list PooledContainer)}.
Context {MM : MapRange string RuntimeManifest} {MN : MapRange PrewarmContainerKey Z}.
Context (mem_of : WarmContainerKey -> Z) (max : Z) (manifests : RuntimeManifests) (maxContainerIdleTime : Z).

Notation bstep := (background_step mem_of maxContainerIdleTime).
Notation reachable_pool := (pool_reachable mem_of max manifests).

Lemma residual_round s g p s' : round maxContainerIdleTime s g p s' -> residual g p.
Proof.
  intros [now _|c q _|_]; cbn [residual]; [apply quiet_reap|apply quiet_deleteForSpace|right; apply creating_prewarmOnce].
Qed.

Lemma residual_step g X (op : pool_op X) k x : residual g (Vis op k) -> residual g (k x).
Proof.
  destruct g; cbn [residual]; [by intros [_ Hk]..|].
  intros [Hr|Hc].
  - right. by rewrite (retries_last _ Hr).
  - destruct op; cbn in Hc; try (right; by apply Hc). specialize (Hc x). destruct x; [by right|by left].
Qed.

(** Only the prewarmer sends, and only to try again. *)
Lemma residual_sends g X (op : pool_op X) k :
  residual g (Vis op k) -> sends op = true -> g = Prewarmer /\ Vis op k = trigger PokePrewarm.
Proof.
  destruct g; cbn [residual].
  - intros [Ho _]. by destruct op.
  - intros [Ho _]. by destruct op.
  - intros [Hr|Hc] Hs; [done|]. destruct op; try done; by destruct Hc.
Qed.

(** A round is a client of the pool whose receive has happened. *)
Lemma round_reachable s ts g p s' :
  reachable_pool (s, ts) -> round maxContainerIdleTime s g p s' -> reachable_pool (s', ts ++ [p]).
Proof using Type.
  intros Hr [now _|c q Hq|Hp].
  - eapply reachable_step; [exact Hr|]. apply step_start. constructor.
  - eapply reachable_step; [eapply reachable_step; [exact Hr|apply step_start, client_deleter]|].
    apply (step_op pool_exec _ s _ ts [] _ ReceiveToDelete deleteForSpace c). by exists q.
  - eapply reachable_step; [eapply reachable_step; [exact Hr|apply step_start, client_prewarm]|].
    by apply (step_op pool_exec _ s _ ts [] _ ReceivePoke (fun _ => prewarmOnce) tt).
Qed.

Lemma exec_drained X (op : pool_op X) s x s' g :
  sends op = false -> pool_exec X op s x s' -> drained s g -> drained s' g.
Proof.
  intros Ho He Hd. destruct g; cbn in *; [done|..];
    (destruct op; cbn in *; try done;
     repeat match goal with
     | Hx : exists _, _ |- _ => destruct Hx
     | Hx : _ /\ _ |- _ => destruct Hx
     | Hx : _ \/ _ |- _ => destruct Hx
     | Hx : match ?y with _ => _ end |- _ => destruct y
     end; subst; cbn; try done; congruence).
Qed.

(** What follows the waiting. *)
Definition sweep_op (X : Type) (op : pool_op X) : bool :=
  match op with CloseBackground | WaitBackground => false | _ => true end.

Lemma only_sweep : only sweep_op sweep.
Proof using Type.
  assert (Hw : forall X (op : pool_op X), cleanup_op X op = true -> sweep_op X op = true) by (by intros X []).
  assert (Hu : forall t t' c, only sweep_op (unpauseAndRemove t t' c)).
  { intros. eapply only_weaken; [exact Hw|apply only_unpauseAndRemove]. }
  unfold sweep. split; [done|]. intros idle. eapply (only_bind sweep_op (for_fold idle [] _)).
  - apply only_for_fold. intros errs c. apply only_bind; [apply Hu|by intros [|]].
  - intros errs. split; [done|]. intros prewarm. apply only_for_fold. intros errs' c.
    apply only_bind; [eapply only_weaken; [exact Hw|apply only_Remove]|by intros [|]].
Qed.

(** The program after its first operation, where that is one of these two. *)
Definition after_control {A} (p : poolM A) : option (poolM A) :=
  match p with
  | @Vis _ _ X op k =>
      match op in pool_op X' return (X' -> poolM A) -> option (poolM A) with
      | CloseBackground | WaitBackground => fun k => Some (k tt)
      | _ => fun _ => None
      end k
  | _ => None
  end.

Definition closes {A} (p : poolM A) : bool :=
  match p with Vis CloseBackground _ => true | _ => false end.

Lemma after_control_None {A} X (op : pool_op X) (k : X -> poolM A) :
  sweep_op X op = true -> after_control (Vis op k) = None.
Proof using Type. by destruct op. Qed.

Definition waitAndSweep : poolM (list go_error) := _ ← trigger WaitBackground; sweep.

(** Before the sweep the pool is one that its clients can reach; once they have returned, the goroutines
    have emptied their channels. *)
Definition before_sweep (c : background) : Prop :=
  reachable_pool (pool c, threads c) /\
  forall g, g <> Reaper -> loops c g = Ended -> closed c = true /\ drained (pool c) g.

(** From a pool like this on, the sweep is what runs; [rest] is what is left of it. *)
Definition from_sweep (c : background) (rest : list go_error -> pstate -> Prop) : Prop :=
  exists s0, reachable_pool (s0, threads c) /\ containersToDeleteForSpace s0 = [] /\ prewarmPoke s0 = false /\
    (forall g, loops c g = Ended) /\ forall errs s', rest errs s' -> runs pool_exec sweep s0 errs s'.

Record background_ok (c : background) : Prop := {
  bo_busy g i : loops c g = Busy i -> exists p, threads c !! i = Some p /\ residual g p;
  bo_distinct g g' i : loops c g = Busy i -> loops c g' = Busy i -> g = g';
  bo_calls : main c <> Serving -> calls_returned c;
  bo_main :
    match main c with
    | Serving => closed c = false /\ before_sweep c
    | ShuttingDown p =>
        closed c = false /\ p = Shutdown /\ before_sweep c \/
        closed c = true /\ p = waitAndSweep /\ before_sweep c \/
        closed c = true /\ only sweep_op p /\ from_sweep c (runs pool_exec p (pool c))
    | Down errs => closed c = true /\ from_sweep c (fun errs' s' => errs' = errs /\ s' = pool c)
    end;
  bo_panicked : panicked c = true ->
    closed c = true /\ exists i, loops c Prewarmer = Busy i /\ threads c !! i = Some (trigger PokePrewarm)
}.

Lemma launched_ok : background_ok (launched max manifests maxContainerIdleTime).
Proof using Type.
  split; cbn; try done.
  - intros [] i; by repeat case_match.
  - intros [] g' i; by repeat case_match.
  - split; [done|]. split; [apply rtc_refl|]. by intros [].
Qed.

(** *** It is preserved *)
Lemma loops_set_loop g l c g' : loops (set_loop g l c) g' = if decide (g = g') then l else loops c g'.
Proof using Type. done. Qed.

Lemma busy_bound c g i : background_ok c -> loops c g = Busy i -> (i < List.length (threads c))%nat.
Proof using Type. intros Hok (p & Hp & _)%(bo_busy _ Hok). by eapply lookup_lt_Some. Qed.

Lemma busy_preserved c c' : background_ok c -> bstep c c' -> forall g i,
  loops c' g = Busy i -> exists p, threads c' !! i = Some p /\ residual g p.
Proof using Type.
  intros Hok Hs g i Hg. destruct Hs; cbn in Hg |- *; try by apply (bo_busy _ Hok).
  - destruct (bo_busy _ Hok _ _ Hg) as (p & Hp & Hr). exists p. split; [by apply lookup_app_l_Some|done].
  - unfold insert, fn_insert in Hg. case_decide as E.
    + injection Hg as <-. subst. exists p. split; [by apply list_lookup_middle|by eapply residual_round].
    + destruct (bo_busy _ Hok _ _ Hg) as (q & Hp & Hr). exists q. split; [by apply lookup_app_l_Some|done].
  - destruct (bo_busy _ Hok _ _ Hg) as (p & Hp & Hr). destruct (decide (i0 = i)) as [->|Hne].
    + assert (p = Vis op k) as -> by congruence. exists (k x). split; [|by eapply residual_step].
      apply list_lookup_insert_eq. by eapply lookup_lt_Some.
    + exists p. split; [by rewrite list_lookup_insert_ne|done].
  - unfold insert, fn_insert in Hg. case_decide; [done|by apply (bo_busy _ Hok)].
  - unfold insert, fn_insert in Hg. case_decide; [done|by apply (bo_busy _ Hok)].
Qed.

Lemma distinct_preserved c c' : background_ok c -> bstep c c' -> forall g g' i,
  loops c' g = Busy i -> loops c' g' = Busy i -> g = g'.
Proof using Type.
  intros Hok Hs g g' i Hg Hg'. destruct Hs; cbn in Hg, Hg'; try by eapply (bo_distinct _ Hok).
  all: unfold insert, fn_insert in Hg, Hg'; repeat case_decide; subst; try done; try by eapply (bo_distinct _ Hok).
  all: exfalso; match goal with Hx : Busy _ = Busy ?j, Hy : loops _ _ = Busy ?j |- _ =>
    injection Hx as <-; apply busy_bound in Hy; [lia|done] end.
Qed.

Lemma calls_preserved c c' : background_ok c -> bstep c c' -> main c' <> Serving -> calls_returned c'.
Proof using Type.
  intros Hok Hs Hm. pose proof (bo_calls _ Hok) as Hc.
  destruct Hs as [|g p s' _ Hw _|i X op k x s' _ Hi _ _|g i _ Hb Hret|g _ Hw _ _| | | | | |];
    cbn in Hm; try done; try (by apply Hc; congruence).
  - intros j q Hq. cbn in Hq |- *. apply lookup_app_Some in Hq as [Hq|[Hge Hq]].
    + destruct (Hc ltac:(done) j q Hq) as [->|(g' & Hg)]; [by left|right]. exists g'.
      unfold insert, fn_insert. case_decide; [congruence|done].
    + right. exists g. unfold insert, fn_insert. rewrite decide_True by done. f_equal.
      apply list_lookup_singleton_Some in Hq as [? _]. lia.
  - intros j q Hq. cbn in Hq |- *. apply list_lookup_insert_Some in Hq as [(-> & <- & _)|[Hne Hq]]; [|by apply Hc].
    destruct (Hc ltac:(done) j _ Hi) as [[=]|Hg]. by right.
  - intros j q Hq. cbn in Hq |- *. destruct (Hc ltac:(done) j q Hq) as [->|(g' & Hg)]; [by left|].
    destruct (decide (g = g')) as [<-|Hne]; [left; congruence|right].
    exists g'. unfold insert, fn_insert. by rewrite decide_False.
  - intros j q Hq. cbn in Hq |- *. destruct (Hc ltac:(done) j q Hq) as [->|(g' & Hg)]; [by left|right].
    exists g'. unfold insert, fn_insert. case_decide; [congruence|done].
Qed.

(** Once the sweep has begun no thread is left. *)
Lemma swept_threads c rest i p :
  background_ok c -> main c <> Serving -> from_sweep c rest -> threads c !! i = Some p -> p = Ret tt.
Proof using Type.
  intros Hok Hm (s0 & _ & _ & _ & Hend & _) Hp. destruct (bo_calls _ Hok Hm i p Hp) as [->|(g & Hg)]; [done|].
  by rewrite Hend in Hg.
Qed.

(** A thread that moves leaves the pool reachable, and closed channels empty. *)
Lemma before_thread_op c i X (op : pool_op X) k x s' :
  before_sweep c -> threads c !! i = Some (Vis op k) -> (sends op = true -> closed c = false) ->
  pool_exec X op (pool c) x s' -> before_sweep (move i s' (k x) c).
Proof using Type.
  intros [Hr Hd] Hi Hc He. split; cbn.
  - eapply reachable_step; [exact Hr|]. rewrite insert_take_drop by by eapply lookup_lt_Some.
    by eapply step_thread.
  - intros g Hg Hend. destruct (Hd g Hg Hend) as [Hcl Hdr]. split; [done|].
    eapply exec_drained; [|exact He|done]. destruct (sends op); [|done]. by rewrite Hc in Hcl.
Qed.

Lemma closed_serving c : background_ok c -> main c = Serving -> closed c = false.
Proof using Type. intros Hok Hm. pose proof (bo_main _ Hok) as Hb. rewrite Hm in Hb. apply Hb. Qed.

Lemma panicked_preserved c c' : background_ok c -> bstep c c' -> panicked c' = true ->
  closed c' = true /\ exists i, loops c' Prewarmer = Busy i /\ threads c' !! i = Some (trigger PokePrewarm).
Proof using Type.
  intros Hok Hs Hp. destruct Hs as [| | | | |i X op k Hn Hi Hop Hcl| | | | |]; cbn in Hp; try congruence.
  split; [done|]. cbn. exists i.
  assert (Hm : main c <> Serving) by by intros Hm; apply closed_serving in Hm; [congruence|].
  destruct (bo_calls _ Hok Hm i _ Hi) as [[=]|(g & Hg)].
  destruct (bo_busy _ Hok _ _ Hg) as (p & Hp' & Hr). assert (p = Vis op k) as -> by congruence.
  destruct (residual_sends _ _ _ _ Hr Hop) as [-> Heq]. by rewrite <- Heq.
Qed.

Lemma before_begin c g p s' :
  before_sweep c -> loops c g = Waiting -> round maxContainerIdleTime (pool c) g p s' ->
  before_sweep (set_loop g (Busy (List.length (threads c))) (spawn p (set_pool s' c))).
Proof using Type.
  intros [Hr Hd] Hw Hro. split; cbn; [by eapply round_reachable|]. intros g' Hg' Hend.
  unfold insert, fn_insert in Hend. case_decide as Hne; [done|]. destruct (Hd g' Hg' Hend) as [Hcl Hdr].
  split; [done|]. destruct Hro, g'; cbn in *; done.
Qed.

Lemma before_loop c g l :
  before_sweep c -> (l = Ended -> closed c = true /\ drained (pool c) g) -> before_sweep (set_loop g l c).
Proof using Type.
  intros [Hr Hd] Hl. split; [done|]. intros g' Hg' Hend. cbn in *. unfold insert, fn_insert in Hend.
  case_decide as E; [subst g'; auto|auto].
Qed.

(** What does not end the service or the sweep keeps [main]'s part of the invariant. *)
Definition main_ok (c : background) : Prop :=
  match main c with
  | Serving => closed c = false /\ before_sweep c
  | ShuttingDown p =>
      closed c = false /\ p = Shutdown /\ before_sweep c \/
      closed c = true /\ p = waitAndSweep /\ before_sweep c \/
      closed c = true /\ only sweep_op p /\ from_sweep c (runs pool_exec p (pool c))
  | Down errs => closed c = true /\ from_sweep c (fun errs' s' => errs' = errs /\ s' = pool c)
  end.

Lemma main_unchanged c c' :
  main_ok c -> main c' = main c -> closed c' = closed c -> (before_sweep c -> before_sweep c') ->
  (forall rest, main c <> Serving -> from_sweep c rest -> False) -> main_ok c'.
Proof using Type.
  unfold main_ok. intros Hok -> -> Hb Hf. destruct (main c) as [|p|errs]; [by destruct Hok; auto| |].
  - destruct Hok as [(? & ? & ?)|[(? & ? & ?)|(_ & _ & Hsw)]]; [left; auto|right; left; auto|].
    exfalso. by eapply Hf.
  - destruct Hok as [_ Hsw]. exfalso. by eapply Hf.
Qed.

Lemma main_preserved c c' : background_ok c -> bstep c c' -> main_ok c'.
Proof using Type.
  intros Hok Hs. pose proof (bo_main _ Hok) as Hm. fold (main_ok c) in Hm.
  destruct Hs as [r Hn Hse Hr|g p s' Hn Hw Hro|i X op k x s' Hn Hi Hc He|g i Hn Hb Hret|g Hn Hw Hcl Hdr|
    i X op k Hn Hi Hop Hcl|Hn Hse Hcalls|k Hn Hmain|k Hn Hmain Hend|X op k x s' Hn Hmain Hop He|errs Hn Hmain].
  - unfold main_ok in *. cbn. rewrite Hse in *. destruct Hm as [Hcl [Hre Hd]]. split; [done|]. split; [|done].
    cbn. eapply reachable_step; [exact Hre|]. by apply step_start, client_invocation.
  - apply (main_unchanged c); try done; [by intros; apply before_begin|].
    intros rest _ (s0 & _ & _ & _ & Hend & _). by rewrite Hend in Hw.
  - apply (main_unchanged c); try done; [by intros; eapply before_thread_op|].
    intros rest Hne Hsw. by pose proof (swept_threads _ _ _ _ Hok Hne Hsw Hi).
  - apply (main_unchanged c); try done; [by intros; apply before_loop|].
    intros rest _ (s0 & _ & _ & _ & Hend & _). by rewrite Hend in Hb.
  - apply (main_unchanged c); try done; [by intros; apply before_loop|].
    intros rest _ (s0 & _ & _ & _ & Hend & _). by rewrite Hend in Hw.
  - unfold main_ok in *. destruct c; cbn in *. exact Hm.
  - unfold main_ok in *. rewrite Hse in Hm. cbn. left. by destruct Hm.
  - unfold main_ok in *. rewrite Hmain in Hm. cbn.
    destruct Hm as [(Hcl & Hp & Hr & Hd)|[(_ & Hp & _)|(_ & [[=] _] & _)]];
      [|by apply (f_equal closes) in Hp].
    apply (f_equal after_control) in Hp. injection Hp as Hk. right. left. split_and!; [done|exact Hk|]. split; [exact Hr|].
    intros g Hg Hend. destruct (Hd g Hg Hend). congruence.
  - unfold main_ok in *. rewrite Hmain in Hm. cbn.
    destruct Hm as [(_ & Hp & _)|[(Hcl & Hp & Hr & Hd)|(_ & [[=] _] & _)]];
      [by apply (f_equal closes) in Hp|].
    apply (f_equal after_control) in Hp. injection Hp as Hk. right. right. split; [done|].
    change (k tt = sweep) in Hk. rewrite Hk. split; [apply only_sweep|].
    exists (pool c). split_and!; [exact Hr| | |exact Hend|done].
    + by apply (Hd Deleter).
    + by apply (Hd Prewarmer).
  - unfold main_ok in *. rewrite Hmain in Hm. cbn.
    destruct Hm as [(_ & Hp & _)|[(_ & Hp & _)|(Hcl & Hon & s0 & Hr & Hq & Hk & Hend & Hrun)]].
    + apply (f_equal after_control) in Hp. rewrite after_control_None in Hp; [done|by destruct op].
    + apply (f_equal after_control) in Hp. rewrite after_control_None in Hp; [done|by destruct op].
    + right. right. split_and!; [done|apply Hon|]. exists s0. split_and!; try done.
      intros errs s1 Hr1. apply Hrun. by exists x, s'.
  - unfold main_ok in *. rewrite Hmain in Hm. cbn.
    destruct Hm as [(_ & Hp & _)|[(_ & Hp & _)|(Hcl & _ & s0 & Hr & Hq & Hk & Hend & Hrun)]]; [done|done|].
    split; [done|]. exists s0. split_and!; try done. intros errs' s' [-> ->]. by apply Hrun.
Qed.

Lemma background_invariant c :
  background_reachable mem_of max manifests maxContainerIdleTime c -> background_ok c.
Proof using Type.
  unfold background_reachable. intros Hr. pose proof launched_ok as H1. revert H1. 
  induction Hr as [c|c1 c2 c3 Hs _ IH]; [done|]. intros Hok. apply IH. split.
  - by apply (busy_preserved c1).
  - by apply (distinct_preserved c1).
  - by apply (calls_preserved c1).
  - by apply (main_preserved c1).
  - by apply (panicked_preserved c1).
Qed.
End invariant.
