(* ===== verification/PoolShutdown.v ===== *)
(** * The container pool: what its shutdown guarantees

    [Shutdown] next to the goroutines of PoolLoops.v: what it removes, that it
    can return, and where the program can panic instead. *)
From stdpp Require Import functions.
From S2P Require Export PoolLoops.

(** ** The sweep never waits *)
Section sweep.
Context `{WeightedSemaphoreLaws}.
Context {MI : MapRange WarmContainerKey (list PooledContainer)}.
Context {MP : MapRange PrewarmContainerKey (list PooledContainer)}.
Context {MM : MapRange string RuntimeManifest} {MN : MapRange PrewarmContainerKey Z}.

Notation completes_ := (completes pool_exec).

Lemma completes_Remove c s (Q : option go_error -> pstate -> Prop) :
  (forall r s', pausePending s' = pausePending s -> Q r s') -> completes_ (PooledContainer_Remove c) s Q.
Proof using Type.
  intros HQ. unfold PooledContainer_Remove.
  assert (Hrm : forall s1 (f : option go_error -> poolM (option go_error)), pausePending s1 = pausePending s ->
    (forall r s', pausePending s' = pausePending s -> completes_ (f r) s' Q) ->
    completes_ (Vis (CallRemove (container c)) f) s1 Q).
  { intros s1 f Hs1 Hf. split; [by exists None; eexists|]. intros [e|] s' He; cbn in He; subst s'; by apply Hf. }
  destruct (firewallCleanup c) as [h|]; [|apply Hrm; [done|by intros; apply HQ]].
  split; [by exists None, s|]. intros [e|] s' ->; cbn; [by apply HQ|].
  apply Hrm; [done|]. by intros [|] s1 Hs1; apply HQ.
Qed.

Lemma completes_CleanupPooled c e s (Q : go_error -> pstate -> Prop) :
  (forall e' s', pausePending s' = pausePending s -> Q e' s') -> completes_ (CleanupPooled c e) s Q.
Proof using Type.
  intros HQ. unfold CleanupPooled, CleanupContainer. split; [by eexists (Err e), _|].
  intros st s' ->. apply (completes_bind pool_exec (PooledContainer_Remove c)), completes_Remove.
  intros [|] s' Hs'; by apply HQ.
Qed.

Lemma completes_unpauseAndRemove txt txt' c s (Q : option go_error -> pstate -> Prop) :
  ref c ∈ pausePending s -> (forall r s', pausePending s' = pausePending s ∖ {[ref c]} -> Q r s') ->
  completes_ (unpauseAndRemove txt txt' c) s Q.
Proof using Type.
  intros Hc HQ. unfold unpauseAndRemove. split; [by exists None; eexists; split|].
  intros u s' [_ ->].
  assert (Hrm : forall s1, pausePending s1 = pausePending s ∖ {[ref c]} ->
    completes_ (rm ← PooledContainer_Remove c;
                match rm with Some err => Ret (Some (Errorf txt' [err])) | None => Ret None end) s1 Q).
  { intros s1 Hs1. apply completes_bind, completes_Remove. intros [|] s2 Hs2; apply HQ; congruence. }
  destruct u as [err|]; [|by apply Hrm].
  split; [by eexists (Err err), _|]. intros [st|e] s1 ->; cbn [proc_bind].
  - cbn. destruct (_ || _); [by apply Hrm|].
    apply (completes_bind pool_exec (CleanupPooled c _)), completes_CleanupPooled. intros e' s2 Hs2. by apply HQ.
  - apply (completes_bind pool_exec (CleanupPooled c _)), completes_CleanupPooled. intros e' s2 Hs2. by apply HQ.
Qed.

(** Containers that are paused, or about to be, each once. *)
Definition to_unpause (l : list PooledContainer) (s : pstate) : Prop :=
  NoDup (ref <$> l) /\ forall c, c ∈ l -> ref c ∈ pausePending s.

Lemma sweep_completes s : to_unpause (idle_containers s) s -> completes_ sweep s (fun _ _ => True).
Proof using Type.
  intros Hs. unfold sweep. split; [by eexists _, s; exists 0%nat|]. intros idle s1 (seed & -> & ->).
  apply (completes_bind pool_exec (for_fold _ [] _)).
  eapply (completes_for_fold _ _ _ _ to_unpause).
  - unfold idle_containers in Hs. destruct Hs as [Hn Hp]. unfold to_unpause. rewrite (elems_range seed). split; [done|].
    intros c. rewrite (elems_range seed). apply Hp.
  - intros errs c l s1 [Hn Hp]. cbn in Hn. apply NoDup_cons in Hn as [Hc Hn].
    apply completes_bind, completes_unpauseAndRemove; [apply Hp; by left|]. intros r s2 Hs2.
    assert (to_unpause l s2); [|by destruct r]. split; [done|]. intros d Hd. rewrite Hs2.
    apply elem_of_difference. split; [by apply Hp; right|]. intros Heq%elem_of_singleton. apply Hc.
    rewrite <- Heq. by apply list_elem_of_fmap_2.
  - intros errs s1 _. split; [by eexists _, s1; exists 0%nat|]. intros prewarm s2 (seed' & -> & ->).
    eapply (completes_for_fold _ _ _ _ (fun _ _ => True)); [done| |done].
    intros b c l s2 _. apply completes_bind, completes_Remove. by intros [|].
Qed.
End sweep.

Section shutdown.
Context `{WeightedSemaphoreLaws}.
Context {MI : MapRange WarmContainerKey (list PooledContainer)}.
Context {MP : MapRange PrewarmContainerKey (list PooledContainer)}.
Context {MM : MapRange string RuntimeManifest} {MN : MapRange PrewarmContainerKey Z}.
Context (mem_of : WarmContainerKey -> Z) (max : Z) (manifests : RuntimeManifests) (maxContainerIdleTime : Z).
Context (mem_range : forall k, 0 <= mem_of k < 2 ^ 63) (max_range : 0 <= max < 2 ^ 62).

Notation bstep := (background_step mem_of maxContainerIdleTime).
Notation bsteps := (rtc bstep).
Notation reachable_pool := (pool_reachable mem_of max manifests).
Notation reachable := (background_reachable mem_of max manifests maxContainerIdleTime).

Lemma idle_to_unpause c : reachable_pool c -> to_unpause (idle_containers c.1) c.1.
Proof using mem_range max_range H0.
  intros (ts & _ & [_ _ He Hp])%reachable_tokens; [|done..]. split; [|by apply (paused_idle _ _ Hp)].
  apply occ_NoDup. intros r. pose proof (excl_one _ _ He r) as Hone. unfold stored in Hone.
  pose proof (occ_nonneg r (prewarm_containers c.1)). pose proof (occ_nonneg r (containersToDeleteForSpace c.1)).
  assert (0 <= sumZ (owned r) ts); [|lia]. apply sumZ_nonneg. intros t _. unfold owned. by destruct (_ !! _).
Qed.

(** ** What is removed *)

(** C7: when [Shutdown] returns, all goroutines of the pool and all calls have returned, and apart from as
    many containers as it reports errors, every container the pool held when they had is removed. *)
Theorem pool_shutdown_removes c errs :
  reachable c -> main c = Down errs ->
  (forall g, loops c g = Ended) /\ Forall (fun p => p = Ret tt) (threads c) /\
  exists s0 failed gone,
    reachable_pool (s0, threads c) /\ containersToDeleteForSpace s0 = [] /\ prewarmPoke s0 = false /\
    idle_containers s0 ++ prewarm_containers s0 ≡ₚ failed ++ gone /\
    List.length failed = List.length errs /\ (forall x, x ∈ gone -> ref x ∈ removed (pool c)).
Proof using Type.
  intros Hok%background_invariant Hm. pose proof (bo_main _ _ _ _ Hok) as Hb. rewrite Hm in Hb.
  destruct Hb as [_ Hs]. split_and!.
  - by destruct Hs as (s0 & _ & _ & _ & Hend & _).
  - apply Forall_lookup_2. intros i p Hi. eapply swept_threads; [exact Hok|congruence|exact Hs|exact Hi].
  - destruct Hs as (s0 & Hr & Hq & Hk & _ & Hrun).
    destruct (sweep_removes_all _ _ _ (Hrun errs (pool c) ltac:(done))) as (failed & gone & Hp & Hl & Hg).
    by exists s0, failed, gone.
Qed.

(** ** That it returns *)

(** What is left of the sweep can always go on. *)
Definition sweep_ready (c : background) : Prop :=
  match main c with
  | ShuttingDown p =>
      closed c = true -> p = waitAndSweep \/ completes pool_exec p (pool c) (fun _ _ => True)
  | _ => True
  end.

Lemma sweep_ready_preserved c c' : background_ok mem_of max manifests c -> sweep_ready c -> bstep c c' -> sweep_ready c'.
Proof using mem_range max_range H0.
  intros Hok Hs Hstep. pose proof (bo_main _ _ _ _ Hok) as Hm. unfold sweep_ready in *.
  destruct Hstep as [r Hn Hse Hr|g p s' Hn Hw Hro|i X op k x s' Hn Hi Hc He|g i Hn Hb Hret|g Hn Hw Hcl Hdr|
    i X op k Hn Hi Hop Hcl|Hn Hse Hcalls|k Hn Hmain|k Hn Hmain Hend|X op k x s' Hn Hmain Hop He|errs Hn Hmain];
    cbn in *; try done.
  - destruct (main c) as [|p'|]; [done| |done]. intros Hcl. left.
    destruct Hm as [(? & _)|[(_ & -> & _)|(_ & _ & s0 & _ & _ & _ & Hend & _)]]; [congruence|done|].
    by rewrite Hend in Hw.
  - destruct (main c) as [|p'|] eqn:Em; [done| |done]. intros Hcl. left.
    destruct Hm as [(? & _)|[(_ & -> & _)|(_ & _ & Hsw)]]; [congruence|done|].
    assert (Hne : main c <> Serving) by congruence. by pose proof (swept_threads _ _ _ _ _ _ _ Hok Hne Hsw Hi).
  - intros Hcl. rewrite (closed_serving _ _ _ _ Hok Hse) in Hcl. done.
  - intros _. left. rewrite Hmain in Hm. destruct Hm as [(_ & Hp & _)|[(_ & Hp & _)|(_ & [[=] _] & _)]];
      [|by apply (f_equal closes) in Hp].
    apply (f_equal after_control) in Hp. by injection Hp as Hk.
  - intros _. right. rewrite Hmain in Hm.
    destruct Hm as [(_ & Hp & _)|[(_ & Hp & Hr & _)|(_ & [[=] _] & _)]]; [by apply (f_equal closes) in Hp|].
    apply (f_equal after_control) in Hp. injection Hp as Hk. rewrite Hk.
    apply sweep_completes, (idle_to_unpause _ Hr).
  - intros Hcl. right. rewrite Hmain in Hs. destruct (Hs Hcl) as [Hp|[_ Hp]]; [|by apply Hp].
    apply (f_equal after_control) in Hp. rewrite after_control_None in Hp; [done|by destruct op].
Qed.

Lemma reachable_ready c : reachable c -> sweep_ready c.
Proof using mem_range max_range H0.
  unfold background_reachable. revert c. refine (rtc_ind_r (R := bstep) sweep_ready _ _ _); [done|].
  intros c1 c2 H1 Hs Hc1. eapply sweep_ready_preserved; [by eapply background_invariant|exact Hc1|exact Hs].
Qed.

(** *** Rounds come to an end *)
Definition channels (s : pstate) : list PooledContainer * bool := (containersToDeleteForSpace s, prewarmPoke s).

Lemma quiet_enabled s X (op : pool_op X) :
  quiet_op X op = true -> op_safe s X op -> exists x s', pool_exec X op s x s' /\ channels s' = channels s.
Proof using Type.
  intros Hq Hs. destruct op; try done; cbn in Hs |- *.
  - by eexists _, _.
  - eexists _, _. split; [exists 0%nat; eexists; split; [apply surjective_pairing|reflexivity]|done].
  - eexists _, s. split; [by exists 0%nat, 0%nat|done].
  - by eexists tt, _.
  - exists None. by eexists.
  - by eexists (Err (ErrText "")), s.
  - exists None. by eexists.
  - by exists None, s.
Qed.

Lemma create_enabled s kind m n : exists c s',
  pool_exec _ (CallCreateContainer kind m n) s (Ok c) s' /\ channels s' = channels s.
Proof using Type. exists {| c_ref := nextRef s; c_IP := "" |}. by eexists. Qed.

(** [c'] is [c] but for containers, and for what threads did. *)
Definition alike (c c' : background) : Prop :=
  loops c' = loops c /\ closed c' = closed c /\ main c' = main c /\ panicked c' = panicked c /\
  channels (pool c') = channels (pool c).

Lemma alike_trans c1 c2 c3 : alike c1 c2 -> alike c2 c3 -> alike c1 c3.
Proof using Type. intros (? & ? & ? & ? & ?) (? & ? & ? & ? & ?). split_and!; by etrans. Qed.

Lemma quiet_no_retry (q : poolM unit) : only quiet_op q -> ~ retries q.
Proof using Type. by intros Hq ->; destruct Hq. Qed.

Lemma creating_no_retry (q : poolM unit) : creating retries (fun _ => True) q -> ~ retries q.
Proof using Type. by intros Hq ->; destruct Hq. Qed.

(** Rounds that are not about to try again have an answer to their next operation after which they are not
    either. *)
Lemma residual_enabled g s X (op : pool_op X) k :
  residual g (Vis op k) -> ~ retries (Vis op k) -> op_safe s X op ->
  sends op = false /\
  exists x s', pool_exec X op s x s' /\ channels s' = channels s /\ ~ retries (k x).
Proof using Type.
  assert (Hquiet : quiet_op X op = true -> op_safe s X op -> (forall x, ~ retries (k x)) ->
    sends op = false /\ exists x s', pool_exec X op s x s' /\ channels s' = channels s /\ ~ retries (k x)).
  { intros Hq Hs Hk. split; [by destruct op|]. destruct (quiet_enabled s X op Hq Hs) as (x & s' & He & Hc).
    exists x, s'. auto. }
  intros Hre Hnr Hs. destruct g; cbn [residual] in Hre; [by destruct Hre; auto using quiet_no_retry..|].
  destruct Hre as [Hre|Hre]; [done|].
  destruct op; cbn in Hre; try (by destruct Hre; apply Hquiet; [| |intros; apply creating_no_retry]).
  split; [done|]. destruct (create_enabled s kind memory name) as (c & s' & He & Hch).
  exists (Ok c), s'. split_and!; [done|done|]. apply creating_no_retry, (Hre (Ok c)).
Qed.

Lemma round_ends g i p c :
  panicked c = false -> reachable_pool (pool c, threads c) -> threads c !! i = Some p ->
  residual g p -> ~ retries p ->
  exists c', bsteps c c' /\ threads c' !! i = Some (Ret tt) /\ alike c c'.
Proof using mem_range max_range H0.
  revert c. induction p as [[]|X op k IH]; intros c Hn Hr Hi Hre Hnr; [by exists c|].
  pose proof (next_op_safe mem_of max manifests mem_range max_range _ _ _ _ _ _ Hr Hi) as Hs.
  destruct (residual_enabled _ _ _ _ _ Hre Hnr Hs) as (Hse & x & s' & He & Hch & Hnr').
  assert (Hstep : bstep c (move i s' (k x) c)) by (eapply step_thread_op; try done; by rewrite Hse).
  destruct (IH x (move i s' (k x) c)) as (c' & Hc' & Hi' & Ha); try done.
  - cbn. eapply reachable_step; [exact Hr|]. rewrite insert_take_drop by by eapply lookup_lt_Some.
    by eapply step_thread.
  - cbn. apply list_lookup_insert_eq. by eapply lookup_lt_Some.
  - by eapply residual_step.
  - exists c'. split; [by eapply rtc_l|]. split; [done|]. by eapply alike_trans; [|exact Ha].
Qed.

(** *** Goroutines return *)

(** [Shutdown] has closed the channels and waits. *)
Definition waiting (c : background) : Prop :=
  reachable c /\ main c = ShuttingDown waitAndSweep /\ closed c = true /\ panicked c = false.

Definition about_to_retry (c : background) : Prop :=
  exists i, loops c Prewarmer = Busy i /\ threads c !! i = Some (trigger PokePrewarm).

Lemma waiting_pool c : waiting c -> reachable_pool (pool c, threads c).
Proof using Type.
  intros (Hr & Hm & Hcl & _). apply background_invariant in Hr. pose proof (bo_main _ _ _ _ Hr) as Hb.
  rewrite Hm in Hb. destruct Hb as [(? & _)|[(_ & _ & Hb)|(_ & [[=] _] & _)]]; [congruence|apply Hb].
Qed.

Lemma waiting_steps c c' : waiting c -> bsteps c c' -> main c' = main c -> closed c' = closed c ->
  panicked c' = panicked c -> waiting c'.
Proof using Type.
  intros (Hr & Hm & Hcl & Hp) Hs Hm' Hcl' Hp'. split; [unfold background_reachable in *; by etrans|]. by rewrite Hm', Hcl', Hp'.
Qed.

(** From [c] on, [g] has come to [l] with these channels, and the other goroutines are where they were. *)
Definition settles (c : background) (g : goroutine) (l : loop) (ch : list PooledContainer * bool) : Prop :=
  exists c', bsteps c c' /\ waiting c' /\ loops c' g = l /\ (forall g', g' <> g -> loops c' g' = loops c g') /\
    channels (pool c') = ch.

Lemma settles_next c c1 g l ch :
  bsteps c c1 -> (forall g', g' <> g -> loops c1 g' = loops c g') -> settles c1 g l ch -> settles c g l ch.
Proof using Type.
  intros Hs Hg (c' & Hs' & Hw & Hl & Hg' & Hch). exists c'. split_and!; try done; [by etrans|].
  intros g' Hne. by rewrite Hg', Hg.
Qed.

Lemma busy_settles c g i p :
  waiting c -> loops c g = Busy i -> threads c !! i = Some p -> ~ retries p ->
  settles c g Waiting (channels (pool c)).
Proof using mem_range max_range H0.
  intros Hw Hg Hi Hnr. pose proof Hw as (Hr & _ & _ & Hn).
  destruct (bo_busy _ _ _ _ (background_invariant _ _ _ _ _ Hr) _ _ Hg) as (q & Hq & Hre).
  assert (q = p) as -> by congruence.
  destruct (round_ends g i p c Hn (waiting_pool _ Hw) Hi Hre Hnr) as (c1 & Hs & Hi1 & Hl & Hcl & Hm & Hn1 & Hch).
  assert (Hend : bstep c1 (set_loop g Waiting c1)) by (eapply step_end; [by rewrite Hn1|by rewrite Hl|done]).
  exists (set_loop g Waiting c1). split_and!; [by eapply rtc_r| | | |done].
  - eapply waiting_steps; [exact Hw|by eapply rtc_r|done..].
  - by rewrite loops_set_loop, decide_True.
  - intros g' Hne. rewrite loops_set_loop, decide_False by done. by rewrite Hl.
Qed.

(** One round, from its beginning. *)
Lemma round_settles c g p s' :
  waiting c -> loops c g = Waiting -> round maxContainerIdleTime (pool c) g p s' -> settles c g Waiting (channels s').
Proof using mem_range max_range H0.
  intros Hw Hg Hro. pose proof Hw as (_ & _ & _ & Hn).
  set (c1 := set_loop g (Busy (List.length (threads c))) (spawn p (set_pool s' c))).
  assert (Hs : bstep c c1) by by apply step_begin.
  apply (settles_next c c1); [by apply rtc_once| |].
  - intros g' Hne. unfold c1. rewrite loops_set_loop, decide_False by done. done.
  - apply (busy_settles c1 g (List.length (threads c)) p).
    + eapply waiting_steps; [exact Hw|by apply rtc_once|done..].
    + unfold c1. by rewrite loops_set_loop, decide_True.
    + by apply list_lookup_middle.
    + destruct Hro; [apply quiet_no_retry, quiet_reap|apply quiet_no_retry, quiet_deleteForSpace|].
      apply creating_no_retry, creating_prewarmOnce.
Qed.

Lemma returns_settles c g : waiting c -> loops c g = Waiting -> drained (pool c) g -> settles c g Ended (channels (pool c)).
Proof using Type.
  intros Hw Hg Hd. pose proof Hw as (_ & _ & Hcl & Hn).
  assert (Hs : bstep c (set_loop g Ended c)) by by apply step_return.
  exists (set_loop g Ended c). split_and!; [by apply rtc_once| | | |done].
  - eapply waiting_steps; [exact Hw|by apply rtc_once|done..].
  - by rewrite loops_set_loop, decide_True.
  - intros g' Hne. by rewrite loops_set_loop, decide_False.
Qed.

Lemma settles_trans c g l ch l' ch' :
  settles c g l ch ->
  (forall c1, waiting c1 -> loops c1 g = l -> channels (pool c1) = ch -> settles c1 g l' ch') ->
  settles c g l' ch'.
Proof using Type. intros (c1 & Hs & Hw & Hl & Hg & Hch) H1. eapply settles_next; [exact Hs|exact Hg|by apply H1]. Qed.

Lemma loop_returns g q poke c :
  waiting c -> loops c g = Waiting -> channels (pool c) = (q, poke) -> exists ch, settles c g Ended ch.
Proof using mem_range max_range H0.
  destruct g.
  - intros Hw Hg _. eexists. by apply returns_settles.
  - revert c. induction q as [|d q IH]; intros c Hw Hg [= Hq Hp].
    + eexists. by apply returns_settles.
    + destruct (round_settles c Deleter _ _ Hw Hg (round_delete _ _ d q Hq)) as (c1 & Hs & Hw1 & Hl & Hg1 & Hch).
      cbn in Hch. destruct (IH c1) as (ch & Hst); [done|done|by rewrite Hch; unfold channels; cbn; rewrite Hp|].
      exists ch. by eapply settles_next.
  - intros Hw Hg [= Hq Hp]. destruct poke; [|by eexists; apply returns_settles].
    exists (q, false). eapply settles_trans; [by eapply round_settles; [..|apply round_prewarm]|].
    intros c1 Hw1 Hl1 Hch1. unfold channels in Hch1. cbn in Hch1. injection Hch1 as Hq1 Hp1.
    replace (q, false) with (channels (pool c1)) by (unfold channels; congruence). by apply returns_settles.
Qed.

Lemma goroutine_returns c g :
  waiting c -> (g = Prewarmer -> ~ about_to_retry c) -> exists ch, settles c g Ended ch.
Proof using mem_range max_range H0.
  intros Hw Hr. destruct (loops c g) as [|i|] eqn:Hg.
  - by apply (loop_returns g (containersToDeleteForSpace (pool c)) (prewarmPoke (pool c))).
  - pose proof Hw as (Hre & _). destruct (bo_busy _ _ _ _ (background_invariant _ _ _ _ _ Hre) _ _ Hg) as (p & Hp & Hres).
    assert (Hnr : ~ retries p).
    { intros Hret. destruct g; cbn in Hres; [by eapply quiet_no_retry|by eapply quiet_no_retry|].
      apply Hr; [done|]. exists i. by rewrite <- Hret. }
    destruct (busy_settles c g i p Hw Hg Hp Hnr) as (c1 & Hs & Hw1 & Hl & Hg1 & Hch).
    destruct (loop_returns g _ _ c1 Hw1 Hl Hch) as (ch & Hst). exists ch. by eapply settles_next.
  - exists (channels (pool c)), c. by split_and!.
Qed.

Lemma all_return c : waiting c -> ~ about_to_retry c -> exists c', bsteps c c' /\ waiting c' /\ forall g, loops c' g = Ended.
Proof using mem_range max_range H0.
  intros Hw Hr.
  destruct (goroutine_returns c Prewarmer Hw ltac:(done)) as (_ & c1 & Hs1 & Hw1 & Hl1 & _ & _).
  destruct (goroutine_returns c1 Deleter Hw1 ltac:(done)) as (_ & c2 & Hs2 & Hw2 & Hl2 & Hg2 & _).
  destruct (goroutine_returns c2 Reaper Hw2 ltac:(done)) as (_ & c3 & Hs3 & Hw3 & Hl3 & Hg3 & _).
  exists c3. split_and!; [by etrans; [|etrans]|done|]. intros []; [done|by rewrite Hg3|by rewrite Hg3, Hg2].
Qed.

Lemma sweep_returns p c :
  panicked c = false -> main c = ShuttingDown p -> only sweep_op p ->
  completes pool_exec p (pool c) (fun _ _ => True) -> exists c' errs, bsteps c c' /\ main c' = Down errs.
Proof using Type.
  revert c. induction p as [errs|X op k IH]; intros c Hn Hm Ho Hc.
  - eexists _, errs. split; [apply rtc_once; by apply step_down|done].
  - destruct Hc as [(x & s' & He) Hk], Ho as [Hop Ho].
    destruct (IH x (mkBackground s' (threads c) (loops c) (closed c) (ShuttingDown (k x)) false)) as (c' & errs & Hs & Hd);
      [done..|by apply Hk|].
    exists c', errs. split; [|done]. eapply rtc_l; [|exact Hs]. eapply step_sweep; try done. by destruct op.
Qed.

(** C20: whenever [Shutdown] has been called, and wherever it, the goroutines of the pool and the calls are by
    then, [Shutdown] can go on until it returns, unless the program has panicked or the prewarmer is about to
    try again. *)
Theorem pool_shutdown_returns c p :
  reachable c -> main c = ShuttingDown p -> panicked c = false -> ~ about_to_retry c ->
  exists c' errs, bsteps c c' /\ main c' = Down errs.
Proof using mem_range max_range H0.
  intros Hr Hm Hn Hre. pose proof (background_invariant _ _ _ _ _ Hr) as Hok.
  pose proof (reachable_ready c Hr) as Hsr. unfold sweep_ready in Hsr. rewrite Hm in Hsr.
  assert (Hwait : forall c1, waiting c1 -> ~ about_to_retry c1 ->
    exists c' errs, bsteps c1 c' /\ main c' = Down errs).
  { intros c1 Hw1 Hre1. destruct (all_return c1 Hw1 Hre1) as (c2 & Hs2 & Hw2 & Hend).
    pose proof Hw2 as (_ & Hm2 & _ & Hn2).
    assert (Hs3 : bstep c2 (set_main (ShuttingDown sweep) c2)) by by apply (step_wait _ _ _ (fun _ => sweep)).
    destruct (sweep_returns sweep (set_main (ShuttingDown sweep) c2)) as (c' & errs & Hs & Hd); [done|done|apply only_sweep| |].
    - apply sweep_completes, (idle_to_unpause _ (waiting_pool _ Hw2)).
    - exists c', errs. split; [|done]. etrans; [exact Hs2|]. by eapply rtc_l. }
  pose proof (bo_main _ _ _ _ Hok) as Hb. rewrite Hm in Hb.
  destruct Hb as [(Hcl & -> & _)|[(Hcl & -> & _)|(Hcl & Ho & _)]].
  - set (c1 := mkBackground (pool c) (threads c) (loops c) true (ShuttingDown waitAndSweep) false).
    assert (Hs : bstep c c1) by by apply (step_close _ _ _ (fun _ => waitAndSweep)).
    destruct (Hwait c1) as (c' & errs & Hs' & Hd).
    + split_and!; [by eapply rtc_r|done..].
    + done.
    + exists c', errs. split; [by eapply rtc_l|done].
  - apply Hwait; [by split_and!|done].
  - destruct (Hsr Hcl) as [->|Hc]; [by destruct Ho|]. by eapply sweep_returns.
Qed.

(** C22: the goroutines of the pool and its calls never send to a closed channel, except the prewarmer when a
    container could not be created during the shutdown: this is the only way in which the program panics. *)
Theorem pool_panics_only_on_retry c :
  reachable c -> panicked c = true ->
  closed c = true /\ (exists p, main c = ShuttingDown p) /\ about_to_retry c.
Proof using Type.
  intros Hr Hp. apply background_invariant in Hr as Hok. destruct (bo_panicked _ _ _ _ Hok Hp) as [Hc Hre].
  split_and!; [done| |done]. pose proof (bo_main _ _ _ _ Hok) as Hm. destruct (main c) as [|p|errs].
  - destruct Hm. congruence.
  - by exists p.
  - destruct Hm as [_ (s0 & _ & _ & _ & Hend & _)]. destruct Hre as (i & Hi & _). by rewrite Hend in Hi.
Qed.
End shutdown.

(** ** Concrete runs *)

(** A script: what happens next. Containers can always be created, except where the script says otherwise. *)
Inductive event :=
| Begins (g : goroutine)
| Moves (thread : nat)
| CreationFails (thread : nat)
| RoundEnds (g : goroutine)
| Returns (g : goroutine)
| Panic (thread : nat)
| CallsShutdown
| MainMoves.

Definition begin_round (idleTime : Z) (g : goroutine) (s : pstate) : option (poolM unit * pstate) :=
  match g with
  | Reaper => Some (_ ← reap (clock s - idleTime); Ret tt, s)
  | Deleter => match containersToDeleteForSpace s with
               | c :: q => Some (deleteForSpace c, set_toDelete q s)
               | [] => None
               end
  | Prewarmer => if prewarmPoke s then Some (prewarmOnce, set_prewarmPoke false s) else None
  end.

Definition drainedb (s : pstate) (g : goroutine) : bool :=
  match g with
  | Reaper => true
  | Deleter => match containersToDeleteForSpace s with [] => true | _ => false end
  | Prewarmer => negb (prewarmPoke s)
  end.

Definition is_busy (c : background) (i : nat) : bool :=
  existsb (fun g => bool_decide (loops c g = Busy i)) [Reaper; Deleter; Prewarmer].
Definition is_Ret (p : poolM unit) : bool := match p with Ret _ => true | _ => false end.
Definition calls_returnedb (c : background) : bool :=
  forallb (fun '(i, p) => is_Ret p || is_busy c i) (imap pair (threads c)).

Definition main_moves (c : background) : option background :=
  match main c with
  | ShuttingDown (Ret errs) => Some (set_main (Down errs) c)
  | ShuttingDown (@Vis _ _ X op k) =>
      match op in pool_op X' return (X' -> poolM (list go_error)) -> option background with
      | CloseBackground => fun k =>
          Some (mkBackground (pool c) (threads c) (loops c) true (ShuttingDown (k tt)) false)
      | WaitBackground => fun k =>
          if forallb (fun g => bool_decide (loops c g = Ended)) [Reaper; Deleter; Prewarmer]
          then Some (set_main (ShuttingDown (k tt)) c) else None
      | op' => fun k =>
          match pool_handle _ op' (pool c) with
          | Some (x, s') => Some (mkBackground s' (threads c) (loops c) (closed c) (ShuttingDown (k x)) false)
          | None => None
          end
      end k
  | _ => None
  end.

Definition happens (idleTime : Z) (e : event) (c : background) : option background :=
  if panicked c then None else
  match e with
  | Begins g =>
      match loops c g, begin_round idleTime g (pool c) with
      | Waiting, Some (p, s') => Some (set_loop g (Busy (List.length (threads c))) (spawn p (set_pool s' c)))
      | _, _ => None
      end
  | Moves i =>
      match (threads c !! i : option (poolM unit)) with
      | Some (Vis op k) =>
          if sends op && closed c then None
          else match pool_handle _ op (pool c) with
               | Some (x, s') => Some (move i s' (k x) c)
               | None => None
               end
      | _ => None
      end
  | CreationFails i =>
      match (threads c !! i : option (poolM unit)) with
      | Some (@Vis _ _ X op k) =>
          match op in pool_op X' return (X' -> poolM unit) -> option background with
          | CallCreateContainer _ _ _ => fun k => Some (move i (pool c) (k (Err (ErrText "no space left"))) c)
          | _ => fun _ => None
          end k
      | _ => None
      end
  | RoundEnds g =>
      match loops c g with
      | Busy i => match (threads c !! i : option (poolM unit)) with Some (Ret tt) => Some (set_loop g Waiting c) | _ => None end
      | _ => None
      end
  | Returns g =>
      if bool_decide (loops c g = Waiting) && closed c && drainedb (pool c) g
      then Some (set_loop g Ended c) else None
  | Panic i =>
      match (threads c !! i : option (poolM unit)) with
      | Some (Vis op k) =>
          if sends op && closed c
          then Some (mkBackground (pool c) (threads c) (loops c) (closed c) (main c) true) else None
      | _ => None
      end
  | CallsShutdown =>
      match main c with
      | Serving => if calls_returnedb c then Some (set_main (ShuttingDown Shutdown) c) else None
      | _ => None
      end
  | MainMoves => main_moves c
  end.

Fixpoint unfolds (idleTime : Z) (script : list event) (c : background) : option background :=
  match script with
  | [] => Some c
  | e :: script' => match happens idleTime e c with Some c' => unfolds idleTime script' c' | None => None end
  end.

Section script.
Context (mem_of : WarmContainerKey -> Z) (idleTime : Z).
Notation bstep := (background_step mem_of idleTime).

Lemma begin_round_sound g s p s' : begin_round idleTime g s = Some (p, s') -> round idleTime s g p s'.
Proof.
  destruct g; cbn.
  - intros [= <- <-]. by apply round_reap.
  - destruct (containersToDeleteForSpace s) eqn:Hq; [done|]. intros [= <- <-]. by apply round_delete.
  - destruct (prewarmPoke s) eqn:Hp; [|done]. intros [= <- <-]. by apply round_prewarm.
Qed.

Lemma calls_returnedb_sound c : calls_returnedb c = true -> calls_returned c.
Proof.
  unfold calls_returnedb. intros Hc i p Hi. rewrite forallb_forall in Hc.
  assert (Hb : is_Ret p || is_busy c i = true)
    by by apply (Hc (i, p)), list_elem_of_In, elem_of_lookup_imap; exists i, p.
  apply orb_true_iff in Hb as [Hb|Hb].
  - left. by destruct p as [[]|].
  - right. unfold is_busy in Hb. apply existsb_exists in Hb as (g & _ & Hg). exists g. by apply bool_decide_eq_true in Hg.
Qed.

Lemma main_moves_sound c c' : panicked c = false -> main_moves c = Some c' -> bstep c c'.
Proof.
  intros Hn. unfold main_moves. destruct (main c) as [|p|] eqn:Hm; [done| |done]. destruct p as [errs|X op k].
  { intros [= <-]. by apply step_down. }
  assert (Hsw : sweep_op X op = true -> forall x s', pool_handle X op (pool c) = Some (x, s') ->
    bstep c (mkBackground s' (threads c) (loops c) (closed c) (ShuttingDown (k x)) false)).
  { intros Ho x s' Hx. eapply step_sweep; [done|exact Hm|by destruct op|by apply pool_handle_sound]. }
  destruct op; try (destruct (pool_handle _ _ (pool c)) as [[x s']|] eqn:Hx; [|done]; intros [= <-]; by apply Hsw).
  - intros [= <-]. by apply step_close.
  - destruct (forallb _ _) eqn:Hf; [|done]. intros [= <-]. apply step_wait; [done|done|]. intros g.
    rewrite forallb_forall in Hf. apply (bool_decide_eq_true_1 (loops c g = Ended)), Hf. destruct g; set_solver.
Qed.

Lemma happens_sound e c c' : happens idleTime e c = Some c' -> bstep c c'.
Proof.
  unfold happens. destruct (panicked c) eqn:Hn; [done|]. destruct e as [g|i|i|g|g|i| |].
  - destruct (loops c g) eqn:Hg; [|done..]. destruct (begin_round _ _ _) as [[p s']|] eqn:Hb; [|done].
    intros [= <-]. apply step_begin; [done|done|by apply begin_round_sound].
  - destruct (threads c !! i) as [[|X op k]|] eqn:Hi; [done| |done]. destruct (sends op && closed c) eqn:Hs; [done|].
    destruct (pool_handle _ _ _) as [[x s']|] eqn:Hx; [|done]. intros [= <-].
    eapply step_thread_op; [done|exact Hi| |by apply pool_handle_sound]. intros Ho. by rewrite Ho in Hs.
  - destruct (threads c !! i) as [[|X op k]|] eqn:Hi; [done| |done]. destruct op; try done. intros [= <-].
    by eapply step_thread_op; [done|exact Hi|done|].
  - destruct (loops c g) as [|i|] eqn:Hg; [done| |done]. destruct (threads c !! i) as [[[]|]|] eqn:Hi; [|done..].
    intros [= <-]. by eapply step_end.
  - destruct (bool_decide _ && _ && _) eqn:Hb; [|done]. intros [= <-].
    apply andb_prop in Hb as [[Hg%bool_decide_eq_true Hc]%andb_prop Hd]. apply step_return; [done..|].
    destruct g; cbn in *; [done| |by apply negb_true_iff]. by destruct (containersToDeleteForSpace _).
  - destruct (threads c !! i) as [[|X op k]|] eqn:Hi; [done| |done]. destruct (sends op && closed c) eqn:Hs; [|done].
    intros [= <-]. apply andb_prop in Hs as [Ho Hc]. by eapply step_panic.
  - destruct (main c) eqn:Hm; [|done..]. destruct (calls_returnedb c) eqn:Hc; [|done]. intros [= <-].
    apply step_Shutdown; [done..|by apply calls_returnedb_sound].
  - by apply main_moves_sound.
Qed.

Lemma unfolds_reachable max manifests script c :
  unfolds idleTime script (launched max manifests idleTime) = Some c ->
  background_reachable mem_of max manifests idleTime c.
Proof.
  unfold background_reachable. generalize (launched max manifests idleTime). intros c0. revert c0.
  induction script as [|e script IH]; cbn; intros c0 Hu; [by simplify_eq|].
  destruct (happens idleTime e c0) as [c1|] eqn:He; [|done]. eapply rtc_l; [by eapply happens_sound|by apply IH].
Qed.
End script.

(** Three containers are prewarmed, and removed by the shutdown. *)
Definition clean_run : list event :=
  [Begins Prewarmer] ++ replicate 10 (Moves 0) ++ [RoundEnds Prewarmer; Begins Reaper; CallsShutdown; MainMoves] ++
  [Moves 1; RoundEnds Reaper; Returns Reaper; Returns Prewarmer; Returns Deleter] ++ replicate 7 MainMoves.

(** The second container cannot be created, after the channels have been closed. *)
Definition retry_run : list event :=
  [Begins Prewarmer] ++ replicate 5 (Moves 0) ++ [CallsShutdown; MainMoves; CreationFails 0; Panic 0].

Definition after (script : list event) : background :=
  let c0 := launched 1024 nodejs_manifests 60 in default c0 (unfolds 60 script c0).

Lemma after_reachable script :
  isSome (unfolds 60 script (launched 1024 nodejs_manifests 60)) = true ->
  background_reachable mem_128 1024 nodejs_manifests 60 (after script).
Proof.
  unfold after. destruct (unfolds _ _ _) eqn:E; [|done]. intros _. by eapply unfolds_reachable.
Qed.

Example runs_unfold :
  main (after clean_run) = Down [] /\ removed (pool (after clean_run)) = {[0; 1; 2]}%nat /\
  panicked (after retry_run) = true.
Proof. vm_compute. auto. Qed.

Lemma pool_shutdown_removes_witness :
  exists s0 failed gone,
    pool_reachable mem_128 1024 nodejs_manifests (s0, threads (after clean_run)) /\
    idle_containers s0 ++ prewarm_containers s0 ≡ₚ failed ++ gone /\
    List.length failed = 0%nat /\ (forall x, x ∈ gone -> ref x ∈ removed (pool (after clean_run))).
Proof.
  assert (Hr : background_reachable mem_128 1024 nodejs_manifests 60 (after clean_run))
    by (apply after_reachable; vm_compute; reflexivity).
  assert (Hm : main (after clean_run) = Down []) by (vm_compute; reflexivity).
  destruct (pool_shutdown_removes mem_128 1024 nodejs_manifests 60 (after clean_run) [] Hr Hm)
    as (_ & _ & s0 & failed & gone & H1 & _ & _ & H2 & H3 & H4).
  exists s0, failed, gone. split_and!; [exact H1|exact H2|exact H3|exact H4].
Defined.

(** In the middle of a reaper's round, with the prewarmer waiting for its next poke. *)
Definition closing_run : list event := take 15 clean_run.

Lemma pool_shutdown_returns_witness :
  main (after closing_run) = ShuttingDown waitAndSweep /\
  exists c' errs, rtc (background_step mem_128 60) (after closing_run) c' /\ main c' = Down errs.
Proof.
  assert (Hr : background_reachable mem_128 1024 nodejs_manifests 60 (after closing_run))
    by (apply after_reachable; vm_compute; reflexivity).
  assert (Hm : main (after closing_run) = ShuttingDown waitAndSweep) by (vm_compute; reflexivity).
  assert (Hl : loops (after closing_run) Prewarmer = Waiting) by (vm_compute; reflexivity).
  assert (Hn : panicked (after closing_run) = false) by (vm_compute; reflexivity).
  split; [exact Hm|].
  apply (pool_shutdown_returns mem_128 1024 nodejs_manifests 60 mem_128_range ltac:(lia) _ _ Hr Hm Hn).
  intros (i & Hi & _). rewrite Hl in Hi. discriminate Hi.
Defined.

Lemma pool_panics_only_on_retry_witness :
  panicked (after retry_run) = true /\ closed (after retry_run) = true /\ about_to_retry (after retry_run).
Proof.
  assert (Hr : background_reachable mem_128 1024 nodejs_manifests 60 (after retry_run))
    by (apply after_reachable; vm_compute; reflexivity).
  assert (Hp : panicked (after retry_run) = true) by (vm_compute; reflexivity).
  split; [exact Hp|]. destruct (pool_panics_only_on_retry mem_128 1024 nodejs_manifests 60 _ Hr Hp) as (H1 & _ & H2).
  split; [exact H1|exact H2].
Defined.
