(* ===== verification/DockerLogs.v ===== *)
(** * Docker containers: splitting the output of a container into log lines

    [consumeStream] of [pkg/exec/docker/container.go], with the [ReadLine] of
    Go's [bufio.Reader] it is built on: a line is cut at the size of the buffer. *)
From S2P Require Export Container.

Definition newline : ascii := "010"%char.
Definition carriage_return : string := String "013"%char "".
Definition logSentinel : string := "XXX_THE_END_OF_A_WHISK_ACTIVATION_XXX".

(** [bytes.IndexByte]. *)
Fixpoint index_byte (c : ascii) (s : string) : option nat :=
  match s with
  | EmptyString => None
  | String d s' => if decide (d = c) then Some O else S <$> index_byte c s'
  end.

(** [ReadLine] on a reader with a buffer of [size] bytes and [s] left to read:
    the line and what is left after it, [None] at the end of the stream. *)
Definition ReadLine (size : nat) (s : string) : option (string * string) :=
  match s with
  | EmptyString => None
  | _ =>
      match index_byte newline (take_str size s) with
      | Some i => Some (TrimSuffix (take_str i s) carriage_return, drop_str (S i) s)
      | None =>
          if (String.length s <? size)%nat then Some (s, "")
          else if HasSuffix (take_str size s) carriage_return
          then Some (take_str (size - 1) s, drop_str (size - 1) s)
          else Some (take_str size s, drop_str size s)
      end
  end.

(** The log lines made of one line; [t] is the reading of the clock. *)
Definition emitLine (stream : string) (t : Z) (log : string) : list LogLine :=
  let trimmed := TrimSuffix log logSentinel in
  if (String.length trimmed <? String.length log)%nat then
    (if (0 <? String.length trimmed)%nat
     then [{| Message := trimmed; Stream := stream; Time := t; IsSentinel := false |}] else [])
    ++ [{| Message := ""; Stream := stream; Time := 0; IsSentinel := true |}]
  else [{| Message := log; Stream := stream; Time := t; IsSentinel := false |}].

(** The loop of [consumeStream] on everything the container writes to one
    stream; [clock n] is the time at which the [n]-th line is handled. *)
Fixpoint consumeStream (fuel : nat) (clock : nat -> Z) (n : nat) (stream : string) (size : nat)
    (s : string) : option (list LogLine) :=
  match fuel with
  | O => None
  | S fuel' =>
      match ReadLine size s with
      | None => Some []
      | Some (log, rest) =>
          lines ← consumeStream fuel' clock (S n) stream size rest;
          Some (emitLine stream (clock n) log ++ lines)
      end
  end.

(** ** Reading *)
Definition no_newline (s : string) : Prop := index_byte newline s = None.

Lemma index_byte_take c n s : index_byte c s = None -> index_byte c (take_str n s) = None.
Proof.
  revert n. induction s as [|d s IH]; intros [|n]; cbn; try done.
  case_decide; [done|]. destruct (index_byte c s); [done|]. intros _. by rewrite IH.
Qed.

Lemma index_byte_app c s t :
  index_byte c s = None -> index_byte c (s +:+ t) = (fun i => (String.length s + i)%nat) <$> index_byte c t.
Proof.
  induction s as [|d s IH]; rewrite ?app_str_cons; cbn.
  - intros _. change ("" +:+ t) with t. by destruct (index_byte c t).
  - case_decide; [done|]. destruct (index_byte c s); [done|]. intros _. rewrite IH by done.
    by destruct (index_byte c t).
Qed.

Lemma take_str_app_ge s t n :
  (String.length s <= n)%nat -> take_str n (s +:+ t) = s +:+ take_str (n - String.length s) t.
Proof.
  revert n. induction s as [|d s IH]; intros n Hn; cbn in *.
  - by rewrite Nat.sub_0_r.
  - destruct n as [|n]; [lia|]. rewrite !app_str_cons. cbn. rewrite IH by lia. done.
Qed.

Lemma drop_str_app_ge s t n :
  (String.length s <= n)%nat -> drop_str n (s +:+ t) = drop_str (n - String.length s) t.
Proof.
  revert n. induction s as [|d s IH]; intros n Hn; cbn in *.
  - by rewrite Nat.sub_0_r.
  - destruct n as [|n]; [lia|]. rewrite app_str_cons. cbn. rewrite IH by lia. done.
Qed.

Lemma ReadLine_full_line size line rest :
  no_newline line -> HasSuffix line carriage_return = false -> (String.length line < size)%nat ->
  ReadLine size (line +:+ String newline rest) = Some (line, rest).
Proof.
  intros Hnl Hcr Hlen. unfold ReadLine.
  destruct (line +:+ String newline rest) eqn:E.
  { apply (f_equal String.length) in E. rewrite length_app_str in E. cbn in E. lia. }
  rewrite <- E. clear E. rewrite take_str_app_ge by lia.
  rewrite index_byte_app by done.
  destruct (size - String.length line)%nat as [|k] eqn:Ek; [lia|]. cbn [take_str index_byte].
  rewrite decide_True by done. cbn [fmap option_fmap option_map].
  rewrite Nat.add_0_r, take_str_app.
  assert (TrimSuffix line carriage_return = line) as -> by (unfold TrimSuffix; by rewrite Hcr).
  rewrite drop_str_app_ge by lia.
  by replace (S (String.length line) - String.length line)%nat with 1%nat by lia.
Qed.

Lemma consumeStream_step fuel clock n stream size s log rest :
  ReadLine size s = Some (log, rest) ->
  consumeStream (S fuel) clock n stream size s =
    (lines ← consumeStream fuel clock (S n) stream size rest;
     Some (emitLine stream (clock n) log ++ lines)).
Proof. intros Hr. cbn. by rewrite Hr. Qed.

Fixpoint unlines (l : list string) : string :=
  match l with
  | [] => ""
  | s :: l' => s +:+ String newline (unlines l')
  end.

(** Every step consumes at least one byte, so the fuel below is enough. *)
Lemma ReadLine_shrinks size s log rest :
  (2 <= size)%nat -> ReadLine size s = Some (log, rest) ->
  (String.length rest < String.length s)%nat.
Proof.
  intros Hsize. unfold ReadLine. destruct s as [|c s]; [done|].
  destruct (index_byte _ _) as [i|]; [intros [= _ <-]|].
  - rewrite length_drop_str. cbn. lia.
  - destruct (Nat.ltb_spec (String.length (String c s)) size).
    + intros [= _ <-]. cbn. lia.
    + destruct (HasSuffix _ _); intros [= _ <-]; rewrite length_drop_str; cbn in *; lia.
Qed.

Lemma consumeStream_terminates clock stream size s n fuel :
  (2 <= size)%nat -> (String.length s < fuel)%nat ->
  is_Some (consumeStream fuel clock n stream size s).
Proof.
  intros Hsize. revert s n. induction fuel as [|fuel IH]; intros s n Hf; [lia|]. cbn.
  destruct (ReadLine size s) as [[log rest]|] eqn:E; [|done].
  apply ReadLine_shrinks in E; [|done].
  destruct (IH rest (S n)) as [lines ->]; [lia|]. done.
Qed.

(** Every line the container writes that fits the buffer becomes, in
    order, one log line with its text and stream, or, if it ends with the
    sentinel, a sentinel preceded by the rest of the line if there is any; and
    the loop ends with the stream. *)
Theorem consumeStream_lines clock stream size lines fuel :
  (2 <= size)%nat ->
  Forall (fun l => no_newline l /\ HasSuffix l carriage_return = false /\
                   (String.length l < size)%nat) lines ->
  (String.length (unlines lines) < fuel)%nat ->
  consumeStream fuel clock 0 stream size (unlines lines) =
    Some (concat (imap (fun n => emitLine stream (clock n)) lines)).
Proof.
  intros Hsize Hl Hf.
  assert (Hgen : forall n fuel, (String.length (unlines lines) < fuel)%nat ->
    consumeStream fuel clock n stream size (unlines lines) =
      Some (concat (imap (fun i => emitLine stream (clock (n + i)%nat)) lines))).
  { clear fuel Hf. induction Hl as [|l lines (Hn & Hc & Hlen) _ IH]; intros n [|fuel] Hf;
      cbn [unlines] in *; try (cbn in Hf; lia); [done|].
    rewrite length_app_str in Hf. cbn in Hf.
    erewrite consumeStream_step by by apply ReadLine_full_line.
    rewrite IH by lia. cbn. rewrite Nat.add_0_r. do 3 f_equal.
    apply imap_ext. intros i x _. cbn. by rewrite Nat.add_succ_r. }
  rewrite Hgen by done. done.
Qed.

Definition three_lines : list string :=
  ["hello"; "partial" +:+ logSentinel; logSentinel].

Lemma consumeStream_lines_witness :
  consumeStream 200 (fun n => Z.of_nat n) 0 "stdout" (Z.to_nat MaxLogLimit) (unlines three_lines) =
    Some [{| Message := "hello"; Stream := "stdout"; Time := 0; IsSentinel := false |};
          {| Message := "partial"; Stream := "stdout"; Time := 1; IsSentinel := false |};
          {| Message := ""; Stream := "stdout"; Time := 0; IsSentinel := true |};
          {| Message := ""; Stream := "stdout"; Time := 0; IsSentinel := true |}].
Proof.
  assert (Hlarge : (100 < Z.to_nat MaxLogLimit)%nat) by (unfold MaxLogLimit, Kilobyte; lia).
  generalize dependent (Z.to_nat MaxLogLimit). intros size Hlarge.
  rewrite (consumeStream_lines (fun n => Z.of_nat n) "stdout" size three_lines 200).
  - reflexivity.
  - lia.
  - unfold three_lines. rewrite !Forall_cons. split_and!; try done; rewrite ?length_app_str; cbn; lia.
  - vm_compute. lia.
Defined.

(** ** A sentinel that straddles the end of the buffer *)
Lemma drop_repeat_char c n m t :
  (m < n)%nat -> drop_str m (repeat_char c n +:+ t) = String c (drop_str (S m) (repeat_char c n +:+ t)).
Proof.
  revert n. induction m as [|m IH]; intros [|n] Hm; cbn [repeat_char]; rewrite ?app_str_cons;
    cbn [drop_str]; try lia; [done|]. rewrite IH by lia. done.
Qed.

Lemma index_byte_repeat c d n : c <> d -> index_byte c (repeat_char d n) = None.
Proof. intros Hcd. induction n as [|n IH]; cbn; [done|]. rewrite decide_False by done. by rewrite IH. Qed.

(** [emitLine] on a line shorter than the sentinel. *)
Lemma emitLine_no_suffix stream t log :
  HasSuffix log logSentinel = false ->
  emitLine stream t log = [{| Message := log; Stream := stream; Time := t; IsSentinel := false |}].
Proof.
  intros Hs. unfold emitLine, TrimSuffix. rewrite Hs.
  by destruct (Nat.ltb_spec (String.length log) (String.length log)); [lia|].
Qed.

Lemma HasSuffix_short s suf : (String.length s < String.length suf)%nat -> HasSuffix s suf = false.
Proof.
  intros Hl. unfold HasSuffix. destruct (Nat.leb_spec (String.length suf) (String.length s)); [lia|done].
Qed.

Lemma index_byte_drop c n s : index_byte c s = None -> index_byte c (drop_str n s) = None.
Proof.
  revert n. induction s as [|d s IH]; intros [|n]; cbn; try done.
  case_decide; [done|]. destruct (index_byte c s); [done|]. intros _. by apply IH.
Qed.

Lemma HasSuffix_byte s c : index_byte c s = None -> HasSuffix s (String c "") = false.
Proof.
  intros Hn. destruct (HasSuffix s (String c "")) eqn:E; [|done].
  apply HasSuffix_inv in E. exfalso. revert Hn. rewrite E.
  generalize (take_str (String.length s - String.length (String c "")) s). clear.
  intros t. induction t as [|d t IH]; rewrite ?app_str_cons.
  - change ("" +:+ String c "") with (String c ""). cbn. by rewrite decide_True.
  - cbn. case_decide; [done|]. destruct (index_byte c (t +:+ String c "")); [done|auto].
Qed.

(** A function that leaves [size - k] characters without a line feed, with
    [k] smaller than the length of the sentinel, hides the sentinel that ends
    its invocation: the buffer fills up in the middle of it, and no log line
    of the stream is a sentinel. *)
Theorem consumeStream_hides_sentinel clock stream size k fuel :
  (0 < k < String.length logSentinel)%nat -> (2 * String.length logSentinel < size)%nat ->
  (3 <= fuel)%nat ->
  exists lines,
    consumeStream fuel clock 0 stream size
      (repeat_char "a" (size - k) +:+ logSentinel +:+ String newline "") = Some lines /\
    Forall (fun l => IsSentinel l = false) lines.
Proof.
  intros Hk Hsize Hf. destruct fuel as [|[|[|fuel]]]; try lia.
  set (pre := repeat_char "a" (size - k)).
  assert (Hpre : String.length pre = (size - k)%nat) by apply length_repeat_char.
  assert (Hsen : forall n, no_newline (take_str n logSentinel))
    by (intros n; by apply index_byte_take).
  set (full := pre +:+ take_str k logSentinel).
  assert (Hfull : String.length full = size).
  { unfold full. rewrite length_app_str, Hpre, length_take_str. lia. }
  assert (Hr1 : ReadLine size (pre +:+ logSentinel +:+ String newline "") =
    Some (full, drop_str k logSentinel +:+ String newline "")).
  { unfold ReadLine.
    destruct (pre +:+ logSentinel +:+ String newline "") eqn:E.
    { apply (f_equal String.length) in E. rewrite !length_app_str in E. cbn in E. lia. }
    rewrite <- E. clear E.
    assert (Htake : take_str size (pre +:+ logSentinel +:+ String newline "") = full).
    { unfold full. rewrite take_str_app_ge by lia. f_equal. rewrite Hpre.
      replace (size - (size - k))%nat with k by lia.
      rewrite <- (take_drop_str k logSentinel) at 1. rewrite <- app_str_assoc.
      rewrite <- (length_take_str_le k logSentinel) at 1 by lia. apply take_str_app. }
    rewrite Htake. unfold full at 1. rewrite index_byte_app by by apply index_byte_repeat.
    rewrite Hsen. cbn [fmap option_fmap option_map].
    destruct (Nat.ltb_spec (String.length (pre +:+ logSentinel +:+ String newline "")) size) as [Hlt|_].
    { rewrite !length_app_str, Hpre in Hlt. cbn in Hlt, Hk. lia. }
    unfold carriage_return. rewrite HasSuffix_byte.
    2: { unfold full. rewrite index_byte_app by by apply index_byte_repeat.
         by rewrite (index_byte_take _ k logSentinel). }
    do 2 f_equal. rewrite drop_str_app_ge by lia. rewrite Hpre.
    replace (size - (size - k))%nat with k by lia.
    rewrite <- (take_drop_str k logSentinel) at 1. rewrite <- app_str_assoc.
    rewrite <- (length_take_str_le k logSentinel) at 1 by lia. apply drop_str_app. }
  rewrite (consumeStream_step _ _ _ _ _ _ _ _ Hr1).
  erewrite consumeStream_step.
  2: { apply ReadLine_full_line; [by apply index_byte_drop| |rewrite length_drop_str; lia].
       apply HasSuffix_byte. by apply index_byte_drop. }
  cbn [consumeStream ReadLine mbind option_bind].
  eexists. split; [done|].
  rewrite (emitLine_no_suffix _ _ full), emitLine_no_suffix; [by repeat constructor| |].
  - apply HasSuffix_short. rewrite length_drop_str. lia.
  - unfold HasSuffix. rewrite Hfull. unfold full, pre. rewrite drop_repeat_char by lia.
    apply andb_false_r.
Qed.

Lemma consumeStream_hides_sentinel_witness :
  exists lines,
    consumeStream 3 (fun _ => 7) 0 "stdout" (Z.to_nat MaxLogLimit)
      (repeat_char "a" (Z.to_nat MaxLogLimit - 10) +:+ logSentinel +:+ String newline "") = Some lines /\
    Forall (fun l => IsSentinel l = false) lines.
Proof.
  apply consumeStream_hides_sentinel; [cbn; lia|unfold MaxLogLimit, Kilobyte; cbn [String.length logSentinel]; lia|lia].
Defined.
