(* ===== verification/Docker.v ===== *)
(** * Docker containers: creation, lifecycle calls and requests

    [pkg/exec/docker/container.go]: the methods of [ContainerFactory] and
    [Container] as programs over the calls to the Docker API, the list of
    usable IPs and the connection that carries the logs. *)
From S2P Require Export DockerLogs Runtimes.

(** ** Data *)
Definition runtimeProxyPort : string := "8080".
Definition pauseUnpauseRetries : nat := 10.

(** The arguments of [ContainerCreate], as far as they are not constant. *)
Record ContainerConfig := {
  cfg_Image : string;
  cfg_WorkingDir : string;
  cfg_Env : list string;
  cfg_TmpfsSizeMB : Z;
  cfg_CapDrop : list string;
  cfg_LogType : string;
  cfg_SecurityOpt : list string;
  cfg_ReadonlyRootfs : bool;
  cfg_Runtime : string;
  cfg_CPUShares : Z;
  cfg_Memory : Z;
  cfg_MemorySwap : Z;
  cfg_PidsLimit : Z;
  cfg_DNS : list string;
  cfg_Network : string;
  cfg_IPv4Address : string;
  cfg_Name : string
}.

(** [docker.Container]; the channels of the pause handshake are in [DockerPause]. *)
Record DockerContainer := {
  d_id : string;
  d_ip : string;
  d_initURL : string;
  d_runURL : string;
  d_attached : bool
}.

(** [docker.ContainerFactory] without the list of IPs, which is shared state. *)
Record ContainerFactory := {
  f_RuntimeManifests : RuntimeManifests;
  f_APIHost : string;
  f_DNSServers : list string;
  f_Network : string
}.

Inductive docker_op : Type -> Type :=
  (* code under ipMux *)
| LockedAcquireIP : docker_op (result string)
| LockedReleaseIP (ip : string) : docker_op unit
  (* the Docker API; an error of pause and unpause is its text *)
| ApiCreate (cfg : ContainerConfig) : docker_op (result string)
| ApiAttach (id : string) : docker_op (option go_error)
| ApiStart (id : string) : docker_op (option go_error)
| ApiInspect (id : string) : docker_op (result (option ContainerState))
| ApiPause (id : string) : docker_op (option string)
| ApiUnpause (id : string) : docker_op (option string)
| ApiRemove (id : string) : docker_op (option go_error)
  (* polling a new container: one request, and waiting for the ticker or the end of the context *)
| PollRequest (url : string) : docker_op (option go_error)
| PollWait : docker_op (option go_error)
  (* the connection that carries the logs *)
| CloseAttach (id : string) : docker_op (option go_error)
| WaitLogs (id : string) : docker_op (option go_error).

Notation dockerM := (proc docker_op).

(** ** The list of usable IPs *)
Definition acquireIP (usable : list string) : result string * list string :=
  match usable with
  | [] => (Err (ErrText "there are no IPs left to acquire"), usable)
  | ip :: rest => (Ok ip, rest)
  end.

Definition releaseIP (ip : string) (usable : list string) : list string := usable ++ [ip].

(** ** Lifecycle calls *)
Definition State (c : DockerContainer) : dockerM (result ContainerState) :=
  resp ← trigger (ApiInspect (d_id c));
  match resp with
  | Err err => Ret (Err (Errorf "failed to inspect container to detect OOM: %w" [err]))
  | Ok None => Ret (Ok ContainerState_zero)
  | Ok (Some state) => Ret (Ok state)
  end.

(** The loops of [Pause] and [Unpause]; [left] is the number of retries left. *)
Fixpoint retryWhile (call : dockerM (option string)) (retriable giveUpText failText : string)
    (left : nat) : dockerM (option go_error) :=
  err ← call;
  match err with
  | None => Ret None
  | Some text =>
      if Contains text retriable then
        match left with
        | O => Ret (Some (Errorf giveUpText [ErrText text]))
        | S left' => retryWhile call retriable giveUpText failText left'
        end
      else Ret (Some (Errorf failText [ErrText text]))
  end.

Definition Pause (c : DockerContainer) : dockerM (option go_error) :=
  retryWhile (trigger (ApiPause (d_id c))) "is already paused"
    "failed to pause container after retrying %d times: %w" "failed to pause container: %w"
    pauseUnpauseRetries.

Definition Unpause (c : DockerContainer) : dockerM (option go_error) :=
  retryWhile (trigger (ApiUnpause (d_id c))) "not paused"
    "failed to unpause container after retrying %d times: %w" "failed to unpause container: %w"
    pauseUnpauseRetries.

Definition Remove (c : DockerContainer) : dockerM (option go_error) :=
  rm ← trigger (ApiRemove (d_id c));
  match rm with
  | Some err => Ret (Some (Errorf "failed to remove container: %w" [err]))
  | None =>
      _ ← trigger (LockedReleaseIP (d_ip c));
      if d_attached c then
        cl ← trigger (CloseAttach (d_id c));
        match cl with
        | Some err => Ret (Some (Errorf "failed to close attach connection: %w" [err]))
        | None =>
            w ← trigger (WaitLogs (d_id c));
            match w with
            | Some err =>
                if errors_Is err "net.ErrClosed" then Ret None
                else Ret (Some (Errorf "failed to wait for log consumption to finish: %w" [err]))
            | None => Ret None
            end
        end
      else Ret None
  end.

(** ** Waiting for a new container to respond *)

(** The context of the poll ends after 30 s, the ticker fires every 50 ms, and a try
    made after the end of the context fails with the context's error: the first try,
    at most 600 ticks, and one try more. *)
Definition pollTries : nat := 602.

Fixpoint pollUntilResponding (left : nat) (url : string) (lastErr : option go_error) :
    dockerM (option go_error) :=
  match left with
  | O => Ret (Some (ErrText "model: the context never ended"))
  | S left' =>
      r ← trigger (PollRequest url);
      match r with
      | None => Ret None
      | Some err =>
          if isDeadlineExceeded err || isCanceled err then
            Ret (Some (match lastErr with
                       | None => Errorf "failed to wait for container to respond on first try: %w" [err]
                       | Some last => Errorf "failed to wait for container to respond in %d tries: last error: %w, abort error: %w" [last; err]
                       end))
          else
            let lastErr := Errorf "failed to poll at %s: %w" [err] in
            w ← trigger PollWait;
            match w with
            | None => pollUntilResponding left' url (Some lastErr)
            | Some ctxErr =>
                Ret (Some (Errorf "failed to wait for container to respond in %d tries: last error: %w, abort error: %w" [lastErr; ctxErr]))
            end
      end
  end.

(** ** Creating containers *)
Section create.
Context (dockerunits_MB : Z) (factory : ContainerFactory).

(** [net.JoinHostPort]. *)
Definition JoinHostPort (host port : string) : string :=
  if Contains host ":" then "[" +:+ host +:+ "]:" +:+ port else host +:+ ":" +:+ port.

Definition containerURL (ip path : string) : string :=
  "http://" +:+ JoinHostPort ip runtimeProxyPort +:+ path.

Definition containerConfig (manifest : RuntimeManifest) (memory : Z) (ipAddress name : string) :
    ContainerConfig :=
  {| cfg_Image := Image manifest;
     cfg_WorkingDir := "/tmp";
     cfg_Env := ["HOME=/tmp"; "__OW_API_HOST=" +:+ f_APIHost factory];
     cfg_TmpfsSizeMB := memory / Megabyte;
     cfg_CapDrop := ["ALL"];
     cfg_LogType := "none";
     cfg_SecurityOpt := ["no-new-privileges"];
     cfg_ReadonlyRootfs := true;
     cfg_Runtime := "runsc";
     cfg_CPUShares := i64 (memory / Megabyte);
     cfg_Memory := i64 (i64 (memory / Megabyte) * dockerunits_MB);
     cfg_MemorySwap := i64 (i64 (memory / Megabyte) * dockerunits_MB);
     cfg_PidsLimit := 1024;
     cfg_DNS := f_DNSServers factory;
     cfg_Network := f_Network factory;
     cfg_IPv4Address := ipAddress;
     cfg_Name := name |}.

Definition newContainer (id ipAddress : string) : DockerContainer :=
  {| d_id := id; d_ip := ipAddress;
     d_initURL := containerURL ipAddress "/init";
     d_runURL := containerURL ipAddress "/run";
     d_attached := false |}.

Definition setAttached (c : DockerContainer) : DockerContainer :=
  {| d_id := d_id c; d_ip := d_ip c; d_initURL := d_initURL c; d_runURL := d_runURL c;
     d_attached := true |}.

Definition failCreation (c : DockerContainer) (err : go_error) : dockerM (result DockerContainer) :=
  e ← CleanupContainer (State c) (Remove c) err;
  Ret (Err e).

(** From the created container to the one that responds. *)
Definition startContainer (c : DockerContainer) : dockerM (result DockerContainer) :=
  att ← trigger (ApiAttach (d_id c));
  match att with
  | Some err => failCreation c (Errorf "failed to attach to containers streams: %w" [err])
  | None =>
      let c := setAttached c in
      st ← trigger (ApiStart (d_id c));
      match st with
      | Some err => failCreation c (Errorf "failed to start container: %w" [err])
      | None =>
          p ← pollUntilResponding pollTries (containerURL (d_ip c) "") None;
          match p with
          | Some err => failCreation c (Errorf "failed poll for a valid container response: %w" [err])
          | None => Ret (Ok c)
          end
      end
  end.

Definition CreateContainer (kind : string) (memory : Z) (name : string) :
    dockerM (result DockerContainer) :=
  match f_RuntimeManifests factory !! kind with
  | None => Ret (Err (Errorf "failed to get runtime manifest for kind %q to create container" []))
  | Some manifest =>
      acq ← trigger LockedAcquireIP;
      match acq with
      | Err err => Ret (Err (Errorf "failed to acquire IP address: %w" [err]))
      | Ok ipAddress =>
          resp ← trigger (ApiCreate (containerConfig manifest memory ipAddress name));
          match resp with
          | Err err =>
              _ ← trigger (LockedReleaseIP ipAddress);
              Ret (Err (Errorf "failed to create container: %w" [err]))
          | Ok id => startContainer (newContainer id ipAddress)
          end
      end
  end.
End create.
