(* ===== verification/DockerSafe.v ===== *)
(** * Docker containers: ownership of IPs, retries, memory limits *)
From S2P Require Export Docker.

(** ** What the operations do to IPs and containers

    [existing] is Docker's view: the containers that exist with the IP each was
    given; [seen] are the ids ever handed out. *)
Record dstate := mkDstate {
  usableIPs : list string;
  existing : list (string * string);
  seen : list string
}.

Definition docker_exec (X : Type) (op : docker_op X) : dstate -> X -> dstate -> Prop :=
  match op in docker_op X return dstate -> X -> dstate -> Prop with
  | LockedAcquireIP => fun s r s' =>
      r = (acquireIP (usableIPs s)).1 /\
      s' = mkDstate (acquireIP (usableIPs s)).2 (existing s) (seen s)
  | LockedReleaseIP ip => fun s _ s' =>
      s' = mkDstate (releaseIP ip (usableIPs s)) (existing s) (seen s)
  | ApiCreate cfg => fun s r s' =>
      match r with
      | Err _ => s' = s
      | Ok id =>
          id ∉ seen s /\
          s' = mkDstate (usableIPs s) ((id, cfg_IPv4Address cfg) :: existing s) (id :: seen s)
      end
  | ApiRemove id => fun s r s' =>
      match r with
      | Some _ => s' = s
      | None => exists l1 ip l2, existing s = l1 ++ (id, ip) :: l2 /\
                  s' = mkDstate (usableIPs s) (l1 ++ l2) (seen s)
      end
  | ApiAttach _ => fun s _ s' => s' = s
  | ApiStart _ => fun s _ s' => s' = s
  | ApiInspect _ => fun s _ s' => s' = s
  | ApiPause _ => fun s _ s' => s' = s
  | ApiUnpause _ => fun s _ s' => s' = s
  | PollRequest _ => fun s _ s' => s' = s
  | PollWait => fun s _ s' => s' = s
  | CloseAttach _ => fun s _ s' => s' = s
  | WaitLogs _ => fun s _ s' => s' = s
  end.

(** ** Goroutines: create a container and call its methods in any order *)
Inductive lifecycle_call := CallDState | CallDPause | CallDUnpause | CallDRemove.

Definition lifecycle (c : DockerContainer) (what : lifecycle_call) : dockerM unit :=
  match what with
  | CallDState => _ ← State c; Ret tt
  | CallDPause => _ ← Pause c; Ret tt
  | CallDUnpause => _ ← Unpause c; Ret tt
  | CallDRemove => _ ← Remove c; Ret tt
  end.

Inductive docker_client (mb : Z) (f : ContainerFactory) : dockerM unit -> Prop :=
| docker_client_life kind memory name calls :
    docker_client mb f
      (r ← CreateContainer mb f kind memory name;
       match r with
       | Ok c => for_each calls (lifecycle c)
       | Err _ => Ret tt
       end).

(** ** Ghost tokens: the IPs a goroutine holds and the containers it knows *)
Record dtoken := mkDtoken { dt_ips : list string; dt_known : list (string * string) }.
Definition dtoken0 : dtoken := mkDtoken [] [].

Definition docker_wp (X : Type) (op : docker_op X) : dtoken -> (X -> dtoken -> Prop) -> Prop :=
  match op in docker_op X return dtoken -> (X -> dtoken -> Prop) -> Prop with
  | LockedAcquireIP => fun t Q =>
      (forall e, Q (Err e) t) /\ forall ip, Q (Ok ip) (mkDtoken (ip :: dt_ips t) (dt_known t))
  | LockedReleaseIP ip => fun t Q =>
      exists rest, dt_ips t = ip :: rest /\ Q tt (mkDtoken rest (dt_known t))
  | ApiCreate cfg => fun t Q =>
      exists rest, dt_ips t = cfg_IPv4Address cfg :: rest /\ (forall e, Q (Err e) t) /\
        forall id, Q (Ok id) (mkDtoken rest ((id, cfg_IPv4Address cfg) :: dt_known t))
  | ApiRemove id => fun t Q =>
      exists ip, (id, ip) ∈ dt_known t /\ (forall e, Q (Some e) t) /\
        Q None (mkDtoken (ip :: dt_ips t) (dt_known t))
  | ApiAttach _ => fun t Q => forall r, Q r t
  | ApiStart _ => fun t Q => forall r, Q r t
  | ApiInspect _ => fun t Q => forall r, Q r t
  | ApiPause _ => fun t Q => forall r, Q r t
  | ApiUnpause _ => fun t Q => forall r, Q r t
  | PollRequest _ => fun t Q => forall r, Q r t
  | PollWait => fun t Q => forall r, Q r t
  | CloseAttach _ => fun t Q => forall r, Q r t
  | WaitLogs _ => fun t Q => forall r, Q r t
  end.

Lemma docker_wp_mono X (op : docker_op X) t (Q Q' : X -> dtoken -> Prop) :
  (forall x t', Q x t' -> Q' x t') -> docker_wp X op t Q -> docker_wp X op t Q'.
Proof. intros HQ. destruct op; cbn; naive_solver. Qed.

Notation dwp := (wp docker_wp).

Lemma dwp_bind {A B} (p : dockerM A) (f : A -> dockerM B) t Q :
  dwp p t (fun a t' => dwp (f a) t' Q) -> dwp (proc_bind p f) t Q.
Proof. apply wp_bind, docker_wp_mono. Qed.

Lemma dwp_mono {A} (p : dockerM A) t (Q Q' : A -> dtoken -> Prop) :
  (forall a t', Q a t' -> Q' a t') -> dwp p t Q -> dwp p t Q'.
Proof. apply wp_mono, docker_wp_mono. Qed.

(** ** Contracts *)
Lemma dwp_State c t Q : (forall r, Q r t) -> dwp (State c) t Q.
Proof. intros HQ. unfold State. cbn. intros [[|]|]; apply HQ. Qed.

Lemma dwp_retryWhile call retriable give fail left t Q :
  (forall (K : option string -> dtoken -> Prop), (forall r, K r t) -> dwp call t K) ->
  (forall r, Q r t) -> dwp (retryWhile call retriable give fail left) t Q.
Proof.
  intros Hcall HQ. induction left as [|left IH]; cbn; apply dwp_bind, Hcall; intros [text|];
    cbn; try destruct (Contains _ _); cbn; auto.
Qed.

Lemma dwp_Pause c t Q : (forall r, Q r t) -> dwp (Pause c) t Q.
Proof. apply dwp_retryWhile. by cbn. Qed.
Lemma dwp_Unpause c t Q : (forall r, Q r t) -> dwp (Unpause c) t Q.
Proof. apply dwp_retryWhile. by cbn. Qed.

Lemma dwp_Remove c t Q :
  (d_id c, d_ip c) ∈ dt_known t ->
  (forall r, Q r t) -> dwp (Remove c) t Q.
Proof.
  intros Hc HQ. unfold Remove. cbn. exists (d_ip c). split_and!; [done|intros e; apply HQ|].
  exists (dt_ips t). split; [done|]. destruct t as [ips known]. cbn in *.
  destruct (d_attached c); [|apply HQ]. cbn. intros [e|]; [apply HQ|]. cbn.
  intros [e|]; [|apply HQ]. destruct (errors_Is e _); apply HQ.
Qed.

Lemma dwp_poll left url last t Q :
  (forall r, Q r t) -> dwp (pollUntilResponding left url last) t Q.
Proof.
  intros HQ. revert last. induction left as [|left IH]; intros last; cbn; [apply HQ|].
  intros [err|]; [|apply HQ]. destruct (_ || _); [apply HQ|]. cbn. intros [e|]; [apply HQ|].
  apply IH.
Qed.

#[local] Arguments failCreation : simpl never.
#[local] Arguments startContainer : simpl never.
#[local] Arguments pollUntilResponding : simpl never.
#[local] Arguments Remove : simpl never.
#[local] Arguments State : simpl never.
#[local] Arguments Pause : simpl never.
#[local] Arguments Unpause : simpl never.

(** Tokens that hold no IP and know the container [c]. *)
Definition knows (c : DockerContainer) (t : dtoken) : Prop :=
  dt_ips t = [] /\ (d_id c, d_ip c) ∈ dt_known t.

Lemma dwp_failCreation c err t Q :
  (d_id c, d_ip c) ∈ dt_known t -> (forall e, Q (Err e) t) -> dwp (failCreation c err) t Q.
Proof.
  intros Hc HQ. unfold failCreation, CleanupContainer. apply dwp_bind, dwp_bind, dwp_State.
  intros st. apply dwp_bind, dwp_Remove; [done|]. intros [e|]; apply HQ.
Qed.

Lemma dwp_startContainer c t Q :
  (d_id c, d_ip c) ∈ dt_known t -> (forall e, Q (Err e) t) ->
  (forall c', d_id c' = d_id c -> d_ip c' = d_ip c -> Q (Ok c') t) ->
  dwp (startContainer c) t Q.
Proof.
  intros Hc He HQ. unfold startContainer. cbn.
  intros [e|]; [by apply dwp_failCreation|]. cbn.
  intros [e|]; [by apply dwp_failCreation|].
  apply dwp_bind, dwp_poll. intros [e|]; [by apply dwp_failCreation|]. by apply HQ.
Qed.

Lemma dwp_CreateContainer mb f kind memory name t Q :
  (forall e known, Q (Err e) (mkDtoken (dt_ips t) known)) ->
  (forall c known, (d_id c, d_ip c) ∈ known -> Q (Ok c) (mkDtoken (dt_ips t) known)) ->
  dwp (CreateContainer mb f kind memory name) t Q.
Proof.
  intros He HQ. destruct t as [ips known]. cbn in *. unfold CreateContainer.
  destruct (_ !! kind) as [manifest|]; [|apply He]. cbn. split; [intros e; apply He|].
  intros ip. eexists. split_and!; [done| |].
  - intros e. cbn. eexists. split; [done|]. apply He.
  - intros id. apply dwp_startContainer; cbn; [set_solver|intros e; apply He|].
    intros c' Hid Hip. apply HQ. rewrite Hid, Hip. set_solver.
Qed.

Lemma dwp_client mb f p :
  docker_client mb f p -> dwp p dtoken0 (fun _ t => dt_ips t = []).
Proof.
  intros [kind memory name calls]. apply dwp_bind, dwp_CreateContainer; [done|].
  intros c known Hc. cbn in Hc.
  apply (wp_for_each _ docker_wp_mono calls (lifecycle c) (fun _ => knows c)); [by split| |by intros ? []].
  intros what l' t [Hips Hk].
  destruct what; cbn [lifecycle]; apply dwp_bind;
    [apply dwp_State|apply dwp_Pause|apply dwp_Unpause|apply dwp_Remove; [done|]];
    intros r; by split.
Qed.

(** ** The invariant *)
Section ips.
Context (initial : list string).

Record docker_inv (s : dstate) (ts : list dtoken) : Prop := {
  di_perm : usableIPs s ++ concat (dt_ips <$> ts) ++ (existing s).*2 ≡ₚ initial;
  di_seen : forall h, h ∈ existing s -> h.1 ∈ seen s;
  di_known : forall t h, t ∈ ts -> h ∈ dt_known t ->
    h.1 ∈ seen s /\ forall ip, (h.1, ip) ∈ existing s -> ip = h.2
}.

Lemma ips_middle {T} (f : T -> list string) T1 t T2 :
  concat (f <$> T1 ++ t :: T2) ≡ₚ f t ++ concat (f <$> T1 ++ T2).
Proof.
  rewrite !fmap_app, fmap_cons, !concat_app. cbn. rewrite !(assoc (++)).
  apply Permutation_app_tail, Permutation_app_comm.
Qed.

Lemma docker_op_sound X (op : docker_op X) s x s' T1 t T2 Q :
  docker_exec X op s x s' -> docker_inv s (T1 ++ t :: T2) -> docker_wp X op t Q ->
  exists t', Q x t' /\ docker_inv s' (T1 ++ t' :: T2).
Proof.
  intros He Hi Hwp.
  assert (Hsame : (forall y, x = y -> Q y t) -> s' = s ->
    exists t', Q x t' /\ docker_inv s' (T1 ++ t' :: T2)) by (intros HQ ->; exists t; auto).
  destruct Hi as [Hp Hs Hk]. rewrite ips_middle in Hp.
  (* only the numbers of IPs change *)
  assert (Hips : forall ips' us', us' ++ ips' ≡ₚ usableIPs s ++ dt_ips t ->
    docker_inv (mkDstate us' (existing s) (seen s)) (T1 ++ mkDtoken ips' (dt_known t) :: T2)).
  { intros ips' us' Heq. split; cbn; [|done|].
    - rewrite ips_middle. cbn. rewrite <- Hp, <- !(assoc (++)), (assoc (++) us'), Heq.
      by rewrite <- !(assoc (++)).
    - intros u h [Hu|[->|Hu]%elem_of_cons]%elem_of_app Hh.
      + apply (Hk u); [set_solver|done].
      + apply (Hk t); [set_solver|done].
      + apply (Hk u); [set_solver|done]. }
  destruct op; cbn in He, Hwp; try (by apply Hsame; [intros ? <-; apply Hwp|]).
  - destruct He as [-> ->], Hwp as [HE HO]. destruct (usableIPs s) as [|ip us] eqn:Eu; cbn.
    + exists t. split; [done|]. destruct t as [ips known]. apply Hips. done.
    + eexists. split; [apply HO|]. apply Hips.
      by rewrite <- (Permutation_middle us (dt_ips t) ip).
  - destruct Hwp as (rest & Hr & HQ). subst. eexists. split; [by destruct x|]. apply Hips.
    unfold releaseIP. rewrite Hr, <- (assoc (++)). done.
  - destruct Hwp as (rest & Hr & HE & HO). destruct x as [id|e]; [|apply Hsame; [by intros ? <-|done]].
    destruct He as [Hfresh ->]. eexists. split; [apply HO|]. split; cbn.
    + rewrite ips_middle. cbn. rewrite <- Hp, Hr. cbn. solve_Permutation.
    + intros h [->|Hh]%elem_of_cons; [set_solver|]. apply list_elem_of_further. by apply Hs.
    + assert (Hold : forall u h, u ∈ T1 ++ t :: T2 -> h ∈ dt_known u ->
        h.1 ∈ id :: seen s /\
        forall ip, (h.1, ip) ∈ (id, cfg_IPv4Address cfg) :: existing s -> ip = h.2).
      { intros u h Hu Hh. destruct (Hk u h Hu Hh) as [Hse Hag]. split; [set_solver|].
        intros ip [[= Hid _]|Hip]%elem_of_cons; [|auto]. exfalso. apply Hfresh. by rewrite <- Hid. }
      intros u h [Hu|[->|Hu]%elem_of_cons]%elem_of_app Hh.
      * apply (Hold u); [set_solver|done].
      * cbn in Hh. apply elem_of_cons in Hh as [->|Hh]; [|apply (Hold t); [set_solver|done]].
        cbn. split; [set_solver|]. intros ip [[= ->]|Hip]%elem_of_cons; [done|].
        exfalso. apply Hfresh. by apply (Hs _ Hip).
      * apply (Hold u); [set_solver|done].
  - destruct Hwp as (ip & Hin & HE & HN). destruct x as [e|]; [apply Hsame; [by intros ? <-|done]|].
    destruct He as (l1 & ip' & l2 & Hex & ->).
    assert (ip' = ip) as ->.
    { destruct (Hk t (id, ip)) as [_ Hag]; [set_solver|done|]. apply Hag. rewrite Hex. set_solver. }
    eexists. split; [done|]. split; cbn.
    + rewrite ips_middle. cbn. rewrite <- Hp, Hex, !fmap_app, fmap_cons. cbn. solve_Permutation.
    + intros h Hh. apply Hs. rewrite Hex. set_solver.
    + assert (Hold : forall u h, u ∈ T1 ++ t :: T2 -> h ∈ dt_known u ->
        h.1 ∈ seen s /\ forall ip, (h.1, ip) ∈ l1 ++ l2 -> ip = h.2).
      { intros u h Hu Hh. destruct (Hk u h Hu Hh) as [Hse Hag]. split; [done|].
        intros ip0 Hip0. apply Hag. rewrite Hex. set_solver. }
      intros u h [Hu|[->|Hu]%elem_of_cons]%elem_of_app Hh.
      * apply (Hold u); [set_solver|done].
      * apply (Hold t); [set_solver|done].
      * apply (Hold u); [set_solver|done].
Qed.

Lemma docker_start s ts : docker_inv s ts -> docker_inv s (ts ++ [dtoken0]).
Proof.
  intros [Hp Hs Hk]. split; [|done|].
  - rewrite fmap_app, concat_app. cbn. by rewrite !app_nil_r.
  - intros t h [Ht|Ht%list_elem_of_singleton]%elem_of_app Hh; [by apply (Hk t)|].
    subst. by apply elem_of_nil in Hh.
Qed.

Definition docker_reachable (mb : Z) (f : ContainerFactory) : dstate * list (dockerM unit) -> Prop :=
  reachable docker_exec (docker_client mb f) (mkDstate initial [] []).

Lemma docker_reachable_inv mb f c :
  docker_reachable mb f c ->
  exists ts, threads_ok docker_wp (fun t => dt_ips t = []) c.2 ts /\ docker_inv c.1 ts.
Proof.
  apply (wp_adequate docker_wp docker_exec (docker_client mb f) dtoken0).
  - intros X e s x s' T1 t T2 Q. apply docker_op_sound.
  - apply docker_start.
  - apply dwp_client.
  - split; cbn; [by rewrite app_nil_r|by intros ? ?%elem_of_nil|by intros ? ? ?%elem_of_nil].
Qed.

(** C11: whatever containers are created, fail to be created, or are removed
    concurrently, every IP of the factory is either usable, held by a call in
    progress, or the address of an existing container, and only one of these;
    so no two containers share an address, and no usable address belongs to a
    container.  Once all calls have ended, the addresses that are not usable
    are exactly those of the containers that still exist. *)
Theorem docker_ips_conserved mb f s ps :
  NoDup initial -> docker_reachable mb f (s, ps) ->
  NoDup (existing s).*2 /\ (forall ip, ip ∈ usableIPs s -> ip ∉ (existing s).*2) /\
  (exists held, usableIPs s ++ held ++ (existing s).*2 ≡ₚ initial) /\
  (Forall (fun p => p = Ret tt) ps -> usableIPs s ++ (existing s).*2 ≡ₚ initial).
Proof.
  intros Hnd (ts & Hok & [Hp _ _])%docker_reachable_inv. cbn in *.
  rewrite <- Hp in Hnd. apply NoDup_app in Hnd as (_ & Hdis & Hnd).
  apply NoDup_app in Hnd as (_ & _ & Hnd). split_and!; [done| |by eexists|].
  - intros ip Hu He. apply (Hdis ip Hu). apply elem_of_app. by right.
  - intros Hret. rewrite <- Hp. assert (concat (dt_ips <$> ts) = []) as ->; [|done].
    clear Hp Hdis Hnd. unfold threads_ok in Hok. induction Hok as [|p t ps ts Ht _ IH]; [done|].
    apply Forall_cons in Hret as [-> Hret]. cbn. rewrite IH by done. by rewrite Ht.
Qed.
End ips.

(** ** Pausing with retries *)

(** Sequential answers of the Docker API to one kind of call: the [n]-th answer is [answers n]. *)
Section retries.
Context (answers : nat -> option string) (retriable : string).

Definition answered (X : Type) (op : docker_op X) (n : nat) : option (X * nat) :=
  match op in docker_op X return option (X * nat) with
  | ApiPause _ => Some (answers n, S n)
  | ApiUnpause _ => Some (answers n, S n)
  | _ => None
  end.

Fixpoint answering {A} (p : dockerM A) (n : nat) : option (A * nat) :=
  match p with
  | Ret a => Some (a, n)
  | Vis op k =>
      match answered _ op n with
      | Some (x, n') => answering (k x) n'
      | None => None
      end
  end.

(** The call that decides: the first one that is not to be retried. *)
Definition decisive (n : nat) : Prop :=
  match answers n with None => True | Some text => Contains text retriable = false end.

Ltac finish_retry E :=
  split_and!;
    first [done|lia|by rewrite E|by split; intros; rewrite E in *|right; lia
          |left; unfold decisive; by rewrite E].

Lemma retryWhile_spec (call : dockerM (option string)) give fail left n :
  (forall B (f : option string -> dockerM B) m,
     answering (proc_bind call f) m = answering (f (answers m)) (S m)) ->
  exists m r,
    answering (retryWhile call retriable give fail left) n = Some (r, S m) /\
    (n <= m <= n + left)%nat /\
    (forall i, (n <= i < m)%nat -> ~ decisive i) /\
    (r = None <-> answers m = None) /\ (decisive m \/ m = (n + left)%nat).
Proof.
  intros Hcall. revert n. induction left as [|left IH]; intros n; cbn [retryWhile];
    unfold mbind, proc_MBind; rewrite Hcall; destruct (answers n) as [text|] eqn:E.
  2, 4: exists n, None; cbn; finish_retry E.
  - destruct (Contains text retriable) eqn:Ec; cbn.
    + exists n, (Some (Errorf give [ErrText text])). finish_retry E.
    + exists n, (Some (Errorf fail [ErrText text])). finish_retry E.
  - destruct (Contains text retriable) eqn:Ec; cbn.
    + destruct (IH (S n)) as (m & r & -> & Hm & Hno & Hr & Hd). exists m, r.
      split; [done|]. split; [lia|]. split; [|split; [done|destruct Hd; [by left|right; lia]]].
      intros i Hi. destruct (decide (i = n)) as [->|]; [|apply Hno; lia].
      unfold decisive. by rewrite E, Ec.
    + exists n, (Some (Errorf fail [ErrText text])). finish_retry E.
Qed.
End retries.

(** [Pause] and [Unpause] call Docker at least once and at most eleven
    times, stop at the first answer that is not the known race between pausing
    and unpausing, and report success exactly if that last call succeeded. *)
Theorem pause_retries_bounded answers c :
  (exists m r, answering answers (Pause c) 0 = Some (r, S m) /\ (m <= 10)%nat /\
     (forall i, (i < m)%nat -> ~ decisive answers "is already paused" i) /\
     (r = None <-> answers m = None) /\ (decisive answers "is already paused" m \/ m = 10%nat)) /\
  (exists m r, answering answers (Unpause c) 0 = Some (r, S m) /\ (m <= 10)%nat /\
     (forall i, (i < m)%nat -> ~ decisive answers "not paused" i) /\
     (r = None <-> answers m = None) /\ (decisive answers "not paused" m \/ m = 10%nat)).
Proof.
  split.
  - destruct (retryWhile_spec answers "is already paused" (trigger (ApiPause (d_id c)))
      "failed to pause container after retrying %d times: %w" "failed to pause container: %w"
      pauseUnpauseRetries 0) as (m & r & H1 & H2 & H3 & H4); [done|].
    unfold pauseUnpauseRetries in *. exists m, r. split; [done|]. split; [lia|].
    split; [intros i Hi; apply H3; lia|]. destruct H4 as [? [?|?]]; auto.
  - destruct (retryWhile_spec answers "not paused" (trigger (ApiUnpause (d_id c)))
      "failed to unpause container after retrying %d times: %w" "failed to unpause container: %w"
      pauseUnpauseRetries 0) as (m & r & H1 & H2 & H3 & H4); [done|].
    unfold pauseUnpauseRetries in *. exists m, r. split; [done|]. split; [lia|].
    split; [intros i Hi; apply H3; lia|]. destruct H4 as [? [?|?]]; auto.
Qed.

(** ** Memory limits

    [units.Megabyte] is 1024 * 1024, as is the [m] of the [size] option of a
    tmpfs; [dockerunits.MB] of [docker/go-units] is a million. *)
Section memory.
Context (dockerunits_MB : Z) (decimal : dockerunits_MB = 1000 * 1000).

(** A container gets less memory than the memory limit of the function it
    runs, and less than the size of the tmpfs mounted in it, although the
    comments say that both are [--memory 256m]. *)
Theorem container_memory_below_limit f manifest memory ip name :
  Megabyte <= memory < 2 ^ 50 ->
  let cfg := containerConfig dockerunits_MB f manifest memory ip name in
  cfg_Memory cfg = memory / Megabyte * 1000000 /\
  cfg_Memory cfg < memory /\ cfg_Memory cfg < cfg_TmpfsSizeMB cfg * Megabyte.
Proof using decimal.
  intros Hm. unfold Megabyte in *. cbn. rewrite decimal.
  assert (Hq : 1 <= memory / (1024 * 1024) <= 2 ^ 30).
  { split; [apply Z.div_le_lower_bound; lia|].
    apply Z.div_le_upper_bound; lia. }
  pose proof (Z.mul_div_le memory (1024 * 1024)). unfold Megabyte in *.
  rewrite (i64_small (memory / (1024 * 1024))) by lia. rewrite i64_small by lia. lia.
Qed.
End memory.

(** ** Concrete runs *)

(** Docker answering every call with success. *)
Definition docker_handle (X : Type) (op : docker_op X) : dstate -> option (X * dstate) :=
  match op in docker_op X return dstate -> option (X * dstate) with
  | LockedAcquireIP => fun s =>
      Some ((acquireIP (usableIPs s)).1, mkDstate (acquireIP (usableIPs s)).2 (existing s) (seen s))
  | LockedReleaseIP ip => fun s =>
      Some (tt, mkDstate (releaseIP ip (usableIPs s)) (existing s) (seen s))
  | ApiCreate cfg => fun s =>
      let id := fmt_d (Z.of_nat (List.length (seen s))) in
      if decide (id ∈ seen s) then None
      else Some (Ok id, mkDstate (usableIPs s) ((id, cfg_IPv4Address cfg) :: existing s) (id :: seen s))
  | ApiRemove id => fun s =>
      match existing s with
      | (id', ip) :: rest =>
          if decide (id' = id) then Some (None, mkDstate (usableIPs s) rest (seen s)) else None
      | [] => Some (Some (ErrText "No such container"), s)
      end
  | ApiInspect _ => fun s => Some (Ok None, s)
  | ApiAttach _ => fun s => Some (None, s)
  | ApiStart _ => fun s => Some (None, s)
  | ApiPause _ => fun s => Some (None, s)
  | ApiUnpause _ => fun s => Some (None, s)
  | PollRequest _ => fun s => Some (None, s)
  | PollWait => fun s => Some (None, s)
  | CloseAttach _ => fun s => Some (None, s)
  | WaitLogs _ => fun s => Some (None, s)
  end.

Lemma docker_handle_sound X (op : docker_op X) s x s' :
  docker_handle X op s = Some (x, s') -> docker_exec X op s x s'.
Proof.
  destruct op; cbn; intros Hh; repeat case_match; simplify_eq; try done.
  match goal with He : existing s = (?i, ?ip) :: ?rest |- _ => by exists [], ip, rest end.
Qed.

Definition test_factory : ContainerFactory :=
  {| f_RuntimeManifests := {[ "nodejs:14" := {| rm_Kind := "nodejs:14"; Default := true;
       Image := "openwhisk/action-nodejs-v14:latest"; Stemcells := [] |} ]};
     f_APIHost := "https://example.com"; f_DNSServers := []; f_Network := "functions" |}.

Definition create_and (calls : list lifecycle_call) : dockerM unit :=
  r ← CreateContainer 1000000 test_factory "nodejs:14" (256 * Megabyte) "wsk_1_guest_hello";
  match r with
  | Ok c => for_each calls (lifecycle c)
  | Err _ => Ret tt
  end.

Definition two_ips : list string := ["172.18.0.2"; "172.18.0.3"].

Definition nodejs_image : RuntimeManifest :=
  {| rm_Kind := "nodejs:14"; Default := true; Image := "openwhisk/action-nodejs-v14:latest";
     Stemcells := [] |}.

(** One container is created, paused and removed twice, then another is created. *)
Lemma docker_ips_conserved_witness :
  NoDup [("1", "172.18.0.3")].*2 /\
  (forall ip, ip ∈ ["172.18.0.2"] -> ip ∉ [("1", "172.18.0.3")].*2).
Proof.
  assert (Hr : docker_reachable two_ips 1000000 test_factory
    (mkDstate ["172.18.0.2"] [("1", "172.18.0.3")] ["1"; "0"], [Ret tt; Ret tt])).
  { unfold docker_reachable.
    apply (attempt_reachable docker_handle docker_exec docker_handle_sound _ _
             (mkDstate ["172.18.0.3"; "172.18.0.2"] [] ["0"]) [Ret tt] (create_and [CallDUnpause]));
      [|vm_compute; reflexivity].
    eapply reachable_step; [|apply (step_start _ _ _ [Ret tt]); constructor].
    apply (attempt_reachable docker_handle docker_exec docker_handle_sound _ _
             (mkDstate two_ips [] []) [] (create_and [CallDPause; CallDRemove; CallDRemove]));
      [|vm_compute; reflexivity].
    eapply reachable_step; [apply rtc_refl|]. apply (step_start _ _ _ []); constructor. }
  destruct (docker_ips_conserved two_ips 1000000 test_factory _ _ ltac:(unfold two_ips; repeat constructor; set_solver) Hr)
    as (H1 & H2 & _). split; [exact H1|exact H2].
Defined.

Lemma container_memory_below_limit_witness :
  let cfg := containerConfig 1000000 test_factory nodejs_image (256 * Megabyte) "172.18.0.2" "c" in
  cfg_Memory cfg = 256 * Megabyte / Megabyte * 1000000 /\
  cfg_Memory cfg < 256 * Megabyte /\ cfg_Memory cfg < cfg_TmpfsSizeMB cfg * Megabyte.
Proof.
  apply (container_memory_below_limit 1000000 eq_refl). unfold Megabyte. lia.
Defined.
