(* ===== verification/DockerPause.v ===== *)
(** * Docker containers: the handshake between [PauseEventually] and [UnpauseIfNeeded]

    The goroutine started by [PauseEventually] and the caller of
    [UnpauseIfNeeded] meet on two unbuffered channels, [pauseStops] and
    [pauseResponses].  Both are given by their control points, and the pair by
    the steps they can take, alone or together.  The calls to Docker in between
    are those of [Docker.Pause] and [Docker.Unpause], which always return. *)
From S2P Require Export Docker.

(** [pauseResponse]. *)
Record pauseResponse := { isPaused : bool; resp_err : option go_error }.

(** The goroutine of [PauseEventually]. *)
Inductive pauser :=
| PauserAbsent                          (* not started, or ended *)
| PauserWaiting                         (* select on the timer and on pauseStops *)
| PauserPausing                         (* in the call of Pause *)
| PauserPaused (err : option go_error)  (* receiving from pauseStops *)
| PauserResponding (r : pauseResponse). (* sending to pauseResponses *)

(** The caller of [UnpauseIfNeeded]. *)
Inductive unpauser :=
| UnpauserIdle
| UnpauserStopping                      (* sending to pauseStops *)
| UnpauserReceiving                     (* receiving from pauseResponses *)
| UnpauserUnpausing                     (* in the call of Unpause *)
| UnpauserDone (result : option go_error).

Record handshake := mkHandshake {
  the_pauser : pauser;
  the_unpauser : unpauser;
  is_paused : bool                      (* the container itself *)
}.

(** What [UnpauseIfNeeded] does with the response. *)
Definition afterResponse (r : pauseResponse) : unpauser :=
  match resp_err r with
  | Some err => UnpauserDone (Some (Errorf "failed to pause container asynchronously: %w" [err]))
  | None => if isPaused r then UnpauserUnpausing else UnpauserDone None
  end.

(** Calls made by the owner of the container: [PauseEventually] on a container
    that is new or was successfully unpaused, [UnpauseIfNeeded] when a pause is
    scheduled. *)
Inductive owner_step : handshake -> handshake -> Prop :=
| PauseEventually_called u b :
    u = UnpauserIdle \/ u = UnpauserDone None ->
    owner_step (mkHandshake PauserAbsent u b) (mkHandshake PauserWaiting UnpauserIdle b)
| UnpauseIfNeeded_called p b :
    p <> PauserAbsent ->
    owner_step (mkHandshake p UnpauserIdle b) (mkHandshake p UnpauserStopping b).

(** Steps the two goroutines take by themselves. *)
Inductive inner_step : handshake -> handshake -> Prop :=
| timer_fires u b :
    inner_step (mkHandshake PauserWaiting u b) (mkHandshake PauserPausing u b)
| Pause_succeeds u b :
    inner_step (mkHandshake PauserPausing u b) (mkHandshake (PauserPaused None) u true)
| Pause_fails u b b' err :
    inner_step (mkHandshake PauserPausing u b) (mkHandshake (PauserPaused (Some err)) u b')
| stop_before_pause b :
    inner_step (mkHandshake PauserWaiting UnpauserStopping b)
      (mkHandshake (PauserResponding {| isPaused := false; resp_err := None |}) UnpauserReceiving b)
| stop_after_pause err b :
    inner_step (mkHandshake (PauserPaused err) UnpauserStopping b)
      (mkHandshake (PauserResponding {| isPaused := true; resp_err := err |}) UnpauserReceiving b)
| respond r b :
    inner_step (mkHandshake (PauserResponding r) UnpauserReceiving b)
      (mkHandshake PauserAbsent (afterResponse r) b)
| Unpause_succeeds p b :
    inner_step (mkHandshake p UnpauserUnpausing b) (mkHandshake p (UnpauserDone None) false)
| Unpause_fails p b b' err :
    inner_step (mkHandshake p UnpauserUnpausing b)
      (mkHandshake p (UnpauserDone (Some (Errorf "failed to unpause container: %w" [err]))) b').

Definition handshake_step (s s' : handshake) : Prop := owner_step s s' \/ inner_step s s'.
Definition new_container : handshake := mkHandshake PauserAbsent UnpauserIdle false.
Definition handshake_reachable : handshake -> Prop := rtc handshake_step new_container.

(** ** The invariant, by control points *)
Definition handshake_inv (s : handshake) : Prop :=
  match the_pauser s, the_unpauser s with
  | PauserAbsent, UnpauserIdle => is_paused s = false
  | PauserAbsent, UnpauserDone None => is_paused s = false
  | PauserAbsent, UnpauserDone (Some _) => True
  | PauserAbsent, UnpauserUnpausing => True
  | PauserWaiting, (UnpauserIdle | UnpauserStopping) => is_paused s = false
  | PauserPausing, (UnpauserIdle | UnpauserStopping) => True
  | PauserPaused _, (UnpauserIdle | UnpauserStopping) => True
  | PauserResponding r, UnpauserReceiving =>
      isPaused r = false -> resp_err r = None /\ is_paused s = false
  | _, _ => False
  end.

Lemma handshake_inv_step s s' :
  handshake_inv s -> handshake_step s s' -> handshake_inv s'.
Proof.
  intros Hi [Ho|Hs]; [destruct Ho as [u b [-> | ->]|p b Hp]|destruct Hs]; cbn in *;
    repeat (case_match; try done); try tauto.
  all: unfold afterResponse in *; repeat case_match; simplify_eq; try done.
  all: first [naive_solver|destruct p; cbn in *; naive_solver].
Qed.

Lemma handshake_reachable_inv s : handshake_reachable s -> handshake_inv s.
Proof.
  assert (Hg : forall s0, rtc handshake_step s0 s -> handshake_inv s0 -> handshake_inv s).
  { induction 1 as [|s0 s1 s2 Hst _ IH]; [done|]. intros Hi.
    by apply IH, (handshake_inv_step s0). }
  intros Hr. by apply (Hg _ Hr).
Qed.

(** C34: when [UnpauseIfNeeded] has returned without an error the container is
    not paused, and no goroutine is left that could pause it later or still use
    the channels, so the next [PauseEventually] finds them as they were. *)
Theorem UnpauseIfNeeded_safe s :
  handshake_reachable s -> the_unpauser s = UnpauserDone None ->
  is_paused s = false /\ the_pauser s = PauserAbsent.
Proof.
  intros Hi%handshake_reachable_inv Hu. destruct s as [p u b]. cbn in *. subst.
  by destruct p.
Qed.

(** Every execution from [s], whatever the order of its steps, gets to a state
    in which [UnpauseIfNeeded] has returned. *)
Inductive always_returns : handshake -> Prop :=
| returned s r : the_unpauser s = UnpauserDone r -> always_returns s
| will_return s :
    (exists s', inner_step s s') -> (forall s', inner_step s s' -> always_returns s') ->
    always_returns s.

(** The number of steps left. *)
Definition steps_left (s : handshake) : nat :=
  match the_pauser s with
  | PauserWaiting => 5 | PauserPausing => 4 | PauserPaused _ => 3 | PauserResponding _ => 2
  | PauserAbsent => match the_unpauser s with UnpauserUnpausing => 1 | _ => 0 end
  end.

Definition in_call (s : handshake) : Prop :=
  match the_unpauser s with
  | UnpauserStopping | UnpauserReceiving | UnpauserUnpausing => True
  | _ => False
  end.

Lemma inner_step_measure s s' :
  handshake_inv s -> in_call s -> inner_step s s' ->
  handshake_inv s' /\ (steps_left s' < steps_left s)%nat /\
  (in_call s' \/ exists r, the_unpauser s' = UnpauserDone r).
Proof.
  intros Hi Hc Hs. split; [by eapply handshake_inv_step; [|right]|].
  destruct s as [p u b]. destruct p, u; cbn in *; try done; inversion Hs; subst; cbn;
    unfold afterResponse; repeat case_match; simplify_eq/=; (split; [lia|]); eauto.
Qed.

Lemma inner_step_enabled s : handshake_inv s -> in_call s -> exists s', inner_step s s'.
Proof.
  intros Hi Hc. destruct s as [p u b].
  destruct p, u; cbn in *; try done; eexists; by constructor.
Qed.

(** Once [UnpauseIfNeeded] has been called it returns, however its steps
    interleave with those of the scheduled pause: there is no deadlock on the
    channels. *)
Theorem UnpauseIfNeeded_returns s :
  handshake_reachable s -> the_unpauser s = UnpauserStopping -> always_returns s.
Proof.
  intros Hi%handshake_reachable_inv Hu.
  assert (Hc : in_call s) by (unfold in_call; by rewrite Hu). clear Hu.
  remember (steps_left s) as n eqn:En. revert s En Hi Hc.
  induction (lt_wf n) as [n _ IH]. intros s -> Hi Hc.
  apply will_return; [by apply inner_step_enabled|]. intros s' Hs.
  destruct (inner_step_measure _ _ Hi Hc Hs) as (Hi' & Hlt & [Hc'|[r Hr]]).
  - by apply (IH _ Hlt).
  - by apply (returned _ r).
Qed.

(** A pause that has happened when the container is wanted again. *)
Definition paused_in_time : handshake := mkHandshake (PauserPaused None) UnpauserStopping true.

Lemma paused_in_time_reachable : handshake_reachable paused_in_time.
Proof.
  eapply rtc_l; [left; apply PauseEventually_called; by left|].
  eapply rtc_l; [right; apply timer_fires|].
  eapply rtc_l; [right; apply Pause_succeeds|].
  apply rtc_once. left. by apply UnpauseIfNeeded_called.
Qed.

Lemma UnpauseIfNeeded_safe_witness :
  let s := mkHandshake PauserAbsent (UnpauserDone None) false in
  is_paused s = false /\ the_pauser s = PauserAbsent.
Proof.
  apply UnpauseIfNeeded_safe; [|reflexivity].
  eapply rtc_r; [eapply rtc_r; [eapply rtc_r|]|].
  - apply paused_in_time_reachable.
  - right. apply stop_after_pause.
  - right. apply respond.
  - right. apply Unpause_succeeds.
Defined.

Lemma UnpauseIfNeeded_returns_witness : always_returns paused_in_time.
Proof. apply UnpauseIfNeeded_returns; [apply paused_in_time_reachable|reflexivity]. Defined.
