(* ===== verification/DockerHttp.v ===== *)
(** * Docker containers: requests to the runtime inside a container

    [request], [Initialize] and [Run] of [pkg/exec/docker/container.go], on the
    outcome of the HTTP exchange. *)
From S2P Require Export Docker.

(** The parts of an [http.Response] that are looked at: the declared length (-1
    if there is none), what can be read of the body, the error met when the
    body ends early or is discarded, and the status. *)
Record HttpResponse := {
  ContentLength : Z;
  Body : string;
  ReadError : option go_error;
  StatusCode : Z
}.

Definition StatusOK : Z := 200.

(** [io.ReadFull] into a fresh buffer of [n] bytes: the buffer and the error. *)
Definition ReadFull (n : nat) (r : HttpResponse) : string * option go_error :=
  if (n <=? String.length (Body r))%nat then (take_str n (Body r), None)
  else (Body r +:+ repeat_char "000" (n - String.length (Body r)),
        Some (match ReadError r with
              | Some err => err
              | None => match Body r with
                        | EmptyString => Sentinel "io.EOF"
                        | _ => Sentinel "io.ErrUnexpectedEOF"
                        end
              end)).

(** [request], given the outcome of [httpClient.Do]. *)
Definition request (outcome : result HttpResponse) : string * option go_error :=
  match outcome with
  | Err err => ("", Some (Errorf "failed to execute request: %w" [err]))
  | Ok resp =>
      let finish body :=
        if StatusCode resp =? StatusOK then (body, None)
        else (body, Some (Errorf "unexpected HTTP response: status: %d" [])) in
      if ContentLength resp =? -1 then
        match ReadError resp with
        | Some err => ("", Some (Errorf "failed to discard body of unknown content-length response: %w" [err]))
        | None => finish ""
        end
      else
        let bytesToRead :=
          if ResponseLimit <? ContentLength resp then ResponseLimit else ContentLength resp in
        match ReadFull (Z.to_nat bytesToRead) resp with
        | (body, Some err) => (body, Some (Errorf "failed to read HTTP body: %w" [err]))
        | (body, None) =>
            if bytesToRead <? ContentLength resp then
              match ReadError resp with
              | Some err => (body, Some (Errorf "failed to discard body of overflow response: %w" [err]))
              | None => (body, Some (ResponseLimitExceededError (ContentLength resp)))
              end
            else finish body
        end
  end.

(** [Initialize] and [Run]: the payload may fail to marshal. *)
Definition wrapRequest (text : string) (r : string * option go_error) : string * option go_error :=
  match r with
  | (resp, Some err) => (resp, Some (Errorf text [err]))
  | (resp, None) => (resp, None)
  end.

Definition Initialize (marshalled : result string) (exchange : string -> result HttpResponse) :
    string * option go_error :=
  match marshalled with
  | Err err => ("", Some (Errorf "failed to marshal init payload: %w" [err]))
  | Ok body => wrapRequest "failed to initialize container: %w" (request (exchange body))
  end.

Definition Run (marshalled : result string) (exchange : string -> result HttpResponse) :
    string * option go_error :=
  match marshalled with
  | Err err => ("", Some (Errorf "failed to marshal run payload: %w" [err]))
  | Ok body => wrapRequest "failed to run on container: %w" (request (exchange body))
  end.

(** ** Properties *)
Lemma ReadFull_length n r : String.length (ReadFull n r).1 = n.
Proof.
  unfold ReadFull. destruct (Nat.leb_spec n (String.length (Body r))); cbn.
  - by apply length_take_str_le.
  - rewrite length_app_str, length_repeat_char. lia.
Qed.

Lemma take_str_all s : take_str (String.length s) s = s.
Proof. induction s as [|c s IH]; cbn; [done|]. by rewrite IH. Qed.

Lemma request_length outcome : str_len (request outcome).1 <= ResponseLimit.
Proof.
  assert (0 <= ResponseLimit) by (unfold ResponseLimit, Megabyte; lia).
  destruct outcome as [resp|e]; [|done]. unfold request.
  destruct (ContentLength resp =? -1).
  { destruct (ReadError resp); [done|]. by destruct (StatusCode resp =? StatusOK). }
  set (n := if ResponseLimit <? ContentLength resp then _ else _).
  pose proof (ReadFull_length (Z.to_nat n) resp) as Hlen.
  assert (n <= ResponseLimit) by (unfold n; destruct (Z.ltb_spec ResponseLimit (ContentLength resp)); lia).
  destruct (ReadFull (Z.to_nat n) resp) as [body [err|]]; cbn in Hlen |- *;
    [unfold str_len; lia|].
  assert (str_len body <= ResponseLimit) by (unfold str_len; lia).
  destruct (n <? ContentLength resp); [by destruct (ReadError resp)|].
  by destruct (StatusCode resp =? StatusOK).
Qed.

(** Whatever the function answers, at most [ResponseLimit] bytes of it are
    kept; a complete answer within the limit is handed back whole, without an
    error exactly if its status is 200; a longer one is cut at the limit and
    reported with its length, and the caller of [Run] can still tell. *)
Theorem Run_limits_response body exchange :
  str_len (Run (Ok body) exchange).1 <= ResponseLimit /\
  (forall resp, exchange body = Ok resp -> str_len (Body resp) = ContentLength resp ->
     ReadError resp = None ->
     (ContentLength resp <= ResponseLimit ->
        (Run (Ok body) exchange).1 = Body resp /\
        ((Run (Ok body) exchange).2 = None <-> StatusCode resp = StatusOK)) /\
     (ResponseLimit < ContentLength resp ->
        (Run (Ok body) exchange).1 = take_str (Z.to_nat ResponseLimit) (Body resp) /\
        exists err, (Run (Ok body) exchange).2 = Some err /\
          as_ResponseLimit err = Some (ContentLength resp))).
Proof.
  assert (Hfst : (Run (Ok body) exchange).1 = (request (exchange body)).1)
    by (unfold Run; by destruct (request (exchange body)) as [r [e|]]).
  rewrite Hfst. split; [apply request_length|]. intros resp He Hl Hr.
  unfold Run. rewrite He. cbn [request].
  assert (Hc : 0 <= ContentLength resp) by (rewrite <- Hl; apply str_len_nonneg).
  assert (H0 : 0 <= ResponseLimit) by (unfold ResponseLimit, Megabyte; lia).
  generalize dependent ResponseLimit. intros limit H0. unfold str_len in *.
  destruct (Z.eqb_spec (ContentLength resp) (-1)); [lia|].
  destruct (Z.ltb_spec limit (ContentLength resp)).
  - split; [lia|]. intros _. unfold ReadFull.
    destruct (Nat.leb_spec (Z.to_nat limit) (String.length (Body resp))); [|lia].
    destruct (Z.ltb_spec limit (ContentLength resp)); [|lia]. rewrite Hr. cbn.
    split; [done|]. eexists. by split.
  - split; [intros _|lia]. unfold ReadFull.
    destruct (Nat.leb_spec (Z.to_nat (ContentLength resp)) (String.length (Body resp))); [|lia].
    destruct (Z.ltb_spec (ContentLength resp) (ContentLength resp)); [lia|].
    replace (Z.to_nat (ContentLength resp)) with (String.length (Body resp)) by lia.
    rewrite take_str_all.
    destruct (Z.eqb_spec (StatusCode resp) StatusOK); cbn; split; done.
Qed.

Definition answered_ok : HttpResponse :=
  {| ContentLength := 5; Body := "hello"; ReadError := None; StatusCode := 200 |}.

Lemma Run_limits_response_witness :
  (Run (Ok "{}") (fun _ => Ok answered_ok)).1 = "hello" /\
  (Run (Ok "{}") (fun _ => Ok answered_ok)).2 = None.
Proof.
  destruct (Run_limits_response "{}" (fun _ => Ok answered_ok)) as [_ H].
  destruct (H answered_ok eq_refl eq_refl eq_refl) as [H1 _].
  destruct H1 as [H1 H2]; [unfold ResponseLimit, Megabyte; cbn; lia|].
  split; [exact H1|]. by apply H2.
Defined.
