(* ===== verification/Entities.v ===== *)
(** * Functions and activations

    The data of [pkg/entities] and of the messages of [pkg/protocol], with the
    operations on them that need neither JSON documents nor a database. *)
From S2P Require Export PoolState.

(** ** Annotations *)

(** A value of Go type [any] that the JSON decoder produces; a [float64] is
    given as [mantissa * 2 ^ exponent], arrays and objects by their text. *)
Inductive any :=
| VNil
| VBool (b : bool)
| VFloat (mantissa exponent : Z)
| VString (s : string)
| VOther (text : string).

Definition Annotations : Type := gmap string any.

Definition IsTruthy (a : Annotations) (key : string) (valueForNonExistent : bool) : bool :=
  match a !! key with
  | None => valueForNonExistent
  | Some (VBool v) => v
  | Some (VFloat mantissa _) => negb (mantissa =? 0)
  | Some (VString v) => negb (bool_decide (v = ""))
  | Some VNil => false
  | Some (VOther _) => true
  end.

(** ** Functions *)

(** [time.Duration] is in nanoseconds. *)
Definition Millisecond : Z := 1000 * 1000.
Definition Second : Z := 1000 * Millisecond.

(** [Duration.Milliseconds]. *)
Definition Milliseconds (d : Z) : Z := Z.quot d Millisecond.

Record Limits := {
  Timeout : Z;
  lim_Memory : Z;
  lim_Logs : Z
}.

Record FunctionCode := {
  Resolved : string;
  AttachmentID : string;
  IsBinary : bool
}.

Record Exec := {
  exec_Kind : string;
  Code : FunctionCode;
  Main : string;
  Binary : bool
}.

Record EntityFunction := {
  f_Name : string;
  f_Namespace : string;
  f_Exec : Exec;
  f_Annotations : Annotations;
  f_Limits : Limits
}.

(** ** Activations *)
Inductive ActivationStatusCode :=
| ActivationStatusCodeSuccess
| ActivationStatusCodeApplicationError
| ActivationStatusCodeDeveloperError
| ActivationStatusCodeSystemError.

#[export] Instance ActivationStatusCode_eq_dec : EqDecision ActivationStatusCode.
Proof. solve_decision. Defined.

(** The numbers the constants stand for. *)
Definition statusCode (c : ActivationStatusCode) : Z :=
  match c with
  | ActivationStatusCodeSuccess => 0
  | ActivationStatusCodeApplicationError => 1
  | ActivationStatusCodeDeveloperError => 2
  | ActivationStatusCodeSystemError => 3
  end.

Definition statusString (c : ActivationStatusCode) : string :=
  match c with
  | ActivationStatusCodeSuccess => "success"
  | ActivationStatusCodeApplicationError => "application error"
  | ActivationStatusCodeDeveloperError => "developer error"
  | ActivationStatusCodeSystemError => "internal error"
  end.

Record ActivationFunction := {
  af_Name : string;
  af_Version : string;
  af_Path : string;
  af_Kind : string;
  Entrypoint : string;
  af_Limits : Limits;
  af_Binding : string
}.

(** A nil [Result] is the empty string: [encoding/json] never produces an empty raw message. *)
Record ActivationResponse := {
  Result : string;
  Error : string;
  StatusCode : ActivationStatusCode
}.

Record Activation := {
  act_ActivationID : string;
  act_Namespace : string;
  Subject : string;
  Cause : string;
  act_Annotations : Annotations;
  act_Function : ActivationFunction;
  Start : Z;
  End_ : Z;
  IsTimeout : bool;
  InitTime : Z;
  WaitTime : Z;
  Response : ActivationResponse;
  Logs : list string
}.

(** ** Messages *)
Record InvocationIdentity := {
  id_Subject : string;
  id_Namespace : string;
  id_Annotations : gmap string string;
  APIKey : string;
  StoreActivations : bool
}.

(** Parameters are raw JSON texts; [None] is a nil map. *)
Definition Parameters : Type := option (gmap string string).

Record ActivationMessage := {
  TransactionID : string;
  TransactionStart : Z;
  ActivationID : string;
  RootControllerIndex : string;
  CausedBy : string;
  IsBlocking : bool;
  msg_Function : ActivationMessageFunction;
  Identity : InvocationIdentity;
  msg_Parameters : Parameters;
  InitParameters : Parameters
}.

(** ** Texts of [pkg/protocol/messages.go] *)
Definition ErrorFunctionFetch : string := "Function could not be fetched.".
Definition ErrorFunctionNotFound : string := "Function could not be found or may have been deleted.".
Definition ErrorFunctionProvision : string := "Failed to provision resources to run the function.".
Definition ErrorFunctionAbnormalInit : string :=
  "The function did not initialize and exited unexpectedly.".
Definition ErrorFunctionAbnormalRun : string :=
  "The function did not produce a valid response and exited unexpectedly.".
Definition ErrorFunctionMemoryExhausted : string :=
  "The function exhausted its memory and was aborted.".
Definition ErrorFunctionLogCollection : string :=
  "There was an issue while collecting your logs. Logs might be missing.".

Definition ErrorFunctionInitTimeout (timeout : Z) : string :=
  "The function exceeded its time limits of " +:+ fmt_d (Milliseconds timeout) +:+
  " milliseconds during initialization.".
Definition ErrorFunctionTimeout (timeout : Z) : string :=
  "The function exceeded its time limits of " +:+ fmt_d (Milliseconds timeout) +:+
  " milliseconds.".

(** The [%d] verb prints a [units.ByteSize] as a number. *)
Definition ErrorFunctionTruncatedResponse (truncated : string) (got allowed : Z) : string :=
  "The function produced a response that exceeded the allowed length: " +:+ fmt_d got +:+ " > " +:+
  fmt_d allowed +:+ " bytes. The truncated response was: " +:+ truncated.
Definition ErrorFunctionTruncatedLogs (allowed : Z) : string :=
  "Logs were truncated because the total bytes size exceeds the limit of " +:+ fmt_d allowed +:+
  " bytes.".
Definition ErrorFunctionInvalidRunResponse (resp : string) : string :=
  "The function did not produce a valid JSON response: " +:+ resp.
