(* ===== verification/Payload.v ===== *)
(** * Payloads sent to a container

    [pkg/exec/payload.go]: the environments built for initialization and runs. *)
From S2P Require Export Entities.

Record InvocationEnvironment := {
  env_ActivationID : string;
  env_TransactionID : string;
  env_Namespace : string;
  FunctionName : string;
  FunctionVersion : string;
  Deadline : Z;
  env_APIKey : string
}.

Record ContainerInitPayload := {
  init_Name : string;
  init_Entrypoint : string;
  init_Code : string;
  init_IsBinary : bool;
  init_Environment : InvocationEnvironment;
  init_Parameters : Parameters
}.

Record ContainerRunPayload := {
  run_Environment : InvocationEnvironment;
  run_Parameters : Parameters
}.

Definition UnixMilli (t : Z) : Z := t / Millisecond.

(** The map literal of [ContainerInitPayload.MarshalJSON] and the API key. *)
Definition baseEnv (e : InvocationEnvironment) : gmap string string :=
  let env := list_to_map [
    ("__OW_ACTIVATION_ID", env_ActivationID e);
    ("__OW_TRANSACTION_ID", env_TransactionID e);
    ("__OW_NAMESPACE", env_Namespace e);
    ("__OW_ACTION_NAME", FunctionName e);
    ("__OW_ACTION_VERSION", FunctionVersion e);
    ("__OW_DEADLINE", fmt_d (UnixMilli (Deadline e)))] in
  if bool_decide (env_APIKey e = "") then env else <["__OW_API_KEY" := env_APIKey e]> env.

Section marshal.
(** [fastjson] on the text of a JSON string: its contents. *)
Context (parseString : string -> result string).
Context {MS : MapRange string string}.

(** A parameter as the string an environment variable can hold. *)
Definition envValue (k v : string) : result string :=
  match v with
  | String c _ =>
      if bool_decide (c = double_quote) then
        match parseString v with
        | Ok val => Ok val
        | Err err => Err (Errorf "failed to parse init parameter %s into string: %w" [err])
        end
      else Ok v
  | EmptyString => Ok v
  end.

Fixpoint addParameters (params : list (string * string)) (env : gmap string string) :
    result (gmap string string) :=
  match params with
  | [] => Ok env
  | (k, v) :: rest =>
      val ← envValue k v;
      addParameters rest (<[k := val]> env)
  end.

(** The environment in the document of [ContainerInitPayload.MarshalJSON]. *)
Definition initEnv (seed : nat) (p : ContainerInitPayload) : result (gmap string string) :=
  addParameters (match init_Parameters p with None => [] | Some m => go_range seed m end)
    (baseEnv (init_Environment p)).

Lemma addParameters_spec params env env' :
  NoDup params.*1 -> addParameters params env = Ok env' ->
  (forall k v, (k, v) ∈ params -> exists val, envValue k v = Ok val /\ env' !! k = Some val) /\
  (forall k, k ∉ params.*1 -> env' !! k = env !! k).
Proof.
  revert env. induction params as [|[k v] params IH]; intros env Hnd Ha; cbn in *.
  { simplify_eq. split; [by intros ? ? ?%elem_of_nil|done]. }
  apply NoDup_cons in Hnd as [Hk Hnd].
  destruct (envValue k v) as [val|e] eqn:Ev; cbn in Ha; [|done].
  destruct (IH _ Hnd Ha) as [Hin Hout]. split.
  - intros k' v' [[= -> ->]|Hin']%elem_of_cons; [|by apply Hin].
    exists val. split; [done|]. rewrite Hout by done. apply lookup_insert_eq.
  - intros k' [Hne Hk']%not_elem_of_cons. rewrite Hout by done. by apply lookup_insert_ne.
Qed.

(** The environment of an initialization holds every init parameter under
    its name, strings unescaped and everything else as it was sent; the other
    variables are those of the invocation, the API key only if it is passed. *)
Theorem initEnv_spec seed p env :
  initEnv seed p = Ok env ->
  let params := default ∅ (init_Parameters p) in
  (forall k v, params !! k = Some v -> exists val, envValue k v = Ok val /\ env !! k = Some val) /\
  (forall k, params !! k = None -> env !! k = baseEnv (init_Environment p) !! k) /\
  (params !! "__OW_API_KEY" = None -> env_APIKey (init_Environment p) = "" ->
     env !! "__OW_API_KEY" = None).
Proof.
  intros Ha params. unfold initEnv in Ha.
  assert (Hl : exists l, NoDup l.*1 /\ (forall k v, (k, v) ∈ l <-> params !! k = Some v) /\
    addParameters l (baseEnv (init_Environment p)) = Ok env).
  { unfold params. destruct (init_Parameters p) as [m|]; cbn.
    - exists (go_range seed m). split_and!; [| |done].
      + rewrite (go_range_perm seed m). apply NoDup_fst_map_to_list.
      + intros k v. rewrite (go_range_perm seed m). apply elem_of_map_to_list.
    - exists []. split_and!; [constructor| |done]. intros k v. rewrite lookup_empty. set_solver. }
  destruct Hl as (l & Hnd & Hl & Hadd). destruct (addParameters_spec _ _ _ Hnd Hadd) as [Hin Hout].
  assert (Hnone : forall k, params !! k = None -> env !! k = baseEnv (init_Environment p) !! k).
  { intros k Hk. apply Hout. intros ([k' v] & -> & Hkv%Hl)%list_elem_of_fmap. cbn in Hk. congruence. }
  split_and!; [|done|].
  - intros k v Hk. by apply Hin, Hl.
  - intros Hk Hkey. rewrite Hnone by done. unfold baseEnv.
    rewrite bool_decide_eq_true_2 by done. reflexivity.
Qed.
End marshal.

(** ** A concrete payload *)

(** Unescaping for strings without escapes: what is between the quotes. *)
Definition unquote (v : string) : result string :=
  match v with
  | String _ rest => Ok (take_str (String.length rest - 1) rest)
  | EmptyString => Err (ErrText "empty")
  end.

Definition quoted (s : string) : string := String double_quote s +:+ String double_quote "".

Definition test_environment : InvocationEnvironment :=
  {| env_ActivationID := "a1"; env_TransactionID := "t1"; env_Namespace := "guest";
     FunctionName := "/guest/hello"; FunctionVersion := "0.0.1"; Deadline := 1500 * Millisecond;
     env_APIKey := "" |}.

Definition test_init : ContainerInitPayload :=
  {| init_Name := "hello"; init_Entrypoint := "main"; init_Code := "code"; init_IsBinary := false;
     init_Environment := test_environment;
     init_Parameters := Some (<["NAME" := quoted "world"]> (<["COUNT" := "42"]> ∅)) |}.

Definition test_env : gmap string string :=
  match initEnv unquote 0 test_init with Ok env => env | Err _ => ∅ end.

Lemma initEnv_spec_witness :
  (exists val, envValue unquote "NAME" (quoted "world") = Ok val /\ test_env !! "NAME" = Some val) /\
  test_env !! "__OW_API_KEY" = None.
Proof.
  assert (Hok : is_ok (initEnv unquote 0 test_init) = true) by (vm_compute; reflexivity).
  assert (E : initEnv unquote 0 test_init = Ok test_env).
  { unfold test_env. revert Hok. generalize (initEnv unquote 0 test_init). by intros [env|e]. }
  destruct (initEnv_spec unquote 0 test_init test_env E) as (Hp & _ & Hk).
  split; [apply Hp; vm_compute; reflexivity|apply Hk; [vm_compute; reflexivity|reflexivity]].
Defined.
