(* ===== verification/Runner.v ===== *)
(** * The runner: executing one invocation

    [pkg/runner/runner.go]: [Invoke] as a program over the clock, the function
    reader, the pool, the container and the activation writer, with the calls
    it defers in the order in which Go runs them. *)
From S2P Require Export Payload.

(** ** Operations *)
Inductive runner_op : Type -> Type :=
| ClockNow : runner_op Z
| FetchFunction (fqdn rev : string) : runner_op (result EntityFunction)
| PoolGet (namespace : string) (fn : ActivationMessageFunction) (kind : string) (memory : Z) :
    runner_op (result (PooledContainer * bool))
| PoolPut (c : PooledContainer) : runner_op unit
| PoolPutToDestroy (c : PooledContainer) : runner_op (option go_error)
  (* the deadline is that of the context passed along *)
| ContainerInitialize (c : PooledContainer) (payload : ContainerInitPayload) (deadline : Z) :
    runner_op (string * option go_error)
| ContainerRun (c : PooledContainer) (payload : ContainerRunPayload) (deadline : Z) :
    runner_op (string * option go_error)
| ContainerGetState (c : PooledContainer) : runner_op (result ContainerState)
  (* waiting for collectLogs, cancelling it after logCollectionTimeout: the logs, and
     whether it was cancelled *)
| AwaitLogs (c : PooledContainer) (limit : Z) : runner_op (list string * bool)
| WriteActivation (a : Activation) : runner_op (option go_error).

Notation runM := (proc runner_op).

Definition minInitDuration : Z := 10 * Second.
Definition logCollectionTimeout : Z := 500 * Millisecond.

(** ** Updating the activation *)
Definition fail (code : ActivationStatusCode) (error : string) (a : Activation) : Activation :=
  {| act_ActivationID := act_ActivationID a; act_Namespace := act_Namespace a;
     Subject := Subject a; Cause := Cause a; act_Annotations := act_Annotations a;
     act_Function := act_Function a; Start := Start a; End_ := End_ a; IsTimeout := IsTimeout a;
     InitTime := InitTime a; WaitTime := WaitTime a;
     Response := {| Result := Result (Response a); Error := error; StatusCode := code |};
     Logs := Logs a |}.
Definition set_Result (code : ActivationStatusCode) (result : string) (a : Activation) : Activation :=
  {| act_ActivationID := act_ActivationID a; act_Namespace := act_Namespace a;
     Subject := Subject a; Cause := Cause a; act_Annotations := act_Annotations a;
     act_Function := act_Function a; Start := Start a; End_ := End_ a; IsTimeout := IsTimeout a;
     InitTime := InitTime a; WaitTime := WaitTime a;
     Response := {| Result := result; Error := Error (Response a); StatusCode := code |};
     Logs := Logs a |}.
Definition set_IsTimeout (a : Activation) : Activation :=
  {| act_ActivationID := act_ActivationID a; act_Namespace := act_Namespace a;
     Subject := Subject a; Cause := Cause a; act_Annotations := act_Annotations a;
     act_Function := act_Function a; Start := Start a; End_ := End_ a; IsTimeout := true;
     InitTime := InitTime a; WaitTime := WaitTime a; Response := Response a; Logs := Logs a |}.
Definition set_times (start end_ initTime : Z) (a : Activation) : Activation :=
  {| act_ActivationID := act_ActivationID a; act_Namespace := act_Namespace a;
     Subject := Subject a; Cause := Cause a; act_Annotations := act_Annotations a;
     act_Function := act_Function a; Start := start; End_ := end_; IsTimeout := IsTimeout a;
     InitTime := initTime; WaitTime := WaitTime a; Response := Response a; Logs := Logs a |}.
Definition set_WaitTime (t : Z) (a : Activation) : Activation :=
  {| act_ActivationID := act_ActivationID a; act_Namespace := act_Namespace a;
     Subject := Subject a; Cause := Cause a; act_Annotations := act_Annotations a;
     act_Function := act_Function a; Start := Start a; End_ := End_ a; IsTimeout := IsTimeout a;
     InitTime := InitTime a; WaitTime := t; Response := Response a; Logs := Logs a |}.
Definition set_Logs (logs : list string) (a : Activation) : Activation :=
  {| act_ActivationID := act_ActivationID a; act_Namespace := act_Namespace a;
     Subject := Subject a; Cause := Cause a; act_Annotations := act_Annotations a;
     act_Function := act_Function a; Start := Start a; End_ := End_ a; IsTimeout := IsTimeout a;
     InitTime := InitTime a; WaitTime := WaitTime a; Response := Response a; Logs := logs |}.
Definition set_Function (entrypoint kind : string) (limits : Limits) (a : Activation) : Activation :=
  {| act_ActivationID := act_ActivationID a; act_Namespace := act_Namespace a;
     Subject := Subject a; Cause := Cause a; act_Annotations := act_Annotations a;
     act_Function := {| af_Name := af_Name (act_Function a); af_Version := af_Version (act_Function a);
                        af_Path := af_Path (act_Function a); af_Kind := kind;
                        Entrypoint := entrypoint; af_Limits := limits;
                        af_Binding := af_Binding (act_Function a) |};
     Start := Start a; End_ := End_ a; IsTimeout := IsTimeout a;
     InitTime := InitTime a; WaitTime := WaitTime a; Response := Response a; Logs := Logs a |}.

Definition Limits_zero : Limits := {| Timeout := 0; lim_Memory := 0; lim_Logs := 0 |}.

(** ** Texts *)

(** [punctuate]. *)
Definition punctuate (msg : string) : string := if HasSuffix msg "." then msg else msg +:+ ".".

Definition qualifiedName (msg : ActivationMessage) : string :=
  fn_Namespace (msg_Function msg) +:+ "/" +:+ fn_Name (msg_Function msg).

Section runner.
(** [encoding/json] on the answers of the runtime: the keys of an object ([None] for null),
    and the string of the field [error], empty if there is none. *)
Context (unmarshalObject : string -> result (option (gset string))).
Context (unmarshalError : string -> result string).
(** [Time.Format] with the layout of [formatLog]. *)
Context (formatTime : Z -> string).

(** [%-30s]. *)
Fixpoint pad_spaces (n : nat) (s : string) : string :=
  match n with
  | O => s
  | S n' => match s with
            | EmptyString => String " " (pad_spaces n' "")
            | String c s' => String c (pad_spaces n' s')
            end
  end.

Definition formatLog (time : Z) (stream msg : string) : string :=
  pad_spaces 30 (formatTime time) +:+ " " +:+ stream +:+ ": " +:+ msg.

Definition parseErrorFromResponse (response : string) : result string :=
  match unmarshalError response with
  | Err err => Err (Errorf "failed to parse response as JSON: %w" [err])
  | Ok "" => Err (ErrText "error response did not contain error field")
  | Ok error => Ok error
  end.

(** ** The beginning of [Invoke] *)
Definition newActivation (msg : ActivationMessage) (now : Z) : Activation :=
  {| act_ActivationID := ActivationID msg;
     act_Namespace := id_Namespace (Identity msg);
     Subject := id_Subject (Identity msg);
     Cause := CausedBy msg;
     act_Annotations :=
       (VString <$> id_Annotations (Identity msg)) ∪
       (if bool_decide (CausedBy msg = "") then ∅ else {[ "causedBy" := VString "sequence" ]});
     act_Function := {| af_Name := fn_Name (msg_Function msg);
                        af_Version := fn_Version (msg_Function msg);
                        af_Path := qualifiedName msg; af_Kind := ""; Entrypoint := "";
                        af_Limits := Limits_zero; af_Binding := fn_Binding (msg_Function msg) |};
     Start := now; End_ := now; IsTimeout := false; InitTime := 0; WaitTime := 0;
     Response := {| Result := ""; Error := ""; StatusCode := ActivationStatusCodeSystemError |};
     Logs := [] |}.

(** ** Failures of the container

    What remains of the error handling after the response limit has been
    checked, for [Initialize] and for [Run]: out of memory, exit, timeout, an
    error the runtime reported, anything else. *)
Definition classifyFailure (c : PooledContainer) (response : string) (err : go_error)
    (timeoutMessage abnormalMessage : string) (a : Activation) : runM Activation :=
  let developerError := fun error => fail ActivationStatusCodeDeveloperError error a in
  state ← trigger (ContainerGetState c);
  let notBroken :=
    if isDeadlineExceeded err then set_IsTimeout (developerError timeoutMessage)
    else if (0 <? String.length response)%nat then
      match parseErrorFromResponse response with
      | Ok errorMessage => developerError errorMessage
      | Err _ => developerError abnormalMessage
      end
    else developerError abnormalMessage in
  Ret match state with
      | Err _ => notBroken
      | Ok st =>
          if OOMKilled st then developerError ErrorFunctionMemoryExhausted
          else if bool_decide (Status st = ContainerStateStatusExited)
          then developerError ErrorFunctionAbnormalRun
          else notBroken
      end.

(** ** Steps 3 and 4: initializing and running the container

    The activation and whether the container is broken. *)
Definition environment (msg : ActivationMessage) (fn : EntityFunction) (deadline : Z) :
    InvocationEnvironment :=
  {| env_ActivationID := ActivationID msg;
     env_TransactionID := TransactionID msg;
     env_Namespace := id_Namespace (Identity msg);
     FunctionName := "/" +:+ qualifiedName msg;
     FunctionVersion := fn_Version (msg_Function msg);
     Deadline := deadline;
     env_APIKey := if IsTruthy (f_Annotations fn) "provide-api-key" true
                   then APIKey (Identity msg) else "" |}.

Definition fnEntrypoint (fn : EntityFunction) : string :=
  if bool_decide (Main (f_Exec fn) = "") then "main" else Main (f_Exec fn).

Definition initTimeout (fn : EntityFunction) : Z :=
  if minInitDuration <? Timeout (f_Limits fn) then Timeout (f_Limits fn) else minInitDuration.

(** [inr] is the early return. *)
Definition initialize (msg : ActivationMessage) (fn : EntityFunction) (c : PooledContainer)
    (a : Activation) : runM (Activation + Activation) :=
  initStart ← trigger ClockNow;
  let deadline := initStart + initTimeout fn in
  r ← trigger (ContainerInitialize c
        {| init_Name := f_Name fn; init_Entrypoint := fnEntrypoint fn;
           init_Code := Resolved (Code (f_Exec fn)); init_IsBinary := Binary (f_Exec fn);
           init_Environment := environment msg fn deadline;
           init_Parameters := InitParameters msg |} deadline);
  initEnd ← trigger ClockNow;
  let '(response, err) := r in
  let a := set_times initStart initEnd (initEnd - initStart) a in
  match err with
  | None => Ret (inl a)
  | Some err =>
      match as_ResponseLimit err with
      | Some contentLength =>
          Ret (inr (fail ActivationStatusCodeDeveloperError
                      (ErrorFunctionTruncatedResponse response contentLength (str_len response)) a))
      | None =>
          a' ← classifyFailure c response err (ErrorFunctionInitTimeout (initTimeout fn))
                 ErrorFunctionAbnormalInit a;
          Ret (inr a')
      end
  end.

Definition runContainer (msg : ActivationMessage) (fn : EntityFunction) (c : PooledContainer)
    (a : Activation) : runM (Activation * bool) :=
  runStart ← trigger ClockNow;
  let deadline := runStart + Timeout (f_Limits fn) in
  r ← trigger (ContainerRun c
        {| run_Environment := environment msg fn deadline; run_Parameters := msg_Parameters msg |}
        deadline);
  runEnd ← trigger ClockNow;
  let '(response, err) := r in
  let a := set_times (runStart - InitTime a) runEnd (InitTime a) a in
  match err with
  | Some err =>
      match as_ResponseLimit err with
      | Some contentLength =>
          Ret (fail ActivationStatusCodeApplicationError
                 (ErrorFunctionTruncatedResponse response contentLength (str_len response)) a, false)
      | None =>
          a' ← classifyFailure c response err (ErrorFunctionTimeout (Timeout (f_Limits fn)))
                 ErrorFunctionAbnormalRun a;
          Ret (a', true)
      end
  | None =>
      Ret (match unmarshalObject response with
           | Err _ => fail ActivationStatusCodeDeveloperError (ErrorFunctionInvalidRunResponse response) a
           | Ok None => set_Result ActivationStatusCodeSuccess "{}" a
           | Ok (Some keys) =>
               if decide ("error" ∈ keys)
               then set_Result ActivationStatusCodeApplicationError response a
               else set_Result ActivationStatusCodeSuccess response a
           end, false)
  end.

(** From the container to the end of the function body, without the deferred calls. *)
Definition useContainer (msg : ActivationMessage) (fn : EntityFunction) (c : PooledContainer)
    (isReused : bool) (a : Activation) : runM (Activation * bool) :=
  if isReused then runContainer msg fn c a
  else
    r ← initialize msg fn c a;
    match r with
    | inr a' => Ret (a', true)
    | inl a' => runContainer msg fn c a'
    end.

(** The deferred log collection. *)
Definition collectDeferred (fn : EntityFunction) (c : PooledContainer) (a : Activation)
    (containerBroken : bool) : runM (Activation * bool) :=
  _ ← trigger ClockNow;
  r ← trigger (AwaitLogs c (lim_Logs (f_Limits fn)));
  let '(logs, cancelled) := r in
  if cancelled : bool then
    let message :=
      if bool_decide (Error (Response a) = "") then ErrorFunctionLogCollection
      else punctuate (Error (Response a)) +:+ " Logs might be missing." in
    now ← trigger ClockNow;
    Ret (set_Logs (logs ++ [formatLog now LogStreamStderr message]) a, true)
  else
    (* the two measurements of the time it took *)
    _ ← trigger ClockNow;
    _ ← trigger ClockNow;
    Ret (set_Logs logs a, containerBroken).

(** The deferred return of the container. *)
Definition returnDeferred (c : PooledContainer) (containerBroken : bool) : runM unit :=
  if containerBroken then (_ ← trigger (PoolPutToDestroy c); Ret tt) else trigger (PoolPut c).

(** The body of [Invoke] after the activation was created, up to the deferred write. *)
Definition invokeBody (msg : ActivationMessage) (a : Activation) : runM Activation :=
  f ← trigger (FetchFunction (qualifiedName msg) (fn_Revision (msg_Function msg)));
  match f with
  | Err err =>
      Ret (if isFunctionNotFound err
           then fail ActivationStatusCodeApplicationError ErrorFunctionNotFound a
           else fail ActivationStatusCodeSystemError ErrorFunctionFetch a)
  | Ok fn =>
      let a := set_Function (fnEntrypoint fn) (exec_Kind (f_Exec fn)) (f_Limits fn) a in
      got ← trigger (PoolGet (id_Namespace (Identity msg)) (msg_Function msg)
                       (exec_Kind (f_Exec fn)) (lim_Memory (f_Limits fn)));
      match got with
      | Err err =>
          let provision := fail ActivationStatusCodeSystemError ErrorFunctionProvision a in
          Ret match as_ContainerBroken err with
              | Some state =>
                  if OOMKilled state
                  then fail ActivationStatusCodeDeveloperError ErrorFunctionMemoryExhausted a
                  else if bool_decide (Status state = ContainerStateStatusExited)
                  then fail ActivationStatusCodeDeveloperError ErrorFunctionAbnormalRun a
                  else provision
              | None => provision
              end
      | Ok (c, isReused) =>
          a ← (if bool_decide (CausedBy msg = "") then
                 now ← trigger ClockNow;
                 Ret (set_WaitTime (now - TransactionStart msg) a)
               else Ret a);
          '(a, broken) ← useContainer msg fn c isReused a;
          '(a, broken) ← collectDeferred fn c a broken;
          _ ← returnDeferred c broken;
          Ret a
      end
  end.

Definition Invoke (msg : ActivationMessage) : runM Activation :=
  now ← trigger ClockNow;
  a ← invokeBody msg (newActivation msg now);
  _ ← (if negb (IsBlocking msg) && StoreActivations (Identity msg)
       then trigger (WriteActivation a) else Ret None);
  Ret a.
End runner.
