(* ===== verification/RunnerSafe.v ===== *)
(** * The runner: properties of [Invoke] *)
From S2P Require Export Runner.

(** ** What is observed of an invocation *)
Inductive event :=
| EFetch (r : result EntityFunction)
| EGet (r : result (PooledContainer * bool))
| EInit (c : PooledContainer) (r : string * option go_error)
| ERun (c : PooledContainer) (r : string * option go_error)
| ELogs (c : PooledContainer) (cancelled : bool)
| EPut (c : PooledContainer)
| EDestroy (c : PooledContainer)
| EWrite (a : Activation).

Definition events (X : Type) (op : runner_op X) : X -> list event :=
  match op in runner_op X return X -> list event with
  | ClockNow => fun _ => []
  | FetchFunction _ _ => fun r => [EFetch r]
  | PoolGet _ _ _ _ => fun r => [EGet r]
  | PoolPut c => fun _ => [EPut c]
  | PoolPutToDestroy c => fun _ => [EDestroy c]
  | ContainerInitialize c _ _ => fun r => [EInit c r]
  | ContainerRun c _ _ => fun r => [ERun c r]
  | ContainerGetState _ => fun _ => []
  | AwaitLogs c _ => fun r => [ELogs c r.2]
  | WriteActivation a => fun _ => [EWrite a]
  end.

(** Any answer is possible; the state is the list of what happened so far. *)
Definition observed (X : Type) (op : runner_op X) (tr : list event) (x : X) (tr' : list event) : Prop :=
  tr' = tr ++ events X op x.

Notation happens p tr a tr' := (runs observed p tr a tr').

#[local] Arguments classifyFailure : simpl never.
#[local] Arguments initialize : simpl never.
#[local] Arguments runContainer : simpl never.
#[local] Arguments useContainer : simpl never.
#[local] Arguments collectDeferred : simpl never.
#[local] Arguments returnDeferred : simpl never.
#[local] Arguments invokeBody : simpl never.

Section invoke.
Context (unmarshalObject : string -> result (option (gset string))).
Context (unmarshalError : string -> result string) (formatTime : Z -> string).

Notation classify := (classifyFailure unmarshalError).
Notation init := (initialize unmarshalError).
Notation run_ := (runContainer unmarshalObject unmarshalError).
Notation use := (useContainer unmarshalObject unmarshalError).
Notation body := (invokeBody unmarshalObject unmarshalError formatTime).
Notation invoke := (Invoke unmarshalObject unmarshalError formatTime).

(** ** The response *)

(** Either [Error] or [Result] is set. *)
Definition one_of (r : ActivationResponse) : Prop :=
  (Error r = "" /\ Result r <> "") \/ (Error r <> "" /\ Result r = "").

(** The response has not been decided yet. *)
Definition undecided (a : Activation) : Prop := Error (Response a) = "" /\ Result (Response a) = "".

Lemma app_str_nonempty s t : s <> "" -> s +:+ t <> "".
Proof. destruct s as [|c s]; [done|]. by rewrite app_str_cons. Qed.

Lemma fail_decided code error a : undecided a -> error <> "" -> one_of (Response (fail code error a)).
Proof. intros [_ Hr] He. right. by split. Qed.

Lemma parseError_nonempty response e : parseErrorFromResponse unmarshalError response = Ok e -> e <> "".
Proof.
  unfold parseErrorFromResponse. destruct (unmarshalError response) as [[|c s]|]; [done| |done].
  by intros [= <-].
Qed.

Lemma happens_classify c response err timeoutMessage abnormalMessage a tr a' tr' :
  timeoutMessage <> "" -> abnormalMessage <> "" -> undecided a ->
  happens (classify c response err timeoutMessage abnormalMessage a) tr a' tr' ->
  tr' = tr /\ StatusCode (Response a') = ActivationStatusCodeDeveloperError /\ one_of (Response a') /\
  InitTime a' = InitTime a.
Proof.
  intros Ht Ha Hu. unfold classifyFailure. cbn. intros (st & tr1 & -> & <- & ->).
  rewrite app_nil_r. split; [done|].
  assert (Hf : forall e, e <> "" ->
    let b := fail ActivationStatusCodeDeveloperError e a in
    StatusCode (Response b) = ActivationStatusCodeDeveloperError /\ one_of (Response b) /\
    InitTime b = InitTime a) by (intros e He; split_and!; [done|by apply fail_decided|done]).
  assert (Hm : ErrorFunctionMemoryExhausted <> "") by done.
  assert (Hx : ErrorFunctionAbnormalRun <> "") by done.
  pose proof (parseError_nonempty response) as Hp.
  destruct st as [st|]; [destruct (OOMKilled st); [by apply Hf|];
                         destruct (bool_decide _); [by apply Hf|]|];
    (destruct (isDeadlineExceeded err); [by apply (Hf timeoutMessage)|]);
    (destruct (String.length response); [by apply Hf|]);
    (destruct (parseErrorFromResponse _ response) as [m|]; [apply Hf; by apply Hp|by apply Hf]).
Qed.

(** ** Initializing and running *)

(** The status that follows from how [Run] and the result turned out. *)
Definition run_status (r : string * option go_error) : ActivationStatusCode :=
  match r with
  | (_, Some err) =>
      match as_ResponseLimit err with
      | Some _ => ActivationStatusCodeApplicationError
      | None => ActivationStatusCodeDeveloperError
      end
  | (response, None) =>
      match unmarshalObject response with
      | Err _ => ActivationStatusCodeDeveloperError
      | Ok (Some keys) =>
          if decide ("error" ∈ keys) then ActivationStatusCodeApplicationError
          else ActivationStatusCodeSuccess
      | Ok None => ActivationStatusCodeSuccess
      end
  end.

(** A run that leaves the container in an unknown state. *)
Definition run_breaks (r : string * option go_error) : bool :=
  match r with
  | (_, Some err) => match as_ResponseLimit err with Some _ => false | None => true end
  | (_, None) => false
  end.

Context (empty_document : is_ok (unmarshalObject "") = false).

Lemma timeout_text t : ErrorFunctionTimeout t <> "".
Proof. by apply app_str_nonempty. Qed.
Lemma init_timeout_text t : ErrorFunctionInitTimeout t <> "".
Proof. by apply app_str_nonempty. Qed.
Lemma truncated_text a b c : ErrorFunctionTruncatedResponse a b c <> "".
Proof. by apply app_str_nonempty. Qed.
Lemma invalid_text r : ErrorFunctionInvalidRunResponse r <> "".
Proof. by apply app_str_nonempty. Qed.

Lemma happens_run msg fn c a tr a' broken tr' :
  undecided a -> happens (run_ msg fn c a) tr (a', broken) tr' ->
  exists r, tr' = tr ++ [ERun c r] /\ broken = run_breaks r /\
    StatusCode (Response a') = run_status r /\ one_of (Response a').
Proof using empty_document.
  intros Hu. unfold runContainer. cbn. intros (t1 & tr1 & -> & [response err] & tr2 & -> & t2 & tr3 & -> & Hr).
  cbn in Hr. rewrite !app_nil_r in Hr. exists (response, err). cbn [run_breaks run_status].
  destruct err as [err|].
  - destruct (as_ResponseLimit err) as [n|].
    + destruct Hr as [[= <- <-] ->]. split_and!; try done. right.
      split; [apply truncated_text|apply Hu].
    + apply runs_bind in Hr as (a1 & tr4 & Hc & [= <- <-] & ->).
      apply happens_classify in Hc as (-> & ? & ? & _); [by split_and!|apply timeout_text|done|exact Hu].
  - destruct Hr as [[= <- <-] ->]. split; [done|]. split; [done|].
    destruct (unmarshalObject response) as [[keys|]|] eqn:E.
    + destruct (decide _); (split; [done|]); left; cbn; split; try apply Hu; intros ->;
        rewrite E in empty_document; done.
    + split; [done|]. left. cbn. split; [apply Hu|done].
    + split; [done|]. right. cbn. split; [apply invalid_text|apply Hu].
Qed.

Lemma happens_init msg fn c a tr r tr' :
  undecided a -> happens (init msg fn c a) tr r tr' ->
  exists response err, tr' = tr ++ [EInit c (response, err)] /\
    match r with
    | inl a' => err = None /\ undecided a'
    | inr a' => err <> None /\ one_of (Response a') /\
        StatusCode (Response a') = ActivationStatusCodeDeveloperError
    end.
Proof using Type.
  intros Hu. unfold initialize. cbn.
  intros (t1 & tr1 & -> & [response err] & tr2 & -> & t2 & tr3 & -> & Hr).
  cbn in Hr. rewrite !app_nil_r in Hr. exists response, err. destruct err as [err|].
  - destruct (as_ResponseLimit err) as [n|].
    + destruct Hr as [<- ->]. split_and!; try done. right. split; [apply truncated_text|apply Hu].
    + apply runs_bind in Hr as (a1 & tr4 & Hc & <- & ->).
      apply happens_classify in Hc as (-> & ? & ? & _); [by split_and!|apply init_timeout_text|done|exact Hu].
  - destruct Hr as [<- ->]. by split_and!.
Qed.

(** ** The container *)

(** What is done with a container: a reused one only runs, a new one is
    initialized first and runs only if that went well. *)
Definition use_of (c : PooledContainer) (reused : bool) (uses : list event) (broken : bool) : Prop :=
  (reused = true /\ exists r, uses = [ERun c r] /\ broken = run_breaks r) \/
  (reused = false /\ exists response err, uses = [EInit c (response, Some err)] /\ broken = true) \/
  (reused = false /\ exists response r,
     uses = [EInit c (response, None); ERun c r] /\ broken = run_breaks r).

(** The status that follows from the first thing that decides it. *)
Fixpoint decided_status (tr : list event) : option ActivationStatusCode :=
  match tr with
  | EFetch (Err err) :: _ =>
      Some (if isFunctionNotFound err then ActivationStatusCodeApplicationError
            else ActivationStatusCodeSystemError)
  | EGet (Err err) :: _ =>
      Some (match as_ContainerBroken err with
            | Some state =>
                if OOMKilled state || bool_decide (Status state = ContainerStateStatusExited)
                then ActivationStatusCodeDeveloperError else ActivationStatusCodeSystemError
            | None => ActivationStatusCodeSystemError
            end)
  | EInit _ (_, Some _) :: _ => Some ActivationStatusCodeDeveloperError
  | ERun _ r :: _ => Some (run_status r)
  | _ :: rest => decided_status rest
  | [] => None
  end.

Lemma happens_use msg fn c reused a tr a' broken tr' :
  undecided a -> happens (use msg fn c reused a) tr (a', broken) tr' ->
  exists uses, tr' = tr ++ uses /\ use_of c reused uses broken /\ one_of (Response a') /\
    forall rest, decided_status (uses ++ rest) = Some (StatusCode (Response a')).
Proof using empty_document.
  intros Hu. unfold useContainer. destruct reused.
  - intros (r & -> & -> & Hs & Ho)%happens_run; [|done]. exists [ERun c r]. split_and!; try done.
    + left. eauto.
    + intros rest. cbn. by rewrite Hs.
  - intros (r & tr1 & Hinit & Hr)%runs_bind.
    apply happens_init in Hinit as (response & err & -> & Hi); [|done].
    destruct r as [a1|a1].
    + destruct Hi as [-> Hu1]. apply happens_run in Hr as (r & -> & -> & Hs & Ho); [|done].
      exists [EInit c (response, None); ERun c r]. rewrite <- (assoc (++)). split_and!; try done.
      * right. right. eauto.
      * intros rest. cbn. by rewrite Hs.
    + destruct Hi as (Herr & Ho & Hs), Hr as [[= <- <-] ->]. destruct err as [err|]; [|done].
      exists [EInit c (response, Some err)]. split_and!; try done.
      * right. left. split; [done|]. eauto.
      * intros rest. cbn. by rewrite Hs.
Qed.

Lemma happens_collect fn c a broken tr a' broken' tr' :
  happens (collectDeferred formatTime fn c a broken) tr (a', broken') tr' ->
  exists cancelled, tr' = tr ++ [ELogs c cancelled] /\ broken' = cancelled || broken /\
    Response a' = Response a.
Proof using Type.
  unfold collectDeferred. cbn. intros (t & tr1 & -> & [logs cancelled] & tr2 & -> & Hr).
  rewrite app_nil_r in Hr. exists cancelled.
  destruct cancelled; cbn in Hr.
  - destruct Hr as (t1 & tr3 & -> & [= <- <-] & ->). by rewrite app_nil_r.
  - destruct Hr as (t1 & tr3 & -> & t2 & tr4 & -> & [= <- <-] & ->). by rewrite !app_nil_r.
Qed.

Lemma happens_return c broken tr x tr' :
  happens (returnDeferred c broken) tr x tr' ->
  tr' = tr ++ [if broken then EDestroy c else EPut c].
Proof using Type.
  destruct broken; cbn.
  - by intros (r & tr1 & -> & _ & ->).
  - by intros (r & tr1 & -> & _ & ->).
Qed.

(** What happens before the deferred write. *)
Definition protocol (tr : list event) : Prop :=
  (exists err, tr = [EFetch (Err err)]) \/
  (exists fn err, tr = [EFetch (Ok fn); EGet (Err err)]) \/
  (exists fn c reused uses useBroken cancelled,
     tr = [EFetch (Ok fn); EGet (Ok (c, reused))] ++ uses ++
          [ELogs c cancelled; if cancelled || useBroken then EDestroy c else EPut c] /\
     use_of c reused uses useBroken).

Lemma happens_body msg a a' tr :
  undecided a -> happens (body msg a) [] a' tr ->
  protocol tr /\ one_of (Response a') /\
  forall rest, decided_status (tr ++ rest) = Some (StatusCode (Response a')).
Proof using empty_document.
  intros Hu. unfold invokeBody. cbn. intros (f & tr1 & -> & Hr). destruct f as [fn|err].
  2: { destruct Hr as [<- ->]. split; [left; by eexists|]. split.
       - destruct (isFunctionNotFound err); by apply fail_decided.
       - intros rest. cbn. by destruct (isFunctionNotFound err). }
  cbn in Hr. destruct Hr as (got & tr2 & -> & Hr). cbn in Hr. destruct got as [[c reused]|err].
  2: { destruct Hr as [<- ->]. split; [right; left; by do 2 eexists|].
       set (a0 := set_Function _ _ _ a). assert (Hu0 : undecided a0) by exact Hu.
       split; [|intros rest; cbn]; destruct (as_ContainerBroken err) as [st|];
         try destruct (OOMKilled st); try destruct (bool_decide _); try done;
         by apply fail_decided. }
  apply runs_bind in Hr as (a1 & tr3 & Hw & Hr).
  assert (tr3 = [EFetch (Ok fn); EGet (Ok (c, reused))] /\ undecided a1) as [-> Hu1].
  { destruct (bool_decide _); cbn in Hw; [|by destruct Hw as [<- ->]].
    by destruct Hw as (now & tr4 & -> & <- & ->). }
  apply runs_bind in Hr as ([a2 broken] & tr4 & Huse & Hr).
  apply happens_use in Huse as (uses & -> & Huses & Ho & Hs); [|done].
  apply runs_bind in Hr as ([a3 broken'] & tr5 & Hc & Hr).
  apply happens_collect in Hc as (cancelled & -> & -> & Hresp).
  apply runs_bind in Hr as ([] & tr6 & Hret & [<- ->]).
  apply happens_return in Hret as ->. rewrite Hresp.
  rewrite <- !(assoc (++)). split; [|split; [done|intros rest]].
  - right. right. exists fn, c, reused, uses, broken, cancelled. split; [|done]. by destruct cancelled.
  - cbn. rewrite <- !(assoc (++)). apply Hs.
Qed.

Lemma happens_Invoke msg a tr :
  happens (invoke msg) [] a tr ->
  exists tr0, tr = tr0 ++ (if negb (IsBlocking msg) && StoreActivations (Identity msg)
                           then [EWrite a] else []) /\
    protocol tr0 /\ one_of (Response a) /\
    forall rest, decided_status (tr0 ++ rest) = Some (StatusCode (Response a)).
Proof using empty_document.
  unfold Invoke. cbn. intros (now & tr1 & -> & Hr). cbn in Hr.
  apply runs_bind in Hr as (a1 & tr2 & Hb & Hr).
  apply happens_body in Hb as (Hp & Ho & Hs); [|done].
  apply runs_bind in Hr as (w & tr3 & Hw & [<- ->]). exists tr2. split; [|by split_and!].
  destruct (negb _ && _); cbn in Hw.
  - by destruct Hw as (x & tr4 & -> & _ & ->).
  - destruct Hw as [_ ->]. by rewrite app_nil_r.
Qed.

(** C4: whatever the other components answer, an invocation fetches the
    function, asks the pool for a container only if that succeeded, initializes
    only new containers and runs only reused or initialized ones, collects the
    logs afterwards, then returns the container exactly once (destroyed if its
    state is unknown: the initialization or the run failed, or the end of the
    logs was not seen; to be reused otherwise), and writes the activation
    last and exactly if it is non-blocking and to be stored. *)
Theorem Invoke_protocol msg a tr :
  happens (invoke msg) [] a tr ->
  exists tr0, tr = tr0 ++ (if negb (IsBlocking msg) && StoreActivations (Identity msg)
                           then [EWrite a] else []) /\ protocol tr0.
Proof using empty_document. intros (tr0 & ? & ? & _)%happens_Invoke. eauto. Qed.

(** C28: every activation has either a result or an error, never both and never
    neither, and its status is decided by what went wrong first: a system error
    if the function could not be fetched or no container be provided, an
    application error if the function is gone, answered too much or reported an
    error itself, a developer error if the container failed. *)
Theorem Invoke_response msg a tr :
  happens (invoke msg) [] a tr ->
  one_of (Response a) /\ decided_status tr = Some (StatusCode (Response a)).
Proof using empty_document.
  intros (tr0 & -> & _ & Ho & Hs)%happens_Invoke. split; [done|apply Hs].
Qed.
End invoke.
