(* ===== verification/RunnerLogs.v ===== *)
(** * The runner: collecting the logs of an invocation

    [collectLogs] of [pkg/runner/runner.go] on the log lines received before
    its context is cancelled. *)
From S2P Require Export RunnerSafe.

Local Open Scope go_scope.

Section logs.
Context (formatTime : Z -> string).
(** The limit, and the time at which it is found to be exceeded. *)
Context (limit now : Z).

Record collecting := mkCollecting {
  logs : list string;
  logsCollected : Z;
  logsExceeded : bool;
  stdoutSentinelFound : bool;
  stderrSentinelFound : bool
}.

Definition formatLine (line : LogLine) : string :=
  formatLog formatTime (Time line) (Stream line) (Message line).

Definition truncatedLine : string :=
  formatLog formatTime now LogStreamStderr (ErrorFunctionTruncatedLogs limit).

(** One line received. *)
Definition collectLine (st : collecting) (line : LogLine) : collecting :=
  if IsSentinel line then
    if bool_decide (Stream line = LogStreamStdout)
    then mkCollecting (logs st) (logsCollected st) (logsExceeded st) true (stderrSentinelFound st)
    else mkCollecting (logs st) (logsCollected st) (logsExceeded st) (stdoutSentinelFound st) true
  else if logsExceeded st then st
  else
    let formatted := formatLine line in
    if limit <? logsCollected st +u str_len formatted
    then mkCollecting (logs st ++ [truncatedLine]) (logsCollected st) true
           (stdoutSentinelFound st) (stderrSentinelFound st)
    else mkCollecting (logs st ++ [formatted]) (logsCollected st +u str_len formatted) false
           (stdoutSentinelFound st) (stderrSentinelFound st).

(** The loop: the logs, and whether both sentinels were found. *)
Fixpoint collectLoop (st : collecting) (rawLogs : list LogLine) : list string * bool :=
  if stdoutSentinelFound st && stderrSentinelFound st then (logs st, true)
  else
    match rawLogs with
    | [] => (logs st, false)
    | line :: rest => collectLoop (collectLine st line) rest
    end.

Definition collectLogs (rawLogs : list LogLine) : list string * bool :=
  collectLoop (mkCollecting [] 0 false false false) rawLogs.

(** ** Specification *)

(** The lines up to the second sentinel. *)
Fixpoint until_sentinels (out err : bool) (lines : list LogLine) : list LogLine :=
  if out && err then []
  else
    match lines with
    | [] => []
    | line :: rest =>
        line :: (if IsSentinel line then
                   if bool_decide (Stream line = LogStreamStdout)
                   then until_sentinels true err rest else until_sentinels out true rest
                 else until_sentinels out err rest)
    end.

(** The texts of the lines that are not sentinels. *)
Definition texts (lines : list LogLine) : list string :=
  formatLine <$> filter (fun l => IsSentinel l = false) lines.

Definition total : list string -> Z := sumZ str_len.

(** The logs kept of the given texts: all of them, or those before the first
    one that exceeds the limit, and a note. *)
Definition truncated (all result : list string) : Prop :=
  (result = all /\ total all <= limit) \/
  (exists n, (n < List.length all)%nat /\ result = take n all ++ [truncatedLine] /\
     total (take n all) <= limit < total (take (S n) all)).

Lemma total_app l1 l2 : total (l1 ++ l2) = total l1 + total l2.
Proof. apply sumZ_app. Qed.

Lemma total_nonneg l : 0 <= total l.
Proof. apply sumZ_nonneg. intros. apply str_len_nonneg. Qed.

(** The state after the lines whose texts are [all]. *)
Definition collected (all : list string) (st : collecting) : Prop :=
  (logsExceeded st = false /\ logs st = all /\ logsCollected st = total all /\ total all <= limit) \/
  (logsExceeded st = true /\ exists n, (n < List.length all)%nat /\
     logs st = take n all ++ [truncatedLine] /\ total (take n all) <= limit < total (take (S n) all)).

Lemma collected_truncated all st : collected all st -> truncated all (logs st).
Proof. intros [(_ & -> & _ & ?)|(_ & H)]; [by left|by right]. Qed.

Context (limit_range : 0 <= limit < 2 ^ 63).

Lemma collected_more all st t :
  collected all st -> logsExceeded st = true -> collected (all ++ [t]) st.
Proof using Type.
  intros [(? & _)|(_ & n & Hn & Hl & Ht)] He; [congruence|]. right. split; [done|]. exists n.
  rewrite length_app, !take_app_le by lia. split_and!; try done; cbn; lia.
Qed.

Lemma collectLine_collected all st line :
  str_len (formatLine line) < 2 ^ 63 -> collected all st ->
  collected (all ++ texts [line]) (collectLine st line).
Proof using limit_range.
  intros Hlen Hc. unfold collectLine, texts. rewrite filter_cons, filter_nil.
  destruct (IsSentinel line) eqn:Es.
  { rewrite decide_False by done. cbn. rewrite app_nil_r. by case_bool_decide. }
  rewrite decide_True by done. cbn [fmap list_fmap].
  destruct (logsExceeded st) eqn:Ee; [by apply collected_more|].
  destruct Hc as [(_ & Hl & Hn & Hle)|(? & _)]; [|congruence].
  pose proof (total_nonneg all). pose proof (str_len_nonneg (formatLine line)).
  rewrite Hn, u64_small by lia.
  assert (Ht : total (all ++ [formatLine line]) = total all + str_len (formatLine line))
    by (rewrite total_app; cbn; lia).
  destruct (Z.ltb_spec limit (total all + str_len (formatLine line))).
  - right. split; [done|]. exists (List.length all). rewrite length_app. cbn.
    rewrite take_app_length, firstn_all2 by (rewrite length_app; cbn; lia).
    rewrite Hl, Ht. split_and!; try done; lia.
  - left. cbn. rewrite Hl, Ht. split_and!; done.
Qed.

Lemma collectLoop_spec rawLogs : forall st all,
  Forall (fun l => str_len (formatLine l) < 2 ^ 63) rawLogs -> collected all st ->
  let seen := until_sentinels (stdoutSentinelFound st) (stderrSentinelFound st) rawLogs in
  truncated (all ++ texts seen) (collectLoop st rawLogs).1.
Proof using limit_range.
  induction rawLogs as [|line rest IH]; intros st all Hf Hc; cbn [collectLoop until_sentinels].
  - destruct (_ && _); cbn; rewrite app_nil_r; by apply collected_truncated.
  - destruct (_ && _) eqn:Eb; [cbn; rewrite app_nil_r; by apply collected_truncated|].
    apply Forall_cons in Hf as [Hl Hf].
    specialize (IH _ _ Hf (collectLine_collected _ _ _ Hl Hc)). cbn zeta in *.
    set (seen := until_sentinels _ _ rest) in IH.
    assert (Heq : texts [line] ++ texts seen =
      texts (line :: (if IsSentinel line
                      then if bool_decide (Stream line = LogStreamStdout)
                           then until_sentinels true (stderrSentinelFound st) rest
                           else until_sentinels (stdoutSentinelFound st) true rest
                      else until_sentinels (stdoutSentinelFound st) (stderrSentinelFound st) rest))).
    { unfold texts. rewrite <- fmap_app, <- filter_app. cbn [app]. do 3 f_equal.
      unfold seen, collectLine. destruct (IsSentinel line); [by case_bool_decide|].
      destruct (logsExceeded st); [done|]. by destruct (limit <? _). }
    by rewrite <- Heq, (assoc (++)).
Qed.

(** C35: the logs of an activation are the lines written before both streams
    have ended, in order, cut before the line with which their total size would
    exceed the limit of the function, and then closed by one line that says so. *)
Theorem collectLogs_within_limit rawLogs :
  Forall (fun l => str_len (formatLine l) < 2 ^ 63) rawLogs ->
  truncated (texts (until_sentinels false false rawLogs)) (collectLogs rawLogs).1.
Proof using limit_range.
  intros Hf. apply (collectLoop_spec rawLogs (mkCollecting [] 0 false false false) [] Hf).
  left. split_and!; try done. cbn. lia.
Qed.
End logs.

(** ** A concrete invocation *)
Definition test_fn : EntityFunction :=
  {| f_Name := "hello"; f_Namespace := "guest";
     f_Exec := {| exec_Kind := "nodejs:14"; Main := ""; Binary := false;
                  Code := {| Resolved := "code"; AttachmentID := ""; Entities.IsBinary := false |} |};
     f_Annotations := ∅;
     f_Limits := {| Timeout := 3 * Second; lim_Memory := 256 * Megabyte; lim_Logs := 10 * Kilobyte |} |}.

Definition test_message : ActivationMessage :=
  {| TransactionID := "t1"; TransactionStart := 0; ActivationID := "a1"; RootControllerIndex := "0";
     CausedBy := ""; IsBlocking := false;
     msg_Function := {| fn_Namespace := "guest"; fn_Name := "hello"; fn_Version := "0.0.1";
                        fn_Revision := "1"; fn_Binding := "" |};
     Identity := {| id_Subject := "guest"; id_Namespace := "guest"; id_Annotations := ∅;
                    APIKey := "key"; StoreActivations := true |};
     msg_Parameters := None; InitParameters := None |}.

Definition a_container : PooledContainer :=
  {| container := {| c_ref := 0; c_IP := "172.18.0.2" |}; initializedFor := WarmContainerKey_zero;
     lastUsed := 0; memory := 256 * Megabyte; firewallCleanup := None |}.

(** Everything goes well, except that the run is answered with [run_error]. *)
Definition runner_handle (run_error : option go_error) (X : Type) (op : runner_op X) :
    list event -> option (X * list event) :=
  match op in runner_op X return list event -> option (X * list event) with
  | ClockNow => fun tr => Some (1000, tr ++ [])
  | FetchFunction _ _ => fun tr => Some (Ok test_fn, tr ++ [EFetch (Ok test_fn)])
  | PoolGet _ _ _ _ => fun tr => Some (Ok (a_container, false), tr ++ [EGet (Ok (a_container, false))])
  | PoolPut c => fun tr => Some (tt, tr ++ [EPut c])
  | PoolPutToDestroy c => fun tr => Some (None, tr ++ [EDestroy c])
  | ContainerInitialize c _ _ => fun tr => Some (("{}", None), tr ++ [EInit c ("{}", None)])
  | ContainerRun c _ _ => fun tr => Some (("{}", run_error), tr ++ [ERun c ("{}", run_error)])
  | ContainerGetState _ => fun tr => Some (Ok ContainerState_zero, tr ++ [])
  | AwaitLogs c _ => fun tr => Some (([], false), tr ++ [ELogs c false])
  | WriteActivation a => fun tr => Some (None, tr ++ [EWrite a])
  end.

Lemma runner_handle_sound e X (op : runner_op X) tr x tr' :
  runner_handle e X op tr = Some (x, tr') -> observed X op tr x tr'.
Proof. destruct op; cbn; intros ?; by simplify_eq. Qed.

(** Documents without an [error] key. *)
Definition plain_document (s : string) : result (option (gset string)) :=
  if bool_decide (s = "") then Err (ErrText "unexpected end of JSON input") else Ok (Some ∅).
Definition no_error_field (s : string) : result string := Ok "".
Definition some_time (t : Z) : string := "2022-07-05T12:54:27.123Z".

Definition outcome (e : option go_error) : option (Activation * list event) :=
  attempt (runner_handle e) (Invoke plain_document no_error_field some_time test_message) [].

Lemma outcome_happens e a tr :
  outcome e = Some (a, tr) ->
  runs observed (Invoke plain_document no_error_field some_time test_message) [] a tr.
Proof. apply attempt_runs, (runner_handle_sound e). Qed.

Lemma Invoke_protocol_witness :
  exists a tr0, outcome (Some DeadlineExceeded) = Some (a, tr0 ++ [EWrite a]) /\ protocol tr0.
Proof.
  destruct (outcome (Some DeadlineExceeded)) as [[a tr]|] eqn:E; [|vm_compute in E; discriminate].
  destruct (Invoke_protocol plain_document no_error_field some_time eq_refl test_message a tr
              (outcome_happens _ _ _ E)) as (tr0 & Htr & Hp).
  exists a, tr0. split; [by rewrite Htr|exact Hp].
Defined.

Lemma Invoke_response_witness :
  exists a tr, outcome None = Some (a, tr) /\ one_of (Response a) /\
    decided_status plain_document tr = Some (StatusCode (Response a)).
Proof.
  destruct (outcome None) as [[a tr]|] eqn:E; [|vm_compute in E; discriminate].
  exists a, tr. split; [reflexivity|].
  apply (Invoke_response plain_document no_error_field some_time eq_refl test_message a tr).
  exact (outcome_happens None a tr E).
Defined.

Definition log_line (stream msg : string) (sentinel : bool) : LogLine :=
  {| Message := msg; Stream := stream; Time := 0; IsSentinel := sentinel |}.

Definition some_lines : list LogLine :=
  [log_line "stdout" "one" false; log_line "stderr" "two" false; log_line "stdout" "" true;
   log_line "stderr" "three" false; log_line "stderr" "" true; log_line "stdout" "late" false].

Lemma collectLogs_within_limit_witness :
  truncated some_time 100 0 (texts some_time (until_sentinels false false some_lines))
    (collectLogs some_time 100 0 some_lines).1.
Proof.
  apply collectLogs_within_limit; [lia|].
  repeat (apply Forall_cons_2; [vm_compute; reflexivity|]). apply Forall_nil_2.
Defined.
