(* ===== verification/LogLines.v ===== *)
(** * Lines that are read as they arrive

    The [bufio.Reader] of [consumeStream] does not have all of a stream when it
    reads a line: what can be read of a part, what a whole stream is read as,
    and what is sent for it.  The texts that runtimes are expected to write. *)
From S2P Require Export DockerLogs RunnerLogs.

Inductive stream := Stdout | Stderr.

#[export] Instance stream_eq_dec : EqDecision stream.
Proof. solve_decision. Defined.

Definition stream_name (g : stream) : string :=
  match g with Stdout => LogStreamStdout | Stderr => LogStreamStderr end.

(** [ReadLine] does not wait: the buffer is full or has a line feed. *)
Definition lineReady (size : nat) (s : string) : option (string * string) :=
  match index_byte newline (take_str size s) with
  | Some _ => ReadLine size s
  | None => if (String.length s <? size)%nat then None else ReadLine size s
  end.

(** ** Parts of texts *)
Lemma index_byte_found c s t : is_Some (index_byte c (s +:+ String c t)).
Proof.
  induction s as [|d s IH]; rewrite ?app_str_nil_l, ?app_str_cons; cbn; [by rewrite decide_True|].
  destruct (decide _); [done|]. destruct IH as [i ->]. done.
Qed.

Lemma index_byte_lt c s i : index_byte c s = Some i -> (i < String.length s)%nat.
Proof.
  revert i. induction s as [|d s IH]; intros i; cbn; [done|]. destruct (decide _); [intros [= <-]; lia|].
  destruct (index_byte c s) as [j|]; [|done]. intros [= <-]. specialize (IH j eq_refl). lia.
Qed.

Lemma index_byte_app_some c s t i : index_byte c s = Some i -> index_byte c (s +:+ t) = Some i.
Proof.
  revert i. induction s as [|d s IH]; intros i; rewrite ?app_str_cons; cbn; [done|]. destruct (decide _); [done|].
  destruct (index_byte c s) as [j|]; [|done]. intros [= <-]. by rewrite (IH j).
Qed.

Lemma take_str_whole n s : (String.length s <= n)%nat -> take_str n s = s.
Proof. revert n. induction s as [|c s IH]; intros [|n] Hn; cbn in *; [done|done|lia|]. by rewrite IH by lia. Qed.

Lemma take_str_app_le n s t : (n <= String.length s)%nat -> take_str n (s +:+ t) = take_str n s.
Proof.
  revert n. induction s as [|c s IH]; intros [|n] Hn; rewrite ?app_str_cons; cbn in *; try done; [lia|].
  by rewrite IH by lia.
Qed.

Lemma drop_str_app_le n s t : (n <= String.length s)%nat -> drop_str n (s +:+ t) = drop_str n s +:+ t.
Proof.
  revert n. induction s as [|c s IH]; intros [|n] Hn; rewrite ?app_str_cons; cbn in *; try done; [lia|].
  by rewrite IH by lia.
Qed.

(** The beginning of what is in the buffer, with more after it. *)
Lemma window n s t : exists u, take_str n (s +:+ t) = take_str n s +:+ u /\
  ((n <= String.length s)%nat -> u = "").
Proof.
  destruct (Nat.le_gt_cases n (String.length s)).
  - exists "". by rewrite take_str_app_le, app_str_nil_r.
  - exists (take_str (n - String.length s) t). split; [|lia].
    rewrite take_str_app_ge, (take_str_whole n s) by lia. done.
Qed.

Section reading.
Context (size : nat).

(** ** One line *)
Lemma ReadLine_short s log rest : ReadLine size s = Some (log, rest) -> (String.length log <= size)%nat.
Proof using.
  unfold ReadLine. destruct s as [|c s]; [done|].
  destruct (index_byte newline (take_str size (String c s))) as [i|] eqn:Hi; [intros [= <- _]|].
  - apply index_byte_lt in Hi. rewrite length_take_str in Hi.
    assert (String.length (TrimSuffix (take_str i (String c s)) carriage_return) <= String.length (take_str i (String c s)))%nat
      by (unfold TrimSuffix; destruct (HasSuffix _ _); rewrite ?length_take_str; lia).
    rewrite length_take_str in *. lia.
  - destruct (Nat.ltb_spec (String.length (String c s)) size); [intros [= <- _]; lia|].
    destruct (HasSuffix _ _); intros [= <- _]; rewrite length_take_str; lia.
Qed.

Lemma lineReady_ReadLine s x : lineReady size s = Some x -> ReadLine size s = Some x.
Proof using. unfold lineReady. destruct (index_byte _ _); [done|]. by destruct (_ <? _)%nat. Qed.

(** What arrives later does not change a line that can be read. *)
Lemma lineReady_app s t log rest :
  (0 < size)%nat -> lineReady size s = Some (log, rest) -> lineReady size (s +:+ t) = Some (log, rest +:+ t).
Proof using.
  intros Hsize Hr. pose proof (lineReady_ReadLine _ _ Hr) as Hl. unfold lineReady, ReadLine in *.
  destruct s as [|c s]; [done|]. destruct (String c s +:+ t) as [|c' s'] eqn:E; [done|]. rewrite <- E.
  generalize dependent (String c s). clear c s. intros s Hr Hl _.
  destruct (window size s t) as (u & Hw & Hu). rewrite Hw.
  destruct (index_byte newline (take_str size s)) as [i|] eqn:Hi.
  - rewrite (index_byte_app_some _ _ _ _ Hi). apply index_byte_lt in Hi. rewrite length_take_str in Hi.
    injection Hl as <- <-. by rewrite take_str_app_le, drop_str_app_le by lia.
  - destruct (Nat.ltb_spec (String.length s) size) as [|Hge]; [done|].
    rewrite (Hu Hge), app_str_nil_r, Hi. rewrite length_app_str.
    destruct (Nat.ltb_spec (String.length s + String.length t) size) as [|_]; [lia|].
    destruct (HasSuffix (take_str size s) carriage_return); injection Hl as <- <-.
    + by rewrite take_str_app_le, drop_str_app_le by lia.
    + by rewrite drop_str_app_le by lia.
Qed.

Lemma lineReady_None buf : (0 < size)%nat -> lineReady size buf = None -> (String.length buf < size)%nat.
Proof using.
  intros Hs. unfold lineReady, ReadLine. destruct buf as [|b buf]; [done|].
  destruct (index_byte _ _); [done|]. destruct (Nat.ltb_spec (String.length (String b buf)) size); [done|].
  by destruct (HasSuffix _ _).
Qed.

Lemma lineReady_empty : (0 < size)%nat -> lineReady size "" = None.
Proof using. intros Hs. unfold lineReady. destruct size; [lia|done]. Qed.

Lemma lineReady_shrinks buf log rest :
  (2 <= size)%nat -> lineReady size buf = Some (log, rest) -> (String.length rest < String.length buf)%nat.
Proof using. intros Hs Hr%lineReady_ReadLine. by apply (ReadLine_shrinks size buf log). Qed.

(** ** Many lines *)
Inductive reads : list string -> string -> string -> Prop :=
| reads_nil s : reads [] s s
| reads_cons log ls s rest s' :
    lineReady size s = Some (log, rest) -> reads ls rest s' -> reads (log :: ls) s s'.

Lemma reads_trans l1 l2 s1 s2 s3 : reads l1 s1 s2 -> reads l2 s2 s3 -> reads (l1 ++ l2) s1 s3.
Proof using. induction 1; cbn; [done|]. intros. econstructor; eauto. Qed.

Lemma reads_snoc ls s s' log rest : reads ls s s' -> lineReady size s' = Some (log, rest) -> reads (ls ++ [log]) s rest.
Proof using. intros Hr Hl. eapply reads_trans; [exact Hr|]. econstructor; [exact Hl|constructor]. Qed.

Lemma reads_app ls s s' t : (0 < size)%nat -> reads ls s s' -> reads ls (s +:+ t) (s' +:+ t).
Proof using. intros Hs. induction 1; econstructor; [by apply lineReady_app|done]. Qed.

(** A text can only be read in one way. *)
Lemma reads_det l1 s s1 : reads l1 s s1 -> forall l2 s2, reads l2 s s2 -> lineReady size s2 = None ->
  exists l3, l2 = l1 ++ l3 /\ reads l3 s1 s2.
Proof using.
  induction 1 as [s|log ls s rest s1 Hl _ IH]; intros l2 s2 H2 Hn; [by exists l2|].
  destruct H2 as [s|log' ls' s rest' s2 Hl' H2]; [congruence|].
  assert (log' = log /\ rest' = rest) as [-> ->] by (split; congruence).
  destruct (IH _ _ H2 Hn) as (l3 & -> & H3). by exists l3.
Qed.

Lemma reads_stuck l s s' : lineReady size s = None -> reads l s s' -> l = [] /\ s' = s.
Proof using. intros Hn. by destruct 1; [|congruence]. Qed.

Lemma reads_total s : (2 <= size)%nat -> exists ls left, reads ls s left /\ lineReady size left = None.
Proof using.
  intros Hs. remember (String.length s) as n eqn:Hn. revert s Hn.
  induction n as [n IH] using lt_wf_ind. intros s ->.
  destruct (lineReady size s) as [[log rest]|] eqn:Hl; [|exists [], s; split; [constructor|done]].
  destruct (IH _ (lineReady_shrinks _ _ _ Hs Hl) rest eq_refl) as (ls & left & Hr & Hn).
  exists (log :: ls), left. split; [by econstructor|done].
Qed.
End reading.

(** ** What is sent for a line *)
Definition strip (l : LogLine) : string * bool := (Message l, IsSentinel l).
Definition emission (line : string) : list (string * bool) := strip <$> emitLine "" 0 line.

Lemma strip_emitLine name t line : strip <$> emitLine name t line = emission line.
Proof. unfold emission, emitLine. destruct (_ <? _)%nat; [|done]. by destruct (_ <? _)%nat. Qed.

Lemma emission_full line : HasSuffix line logSentinel = false -> emission line = [(line, false)].
Proof. intros Hs. unfold emission. by rewrite emitLine_no_suffix. Qed.

Lemma emission_last line :
  emission (line +:+ logSentinel) = (if decide (line = "") then [] else [(line, false)]) ++ [("", true)].
Proof.
  unfold emission, emitLine. rewrite TrimSuffix_app, length_app_str.
  destruct (Nat.ltb_spec (String.length line) (String.length line + String.length logSentinel)) as [_|Hl];
    [|cbn in Hl; lia].
  destruct (decide (line = "")) as [->|Hne]; [done|]. by destruct line.
Qed.

Lemma emission_nonempty line : emission line <> [].
Proof. unfold emission, emitLine. destruct (_ <? _)%nat; [|done]. by destruct (_ <? _)%nat. Qed.

Lemma emissions_nil ls : ls ≫= emission = [] -> ls = [].
Proof. destruct ls as [|l ls]; [done|]. cbn. by intros [?%emission_nonempty _]%app_nil. Qed.

Lemma emitLine_stream name t line : Forall (fun l => Stream l = name) (emitLine name t line).
Proof.
  unfold emitLine. destruct (_ <? _)%nat; [|by repeat constructor]. by destruct (_ <? _)%nat; repeat constructor.
Qed.

Lemma emitLine_short name t line :
  Forall (fun l => (String.length (Message l) <= String.length line)%nat) (emitLine name t line).
Proof.
  unfold emitLine. destruct (Nat.ltb_spec (String.length (TrimSuffix line logSentinel)) (String.length line));
    [|by repeat constructor].
  destruct (_ <? _)%nat; repeat constructor; cbn; lia.
Qed.

Lemma emitLine_count name t line : (List.length (emitLine name t line) <= 2)%nat.
Proof. unfold emitLine. destruct (_ <? _)%nat; [|cbn; lia]. destruct (_ <? _)%nat; cbn; lia. Qed.

(** Reading a stream as it arrives gives what [consumeStream] makes of the whole of it, but for a last line that
    has no end yet. *)
Lemma consumeStream_reads size clock name : (2 <= size)%nat -> forall ls s left, reads size ls s left ->
  lineReady size left = None -> forall fuel n, (String.length s < fuel)%nat ->
  exists lines, consumeStream fuel clock n name size s = Some lines /\
    strip <$> lines = (ls ≫= emission) ++ (if decide (left = "") then [] else emission left).
Proof.
  intros Hsize. induction 1 as [s|log ls s rest left Hl _ IH]; intros Hn fuel n Hf; (destruct fuel as [|fuel]; [lia|]).
  - pose proof (lineReady_None size s ltac:(lia) Hn) as Hlen. cbn [consumeStream].
    destruct (decide (s = "")) as [->|Hne]; [by exists []|].
    assert (Hrl : ReadLine size s = Some (s, "")).
    { unfold lineReady in Hn. unfold ReadLine in *. destruct s as [|c s]; [done|].
      destruct (index_byte _ _); [done|]. by rewrite (proj2 (Nat.ltb_lt _ _)). }
    rewrite Hrl. destruct fuel as [|fuel]; [destruct s; [done|cbn in Hf; lia]|]. cbn. eexists. split; [done|].
    by rewrite app_nil_r, strip_emitLine.
  - pose proof (lineReady_shrinks _ _ _ _ Hsize Hl). rewrite (consumeStream_step _ _ _ _ _ _ _ _ (lineReady_ReadLine _ _ _ Hl)).
    destruct (IH Hn fuel (S n) ltac:(lia)) as (lines & -> & Hls). cbn. eexists. split; [done|].
    by rewrite fmap_app, strip_emitLine, Hls, (assoc (++)).
Qed.

(** ** What runtimes write

    A text that is read as these lines and then as a sentinel, with nothing after it. *)
Definition proper (size : nat) (s : string) (lines : list string) : Prop :=
  exists rd, reads size rd s "" /\ rd ≫= emission = ((fun l => (l, false)) <$> lines) ++ [("", true)].

(** The lines that a function writes to each stream, and what it leaves of a last line that it does not end. *)
Record output := { fullLines : stream -> list string; lastLine : stream -> string }.

(** The runtime ends each stream with the sentinel. *)
Definition lines_of (o : output) (g : stream) : list string := fullLines o g ++ [lastLine o g +:+ logSentinel].
Definition written_by (o : output) (g : stream) : string := unlines (lines_of o g).

Definition printed_lines (o : output) (g : stream) : list string :=
  fullLines o g ++ (if decide (lastLine o g = "") then [] else [lastLine o g]).

(** Lines shorter than the buffer of [consumeStream], without a carriage return at their end, and without a
    sentinel of their own. *)
Definition printable (size : nat) (l : string) : Prop :=
  no_newline l /\ HasSuffix l carriage_return = false /\ (String.length l < size)%nat.

Definition well_behaved (size : nat) (o : output) : Prop :=
  forall g, Forall (fun l => printable size l /\ HasSuffix l logSentinel = false) (fullLines o g) /\
    printable size (lastLine o g +:+ logSentinel).

Lemma lineReady_line size line tail :
  printable size line -> lineReady size (line +:+ String newline tail) = Some (line, tail).
Proof.
  intros (Hn & Hc & Hl). unfold lineReady. rewrite take_str_app_ge by lia.
  destruct (size - String.length line)%nat as [|k] eqn:E; [lia|]. cbn [take_str].
  destruct (index_byte_found newline line (take_str k tail)) as [i ->]. by apply ReadLine_full_line.
Qed.

Lemma reads_unlines size ls : Forall (printable size) ls -> reads size ls (unlines ls) "".
Proof. induction 1; [constructor|]. econstructor; [by apply lineReady_line|done]. Qed.

Lemma well_behaved_proper size o g : well_behaved size o -> proper size (written_by o g) (printed_lines o g).
Proof.
  intros [Hf Hl]%(fun H => H g). exists (lines_of o g). unfold written_by, lines_of, printed_lines. split.
  - apply reads_unlines, Forall_app. split; [|by apply Forall_singleton].
    eapply Forall_impl; [exact Hf|]. by intros l [].
  - rewrite bind_app. cbn. rewrite app_nil_r, emission_last, fmap_app, <- (assoc (++)).
    f_equal; [|by destruct (decide _)]. induction Hf as [|l ls [_ Hs] _ IH]; cbn; [done|]. by rewrite emission_full, IH.
Qed.
