(* ===== verification/LogStreams.v ===== *)
(** * The logs of a container, from its output to the activations

    Between a container and [collectLogs] of [pkg/runner/runner.go] are three
    goroutines of [pkg/exec/docker/container.go], which [consumeLogs] starts:
    one copies the frames of the attached connection into two pipes, two read a
    pipe line by line ([consumeStream]) and send the lines to one channel.  The
    container is used by one invocation after another, and the goroutines stay. *)
From stdpp Require Import functions.
From S2P Require Export LogLines.

(** ** The goroutines *)

(** An invocation that collects its logs: what is written to each stream for it, its limit, the time at which
    it would find it exceeded, and what [collectLogs] has received. *)
Record run := mkRun { printed : stream -> string; run_limit : Z; run_late : Z; received : list LogLine }.

Record pipeline := mkPipeline {
  unwritten : stream -> string;         (* what the container has still to write *)
  frames : list (stream * string);      (* the connection, [logsResp] *)
  copying : stream * string;            (* what [StdCopy] is writing to a pipe *)
  buffered : stream -> string;          (* the [bufio.Reader] of a [consumeStream] *)
  sending : stream -> list LogLine;     (* what it has still to send before it reads on *)
  collector : option run;
  finished : list (run * (list string * bool));   (* what [Invoke] got, and whether after the timeout *)
}.

Definition started : pipeline :=
  mkPipeline (fun _ => "") [] (Stdout, "") (fun _ => "") (fun _ => []) None [].

Section pipeline.
Context (formatTime : Z -> string) (size : nat).

Definition answer (r : run) : list string * bool :=
  collectLogs formatTime (run_limit r) (run_late r) (received r).

Definition receive (l : LogLine) (r : run) : run :=
  mkRun (printed r) (run_limit r) (run_late r) (received r ++ [l]).

(** What the container and the goroutines do. A write to a pipe takes what there is room for in the buffer
    of a reader that waits for more; a send takes place when [collectLogs] receives. *)
Inductive move (c : pipeline) : pipeline -> Prop :=
| move_write g s rest :
    unwritten c g = s +:+ rest -> s <> "" ->
    move c (mkPipeline (<[g := rest]> (unwritten c)) (frames c ++ [(g, s)]) (copying c) (buffered c)
              (sending c) (collector c) (finished c))
| move_demux f fs :
    (copying c).2 = "" -> frames c = f :: fs ->
    move c (mkPipeline (unwritten c) fs f (buffered c) (sending c) (collector c) (finished c))
| move_fill g s rest :
    copying c = (g, s +:+ rest) -> s <> "" -> sending c g = [] -> lineReady size (buffered c g) = None ->
    (String.length (buffered c g +:+ s) <= size)%nat ->
    move c (mkPipeline (unwritten c) (frames c) (g, rest) (<[g := buffered c g +:+ s]> (buffered c))
              (sending c) (collector c) (finished c))
| move_read g log rest t :
    sending c g = [] -> lineReady size (buffered c g) = Some (log, rest) ->
    move c (mkPipeline (unwritten c) (frames c) (copying c) (<[g := rest]> (buffered c))
              (<[g := emitLine (stream_name g) t log]> (sending c)) (collector c) (finished c))
| move_send g l ls r :
    sending c g = l :: ls -> collector c = Some r -> (answer r).2 = false ->
    move c (mkPipeline (unwritten c) (frames c) (copying c) (buffered c) (<[g := ls]> (sending c))
              (Some (receive l r)) (finished c)).

Inductive pipeline_step (c : pipeline) : pipeline -> Prop :=
| step_moves c' : move c c' -> pipeline_step c c'
  (* the next invocation gets the container after the one before has put it back, which it does not do
     after a timeout; the container writes anything for it, and at any time from now on *)
| step_begins texts limit late :
    collector c = None -> Forall (fun f => f.2.2 = false) (finished c) -> 0 <= limit < 2 ^ 63 ->
    pipeline_step c (mkPipeline (fun g => unwritten c g +:+ texts g) (frames c) (copying c)
                       (buffered c) (sending c) (Some (mkRun texts limit late [])) (finished c))
| step_collected r :
    collector c = Some r -> (answer r).2 = true ->
    pipeline_step c (mkPipeline (unwritten c) (frames c) (copying c) (buffered c) (sending c) None
                       (finished c ++ [(r, ((answer r).1, false))]))
| step_timeout r :
    collector c = Some r ->
    pipeline_step c (mkPipeline (unwritten c) (frames c) (copying c) (buffered c) (sending c) None
                       (finished c ++ [(r, ((answer r).1, true))])).

Definition pipeline_reachable : pipeline -> Prop := rtc pipeline_step started.
End pipeline.

(** ** What is on its way *)
Definition text_of (g : stream) (fs : list (stream * string)) : string :=
  foldr (fun f s => (if decide (f.1 = g) then f.2 else "") +:+ s) "" fs.

Lemma text_of_app g fs1 fs2 : text_of g (fs1 ++ fs2) = text_of g fs1 +:+ text_of g fs2.
Proof.
  unfold text_of. induction fs1 as [|f fs1 IH]; cbn; [done|]. by rewrite IH, <- app_str_assoc.
Qed.

Definition from (g : stream) (ls : list LogLine) : list LogLine := filter (fun l => Stream l = stream_name g) ls.

#[local] Arguments from : simpl never.

Lemma stream_name_inj g g' : stream_name g = stream_name g' -> g = g'.
Proof. by destruct g, g'. Qed.

Lemma from_own g ls : Forall (fun l => Stream l = stream_name g) ls -> from g ls = ls.
Proof. intros Hf. apply filter_all. by apply Forall_forall. Qed.

Lemma from_snoc g ls l :
  from g (ls ++ [l]) = if decide (Stream l = stream_name g) then from g ls ++ [l] else from g ls.
Proof.
  unfold from. rewrite filter_app, filter_cons, filter_nil. by destruct (decide _); rewrite ?app_nil_r.
Qed.

(** ** When collecting ends *)
Definition is_sentinel (out : bool) (l : LogLine) : bool :=
  IsSentinel l && Bool.eqb out (bool_decide (Stream l = LogStreamStdout)).

Lemma collectLoop_done formatTime limit late ls : forall st,
  (collectLoop formatTime limit late st ls).2 =
    (stdoutSentinelFound st || existsb (is_sentinel true) ls) &&
    (stderrSentinelFound st || existsb (is_sentinel false) ls).
Proof.
  induction ls as [|l ls IH]; intros st; cbn [collectLoop existsb].
  - rewrite !orb_false_r. by destruct (_ && _).
  - destruct (stdoutSentinelFound st && stderrSentinelFound st) eqn:Eb.
    { by apply andb_prop in Eb as [-> ->]. }
    rewrite IH. unfold collectLine, is_sentinel. destruct (IsSentinel l).
    { case_bool_decide; cbn; rewrite ?orb_true_r; done. }
    destruct (logsExceeded st); [done|]. by destruct (_ <? _).
Qed.

Lemma collectLogs_done formatTime limit late ls :
  (collectLogs formatTime limit late ls).2 = existsb (is_sentinel true) ls && existsb (is_sentinel false) ls.
Proof. unfold collectLogs. by rewrite collectLoop_done. Qed.

(** What is received before that is all taken into account. *)
Lemma until_snoc ls l : forall out err,
  (out || existsb (is_sentinel true) ls) && (err || existsb (is_sentinel false) ls) = false ->
  until_sentinels out err (ls ++ [l]) = ls ++ [l].
Proof.
  induction ls as [|x ls IH]; intros out err; cbn [existsb app until_sentinels].
  - rewrite !orb_false_r. intros ->. f_equal. by repeat case_match.
  - intros Hn. assert (Hb : out && err = false) by (destruct out, err; done). rewrite Hb. f_equal.
    unfold is_sentinel at 1 3 in Hn. destruct (IsSentinel x); [|by apply IH].
    case_bool_decide; apply IH; cbn in Hn |- *; by rewrite ?orb_true_r in Hn.
Qed.

Lemma length_pad_spaces n s : String.length (pad_spaces n s) = Nat.max n (String.length s).
Proof. revert s. induction n as [|n IH]; intros [|c s]; cbn; rewrite ?IH; cbn; lia. Qed.

(** ** The invariant *)
Section invariant.
Context (formatTime : Z -> string) (size : nat) (size_range : 2 <= Z.of_nat size < 2 ^ 62).

Notation move_ := (move formatTime size).
Notation step_ := (pipeline_step formatTime size).
Notation answer_ := (answer formatTime).

(** What is between the container and the lines of a stream, oldest first. *)
Definition text (c : pipeline) (g : stream) : string :=
  buffered c g +:+ text_of g (copying c :: frames c) +:+ unwritten c g.

(** All the invocations on the container, the oldest first. *)
Definition invocations (c : pipeline) : list run :=
  (fst <$> finished c) ++ match collector c with Some r => [r] | None => [] end.

(** What is written to a stream for all of them, and what they have received of it. *)
Definition produced (c : pipeline) (g : stream) : string := foldr (fun r s => printed r g +:+ s) "" (invocations c).
Definition got (c : pipeline) (g : stream) : list (string * bool) :=
  invocations c ≫= (fun r => strip <$> from g (received r)).

(** The text [s] of a stream has been read up to what is on its way, and its lines have become [ls] and what is
    being sent. *)
Definition carried (c : pipeline) (g : stream) (s : string) (ls : list (string * bool)) : Prop :=
  exists rd, reads size rd s (text c g) /\ rd ≫= emission = ls ++ (strip <$> sending c g).

Definition line_ok (g : stream) (l : LogLine) : Prop :=
  Stream l = stream_name g /\ (String.length (Message l) <= size)%nat.

Definition run_ok (r : run) : Prop :=
  0 <= run_limit r < 2 ^ 63 /\ Forall (fun l => exists g, line_ok g l) (received r) /\
  until_sentinels false false (received r) = received r.

Definition idle (c : pipeline) : Prop := forall g, text c g = "" /\ sending c g = [].

(** The lines received that are no sentinels. *)
Definition lines_got (r : run) : list LogLine := filter (fun l => IsSentinel l = false) (received r).

(** What an invocation got. *)
Definition answered (f : run * (list string * bool)) : Prop :=
  let '(r, (logs, cancelled)) := f in
  truncated formatTime (run_limit r) (run_late r) (formatLine formatTime <$> lines_got r) logs /\
  (cancelled = false -> forall g, exists l, l ∈ received r /\ Stream l = stream_name g /\ IsSentinel l = true).

(** Every invocation has written lines and then a sentinel to each stream, and nothing after it. *)
Definition all_proper (c : pipeline) : Prop :=
  Forall (fun r => forall g, exists ls, proper size (printed r g) ls) (invocations c).

Definition own_lines (f : run * (list string * bool)) : Prop :=
  forall g ls, proper size (printed f.1 g) ls ->
    if f.2.2 then Message <$> from g (lines_got f.1) `prefix_of` ls
    else Message <$> from g (lines_got f.1) = ls.

(** An invocation that collects gets what is written for it, and if none does nothing is on its way. *)
Definition own_text (c : pipeline) : Prop :=
  match collector c with
  | Some r => forall g, carried c g (printed r g) (strip <$> from g (received r))
  | None => Forall (fun f => f.2.2 = false) (finished c) -> idle c
  end.

Record pipeline_ok (c : pipeline) : Prop := {
  po_carried g : carried c g (produced c g) (got c g);
  po_sending g : Forall (line_ok g) (sending c g);
  po_runs : Forall run_ok (invocations c);
  po_answered : Forall answered (finished c);
  po_own : all_proper c -> own_text c /\ Forall own_lines (finished c)
}.

(** *** Moving text *)

(** Writing, copying and filling the buffer move text, and nothing else. *)
Definition carries (c c' : pipeline) : Prop :=
  collector c' = collector c /\ finished c' = finished c /\
  forall g, text c' g = text c g /\ sending c' g = sending c g.

Lemma carries_ok c c' : carries c c' -> pipeline_ok c -> pipeline_ok c'.
Proof using Type.
  intros (Hc & Hf & Hg) [H1 H2 H3 H4 H5].
  assert (Hi : invocations c' = invocations c) by (unfold invocations; by rewrite Hc, Hf).
  assert (Hk : forall g s ls, carried c g s ls -> carried c' g s ls)
    by (intros g s ls; unfold carried; by destruct (Hg g) as [-> ->]).
  split; rewrite ?Hi, ?Hf; try done.
  - intros g. unfold produced, got. rewrite Hi. by apply Hk.
  - intros g. by destruct (Hg g) as [_ ->].
  - unfold all_proper. rewrite Hi. intros Hp. destruct (H5 Hp) as [Ho Hl]. split; [|done].
    unfold own_text in *. rewrite Hc, Hf. destruct (collector c); [intros g; by apply Hk|].
    intros Hn g. destruct (Hg g) as [-> ->]. by apply Ho.
Qed.

Lemma carries_write c g s rest :
  unwritten c g = s +:+ rest ->
  carries c (mkPipeline (<[g := rest]> (unwritten c)) (frames c ++ [(g, s)]) (copying c) (buffered c)
              (sending c) (collector c) (finished c)).
Proof using Type.
  intros Hu. split_and!; [done|done|]. intros g'. split; [|done]. unfold text. cbn [buffered copying frames unwritten].
  rewrite app_comm_cons, text_of_app. cbn [text_of foldr]. rewrite app_str_nil_r, <- !app_str_assoc.
  do 2 f_equal. destruct (decide (g = g')) as [<-|Hne].
  - rewrite fn_lookup_insert, Hu. by rewrite decide_True.
  - rewrite fn_lookup_insert_ne by done. by rewrite decide_False.
Qed.

Lemma carries_demux c f fs :
  (copying c).2 = "" -> frames c = f :: fs ->
  carries c (mkPipeline (unwritten c) fs f (buffered c) (sending c) (collector c) (finished c)).
Proof using Type.
  intros He Hf. split_and!; [done|done|]. intros g. split; [|done]. unfold text.
  cbn [buffered copying frames unwritten]. rewrite Hf. cbn [text_of foldr].
  rewrite He. by destruct (decide ((copying c).1 = g)); rewrite app_str_nil_l.
Qed.

Lemma carries_fill c g s rest :
  copying c = (g, s +:+ rest) ->
  carries c (mkPipeline (unwritten c) (frames c) (g, rest) (<[g := buffered c g +:+ s]> (buffered c))
              (sending c) (collector c) (finished c)).
Proof using Type.
  intros Hc. split_and!; [done|done|]. intros g'. split; [|done]. unfold text.
  cbn [buffered copying frames unwritten]. rewrite Hc. cbn [text_of foldr fst snd].
  destruct (decide (g = g')) as [<-|Hne].
  - by rewrite fn_lookup_insert, <- !app_str_assoc.
  - by rewrite fn_lookup_insert_ne.
Qed.

(** *** Reading *)
Definition after_read (c : pipeline) (g : stream) (t : Z) (log rest : string) : pipeline :=
  mkPipeline (unwritten c) (frames c) (copying c) (<[g := rest]> (buffered c))
    (<[g := emitLine (stream_name g) t log]> (sending c)) (collector c) (finished c).

Lemma read_text c g t log rest :
  lineReady size (buffered c g) = Some (log, rest) ->
  lineReady size (text c g) = Some (log, text (after_read c g t log rest) g).
Proof using size_range.
  intros Hr. unfold text. cbn. rewrite fn_lookup_insert. apply lineReady_app; [lia|done].
Qed.

Lemma read_carried c g g' t log rest s ls :
  sending c g = [] -> lineReady size (buffered c g) = Some (log, rest) ->
  carried c g' s ls -> carried (after_read c g t log rest) g' s ls.
Proof using size_range.
  intros He Hr (rd & Hrd & Heq). destruct (decide (g = g')) as [<-|Hne].
  - exists (rd ++ [log]). split; [eapply reads_snoc; [exact Hrd|by apply read_text]|].
    cbn. rewrite fn_lookup_insert, strip_emitLine, bind_app, Heq, He. cbn. by rewrite !app_nil_r.
  - exists rd. unfold text. cbn. by rewrite !fn_lookup_insert_ne.
Qed.

Lemma read_ok c g t log rest :
  sending c g = [] -> lineReady size (buffered c g) = Some (log, rest) ->
  pipeline_ok c -> pipeline_ok (after_read c g t log rest).
Proof using size_range.
  intros He Hr [H1 H2 H3 H4 H5]. split; try done.
  - intros g'. by apply read_carried, H1.
  - intros g'. cbn. destruct (decide (g = g')) as [<-|Hne]; [|rewrite fn_lookup_insert_ne by done; apply H2].
    rewrite fn_lookup_insert. apply lineReady_ReadLine, ReadLine_short in Hr.
    pose proof (emitLine_stream (stream_name g) t log) as Hs. pose proof (emitLine_short (stream_name g) t log) as Hl.
    rewrite Forall_forall in Hs, Hl |- *. intros l Hin. split; [by apply Hs|]. specialize (Hl l Hin). cbn in Hl. lia.
  - intros Hp. destruct (H5 Hp) as [Ho Hl]. split; [|done]. unfold own_text in *. cbn.
    destruct (collector c) as [r|]; [intros g'; by apply read_carried, Ho|].
    intros Hn. exfalso. destruct (Ho Hn g) as [Ht _]. apply (read_text c g t) in Hr. rewrite Ht in Hr.
    rewrite lineReady_empty in Hr by lia. done.
Qed.

(** *** Sending *)
Lemma invocations_replace c r r' fr un cp bu se :
  collector c = Some r -> printed r' = printed r ->
  let c' := mkPipeline un fr cp bu se (Some r') (finished c) in
  invocations c = (fst <$> finished c) ++ [r] /\ invocations c' = (fst <$> finished c) ++ [r'] /\
  (forall g, produced c' g = produced c g) /\ (all_proper c' -> all_proper c).
Proof using Type.
  intros Hc Hp c'. unfold c', produced, all_proper, invocations. cbn. rewrite Hc. split_and!; try done.
  - intros g. rewrite !foldr_app. cbn. by rewrite Hp.
  - rewrite !Forall_app, !Forall_singleton, Hp. done.
Qed.

Definition after_send (c : pipeline) (g : stream) (ls : list LogLine) (r : run) : pipeline :=
  mkPipeline (unwritten c) (frames c) (copying c) (buffered c) (<[g := ls]> (sending c)) (Some r) (finished c).

Lemma send_carried c g g' l ls r s before rec :
  sending c g = l :: ls -> line_ok g l ->
  carried c g' s (before ++ (strip <$> from g' rec)) ->
  carried (after_send c g ls r) g' s (before ++ (strip <$> from g' (rec ++ [l]))).
Proof using Type.
  intros He [Hl _] (rd & Hrd & Heq). exists rd. split; [done|]. rewrite Heq. cbn. rewrite from_snoc, Hl.
  destruct (decide (g = g')) as [<-|Hne].
  - rewrite fn_lookup_insert, decide_True, He, fmap_app, <- !(assoc (++)) by done. done.
  - rewrite fn_lookup_insert_ne by done. rewrite decide_False; [done|]. by intros ?%stream_name_inj.
Qed.

Lemma send_ok c r g l ls :
  collector c = Some r -> sending c g = l :: ls -> (answer_ r).2 = false ->
  pipeline_ok c -> pipeline_ok (after_send c g ls (receive l r)).
Proof using Type.
  intros Hc He Hn [H1 H2 H3 H4 H5].
  destruct (invocations_replace c r (receive l r) (frames c) (unwritten c) (copying c) (buffered c)
    (<[g := ls]> (sending c)) Hc eq_refl) as (Hi & Hi' & Hpr & Hap).
  pose proof (H2 g) as Hg. rewrite He in Hg. apply Forall_cons in Hg as [Hlk Hls].
  rewrite Hi in H3. apply Forall_app in H3 as [H3 (Hlim & Hrec & Hun)%Forall_singleton]. split.
  - intros g'. unfold after_send at 2 3. rewrite Hpr. unfold got. rewrite Hi', bind_app. cbn. rewrite app_nil_r.
    apply (send_carried c g g' l ls); [done|done|]. specialize (H1 g'). unfold got in H1.
    rewrite Hi, bind_app in H1. cbn in H1. by rewrite app_nil_r in H1.
  - intros g'. cbn. destruct (decide (g = g')) as [<-|Hne]; [by rewrite fn_lookup_insert|rewrite fn_lookup_insert_ne by done; apply H2].
  - unfold after_send. rewrite Hi'. apply Forall_app. split; [done|]. apply Forall_singleton. split; [done|split].
    + cbn. apply Forall_app. split; [done|]. apply Forall_singleton. by exists g.
    + cbn. apply until_snoc. unfold answer in Hn. by rewrite collectLogs_done in Hn.
  - done.
  - intros Hp. destruct (H5 (Hap Hp)) as [Ho Hl]. split; [|done]. unfold own_text in *. rewrite Hc in Ho. cbn.
    intros g'. apply (send_carried c g g' l ls _ _ []); [done|done|]. apply Ho.
Qed.

Lemma move_ok c c' : pipeline_ok c -> move_ c c' -> pipeline_ok c'.
Proof using size_range.
  intros Hok Hm. destruct Hm as [g s rest Hu _|f fs He Hf|g s rest Hc _ _ _ _|g log rest t He Hr|g l ls r He Hcol Hn].
  - by eapply carries_ok; [apply carries_write|].
  - by eapply carries_ok; [apply carries_demux|].
  - by eapply carries_ok; [apply carries_fill|].
  - by apply read_ok.
  - by apply (send_ok c r g l ls).
Qed.

(** ** The end of an invocation *)
Definition plain (l : list (string * bool)) : list string := fst <$> filter (fun x => x.2 = false) l.

Lemma plain_app l1 l2 : plain (l1 ++ l2) = plain l1 ++ plain l2.
Proof using Type. unfold plain. by rewrite filter_app, fmap_app. Qed.

Lemma plain_printed l : plain (((fun x => (x, false)) <$> l) ++ [("", true)]) = l.
Proof using Type.
  rewrite plain_app. unfold plain at 2. cbn. rewrite app_nil_r. unfold plain.
  induction l as [|x l IH]; [done|]. by rewrite fmap_cons, filter_cons, decide_True, fmap_cons, IH.
Qed.

Lemma messages_plain g ls :
  Message <$> from g (filter (fun l => IsSentinel l = false) ls) = plain (strip <$> from g ls).
Proof using Type.
  induction ls as [|l ls IH]; [done|]. unfold from, plain in *. rewrite !filter_cons.
  destruct (decide (IsSentinel l = false)) as [Hs|Hs].
  - rewrite filter_cons. destruct (decide (Stream l = stream_name g)); [|done].
    by rewrite !fmap_cons, filter_cons, decide_True, fmap_cons, IH.
  - destruct (decide (Stream l = stream_name g)); [|done]. by rewrite fmap_cons, filter_cons, decide_False.
Qed.

Lemma sentinel_ends (a b e : list (string * bool)) x :
  Forall (fun y => y.2 = false) e -> a ++ b = e ++ [x] -> (exists y, y ∈ a /\ y.2 = true) -> b = [].
Proof using Type.
  intros He Heq (y & Hy & Hy2). destruct b as [|z b] using rev_ind; [done|]. clear IHb.
  rewrite (assoc (++)) in Heq. apply app_inj_tail in Heq as [<- _].
  apply Forall_app in He as [Ha _]. rewrite Forall_forall in Ha. specialize (Ha y Hy). cbn in Ha. congruence.
Qed.

Lemma sentinel_received r g :
  Forall (fun l => exists g, line_ok g l) (received r) ->
  existsb (is_sentinel (bool_decide (g = Stdout))) (received r) = true <->
  exists l, l ∈ received r /\ Stream l = stream_name g /\ IsSentinel l = true.
Proof using Type.
  intros Hr. rewrite existsb_exists. rewrite Forall_forall in Hr.
  assert (Hname : forall g', bool_decide (stream_name g' = LogStreamStdout) = bool_decide (g' = Stdout)) by by intros [].
  split.
  - intros (l & Hin%list_elem_of_In & [Hs Hb%eqb_prop]%andb_prop). exists l. split_and!; [done| |done].
    destruct (Hr l Hin) as (g' & Hg' & _). rewrite Hg' in Hb |- *. rewrite Hname in Hb. f_equal. by destruct g, g'.
  - intros (l & Hin & Hg & Hs). exists l.
    split; [by apply list_elem_of_In|]. unfold is_sentinel. rewrite Hg, Hname, Hs. by destruct g.
Qed.

Lemma answer_done r :
  (answer_ r).2 = true <-> forall g, existsb (is_sentinel (bool_decide (g = Stdout))) (received r) = true.
Proof using Type.
  unfold answer. rewrite collectLogs_done. split.
  - intros [H1 H2]%andb_prop [|]; [exact H1|exact H2].
  - intros Hg. apply andb_true_intro. split; [exact (Hg Stdout)|exact (Hg Stderr)].
Qed.

Lemma answer_sentinels r : run_ok r -> (answer_ r).2 = true <->
  forall g, exists l, l ∈ received r /\ Stream l = stream_name g /\ IsSentinel l = true.
Proof using Type.
  intros (_ & Hr & _). rewrite answer_done. split; intros Hg g; by apply (sentinel_received r g Hr).
Qed.

(** What is received, being sent and still to be read of a proper text is what was written. *)
Lemma proper_split c g s rec ls :
  carried c g s rec -> proper size s ls -> exists todo, reads size todo (text c g) "" /\
    rec ++ (strip <$> sending c g) ++ (todo ≫= emission) = ((fun l => (l, false)) <$> ls) ++ [("", true)].
Proof using size_range.
  intros (rd & Hrd & Heq) (all & Hall & Hls).
  destruct (reads_det size rd s _ Hrd all "" Hall) as (todo & -> & Htodo); [apply lineReady_empty; lia|].
  exists todo. split; [done|]. by rewrite (assoc (++)), <- Heq, <- bind_app.
Qed.

(** Once its sentinel has been received nothing of a proper text is left. *)
Lemma proper_done c g s rec ls :
  carried c g s rec -> proper size s ls -> (exists y, y ∈ rec /\ y.2 = true) ->
  text c g = "" /\ sending c g = [] /\ plain rec = ls.
Proof using size_range.
  intros Hc Hp Hs. destruct (proper_split _ _ _ _ _ Hc Hp) as (todo & Hr & Heq).
  assert (Hnil : (strip <$> sending c g) ++ (todo ≫= emission) = []).
  { eapply sentinel_ends; [|exact Heq|done]. by apply Forall_fmap, Forall_true. }
  rewrite Hnil, app_nil_r in Heq. apply app_nil in Hnil as [Hsend ->%emissions_nil]. split_and!.
  - by inversion Hr.
  - by destruct (sending c g).
  - by rewrite Heq, plain_printed.
Qed.

Lemma sentinel_strip g r :
  (exists l, l ∈ received r /\ Stream l = stream_name g /\ IsSentinel l = true) ->
  exists y, y ∈ strip <$> from g (received r) /\ y.2 = true.
Proof using Type.
  intros (l & Hin & Hg & Hs). exists (strip l). split; [|done]. by apply list_elem_of_fmap_2, list_elem_of_filter.
Qed.

(** ** What invocations get *)
Context (format_short : forall t, str_len (formatTime t) < 2 ^ 61).

Lemma formatLine_short g l : line_ok g l -> str_len (formatLine formatTime l) < 2 ^ 63.
Proof using size_range format_short.
  intros [Hs Hl]. unfold formatLine, formatLog. rewrite !str_len_app, Hs. pose proof (format_short (Time l)) as Ht.
  assert (Hpad : str_len (pad_spaces 30 (formatTime (Time l))) < 2 ^ 61 + 30)
    by (unfold str_len in *; rewrite length_pad_spaces; lia).
  assert (Hn : str_len (stream_name g) = 6) by by destruct g.
  rewrite Hn. unfold str_len in *. cbn [String.length]. lia.
Qed.

Lemma answer_answered r cancelled :
  run_ok r -> (cancelled = false -> (answer_ r).2 = true) -> answered (r, ((answer_ r).1, cancelled)).
Proof using size_range format_short.
  intros Hok Hd. pose proof Hok as (Hlim & Hr & Hu). split.
  - pose proof (collectLoop_spec formatTime (run_limit r) (run_late r) Hlim (received r)
      (mkCollecting [] 0 false false false) []) as Hspec. cbn zeta in Hspec. cbn [stdoutSentinelFound stderrSentinelFound] in Hspec.
    rewrite Hu in Hspec. apply Hspec.
    + eapply Forall_impl; [exact Hr|]. intros l [g Hl]. by eapply formatLine_short.
    + left. split_and!; [done..|cbn; lia].
  - intros Hc. apply answer_sentinels; auto.
Qed.

Lemma own_lines_end c r cancelled logs :
  collector c = Some r -> own_text c -> (cancelled = false -> (answer_ r).2 = true) -> run_ok r ->
  own_lines (r, (logs, cancelled)).
Proof using size_range.
  intros Hc Ho Hd Hok g ls Hp. unfold own_text in Ho. rewrite Hc in Ho. specialize (Ho g). cbn in *.
  unfold lines_got. rewrite messages_plain. destruct cancelled.
  - destruct (proper_split _ _ _ _ _ Ho Hp) as (todo & _ & Heq).
    exists (plain ((strip <$> sending c g) ++ (todo ≫= emission))). by rewrite <- plain_app, Heq, plain_printed.
  - eapply proper_done; [exact Ho|exact Hp|]. apply sentinel_strip, answer_sentinels; auto.
Qed.

(** The collecting invocation stops. *)
Lemma end_ok c r cancelled :
  pipeline_ok c -> collector c = Some r -> (cancelled = false -> (answer_ r).2 = true) ->
  pipeline_ok (mkPipeline (unwritten c) (frames c) (copying c) (buffered c) (sending c) None
                 (finished c ++ [(r, ((answer_ r).1, cancelled))])).
Proof using size_range format_short.
  intros [H1 H2 H3 H4 H5] Hc Hd. set (c' := mkPipeline _ _ _ _ _ _ _).
  assert (Hi : invocations c' = invocations c)
    by (unfold c', invocations; cbn; by rewrite Hc, fmap_app, app_nil_r).
  assert (Hr : run_ok r).
  { unfold invocations in H3. rewrite Hc in H3. by apply Forall_app in H3 as [_ ?%Forall_inv]. }
  split; rewrite ?Hi; try done.
  - intros g. unfold produced, got. rewrite Hi. exact (H1 g).
  - apply Forall_app. split; [done|]. apply Forall_singleton. by apply answer_answered.
  - unfold all_proper. rewrite Hi. intros Hp. destruct (H5 Hp) as [Ho Hl]. split.
    + unfold own_text. cbn. rewrite Forall_app, Forall_singleton. intros [_ Hnc] g. cbn in Hnc.
      unfold own_text in Ho. rewrite Hc in Ho. unfold all_proper, invocations in Hp. rewrite Hc in Hp.
      apply Forall_app in Hp as [_ Hp%Forall_inv]. destruct (Hp g) as [ls Hls].
      destruct (proper_done c g _ _ ls (Ho g) Hls) as (Ht & Hs & _); [|by split].
      apply sentinel_strip, answer_sentinels; auto.
    + apply Forall_app. split; [done|]. apply Forall_singleton. by eapply own_lines_end.
Qed.

Lemma begin_ok c texts limit late :
  pipeline_ok c -> collector c = None -> Forall (fun f => f.2.2 = false) (finished c) -> 0 <= limit < 2 ^ 63 ->
  pipeline_ok (mkPipeline (fun g => unwritten c g +:+ texts g) (frames c) (copying c) (buffered c) (sending c)
                 (Some (mkRun texts limit late [])) (finished c)).
Proof using size_range.
  intros [H1 H2 H3 H4 H5] Hc Hf Hl. set (r := mkRun _ _ _ _). set (c' := mkPipeline _ _ _ _ _ _ _).
  assert (Hi : invocations c' = invocations c ++ [r]) by (unfold c', invocations; cbn; by rewrite Hc, app_nil_r).
  assert (Ht : forall g, text c' g = text c g +:+ texts g) by (intros g; unfold c', text; cbn; by rewrite !app_str_assoc).
  split; try done.
  - intros g. destruct (H1 g) as (rd & Hrd & Heq). exists rd. unfold produced, got. rewrite Hi, Ht, foldr_app, bind_app.
    cbn. rewrite app_nil_r, app_str_nil_r. split; [|exact Heq].
    assert (Happ : foldr (fun r s => printed r g +:+ s) (texts g) (invocations c) = produced c g +:+ texts g).
    { unfold produced. clear. induction (invocations c) as [|x l IH]; cbn; [done|]. by rewrite IH, app_str_assoc. }
    rewrite Happ. apply reads_app; [lia|done].
  - rewrite Hi. apply Forall_app. split; [done|]. by apply Forall_singleton.
  - unfold all_proper. rewrite Hi, Forall_app. intros [Hp _]. destruct (H5 Hp) as [Ho Hown]. split; [|done].
    unfold own_text in *. rewrite Hc in Ho. intros g. destruct (Ho Hf g) as [Htext Hsend].
    exists []. rewrite Ht, Htext, app_str_nil_l. cbn. rewrite Hsend. split; [constructor|done].
Qed.

Lemma step_ok c c' : pipeline_ok c -> step_ c c' -> pipeline_ok c'.
Proof using size_range format_short.
  intros Hok Hstep. destruct Hstep as [c' Hm|texts limit late Hc Hf Hl|r Hc Hd|r Hc].
  - by eapply move_ok.
  - by apply begin_ok.
  - by apply end_ok.
  - by apply end_ok.
Qed.

Lemma reachable_pipeline_ok c : pipeline_reachable formatTime size c -> pipeline_ok c.
Proof using size_range format_short.
  unfold pipeline_reachable. revert c. refine (rtc_ind_r (R := step_) pipeline_ok _ _ _).
  - split; try done.
    + intros g. exists []. split; [destruct g; constructor|done].
    + intros _. split; [|constructor]. intros _ g. by destruct g.
  - intros c c' _ Hs Hok. by eapply step_ok.
Qed.

(** C9: on a container that several invocations use one after another, whatever is written to its streams, and
    however the output is cut on its way through the goroutines. What all the invocations have received of a
    stream, one after another, is a first part of what [consumeStream] makes of all that is written to it:
    no line is lost, changed, doubled or out of order. Each invocation returns the lines it has received,
    cut at its limit, and without a timeout it has received a sentinel of each stream. If what is written
    to each stream for each of the invocations is read as lines and a sentinel at the end, these are its own
    lines, all of them or, after a timeout, the first ones; and lines that are shorter than the buffer,
    do not end in a carriage return or a sentinel, with a last one that may be unended, and the sentinel
    are read so. *)
Theorem logs_are_printed c r logs cancelled :
  pipeline_reachable formatTime size c -> (r, (logs, cancelled)) ∈ finished c ->
  (forall g, exists lines,
     consumeStream (S (String.length (produced c g))) (fun _ => 0) 0 (stream_name g) size (produced c g) = Some lines /\
     got c g `prefix_of` (strip <$> lines)) /\
  truncated formatTime (run_limit r) (run_late r) (formatLine formatTime <$> lines_got r) logs /\
  (cancelled = false -> forall g, exists l, l ∈ received r /\ Stream l = stream_name g /\ IsSentinel l = true) /\
  (all_proper c -> forall g ls, proper size (printed r g) ls ->
     if cancelled then Message <$> from g (lines_got r) `prefix_of` ls
     else Message <$> from g (lines_got r) = ls) /\
  (forall o g, well_behaved size o -> proper size (written_by o g) (printed_lines o g)).
Proof using size_range format_short.
  intros [H1 _ _ H4 H5]%reachable_pipeline_ok Hin. rewrite Forall_forall in H4.
  destruct (H4 _ Hin) as [Ht Hs]. split_and!; [|done|done| |by intros; apply well_behaved_proper].
  - intros g. destruct (H1 g) as (rd & Hrd & Heq).
    destruct (reads_total size (text c g) ltac:(lia)) as (more & left & Hmore & Hn).
    destruct (consumeStream_reads size (fun _ => 0) (stream_name g) ltac:(lia) _ _ _ (reads_trans _ _ _ _ _ _ Hrd Hmore) Hn
      (S (String.length (produced c g))) 0 ltac:(lia)) as (lines & Hl & Hlines).
    exists lines. split; [exact Hl|]. rewrite Hlines, bind_app, Heq, <- !(assoc (++)). by eexists.
  - intros Hp g ls Hls. destruct (H5 Hp) as [_ Hown]. rewrite Forall_forall in Hown. exact (Hown _ Hin g ls Hls).
Qed.
End invariant.
