(* ===== verification/LogProgress.v ===== *)
(** * The logs of a container: they all arrive

    The goroutines of LogStreams.v cannot go on for ever without being sent
    anything new, and they do not stop before the invocation has all its logs
    or everything that is written has arrived.  A scheduler of them, which the
    proof needs, runs examples. *)
From stdpp Require Import functions.
From S2P Require Export LogStreams.

Definition both (f : stream -> nat) : nat := (f Stdout + f Stderr)%nat.

Lemma both_insert {A} (m : A -> nat) (f : stream -> A) g x :
  (both (fun g' => m (<[g := x]> f g')) + m (f g) = both (fun g' => m (f g')) + m x)%nat.
Proof.
  unfold both. destruct g; rewrite fn_lookup_insert, fn_lookup_insert_ne by done; lia.
Qed.

Lemma length_nonempty s : s <> "" -> (1 <= String.length s)%nat.
Proof. destruct s; cbn; [done|lia]. Qed.

Section progress.
Context (formatTime : Z -> string) (size : nat) (size_range : 2 <= Z.of_nat size < 2 ^ 62).
Context (format_short : forall t, str_len (formatTime t) < 2 ^ 61).

Notation move_ := (move formatTime size).
Notation answer_ := (answer formatTime).

(** ** A bound on what is left to do *)
#[local] Arguments both : simpl never.
#[local] Arguments Nat.mul : simpl never.

Definition framed (fs : list (stream * string)) : nat :=
  sum_list_with (fun f => (6 * String.length f.2 + 1)%nat) fs.

Definition left_to_do (c : pipeline) : nat :=
  (8 * both (fun g => String.length (unwritten c g)) + framed (frames c) + 5 * String.length (copying c).2 +
   4 * both (fun g => String.length (buffered c g)) + both (fun g => List.length (sending c g)))%nat.

Lemma move_decreases c c' : move_ c c' -> (left_to_do c' < left_to_do c)%nat.
Proof using size_range.
  unfold left_to_do, framed. intros Hm.
  destruct Hm as [g s rest Hu Hs|f fs He Hf|g s rest Hc Hs _ _ _|g log rest t He Hr|g l ls r He Hcol Hn];
    cbn [unwritten frames copying buffered sending].
  - pose proof (both_insert String.length (unwritten c) g rest) as Hb. rewrite Hu, length_app_str in Hb.
    rewrite sum_list_with_app. cbn. apply length_nonempty in Hs. lia.
  - rewrite He, Hf. cbn. lia.
  - pose proof (both_insert String.length (buffered c) g (buffered c g +:+ s)) as Hb. rewrite length_app_str in Hb.
    rewrite Hc. cbn. rewrite length_app_str. apply length_nonempty in Hs. lia.
  - pose proof (both_insert String.length (buffered c) g rest) as Hb.
    pose proof (both_insert List.length (sending c) g (emitLine (stream_name g) t log)) as Hs. rewrite He in Hs.
    pose proof (emitLine_count (stream_name g) t log). apply lineReady_shrinks in Hr; [|lia]. cbn in Hs. lia.
  - pose proof (both_insert List.length (sending c) g ls) as Hs. rewrite He in Hs. cbn in Hs. lia.
Qed.

Lemma moves_bounded n c c' : nsteps move_ n c c' -> (n + left_to_do c' <= left_to_do c)%nat.
Proof using size_range.
  induction 1 as [|n c1 c2 c3 H12 _ IH]; [lia|]. apply move_decreases in H12. lia.
Qed.

(** ** A scheduler *)
Definition try_write (k : nat) (g : stream) (c : pipeline) : option pipeline :=
  match unwritten c g, k with
  | "", _ | _, O => None
  | u, _ => Some (mkPipeline (<[g := drop_str k u]> (unwritten c)) (frames c ++ [(g, take_str k u)]) (copying c)
                    (buffered c) (sending c) (collector c) (finished c))
  end.

Definition try_demux (c : pipeline) : option pipeline :=
  match (copying c).2, frames c with
  | "", f :: fs => Some (mkPipeline (unwritten c) fs f (buffered c) (sending c) (collector c) (finished c))
  | _, _ => None
  end.

Definition try_fill (c : pipeline) : option pipeline :=
  let '(g, s) := copying c in
  let room := (size - String.length (buffered c g))%nat in
  match s, sending c g, lineReady size (buffered c g), room with
  | String _ _, [], None, S _ =>
      Some (mkPipeline (unwritten c) (frames c) (g, drop_str room s)
              (<[g := buffered c g +:+ take_str room s]> (buffered c)) (sending c) (collector c) (finished c))
  | _, _, _, _ => None
  end.

Definition try_read (t : Z) (g : stream) (c : pipeline) : option pipeline :=
  match sending c g, lineReady size (buffered c g) with
  | [], Some (log, rest) =>
      Some (mkPipeline (unwritten c) (frames c) (copying c) (<[g := rest]> (buffered c))
              (<[g := emitLine (stream_name g) t log]> (sending c)) (collector c) (finished c))
  | _, _ => None
  end.

Definition try_send (g : stream) (c : pipeline) : option pipeline :=
  match sending c g, collector c with
  | l :: ls, Some r =>
      if (answer_ r).2 then None
      else Some (mkPipeline (unwritten c) (frames c) (copying c) (buffered c) (<[g := ls]> (sending c))
                   (Some (receive l r)) (finished c))
  | _, _ => None
  end.

(** What a scheduler does that lets the container write [k] bytes at a time. *)
Definition attempts (k : nat) (t : Z) (c : pipeline) : list (option pipeline) :=
  [try_send Stdout c; try_send Stderr c; try_read t Stdout c; try_read t Stderr c; try_fill c; try_demux c;
   try_write k Stdout c; try_write k Stderr c].

Definition advance (k : nat) (t : Z) (c : pipeline) : option pipeline := head (omap id (attempts k t c)).

Lemma attempts_sound k t c c' : Some c' ∈ attempts k t c -> move_ c c'.
Proof using Type.
  assert (Hsend : forall g, try_send g c = Some c' -> move_ c c').
  { intros g. unfold try_send. destruct (sending c g) as [|l ls] eqn:Hs; [done|].
    destruct (collector c) as [r|] eqn:Hc; [|done]. destruct (answer_ r).2 eqn:Hd; [done|]. intros [= <-].
    by apply move_send. }
  assert (Hread : forall g, try_read t g c = Some c' -> move_ c c').
  { intros g. unfold try_read. destruct (sending c g) eqn:Hs; [|done].
    destruct (lineReady _ _) as [[log rest]|] eqn:Hr; [|done]. intros [= <-]. by apply move_read. }
  assert (Hwrite : forall g, try_write k g c = Some c' -> move_ c c').
  { intros g. unfold try_write. destruct (unwritten c g) as [|a u] eqn:Hu; [done|]. destruct k as [|k']; [done|].
    intros [= <-]. apply move_write; [|done].
    rewrite Hu. symmetry. exact (take_drop_str (S k') (String a u)). }
  unfold attempts. rewrite !elem_of_cons, elem_of_nil. intros Hin. destruct_or!; try (by eauto); [|].
  - unfold try_fill in Hin. destruct (copying c) as [g s] eqn:Hc. destruct s as [|a s]; [done|].
    destruct (sending c g) eqn:Hs; [|done]. destruct (lineReady _ _) eqn:Hr; [done|].
    destruct (size - String.length (buffered c g))%nat as [|n] eqn:Hn; [done|]. injection Hin as ->.
    apply move_fill; [rewrite Hc; f_equal; symmetry; exact (take_drop_str (S n) (String a s))|done..|].
    rewrite length_app_str. cbn. rewrite length_take_str. lia.
  - unfold try_demux in Hin. destruct (copying c).2 eqn:Hc; [|done]. destruct (frames c) eqn:Hf; [done|].
    injection Hin as ->. by apply move_demux.
Qed.

Lemma advance_sound k t c c' : advance k t c = Some c' -> move_ c c'.
Proof using Type.
  unfold advance. intros Hh%head_Some_elem_of. apply list_elem_of_omap in Hh as (x & Hin & Hx). cbn in Hx. subst x.
  by eapply attempts_sound.
Qed.

Lemma advance_None k t c : advance k t c = None -> Forall (fun x => x = None) (attempts k t c).
Proof using Type.
  unfold advance. intros Hh%head_None. apply Forall_forall. intros [c'|] Hin; [|done]. exfalso.
  assert (Hn : c' ∈ omap id (attempts k t c)) by (apply list_elem_of_omap; by exists (Some c')).
  rewrite Hh in Hn. by apply not_elem_of_nil in Hn.
Qed.

(** ** It ends with everything received *)

(** All that is written to a stream has been read, but for a last line that has no end yet, and received. *)
Definition delivered (c : pipeline) (g : stream) : Prop :=
  exists rd left, reads size rd (produced c g) left /\ lineReady size left = None /\
    got c g = rd ≫= emission.

Lemma stuck_empty k t c r : (0 < k)%nat ->
  collector c = Some r -> (answer_ r).2 = false -> advance k t c = None ->
  forall g, lineReady size (text c g) = None /\ sending c g = [].
Proof using size_range.
  intros Hk Hc Hd Ha%advance_None. unfold attempts in Ha. rewrite !Forall_cons in Ha.
  destruct Ha as (Hs1 & Hs2 & Hr1 & Hr2 & Hf & Hdm & Hw1 & Hw2 & _).
  assert (Hs : forall g, sending c g = []).
  { assert (Hg : forall g, try_send g c = None -> sending c g = []); [|by intros []; apply Hg].
    intros g. unfold try_send. rewrite Hc, Hd. by destruct (sending c g). }
  assert (Hr : forall g, lineReady size (buffered c g) = None).
  { assert (Hg : forall g, try_read t g c = None -> lineReady size (buffered c g) = None); [|by intros []; apply Hg].
    intros g. unfold try_read. rewrite Hs. by destruct (lineReady _ _) as [[]|]. }
  assert (Hw : forall g, unwritten c g = "").
  { assert (Hg : forall g, try_write k g c = None -> unwritten c g = ""); [|by intros []; apply Hg].
    intros g. unfold try_write. destruct (unwritten c g); [done|]. destruct k; [lia|done]. }
  assert (Hcp : (copying c).2 = "").
  { unfold try_fill in Hf. destruct (copying c) as [g s]. cbn. destruct s as [|a s]; [done|].
    rewrite Hs, Hr in Hf. pose proof (lineReady_None size (buffered c g) ltac:(lia) (Hr g)).
    destruct (size - String.length (buffered c g))%nat eqn:E; [lia|done]. }
  assert (Hfr : frames c = []) by (unfold try_demux in Hdm; rewrite Hcp in Hdm; by destruct (frames c)).
  intros g. split; [|done].
  assert (Ht : text c g = buffered c g).
  { unfold text. rewrite Hfr, Hw. cbn. rewrite Hcp. by destruct (decide _); rewrite !app_str_nil_r. }
  by rewrite Ht.
Qed.

Lemma stuck_delivered k t c r : (0 < k)%nat -> pipeline_ok formatTime size c ->
  collector c = Some r -> (answer_ r).2 = false -> advance k t c = None -> forall g, delivered c g.
Proof using size_range.
  intros Hk Hok Hc Hd Ha g. destruct (stuck_empty k t c r Hk Hc Hd Ha g) as [Hn Hs].
  destruct (po_carried _ _ _ Hok g) as (rd & Hrd & Heq). rewrite Hs, app_nil_r in Heq. by exists rd, (text c g).
Qed.

(** If what is written ends in sentinels they have been received. *)
Lemma stuck_done k t c r : (0 < k)%nat -> pipeline_ok formatTime size c -> all_proper size c ->
  collector c = Some r -> advance k t c = None -> (answer_ r).2 = true.
Proof using size_range.
  intros Hk Hok Hp Hc Ha. destruct (answer_ r).2 eqn:Hd; [done|]. rewrite <- Hd.
  pose proof (stuck_empty k t c r Hk Hc Hd Ha) as He.
  pose proof (po_runs _ _ _ Hok) as Hr. unfold invocations in Hr. rewrite Hc in Hr.
  apply Forall_app in Hr as [_ Hr%Forall_inv]. apply (answer_sentinels _ size); [done|]. intros g.
  destruct (po_own _ _ _ Hok Hp) as [Ho _]. unfold own_text in Ho. rewrite Hc in Ho.
  unfold all_proper, invocations in Hp. rewrite Hc in Hp. apply Forall_app in Hp as [_ Hp%Forall_inv].
  destruct (Hp g) as [ls Hls]. destruct (He g) as [Hn Hs].
  destruct (proper_split size size_range c g _ _ ls (Ho g) Hls) as (todo & Htodo & Heq).
  apply reads_stuck in Htodo as [-> _]; [|done]. rewrite Hs in Heq. cbn in Heq. rewrite app_nil_r in Heq.
  assert (Hin : ("", true) ∈ strip <$> from g (received r)) by (rewrite Heq; apply elem_of_app; right; by left).
  apply list_elem_of_fmap in Hin as (l & Hl & [Hg Hin]%list_elem_of_filter). exists l. by injection Hl as _ ->.
Qed.

(** The invocation that collects changes only in what it has received. *)
Lemma moves_collector c c' r : rtc move_ c c' -> collector c = Some r ->
  finished c' = finished c /\
  exists r', collector c' = Some r' /\ printed r' = printed r /\ run_limit r' = run_limit r.
Proof using Type.
  intros Hm. revert r. induction Hm as [c|c1 c2 c3 Hm _ IH]; intros r Hc; [split; [done|by exists r]|].
  destruct Hm as [| | | |g l ls r1 He Hcol Hn]; try by apply IH.
  assert (r1 = r) as -> by congruence. destruct (IH (receive l r) eq_refl) as (Hf & r' & H1 & H2 & H3).
  split; [exact Hf|]. by exists r'.
Qed.

(** C21: while an invocation collects its logs, the container and the goroutines that carry its output can take
    only so many steps. When they cannot take another one, either the invocation has received a sentinel of
    each stream, so that collecting ends, or everything that is written to the streams has been read and
    received, but for an unended last line, and only the timeout can end it. If what is written for every
    invocation on the container is read as lines and a sentinel at the end, it is always the former:
    without the timeout collecting comes to an end. *)
Theorem logs_arrive c r :
  pipeline_reachable formatTime size c -> collector c = Some r ->
  (forall n c', nsteps move_ n c c' -> (n <= left_to_do c)%nat) /\
  (forall c', rtc move_ c c' -> (forall c'', ~ move_ c' c'') ->
     exists r', collector c' = Some r' /\ printed r' = printed r /\
       ((answer_ r').2 = true <->
        forall g, exists l, l ∈ received r' /\ Stream l = stream_name g /\ IsSentinel l = true) /\
       ((answer_ r').2 = false -> forall g, delivered c' g) /\
       (all_proper size c -> (answer_ r').2 = true)).
Proof using size_range format_short.
  intros Hr Hc. split; [intros n c' Hn%moves_bounded; lia|].
  intros c' Hm Hstuck. destruct (moves_collector c c' r Hm Hc) as (Hf & r' & Hc' & Hp & _).
  assert (Hok : pipeline_ok formatTime size c').
  { apply reachable_pipeline_ok; [done..|]. unfold pipeline_reachable in *. etrans; [exact Hr|].
    eapply rtc_subrel; [|exact Hm]. apply step_moves. }
  assert (Ha : advance 1 0 c' = None).
  { destruct (advance 1 0 c') as [c''|] eqn:Ha; [|done]. by destruct (Hstuck c''); apply (advance_sound 1 0). }
  pose proof (po_runs _ _ _ Hok) as Hrun. unfold invocations in Hrun. rewrite Hc' in Hrun.
  apply Forall_app in Hrun as [_ Hrun%Forall_inv].
  exists r'. split; [done|]. split; [done|]. split; [by apply (answer_sentinels _ size)|]. split.
  - intros Hd. by apply (stuck_delivered 1 0 c' r'); [lia|..].
  - intros Hap. apply (stuck_done 1 0 c' r'); [lia|done| |done|done].
    unfold all_proper, invocations in *. rewrite Hc in Hap. rewrite Hc', Hf.
    apply Forall_app in Hap as [H1 H2%Forall_inv]. apply Forall_app. split; [done|].
    constructor; [by rewrite Hp|constructor].
Qed.
End progress.

(** ** Concrete runs *)
Section serve.
Context (formatTime : Z -> string) (size : nat).
Notation reachable := (pipeline_reachable formatTime size).

Fixpoint settle (fuel k : nat) (t : Z) (c : pipeline) : pipeline :=
  match fuel with
  | O => c
  | S fuel' =>
      match advance formatTime size k t c with Some c' => settle fuel' k (t + 1) c' | None => c end
  end.

Definition begins (texts : stream -> string) (limit late : Z) (c : pipeline) : option pipeline :=
  match collector c with
  | None =>
      if forallb (fun f => negb f.2.2) (finished c) && (0 <=? limit) && (limit <? 2 ^ 63)
      then Some (mkPipeline (fun g => unwritten c g +:+ texts g) (frames c) (copying c)
                   (buffered c) (sending c) (Some (mkRun texts limit late [])) (finished c))
      else None
  | Some _ => None
  end.

Definition collects (c : pipeline) : option pipeline :=
  match collector c with
  | Some r =>
      if (answer formatTime r).2
      then Some (mkPipeline (unwritten c) (frames c) (copying c) (buffered c) (sending c) None
                   (finished c ++ [(r, ((answer formatTime r).1, false))]))
      else None
  | None => None
  end.

(** Invocations with these outputs and limits, one after another; the container writes [k] bytes at a time. *)
Fixpoint serve (k : nat) (script : list (output * Z)) (c : pipeline) : option pipeline :=
  match script with
  | [] => Some c
  | (o, limit) :: script' =>
      c' ← begins (written_by o) limit 0 c;
      c'' ← collects (settle (left_to_do c') k 0 c');
      serve k script' c''
  end.

Lemma settle_moves fuel k t c : rtc (move formatTime size) c (settle fuel k t c).
Proof.
  revert t c. induction fuel as [|fuel IH]; intros t c; cbn; [done|].
  destruct (advance _ _ _ _ _) as [c'|] eqn:Ha; [|done]. eapply rtc_l; [by eapply advance_sound|apply IH].
Qed.

Lemma begins_sound texts limit late c c' : begins texts limit late c = Some c' -> pipeline_step formatTime size c c'.
Proof.
  unfold begins. destruct (collector c) eqn:Hc; [done|]. destruct (_ && _) eqn:Hb; [|done]. intros [= <-].
  apply andb_prop in Hb as [[Hf Hl%Z.leb_le]%andb_prop Hu%Z.ltb_lt].
  apply step_begins; [done| |done].
  apply Forall_forall. intros f Hin. rewrite forallb_forall in Hf. apply list_elem_of_In in Hin.
  specialize (Hf f Hin). by apply negb_true_iff in Hf.
Qed.

Lemma collects_sound c c' : collects c = Some c' -> pipeline_step formatTime size c c'.
Proof.
  unfold collects. destruct (collector c) as [r|] eqn:Hc; [|done]. destruct (answer _ r).2 eqn:Hd; [|done].
  intros [= <-]. by apply step_collected.
Qed.

Lemma settle_reachable fuel k t c : reachable c -> reachable (settle fuel k t c).
Proof.
  unfold pipeline_reachable. intros Hr. etrans; [exact Hr|].
  eapply rtc_subrel; [|apply settle_moves]. apply step_moves.
Qed.

Lemma serve_reachable k script c c' : reachable c -> serve k script c = Some c' -> reachable c'.
Proof.
  revert c. induction script as [|[o limit] script IH]; cbn [serve]; intros c Hr Hs; [by simplify_eq|].
  destruct (begins (written_by o) limit 0 c) as [c1|] eqn:H1; [|done]. cbn in Hs.
  destruct (collects _) as [c2|] eqn:H2; [|done]. apply (IH c2); [|exact Hs].
  eapply rtc_r; [|by eapply collects_sound]. apply settle_reachable. eapply rtc_r; [exact Hr|by eapply begins_sound].
Qed.
End serve.

Definition out_err {A} (out err : A) (g : stream) : A := match g with Stdout => out | Stderr => err end.

Definition first_output : output :=
  {| fullLines := out_err ["hello"; "world"] ["oops"]; lastLine := out_err "not ended" "" |}.
Definition second_output : output :=
  {| fullLines := out_err [""] []; lastLine := out_err "" "again" |}.

(** Two invocations on one container that writes five bytes at a time. *)
Definition served : pipeline :=
  default started (serve some_time 64 5 [(first_output, 1000); (second_output, 1000)] started).

(** While the first one collects. *)
Definition halfway : pipeline := default started (settle some_time 64 40 5 0 <$> begins (written_by first_output) 1000 0 started).

Lemma some_time_short t : str_len (some_time t) < 2 ^ 61.
Proof. reflexivity. Qed.

Example served_logs :
  (fun f => f.2.1) <$> finished served =
    [["2022-07-05T12:54:27.123Z       stdout: hello"; "2022-07-05T12:54:27.123Z       stdout: world";
      "2022-07-05T12:54:27.123Z       stdout: not ended"; "2022-07-05T12:54:27.123Z       stderr: oops"];
     ["2022-07-05T12:54:27.123Z       stdout: "; "2022-07-05T12:54:27.123Z       stderr: again"]].
Proof. vm_compute. reflexivity. Qed.

Lemma served_reachable : pipeline_reachable some_time 64 served.
Proof.
  unfold served. destruct (serve some_time 64 5 _ started) as [c|] eqn:Hs; [|apply rtc_refl].
  by eapply serve_reachable; [apply rtc_refl|].
Qed.

Lemma halfway_reachable : pipeline_reachable some_time 64 halfway.
Proof.
  unfold halfway. destruct (begins (written_by first_output) 1000 0 started) as [c|] eqn:Hb; [|apply rtc_refl].
  apply settle_reachable. eapply rtc_once, begins_sound, Hb.
Qed.

Lemma outputs_well_behaved : well_behaved 64 first_output /\ well_behaved 64 second_output.
Proof.
  assert (Hp : forall l, (bool_decide (index_byte newline l = None) && negb (HasSuffix l carriage_return) &&
    (String.length l <? 64)%nat) = true -> printable 64 l).
  { intros l [[Hn%bool_decide_eq_true Hc%negb_true_iff]%andb_prop Hl%Nat.ltb_lt]%andb_prop. by repeat split. }
  split; intros []; (split; [|by apply Hp]); cbn [fullLines first_output second_output out_err];
    repeat (apply Forall_cons_2; [split; [by apply Hp|done]|]); apply Forall_nil_2.
Qed.

Lemma outputs_proper c outs :
  printed <$> invocations c = written_by <$> outs -> Forall (well_behaved 64) outs -> all_proper 64 c.
Proof.
  intros Hi Ho. unfold all_proper.
  assert (Hf : Forall (fun p => forall g, exists ls, proper 64 (p g) ls) (printed <$> invocations c)).
  { rewrite Hi. apply Forall_fmap. eapply Forall_impl; [exact Ho|]. intros o Hw g. eexists. by apply well_behaved_proper. }
  by apply Forall_fmap in Hf.
Qed.

Lemma served_invocations : printed <$> invocations served = [written_by first_output; written_by second_output].
Proof. vm_compute. reflexivity. Qed.

Lemma served_proper : all_proper 64 served.
Proof.
  apply (outputs_proper _ [first_output; second_output]); [exact served_invocations|]. destruct outputs_well_behaved.
  repeat (apply Forall_cons_2; [done|]); apply Forall_nil_2.
Qed.

Lemma logs_are_printed_witness : exists r logs,
  (r, (logs, false)) ∈ finished served /\
  truncated some_time 1000 0 (formatLine some_time <$> lines_got r) logs /\
  Message <$> from Stdout (lines_got r) = [""] /\ Message <$> from Stderr (lines_got r) = ["again"].
Proof.
  destruct (finished served !! 1%nat) as [[r [logs cancelled]]|] eqn:E; [|vm_compute in E; discriminate].
  assert (Hc : (fun f => f.2.2) <$> finished served !! 1%nat = Some false) by (vm_compute; reflexivity).
  assert (Hp : (fun f => (printed f.1, run_limit f.1, run_late f.1)) <$> finished served !! 1%nat =
    Some (written_by second_output, 1000, 0)) by (vm_compute; reflexivity).
  rewrite E in Hc, Hp. injection Hc as Hc. injection Hp as Hp Hlim Hlate. cbn in Hc, Hp, Hlim, Hlate. subst cancelled.
  assert (Hin : (r, (logs, false)) ∈ finished served) by (eapply list_elem_of_lookup_2; exact E).
  destruct (logs_are_printed some_time 64 ltac:(lia) some_time_short served r logs false served_reachable Hin)
    as (_ & Ht & _ & Hown & Hwell).
  rewrite Hlim, Hlate in Ht. specialize (Hown served_proper). cbn in Hown. rewrite Hp in Hown.
  exists r, logs. split; [exact Hin|]. split; [exact Ht|].
  split; [apply (Hown Stdout)|apply (Hown Stderr)]; apply (Hwell second_output); apply outputs_well_behaved.
Defined.

Lemma halfway_invocations : printed <$> invocations halfway = [written_by first_output].
Proof. vm_compute. reflexivity. Qed.

Lemma halfway_proper : all_proper 64 halfway.
Proof.
  apply (outputs_proper _ [first_output]); [exact halfway_invocations|]. destruct outputs_well_behaved.
  repeat (apply Forall_cons_2; [done|]); apply Forall_nil_2.
Qed.

Lemma logs_arrive_witness : exists r,
  collector halfway = Some r /\ (answer some_time r).2 = false /\
  (forall n c', nsteps (move some_time 64) n halfway c' -> (n <= left_to_do halfway)%nat) /\
  (forall c', rtc (move some_time 64) halfway c' -> (forall c'', ~ move some_time 64 c' c'') ->
     exists r', collector c' = Some r' /\ (answer some_time r').2 = true).
Proof.
  destruct (collector halfway) as [r|] eqn:E; [|vm_compute in E; discriminate].
  assert (Ha : (fun r => (answer some_time r).2) <$> collector halfway = Some false) by (vm_compute; reflexivity).
  rewrite E in Ha. injection Ha as Ha. exists r. split; [reflexivity|]. split; [exact Ha|].
  destruct (logs_arrive some_time 64 ltac:(lia) some_time_short halfway r halfway_reachable E) as [H1 H2].
  split; [exact H1|]. intros c' Hm Hs. destruct (H2 c' Hm Hs) as (r' & H3 & _ & _ & _ & H4). exists r'.
  split; [exact H3|exact (H4 halfway_proper)].
Defined.
