(* ===== verification/RunnerPool.v ===== *)
(** * The runner as a client of the pool

    The pool's theorems are about goroutines that follow [invocation]: get a
    container, use it, give it back.  Here [Runner.Invoke] is shown to be such a
    goroutine. *)
From S2P Require Export PoolSem RunnerLogs.

(** ** The methods of the pool, as a caller sees them *)
Inductive pool_call : Type -> Type :=
| CallGet (r : request) : pool_call (result (PooledContainer * bool))
  (* the invocation in between, which tells whether the container is broken *)
| CallUse (c : PooledContainer) : pool_call bool
| CallPut (c : PooledContainer) : pool_call unit
| CallPutToDestroy (c : PooledContainer) : pool_call (option go_error).

Definition caller (r : request) : proc pool_call unit :=
  got ← trigger (CallGet r);
  match got with
  | Err _ => Ret tt
  | Ok (c, _) =>
      broken ← trigger (CallUse c);
      if broken : bool then (_ ← trigger (CallPutToDestroy c); Ret tt) else trigger (CallPut c)
  end.

(** The methods by their programs. *)
Definition pool_method (X : Type) (op : pool_call X) : poolM X :=
  match op in pool_call X return poolM X with
  | CallGet r => Get (req_namespace r) (req_function r) (req_kind r) (req_memory r)
  | CallUse c => _ ← trigger (BeginInvocation c); trigger (EndInvocation c)
  | CallPut c => Put c
  | CallPutToDestroy c => PutToDestroy c
  end.

Lemma proc_bind_ret {E A} (p : proc E A) : proc_equiv p (proc_bind p Ret).
Proof. induction p as [a|X e k IH]; cbn; by constructor. Qed.

Lemma invocation_is_caller r : proc_equiv (invocation r) (proc_interp pool_method (caller r)).
Proof.
  unfold invocation, caller. cbn [trigger proc_interp mbind proc_MBind proc_bind].
  apply proc_equiv_bind. intros [[c reused]|e]; [|reflexivity].
  cbn. apply equiv_vis. intros []. apply equiv_vis. intros [].
  - apply proc_equiv_bind. intros e. reflexivity.
  - apply proc_bind_ret.
Qed.

(** ** What the pool sees, and what was fetched before *)
Inductive pool_event :=
| PFetch (fqdn rev : string) (r : result EntityFunction)
| PGet (r : request) (got : result (PooledContainer * bool))
| PPut (c : PooledContainer)
| PDestroy (c : PooledContainer).

Definition runner_pool (X : Type) (op : runner_op X) : X -> list pool_event :=
  match op in runner_op X return X -> list pool_event with
  | FetchFunction fqdn rev => fun r => [PFetch fqdn rev r]
  | PoolGet namespace fn kind memory => fun got =>
      [PGet {| req_namespace := namespace; req_function := fn; req_kind := kind; req_memory := memory |} got]
  | PoolPut c => fun _ => [PPut c]
  | PoolPutToDestroy c => fun _ => [PDestroy c]
  | _ => fun _ => []
  end.

Definition caller_pool (X : Type) (op : pool_call X) : X -> list pool_event :=
  match op in pool_call X return X -> list pool_event with
  | CallGet r => fun got => [PGet r got]
  | CallUse _ => fun _ => []
  | CallPut c => fun _ => [PPut c]
  | CallPutToDestroy c => fun _ => [PDestroy c]
  end.

Definition runner_seen (X : Type) (op : runner_op X) (tr : list pool_event) (x : X)
    (tr' : list pool_event) : Prop := tr' = tr ++ runner_pool X op x.
Definition caller_seen (X : Type) (op : pool_call X) (tr : list pool_event) (x : X)
    (tr' : list pool_event) : Prop := tr' = tr ++ caller_pool X op x.

(** The operations that leave no trace. *)
Definition outside_pool (X : Type) (op : runner_op X) : bool :=
  match op with
  | FetchFunction _ _ | PoolGet _ _ _ _ | PoolPut _ | PoolPutToDestroy _ => false
  | _ => true
  end.

Lemma runs_outside {A} (p : runM A) tr a tr' :
  only outside_pool p -> runs runner_seen p tr a tr' -> tr' = tr.
Proof.
  intros Hp Hr. refine (runs_only outside_pool runner_seen (fun t => t) p tr a tr' _ Hp Hr).
  intros X e s x s' He ->. destruct e; try done; by rewrite app_nil_r.
Qed.

#[local] Arguments classifyFailure : simpl never.
#[local] Arguments initialize : simpl never.
#[local] Arguments runContainer : simpl never.
#[local] Arguments useContainer : simpl never.
#[local] Arguments collectDeferred : simpl never.
#[local] Arguments invokeBody : simpl never.

Section runner.
Context (unmarshalObject : string -> result (option (gset string))).
Context (unmarshalError : string -> result string) (formatTime : Z -> string).

Lemma classifyFailure_outside c response err timeoutMessage abnormalMessage a :
  only outside_pool (classifyFailure unmarshalError c response err timeoutMessage abnormalMessage a).
Proof using. unfold classifyFailure. cbn. done. Qed.

Lemma initialize_outside msg fn c a : only outside_pool (initialize unmarshalError msg fn c a).
Proof using.
  unfold initialize. cbn. split; [done|]. intros start. split; [done|]. intros [response [err|]]; (split; [done|]); intros e;
    [|done]. destruct (as_ResponseLimit err); [done|].
  apply only_bind; [apply classifyFailure_outside|done].
Qed.

Lemma runContainer_outside msg fn c a :
  only outside_pool (runContainer unmarshalObject unmarshalError msg fn c a).
Proof using.
  unfold runContainer. cbn. split; [done|]. intros start. split; [done|]. intros [response [err|]]; (split; [done|]); intros e;
    [|done]. destruct (as_ResponseLimit err); [done|].
  apply only_bind; [apply classifyFailure_outside|done].
Qed.

Lemma useContainer_outside msg fn c reused a :
  only outside_pool (useContainer unmarshalObject unmarshalError msg fn c reused a).
Proof using.
  unfold useContainer. destruct reused; [apply runContainer_outside|].
  apply only_bind; [apply initialize_outside|]. intros [a'|a']; [apply runContainer_outside|done].
Qed.

Lemma collectDeferred_outside fn c a broken :
  only outside_pool (collectDeferred formatTime fn c a broken).
Proof using.
  unfold collectDeferred. cbn. split; [done|]. intros _. split; [done|]. intros [logs []]; by repeat split.
Qed.

(** The request for the function that was fetched. *)
Definition request_of (msg : ActivationMessage) (fn : EntityFunction) : request :=
  {| req_namespace := id_Namespace (Identity msg); req_function := msg_Function msg;
     req_kind := exec_Kind (f_Exec fn); req_memory := lim_Memory (f_Limits fn) |}.

(** The answer of the function reader, and what the pool sees after it. *)
Definition seen_by_pool (msg : ActivationMessage) (tr : list pool_event) : Prop :=
  exists r rest, tr = PFetch (qualifiedName msg) (fn_Revision (msg_Function msg)) r :: rest /\
    match r with
    | Ok fn => runs caller_seen (caller (request_of msg fn)) [] tt rest
    | Err _ => rest = []
    end.

Lemma invokeBody_seen msg a a' tr :
  runs runner_seen (invokeBody unmarshalObject unmarshalError formatTime msg a) [] a' tr -> seen_by_pool msg tr.
Proof using.
  unfold invokeBody. cbn. intros (f & tr1 & -> & Hr). cbn in Hr. set (fetched := PFetch _ _ f) in *.
  exists f. destruct f as [fn|err]; [|exists []; by destruct Hr as [_ ->]].
  cbn in Hr. destruct Hr as (got & tr2 & -> & Hr). cbn in Hr. set (asked := PGet _ got) in *.
  destruct got as [[c reused]|err]; [|exists [asked]; destruct Hr as [_ ->]; split; [done|]; by exists (Err err), [asked]].
  apply runs_bind in Hr as (a1 & tr3 & Hw & Hr).
  assert (tr3 = [fetched; asked]) as ->.
  { eapply runs_outside; [|exact Hw]. by destruct (bool_decide _). }
  apply runs_bind in Hr as ([a2 broken] & tr4 & Hu & Hr).
  apply runs_outside in Hu as ->; [|apply useContainer_outside].
  apply runs_bind in Hr as ([a3 broken'] & tr5 & Hc & Hr).
  apply runs_outside in Hc as ->; [|apply collectDeferred_outside].
  apply runs_bind in Hr as ([] & tr6 & Hret & [_ ->]).
  exists [asked; if broken' then PDestroy c else PPut c].
  destruct broken'; cbn in Hret.
  - destruct Hret as (e & tr7 & -> & _ & ->). split; [done|].
    exists (Ok (c, reused)), [asked]. split; [done|]. cbn. exists true, [asked]. split; [done|]. by exists e, [asked; PDestroy c].
  - destruct Hret as (u & tr7 & -> & _ & ->). split; [done|].
    exists (Ok (c, reused)), [asked]. split; [done|]. cbn. exists false, [asked]. split; [done|]. by exists tt, [asked; PPut c].
Qed.

(** C8: To the pool, an invocation is the client that the pool's theorems are about. It asks the function
    reader once, for the function and the revision in the message. If it answers with an error no call of
    the pool is made at all. If it answers with a function, exactly one container is asked for, for the
    caller's namespace, the function, and the kind and the memory limit of the function that was answered;
    and if there is one it is given back exactly once, by the method of the pool that its state calls for.
    Every call of the client is the program of the pool's method. *)
Theorem Invoke_is_pool_client msg a tr :
  runs runner_seen (Invoke unmarshalObject unmarshalError formatTime msg) [] a tr ->
  (exists r rest, tr = PFetch (qualifiedName msg) (fn_Revision (msg_Function msg)) r :: rest /\
    match r with
    | Ok fn => runs caller_seen (caller (request_of msg fn)) [] tt rest
    | Err _ => rest = []
    end) /\
  forall r, proc_equiv (invocation r) (proc_interp pool_method (caller r)).
Proof using.
  intros Hr. split; [|apply invocation_is_caller].
  unfold Invoke in Hr. cbn in Hr. destruct Hr as (now & tr1 & -> & Hr). cbn in Hr.
  apply runs_bind in Hr as (a1 & tr2 & Hb & Hr). apply runs_bind in Hr as (w & tr3 & Hw & [_ ->]).
  assert (tr3 = tr2) as ->; [|by eapply invokeBody_seen].
  eapply runs_outside; [|exact Hw]. by destruct (negb _ && _).
Qed.
End runner.

(** ** A concrete invocation: its run fails, so the container is destroyed *)
Definition seen_handle (X : Type) (op : runner_op X) (tr : list pool_event) : option (X * list pool_event) :=
  match runner_handle (Some DeadlineExceeded) X op [] with
  | Some (x, _) => Some (x, tr ++ runner_pool X op x)
  | None => None
  end.

Lemma seen_handle_sound X (op : runner_op X) tr x tr' :
  seen_handle X op tr = Some (x, tr') -> runner_seen X op tr x tr'.
Proof.
  unfold seen_handle. destruct (runner_handle _ X op []) as [[y evs]|]; [|done].
  by intros [= -> <-].
Qed.

Definition seen : option (Activation * list pool_event) :=
  attempt seen_handle (Invoke plain_document no_error_field some_time test_message) [].

Lemma seen_is :
  match seen with
  | Some (_, tr) => tr =
      [PFetch (qualifiedName test_message) (fn_Revision (msg_Function test_message)) (Ok test_fn);
       PGet (request_of test_message test_fn) (Ok (a_container, false)); PDestroy a_container]
  | None => False
  end.
Proof. vm_compute. done. Qed.

Lemma Invoke_is_pool_client_witness :
  runs caller_seen (caller (request_of test_message test_fn)) [] tt
    [PGet (request_of test_message test_fn) (Ok (a_container, false)); PDestroy a_container].
Proof.
  pose proof seen_is as Hs. destruct seen as [[a tr]|] eqn:E; [|destruct Hs]. subst tr.
  destruct (Invoke_is_pool_client plain_document no_error_field some_time test_message a _
    (attempt_runs seen_handle runner_seen seen_handle_sound _ [] a _ E)) as [(r & rest & Htr & Hr) _].
  injection Htr as <- <-. exact Hr.
Defined.
