(* ===== verification/Batcher.v ===== *)
(** * CouchDB: writing activations in batches

    [pkg/couchdb/batcher.go]: the workers, the channel that feeds them, the
    goroutine that flushes them in intervals, and the shutdown. *)
From S2P Require Export Entities.

Local Open Scope go_scope.

Definition flushInterval : Z := 3 * Second.
Definition flushBytes : Z := 5 * Megabyte.

(** ** Identifiers *)
Definition double_quote_str : string := String "034"%char "".

(** The document with the [_id] field added: the closing bracket is dropped and
    the field and a new bracket appended. *)
Definition addId (bs namespace activationID : string) : string :=
  take_str (String.length bs - 1) bs +:+
  "," +:+ double_quote_str +:+ "_id" +:+ double_quote_str +:+ ":" +:+
  double_quote_str +:+ namespace +:+ "/" +:+ activationID +:+ double_quote_str +:+ "}".

(** ** A worker: its batch, and the size it has summed up *)
Record worker := mkWorker { batch : list string; batchSize : Z }.

Definition new_worker : worker := mkWorker [] 0.

(** [flush]: the documents handed to [WriteDocuments], if any.  Whether the
    database accepted them makes no difference to the worker. *)
Definition flush (w : worker) : option (list string) * worker :=
  match batch w with
  | [] => (None, w)
  | _ => (Some (batch w), mkWorker [] 0)
  end.

(** The body of the loop of [worker.run], under the mutex of the worker. *)
Definition addActivation (w : worker) (activation : string) : option (list string) * worker :=
  let bytesInActivation := str_len activation in
  let '(written, w) :=
    if flushBytes <? batchSize w +u bytesInActivation then flush w else (None, w) in
  (written, mkWorker (batch w ++ [activation]) (batchSize w +u bytesInActivation)).

(** ** The batcher: channel, workers, and what was written so far *)
Record batcher := mkBatcher {
  activations : list string;            (* the channel *)
  closed : bool;                        (* doneCh and the channel are closed *)
  workers : list (worker * bool);       (* with whether [run] has returned *)
  written : list (list string)          (* the bulk requests, in order *)
}.

Definition NewActivationBatcher (n : nat) : batcher :=
  mkBatcher [] false (replicate n (new_worker, false)) [].

Definition record_write (o : option (list string)) (l : list (list string)) : list (list string) :=
  match o with Some b => l ++ [b] | None => l end.

(** What the goroutines can do; each step holds the mutex of one worker.  The
    first argument collects what was sent. *)
Inductive batch_step (capacity : nat) : list string * batcher -> list string * batcher -> Prop :=
| batch_send sent b doc :
    closed b = false -> (List.length (activations b) < capacity)%nat ->
    batch_step capacity (sent, b)
      (sent ++ [doc], mkBatcher (activations b ++ [doc]) (closed b) (workers b) (written b))
| batch_take sent b doc rest i w :
    activations b = doc :: rest -> workers b !! i = Some (w, false) ->
    batch_step capacity (sent, b)
      (sent, mkBatcher rest (closed b) (<[i := ((addActivation w doc).2, false)]> (workers b))
               (record_write (addActivation w doc).1 (written b)))
| batch_tick sent b i w ended :
    workers b !! i = Some (w, ended) ->
    batch_step capacity (sent, b)
      (sent, mkBatcher (activations b) (closed b) (<[i := ((flush w).2, ended)]> (workers b))
               (record_write (flush w).1 (written b)))
| batch_shutdown sent b :
    batch_step capacity (sent, b) (sent, mkBatcher (activations b) true (workers b) (written b))
| batch_end sent b i w :
    closed b = true -> activations b = [] -> workers b !! i = Some (w, false) ->
    batch_step capacity (sent, b)
      (sent, mkBatcher [] true (<[i := ((flush w).2, true)]> (workers b))
               (record_write (flush w).1 (written b))).

Definition batcher_reachable (n : nat) : list string * batcher -> Prop :=
  rtc (batch_step n) ([], NewActivationBatcher n).

(** ** One worker *)
Definition worker_ok (w : worker) : Prop :=
  batchSize w = sumZ str_len (batch w) /\
  (sumZ str_len (batch w) <= flushBytes \/ exists d, batch w = [d]).

(** A batch that may be written: not empty, and within the limit unless a
    single document exceeds it. *)
Definition batch_ok (b : list string) : Prop :=
  b <> [] /\ (sumZ str_len b <= flushBytes \/ exists d, b = [d]).

Definition doc_ok (d : string) : Prop := str_len d < 2 ^ 62.

Lemma flush_spec w :
  worker_ok w ->
  worker_ok (flush w).2 /\ batch (flush w).2 = [] /\
  match (flush w).1 with
  | Some b => b = batch w /\ batch_ok b
  | None => batch w = []
  end.
Proof.
  intros [Hs Hb]. unfold flush. destruct (batch w) as [|d l] eqn:E; cbn.
  - rewrite E. split_and!; [split|done|done]; rewrite ?E; [done|left; cbn; unfold flushBytes, Megabyte; lia].
  - split_and!; [split|done|done|split]; cbn; try done. left. unfold flushBytes, Megabyte. lia.
Qed.

Lemma addActivation_spec w d :
  worker_ok w -> Forall doc_ok (batch w) -> doc_ok d ->
  let '(o, w') := addActivation w d in
  worker_ok w' /\ Forall doc_ok (batch w') /\
  match o with
  | Some b => b = batch w /\ batch_ok b /\ batch w' = [d]
  | None => batch w' = batch w ++ [d]
  end.
Proof.
  intros Hw Hd Hdoc. unfold addActivation.
  assert (Hnn : 0 <= sumZ str_len (batch w)) by (apply sumZ_nonneg; intros; apply str_len_nonneg).
  pose proof (str_len_nonneg d) as Hd0. unfold doc_ok in Hdoc.
  assert (Hbound : sumZ str_len (batch w) < 2 ^ 62).
  { destruct Hw as [_ [Hle|[x Hx]]]; [unfold flushBytes, Megabyte in Hle; lia|].
    rewrite Hx, Forall_singleton in Hd. unfold doc_ok in Hd.
    rewrite Hx, sumZ_cons, sumZ_nil. lia. }
  destruct Hw as [Hs Hb]. rewrite Hs, u64_small by lia.
  assert (Hsum : sumZ str_len (batch w ++ [d]) = sumZ str_len (batch w) + str_len d)
    by (rewrite sumZ_app, sumZ_cons, sumZ_nil; lia).
  destruct (Z.ltb_spec flushBytes (sumZ str_len (batch w) + str_len d)).
  - destruct (flush_spec w (conj Hs Hb)) as ([Hs' _] & Hempty & Ho).
    destruct (flush w) as [o w1]. cbn in *. rewrite Hempty in *. cbn in *. rewrite Hs'.
    rewrite u64_small by lia.
    split; [split; cbn; [lia|right; eauto]|]. split; [by constructor|].
    destruct o as [b|]; [by destruct Ho|]. by rewrite Ho.
  - rewrite Hs, u64_small by lia. split; [split; cbn; [lia|left; lia]|]. split; [|done].
    cbn. apply Forall_app. split; [done|by constructor].
Qed.

(** ** The invariant *)
Definition pending (b : batcher) : list string := concat ((fun p => batch p.1) <$> workers b).

Record batcher_inv (sent : list string) (b : batcher) : Prop := {
  bi_once : sent ≡ₚ concat (written b) ++ pending b ++ activations b;
  bi_workers : Forall (fun p => worker_ok p.1 /\ Forall doc_ok (batch p.1)) (workers b);
  bi_docs : Forall doc_ok (activations b);
  bi_written : Forall batch_ok (written b);
  bi_ended : Forall (fun p => p.2 = true -> batch p.1 = []) (workers b)
}.

Lemma pending_insert b i w e :
  workers b !! i = Some (w, e) ->
  exists rest, pending b ≡ₚ batch w ++ rest /\
    forall act cl wr w' e',
      pending (mkBatcher act cl (<[i := (w', e')]> (workers b)) wr) ≡ₚ batch w' ++ rest.
Proof.
  intros Hi. exists (concat ((fun p => batch p.1) <$> delete i (workers b))).
  pose proof (delete_Permutation _ _ _ Hi) as Hp. unfold pending. split.
  - by rewrite Hp at 1.
  - intros act cl wr w' e'. cbn.
    rewrite (delete_Permutation (<[i := (w', e')]> (workers b)) i (w', e')).
    + by rewrite delete_take_drop, take_insert_ge, drop_insert_lt, <- delete_take_drop by lia.
    + apply list_lookup_insert_eq. by eapply lookup_lt_Some.
Qed.

Lemma concat_record_write o l :
  concat (record_write o l) = concat l ++ default [] o.
Proof. destruct o; cbn; [by rewrite concat_app; cbn; rewrite app_nil_r|by rewrite app_nil_r]. Qed.

Lemma workers_insert (P : worker * bool -> Prop) l i x :
  Forall P l -> P x -> Forall P (<[i := x]> l).
Proof. apply Forall_insert. Qed.

(** A worker that hands over what it had and keeps [extra]. *)
Lemma batcher_inv_worker sent b i w e w' e' o act :
  batcher_inv sent b -> workers b !! i = Some (w, e) ->
  default [] o ++ batch w' ++ act ≡ₚ batch w ++ activations b ->
  worker_ok w' -> Forall doc_ok (batch w') -> Forall doc_ok act ->
  (forall d, o = Some d -> batch_ok d) -> (e' = true -> batch w' = []) ->
  batcher_inv sent (mkBatcher act (closed b) (<[i := (w', e')]> (workers b)) (record_write o (written b))).
Proof.
  intros [H1 H2 H3 H4 H5] Hi Hp Hw Hd Ha Ho He. split; cbn [activations closed workers written]; try done.
  - destruct (pending_insert b i w e Hi) as (rest & Hold & Hnew).
    rewrite Hnew, H1, Hold, concat_record_write, <- !(assoc (++)).
    apply Permutation_app_head.
    rewrite (Permutation_app_comm rest (activations b)), (assoc (++) (batch w)), <- Hp.
    rewrite <- !(assoc (++)). apply Permutation_app_head, Permutation_app_head, Permutation_app_comm.
  - apply workers_insert; [done|by split].
  - destruct o as [d|]; cbn; [|done]. apply Forall_app. split; [done|]. constructor; [by apply Ho|done].
  - by apply workers_insert.
Qed.

Lemma worker_at sent b i w e :
  batcher_inv sent b -> workers b !! i = Some (w, e) -> worker_ok w /\ Forall doc_ok (batch w).
Proof.
  intros Hi Hw. pose proof (bi_workers _ _ Hi) as Hf. rewrite Forall_forall in Hf.
  apply (Hf (w, e)). by eapply list_elem_of_lookup_2.
Qed.

Lemma flush_keeps sent b i w e e' act :
  batcher_inv sent b -> workers b !! i = Some (w, e) -> act = activations b ->
  batcher_inv sent (mkBatcher act (closed b) (<[i := ((flush w).2, e')]> (workers b))
                      (record_write (flush w).1 (written b))).
Proof.
  intros Hi Hw ->. destruct (worker_at _ _ _ _ _ Hi Hw) as [Hok Hd].
  destruct (flush_spec w Hok) as (Hok' & Hempty & Ho).
  eapply batcher_inv_worker; try done; rewrite ?Hempty; try done.
  - destruct (flush w).1 as [d|]; cbn; [by destruct Ho as [-> _]|by rewrite Ho].
  - apply (bi_docs _ _ Hi).
  - intros d Hd'. rewrite Hd' in Ho. by destruct Ho.
Qed.

Lemma batch_step_sent n c c' : batch_step n c c' -> exists more, c'.1 = c.1 ++ more.
Proof.
  intros [sent b doc _ _|sent b doc rest i w _ _|sent b i w e _|sent b|sent b i w _ _ _]; cbn;
    [by exists [doc]|by exists []; rewrite app_nil_r..].
Qed.

Lemma batch_step_inv n c c' :
  batch_step n c c' -> Forall doc_ok c'.1 -> batcher_inv c.1 c.2 -> batcher_inv c'.1 c'.2.
Proof.
  intros Hs Hd Hi. destruct Hs as [sent b doc _ _|sent b doc rest i w Ha Hw|sent b i w ended Hw|
    sent b|sent b i w Hc Ha Hw]; cbn in *.
  - apply Forall_app in Hd as [Hd Hdoc]. destruct Hi as [H1 H2 H3 H4 H5]. split; cbn; try done.
    + rewrite H1. unfold pending. cbn. by rewrite <- !(assoc (++)).
    + by apply Forall_app.
  - destruct (worker_at _ _ _ _ _ Hi Hw) as [Hok Hdb].
    pose proof (bi_docs _ _ Hi) as Hdocs. rewrite Ha in Hdocs. apply Forall_cons in Hdocs as [Hdoc Hrest].
    pose proof (addActivation_spec w doc Hok Hdb Hdoc) as Hsp.
    destruct (addActivation w doc) as [o w']. cbn. destruct Hsp as (Hok' & Hd' & Ho).
    eapply batcher_inv_worker; try done.
    + rewrite Ha. destruct o as [d|]; cbn.
      * destruct Ho as (-> & _ & ->). done.
      * rewrite Ho. by rewrite <- (assoc (++)).
    + intros d ->. by destruct Ho as (_ & ? & _).
  - eapply flush_keeps; [done|exact Hw|done].
  - destruct Hi as [H1 H2 H3 H4 H5]. by split.
  - rewrite <- Hc at 1. eapply flush_keeps; [done|exact Hw|done].
Qed.

Lemma batch_steps_inv n c c' :
  rtc (batch_step n) c c' -> Forall doc_ok c'.1 -> batcher_inv c.1 c.2 -> batcher_inv c'.1 c'.2.
Proof.
  intros Hr Hd. revert Hd. induction Hr as [c|c c1 c' Hs Hr IH]; [done|]. intros Hd Hi.
  apply IH; [done|]. eapply batch_step_inv; [done| |done].
  assert (exists more, c'.1 = c1.1 ++ more) as [more Hm].
  { clear -Hr. induction Hr as [c|a b c Hs _ [more IH]]; [exists []; by rewrite app_nil_r|].
    apply batch_step_sent in Hs as [m Hm]. exists (m ++ more). by rewrite IH, Hm, (assoc (++)). }
  rewrite Hm in Hd. by apply Forall_app in Hd as [? _].
Qed.

Lemma new_batcher_inv n : batcher_inv [] (NewActivationBatcher n).
Proof.
  split; cbn; try done.
  - unfold pending. cbn. induction n as [|n IH]; cbn; [done|]. cbn in IH. by rewrite <- IH.
  - apply Forall_replicate. cbn. split; [|done]. split; [done|left].
    cbn. unfold flushBytes, Megabyte. lia.
  - apply Forall_replicate. done.
Qed.

(** C14: every activation handed to the batcher is, at any time, in exactly one
    place: in one bulk request, in the batch of one worker, or in the channel;
    no bulk request is empty, and none is larger than the limit unless it
    consists of a single document; once all workers have ended, every activation
    has been written in exactly one request. *)
Theorem batcher_exactly_once n sent b :
  batcher_reachable n (sent, b) -> Forall doc_ok sent ->
  sent ≡ₚ concat (written b) ++ pending b ++ activations b /\
  Forall batch_ok (written b) /\
  (Forall (fun p => p.2 = true) (workers b) -> activations b = [] -> sent ≡ₚ concat (written b)).
Proof.
  intros Hr Hdocs.
  destruct (batch_steps_inv _ _ _ Hr Hdocs (new_batcher_inv n)) as [H1 _ _ H4 H5].
  cbn in *. split_and!; [done|done|]. intros Hended Ha.
  rewrite H1, Ha. assert (pending b = []) as ->; [|by rewrite !app_nil_r].
  unfold pending. induction (workers b) as [|[w e] ws IH]; cbn; [done|].
  apply Forall_cons in Hended as [He Hended], H5 as [H5 H5']. cbn in *.
  rewrite H5 by done. by apply IH.
Qed.

(** Two documents through one worker, the second one on shutdown. *)
Lemma batcher_exactly_once_witness :
  ["{}"; "[]"] ≡ₚ concat [["{}"]; ["[]"]].
Proof.
  pose (b := mkBatcher [] true [(new_worker, true)] [["{}"]; ["[]"]]).
  apply (batcher_exactly_once 1 ["{}"; "[]"] b).
  - unfold batcher_reachable.
    eapply rtc_l; [apply (batch_send 1 [] _ "{}"); [done|cbn; lia]|]. cbn.
    eapply rtc_l; [eapply (batch_take 1 _ _ "{}" [] 0); reflexivity|]. cbn.
    eapply rtc_l; [eapply (batch_tick 1 _ _ 0); reflexivity|]. cbn.
    eapply rtc_l; [apply (batch_send 1 _ _ "[]"); [done|cbn; lia]|]. cbn.
    eapply rtc_l; [eapply (batch_take 1 _ _ "[]" [] 0); reflexivity|]. cbn.
    eapply rtc_l; [apply batch_shutdown|]. cbn.
    eapply rtc_l; [eapply (batch_end 1 _ _ 0); reflexivity|]. cbn. apply rtc_refl.
  - repeat constructor.
  - repeat constructor.
  - reflexivity.
Defined.
