(* ===== verification/Base64.v ===== *)
(** * Base64

    [encoding/base64] of the standard library with padding, in the two
    alphabets the program uses.  Strings are byte strings. *)
From S2P Require Export GoStrings.

(** The characters of the digits 0 to 61, followed by the two of the variant. *)
Definition digits62 : string := "ABCDEFGHIJKLMNOPQRSTUVWXYZabcdefghijklmnopqrstuvwxyz0123456789".
Definition StdEncoding : string := digits62 +:+ "+/".
Definition URLEncoding : string := digits62 +:+ "-_".

Definition byte_of (z : Z) : ascii := Ascii.ascii_of_N (Z.to_N z).

Fixpoint char_at (n : nat) (s : string) : ascii :=
  match s, n with
  | EmptyString, _ => "000"%char
  | String c _, O => c
  | String _ s', S n' => char_at n' s'
  end.

(** The character of the lowest six bits of a number. *)
Definition enc_char (alphabet : string) (z : Z) : ascii := char_at (Z.to_nat (Z.land z 63)) alphabet.

(** [EncodeToString]. *)
Fixpoint EncodeToString (alphabet : string) (s : string) : string :=
  match s with
  | String a (String b (String c s')) =>
      let val := Z.lor (Z.lor (Z.shiftl (ascii_Z a) 16) (Z.shiftl (ascii_Z b) 8)) (ascii_Z c) in
      String (enc_char alphabet (Z.shiftr val 18)) (String (enc_char alphabet (Z.shiftr val 12))
        (String (enc_char alphabet (Z.shiftr val 6)) (String (enc_char alphabet val)
          (EncodeToString alphabet s'))))
  | String a (String b EmptyString) =>
      let val := Z.lor (Z.shiftl (ascii_Z a) 16) (Z.shiftl (ascii_Z b) 8) in
      String (enc_char alphabet (Z.shiftr val 18)) (String (enc_char alphabet (Z.shiftr val 12))
        (String (enc_char alphabet (Z.shiftr val 6)) "="))
  | String a EmptyString =>
      let val := Z.shiftl (ascii_Z a) 16 in
      String (enc_char alphabet (Z.shiftr val 18)) (String (enc_char alphabet (Z.shiftr val 12)) "==")
  | EmptyString => EmptyString
  end.

(** The decoding table. *)
Fixpoint index_of (c : ascii) (s : string) (i : Z) : option Z :=
  match s with
  | EmptyString => None
  | String d s' => if Ascii.eqb c d then Some i else index_of c s' (i + 1)
  end.

Definition decodeMap (alphabet : string) (c : ascii) : option Z := index_of c alphabet 0.

(** Line breaks are skipped wherever they are. *)
Definition no_line_break (c : ascii) : bool :=
  negb (Ascii.eqb c "010" || Ascii.eqb c "013").

(** [Decode] into a buffer: the bytes, [CorruptInputError], or a panic because
    the next bytes do not fit into the buffer. *)
Inductive decoded :=
| Decoded (bytes : string)
| CorruptInput
| OutOfRange.

Definition decoded_bind (d : decoded) (f : string -> decoded) : decoded :=
  match d with Decoded s => f s | _ => d end.

Fixpoint decodeQuanta (alphabet : string) (room : nat) (src : string) : decoded :=
  match src with
  | EmptyString => Decoded ""
  | String a (String b (String c (String d src'))) =>
      match decodeMap alphabet a, decodeMap alphabet b with
      | Some x, Some y =>
          match decodeMap alphabet c, decodeMap alphabet d with
          | Some z, Some w =>
              let val := Z.lor (Z.lor (Z.shiftl x 18) (Z.shiftl y 12)) (Z.lor (Z.shiftl z 6) w) in
              if (room <? 3)%nat then OutOfRange
              else decoded_bind (decodeQuanta alphabet (room - 3) src') (fun rest =>
                Decoded (String (byte_of (Z.land (Z.shiftr val 16) 255))
                  (String (byte_of (Z.land (Z.shiftr val 8) 255))
                    (String (byte_of (Z.land val 255)) rest))))
          | Some z, None =>
              if Ascii.eqb d "=" then
                let val := Z.lor (Z.lor (Z.shiftl x 18) (Z.shiftl y 12)) (Z.shiftl z 6) in
                if (room <? 2)%nat then OutOfRange
                else match src' with
                     | EmptyString =>
                         Decoded (String (byte_of (Z.land (Z.shiftr val 16) 255))
                           (String (byte_of (Z.land (Z.shiftr val 8) 255)) ""))
                     | _ => CorruptInput
                     end
              else CorruptInput
          | None, _ =>
              if Ascii.eqb c "=" && Ascii.eqb d "=" then
                let val := Z.lor (Z.shiftl x 18) (Z.shiftl y 12) in
                if (room <? 1)%nat then OutOfRange
                else match src' with
                     | EmptyString => Decoded (String (byte_of (Z.land (Z.shiftr val 16) 255)) "")
                     | _ => CorruptInput
                     end
              else CorruptInput
          end
      | _, _ => CorruptInput
      end
  | _ => CorruptInput
  end.

Definition Decode64 (alphabet : string) (room : nat) (src : string) : decoded :=
  decodeQuanta alphabet room (filter_str no_line_break src).

(** [DecodedLen] of a padded encoding. *)
Definition DecodedLen (n : nat) : nat := (n / 4 * 3)%nat.

(** ** Decoding what was encoded *)
Definition alphabet_ok (alphabet : string) : bool :=
  forallb (fun i => bool_decide (decodeMap alphabet (char_at i alphabet) = Some (Z.of_nat i)) &&
                    no_line_break (char_at i alphabet) &&
                    negb (Ascii.eqb (char_at i alphabet) "=")) (seq 0 64) &&
  bool_decide (decodeMap alphabet "=" = None).

Lemma StdEncoding_ok : alphabet_ok StdEncoding = true.
Proof. vm_compute. done. Qed.
Lemma URLEncoding_ok : alphabet_ok URLEncoding = true.
Proof. vm_compute. done. Qed.

Lemma ascii_Z_range c : 0 <= ascii_Z c < 256.
Proof. unfold ascii_Z. pose proof (Ascii.N_ascii_bounded c). lia. Qed.

Lemma byte_of_ascii_Z c : byte_of (ascii_Z c) = c.
Proof. unfold byte_of, ascii_Z. rewrite N2Z.id. apply Ascii.ascii_N_embedding. Qed.

Lemma land_63 z : Z.land z 63 = z mod 64.
Proof. change 63 with (Z.ones 6). by rewrite Z.land_ones by lia. Qed.
Lemma land_255 z : Z.land z 255 = z mod 256.
Proof. change 255 with (Z.ones 8). by rewrite Z.land_ones by lia. Qed.

(** Putting a number below [2 ^ n] under a shifted one. *)
Lemma lor_shiftl a b n : 0 <= n -> 0 <= b < 2 ^ n -> Z.lor (Z.shiftl a n) b = a * 2 ^ n + b.
Proof.
  intros Hn Hb. rewrite Z.shiftl_mul_pow2 by done. rewrite <- Z.lxor_lor, <- Z.add_nocarry_lxor; [done|..];
    apply Z.bits_inj'; intros i Hi; rewrite Z.land_spec, Z.bits_0; destruct (Z.lt_ge_cases i n) as [Hlt|Hge].
  all: rewrite ?Z.mul_pow2_bits_low by done; cbn; try done.
  all: replace (Z.testbit b i) with false; [by rewrite andb_false_r|].
  all: symmetry; destruct (Z.eq_dec b 0) as [->|]; [apply Z.bits_0|].
  all: apply Z.bits_above_log2; [lia|].
  all: assert (Z.log2 b < n) by (apply Z.log2_lt_pow2; lia); lia.
Qed.

(** The numbers built from three bytes and from four digits. *)
Lemma val_bytes a b c :
  0 <= b < 256 -> 0 <= c < 256 ->
  Z.lor (Z.lor (Z.shiftl a 16) (Z.shiftl b 8)) c = a * 65536 + b * 256 + c.
Proof.
  intros Hb Hc. rewrite (Z.shiftl_mul_pow2 b 8) by lia. rewrite (lor_shiftl a) by lia.
  replace (a * 2 ^ 16 + b * 2 ^ 8) with (Z.shiftl (a * 256 + b) 8)
    by (rewrite Z.shiftl_mul_pow2 by lia; lia).
  rewrite lor_shiftl by lia. lia.
Qed.

Lemma val_digits x y z w :
  0 <= y < 64 -> 0 <= z < 64 -> 0 <= w < 64 ->
  Z.lor (Z.lor (Z.shiftl x 18) (Z.shiftl y 12)) (Z.lor (Z.shiftl z 6) w) =
  x * 262144 + y * 4096 + z * 64 + w.
Proof.
  intros Hy Hz Hw. rewrite (lor_shiftl z) by lia.
  rewrite (Z.shiftl_mul_pow2 y) by lia. rewrite (lor_shiftl x) by lia.
  replace (x * 2 ^ 18 + y * 2 ^ 12) with (Z.shiftl (x * 64 + y) 12)
    by (rewrite Z.shiftl_mul_pow2 by lia; lia).
  rewrite lor_shiftl by lia. lia.
Qed.

(** The four digits of three bytes give the bytes back. *)
Lemma digits_bytes a b c :
  0 <= a < 256 -> 0 <= b < 256 -> 0 <= c < 256 ->
  let val := a * 65536 + b * 256 + c in
  let val' := (Z.shiftr val 18) mod 64 * 262144 + (Z.shiftr val 12) mod 64 * 4096 +
              (Z.shiftr val 6) mod 64 * 64 + val mod 64 in
  Z.land (Z.shiftr val' 16) 255 = a /\ Z.land (Z.shiftr val' 8) 255 = b /\ Z.land val' 255 = c.
Proof.
  intros Ha Hb Hc val val'. assert (val' = val) as ->.
  { unfold val', val. rewrite !Z.shiftr_div_pow2 by lia. change (2 ^ 18) with 262144.
    change (2 ^ 12) with 4096. change (2 ^ 6) with 64.
    Z.to_euclidean_division_equations. lia. }
  rewrite !land_255, !Z.shiftr_div_pow2 by lia. unfold val.
  change (2 ^ 16) with 65536. change (2 ^ 8) with 256.
  Z.to_euclidean_division_equations. lia.
Qed.

Section roundtrip.
Context (alphabet : string) (alphabet_good : alphabet_ok alphabet = true).

Lemma enc_char_spec z :
  decodeMap alphabet (enc_char alphabet z) = Some (z mod 64) /\
  no_line_break (enc_char alphabet z) = true /\ Ascii.eqb (enc_char alphabet z) "=" = false.
Proof using alphabet_good.
  pose proof alphabet_good as Hg. unfold alphabet_ok in Hg.
  apply andb_prop in Hg as [Hg _]. rewrite forallb_forall in Hg.
  assert (Hr : 0 <= z mod 64 < 64) by (apply Z.mod_pos_bound; lia).
  unfold enc_char. rewrite land_63.
  specialize (Hg (Z.to_nat (z mod 64))).
  rewrite Z2Nat.id in Hg by lia.
  assert (Hin : In (Z.to_nat (z mod 64)) (seq 0 64)) by (apply in_seq; lia).
  specialize (Hg Hin). apply andb_prop in Hg as [Hg H3]. apply andb_prop in Hg as [H1 H2].
  apply bool_decide_eq_true in H1. apply negb_true_iff in H3. done.
Qed.

Lemma decodeMap_pad : decodeMap alphabet "=" = None.
Proof using alphabet_good.
  pose proof alphabet_good as Hg. unfold alphabet_ok in Hg.
  apply andb_prop in Hg as [_ Hg]. by apply bool_decide_eq_true in Hg.
Qed.

(** Induction in steps of three characters. *)
Lemma string_ind3 (P : string -> Prop) :
  P "" -> (forall a, P (String a "")) -> (forall a b, P (String a (String b ""))) ->
  (forall a b c s, P s -> P (String a (String b (String c s)))) -> forall s, P s.
Proof.
  intros H0 H1 H2 H3. fix IH 1.
  intros [|a [|b [|c s]]]; [apply H0|apply H1|apply H2|apply H3, IH].
Qed.

Lemma encode_no_line_break s :
  filter_str no_line_break (EncodeToString alphabet s) = EncodeToString alphabet s.
Proof using alphabet_good.
  induction s as [|a|a b|a b c s IH] using string_ind3; cbn [EncodeToString]; [done|..];
    cbn [filter_str]; repeat rewrite (proj1 (proj2 (enc_char_spec _))); cbn; try done.
  by rewrite IH.
Qed.

Lemma decodeQuanta_encode s room :
  (String.length s <= room)%nat ->
  decodeQuanta alphabet room (EncodeToString alphabet s) = Decoded s.
Proof using alphabet_good.
  revert room. induction s as [|a|a b|a b c s IH] using string_ind3; intros room Hroom;
    cbn [EncodeToString]; cbn in Hroom; [done|..]; cbn [decodeQuanta];
    rewrite ?(proj1 (enc_char_spec _)), ?decodeMap_pad; cbn [Ascii.eqb andb].
  - destruct (Nat.ltb_spec room 1); [lia|].
    pose proof (val_bytes (ascii_Z a) 0 0 ltac:(lia) ltac:(lia)) as Hv.
    rewrite !Z.shiftl_0_l, !Z.lor_0_r in Hv. rewrite Hv.
    destruct (digits_bytes (ascii_Z a) 0 0) as (H1 & _ & _); [apply ascii_Z_range|lia..|].
    set (val := ascii_Z a * 65536 + 0 * 256 + 0) in *.
    assert (Hz : Z.shiftr val 6 mod 64 = 0 /\ val mod 64 = 0) by
      (unfold val; rewrite Z.shiftr_div_pow2 by lia; change (2 ^ 6) with 64;
       Z.to_euclidean_division_equations; lia).
    rewrite (proj1 Hz), (proj2 Hz) in H1.
    rewrite <- val_digits in H1 by (try apply Z.mod_pos_bound; lia).
    rewrite Z.shiftl_0_l, !Z.lor_0_r in H1. by rewrite H1, byte_of_ascii_Z.
  - destruct (Nat.ltb_spec room 2); [lia|].
    pose proof (val_bytes (ascii_Z a) (ascii_Z b) 0 (ascii_Z_range b) ltac:(lia)) as Hv.
    rewrite !Z.lor_0_r in Hv. rewrite Hv.
    destruct (digits_bytes (ascii_Z a) (ascii_Z b) 0) as (H1 & H2 & _);
      [apply ascii_Z_range|apply ascii_Z_range|lia|].
    set (val := ascii_Z a * 65536 + ascii_Z b * 256 + 0) in *.
    assert (Hz : val mod 64 = 0) by
      (unfold val; Z.to_euclidean_division_equations; lia).
    rewrite Hz in H1, H2.
    rewrite <- val_digits, Z.lor_0_r in H1, H2 by (try apply Z.mod_pos_bound; lia).
    by rewrite H1, H2, !byte_of_ascii_Z.
  - destruct (Nat.ltb_spec room 3); [lia|].
    rewrite IH by lia. cbn [decoded_bind].
    rewrite val_bytes by apply ascii_Z_range.
    destruct (digits_bytes (ascii_Z a) (ascii_Z b) (ascii_Z c)) as (H1 & H2 & H3);
      [apply ascii_Z_range..|].
    rewrite <- val_digits in H1, H2, H3 by (apply Z.mod_pos_bound; lia).
    by rewrite H1, H2, H3, !byte_of_ascii_Z.
Qed.

(** What [Decode] makes of an encoding, given enough room, is what was encoded. *)
Lemma Decode64_encode s room :
  (String.length s <= room)%nat ->
  Decode64 alphabet room (EncodeToString alphabet s) = Decoded s.
Proof using alphabet_good.
  intros. unfold Decode64. rewrite encode_no_line_break. by apply decodeQuanta_encode.
Qed.

Lemma length_encode s :
  String.length (EncodeToString alphabet s) = ((String.length s + 2) / 3 * 4)%nat.
Proof using.
  induction s as [|a|a b|a b c s IH] using string_ind3; try done.
  cbn [EncodeToString String.length]. rewrite IH.
  replace (S (S (S (String.length s))) + 2)%nat with (1 * 3 + (String.length s + 2))%nat by lia.
  rewrite Nat.div_add_l by lia. lia.
Qed.

Lemma DecodedLen_encode s :
  (String.length s <= DecodedLen (String.length (EncodeToString alphabet s)))%nat.
Proof using.
  unfold DecodedLen. rewrite length_encode, Nat.div_mul by lia.
  pose proof (Nat.div_mod (String.length s + 2) 3). pose proof (Nat.mod_upper_bound (String.length s + 2) 3). lia.
Qed.
End roundtrip.

(** A buffer of the decoded length is never too small, and a smaller buffer is
    never overrun silently. *)
Lemma string_ind4 (P : string -> Prop) :
  (forall s, (String.length s < 4)%nat -> P s) ->
  (forall a b c d s, P s -> P (String a (String b (String c (String d s))))) -> forall s, P s.
Proof.
  intros H0 H1. fix IH 1.
  intros [|a [|b [|c [|d s]]]]; [apply H0; cbn; lia..|apply H1, IH].
Qed.

Lemma decodeQuanta_in_range alphabet s room :
  (String.length s / 4 * 3 <= room)%nat -> decodeQuanta alphabet room s <> OutOfRange.
Proof.
  revert room. induction s as [s Hs|a b c d s IH] using string_ind4; intros room Hroom.
  - destruct s as [|? [|? [|? [|? ?]]]]; cbn in *; try done. lia.
  - assert (Hlen : (String.length s / 4 * 3 + 3 <= room)%nat).
    { cbn [String.length] in Hroom.
      replace (S (S (S (S (String.length s))))) with (1 * 4 + String.length s)%nat in Hroom by lia.
      rewrite Nat.div_add_l in Hroom by lia. lia. }
    cbn [decodeQuanta]. specialize (IH (room - 3)%nat ltac:(lia)).
    destruct (Nat.ltb_spec room 3); [lia|]. destruct (Nat.ltb_spec room 2); [lia|].
    destruct (Nat.ltb_spec room 1); [lia|].
    destruct (decodeQuanta alphabet (room - 3) s); cbn [decoded_bind]; [..|done];
      repeat (case_match; try done).
Qed.

Lemma length_filter_str f s : (String.length (filter_str f s) <= String.length s)%nat.
Proof. induction s as [|c s IH]; cbn; [lia|]. destruct (f c); cbn; lia. Qed.

Lemma Decode64_in_range alphabet s : Decode64 alphabet (DecodedLen (String.length s)) s <> OutOfRange.
Proof.
  apply decodeQuanta_in_range. unfold DecodedLen.
  pose proof (length_filter_str no_line_break s).
  apply Nat.mul_le_mono_r, Nat.Div0.div_le_mono. done.
Qed.

Lemma decodeQuanta_fits alphabet s room out :
  decodeQuanta alphabet room s = Decoded out -> (String.length out <= room)%nat.
Proof.
  revert room out. induction s as [s Hs|a b c d s IH] using string_ind4; intros room out.
  - destruct s as [|? [|? [|? [|? ?]]]]; cbn in *; intros; simplify_eq/=; lia.
  - cbn [decodeQuanta]. intros Hd.
    destruct (decodeQuanta alphabet (room - 3) s) as [rest| |] eqn:E; cbn [decoded_bind] in Hd;
      repeat (case_match; simplify_eq/=);
      repeat match goal with H : (_ <? _)%nat = false |- _ => apply Nat.ltb_ge in H end; try lia.
    apply IH in E. lia.
Qed.
