(* ===== verification/Json.v ===== *)
(** * Documents read with fastjson

    Interface of [github.com/valyala/fastjson], which is not part of the
    repository: the accessors that [FunctionCode.UnmarshalJSON],
    [Limits.UnmarshalJSON] and [ParseActivationMessage] call.  A nil value is
    [None], nil bytes are the empty string; reading a key of a nil object may
    panic.  Nothing is assumed of the accessors; the theorems say what the
    program makes of their answers. *)
From S2P Require Export Entities.

Class FastJSON := {
  json : Type;
  object : Type;
  ParseBytes : string -> result json;
  TypeIsString : json -> bool;
  Get : option json -> list string -> option json;
  GetStringBytes : option json -> list string -> string;
  GetInt : option json -> list string -> Z;
  GetInt64 : option json -> list string -> Z;
  GetBool : option json -> list string -> bool;
  GetArray : option json -> list string -> list json;
  GetObject : option json -> list string -> option object;
  ObjectGet : option object -> string -> outcome (option json);
  Visit : object -> list (string * json);
  MarshalTo : json -> string
}.

(** Writing pairs into a map, one after the other: later ones replace earlier ones. *)
Definition collect {A} (l : list (string * A)) : gmap string A :=
  foldl (fun m kv => <[kv.1 := kv.2]> m) ∅ l.

Lemma collect_to_map {A} (l : list (string * A)) : collect l = list_to_map (rev l).
Proof.
  induction l as [|x l IH] using rev_ind; [done|].
  unfold collect in *. rewrite foldl_snoc, IH, rev_app_distr. by destruct x.
Qed.

(** A map written from its own entries, in any order, is the map. *)
Lemma collect_map {A} (l : list (string * A)) (m : gmap string A) :
  l ≡ₚ map_to_list m -> collect l = m.
Proof.
  intros Hl. rewrite collect_to_map. rewrite <- (list_to_map_to_list m).
  assert (Hp : rev l ≡ₚ map_to_list m) by (by rewrite <- Permutation_rev).
  apply list_to_map_proper; [|done]. rewrite Hp. apply NoDup_fst_map_to_list.
Qed.

(** ** A concrete reader of documents, for examples

    Values as trees; the texts that can be parsed are those of a table. *)
Inductive tree :=
| TNull
| TBool (b : bool)
| TInt (z : Z)
| TString (s : string)
| TArray (l : list tree)
| TObject (l : list (string * tree)).

Module Tree.
Fixpoint assoc {A} (k : string) (fields : list (string * A)) : option A :=
  match fields with
  | [] => None
  | (name, a) :: rest => if bool_decide (k = name) then Some a else assoc k rest
  end.

Fixpoint get (t : option tree) (keys : list string) : option tree :=
  match keys with
  | [] => t
  | k :: keys' =>
      match t with
      | Some (TObject l) => get (assoc k l) keys'
      | _ => None
      end
  end.

Definition reader (table : list (string * tree)) : FastJSON := {|
  json := tree;
  object := list (string * tree);
  ParseBytes s := match assoc s table with
                  | Some t => Ok t
                  | None => Err (ErrText "cannot parse JSON")
                  end;
  TypeIsString t := match t with TString _ => true | _ => false end;
  Get := get;
  GetStringBytes t ks := match get t ks with Some (TString s) => s | _ => "" end;
  GetInt t ks := match get t ks with Some (TInt z) => z | _ => 0 end;
  GetInt64 t ks := match get t ks with Some (TInt z) => z | _ => 0 end;
  GetBool t ks := match get t ks with Some (TBool b) => b | _ => false end;
  GetArray t ks := match get t ks with Some (TArray l) => l | _ => [] end;
  GetObject t ks := match get t ks with Some (TObject l) => Some l | _ => None end;
  ObjectGet o k := match o with Some l => Done (assoc k l) | None => Panics end;
  Visit l := l;
  MarshalTo t := match t with
                 | TInt z => fmt_d z
                 | TBool b => if b then "true" else "false"
                 | TString s => String "034"%char s +:+ String "034"%char ""
                 | _ => "null"
                 end
|}.
End Tree.
