(* ===== verification/Units.v ===== *)
(** * Byte sizes

    [pkg/units/units.go]: parsing and printing of sizes, and the gigabyte
    seconds of an activation in the floating-point arithmetic of the source.
    The constants of the package are in Container.v. *)
From Stdlib Require Import Floats.SpecFloat.
From S2P Require Export Container Errors.

Local Open Scope go_scope.

(** ** ASCII, and the rest of Unicode

    [unicode.IsLetter], [strings.TrimSpace], [strings.ToUpper] and the verb
    [%q] on texts of ASCII characters; what they do to other texts is left open. *)
Class Unicode := {
  IndexLetter_u : string -> option nat;
  TrimSpace_u : string -> string;
  ToUpper_u : string -> string;
  Quote_u : string -> string
}.

Fixpoint forall_str (f : ascii -> bool) (s : string) : bool :=
  match s with
  | EmptyString => true
  | String c s' => f c && forall_str f s'
  end.

Definition isASCII (s : string) : bool := forall_str (fun c => ascii_Z c <? 128) s.

Definition isLetter (c : ascii) : bool := in_range "a" "z" c || in_range "A" "Z" c.
Definition isDigit (c : ascii) : bool := in_range "0" "9" c.
(** Tab, line feed, vertical tab, form feed, carriage return and space. *)
Definition isSpace (c : ascii) : bool := in_range "009" "013" c || Ascii.eqb c " ".

Fixpoint index_str (f : ascii -> bool) (s : string) : option nat :=
  match s with
  | EmptyString => None
  | String c s' => if f c then Some O else S <$> index_str f s'
  end.

Fixpoint trim_left (s : string) : string :=
  match s with
  | String c s' => if isSpace c then trim_left s' else s
  | EmptyString => ""
  end.

Fixpoint trim_right (s : string) : string :=
  match s with
  | EmptyString => ""
  | String c s' =>
      match trim_right s' with
      | EmptyString => if isSpace c then "" else String c ""
      | r => String c r
      end
  end.

Definition upper (c : ascii) : ascii :=
  if in_range "a" "z" c then Ascii.ascii_of_N (Ascii.N_of_ascii c - 32) else c.

Section parse.
Context `{Unicode}.

Definition IndexLetter (s : string) : option nat :=
  if isASCII s then index_str isLetter s else IndexLetter_u s.
Definition TrimSpace (s : string) : string :=
  if isASCII s then trim_right (trim_left s) else TrimSpace_u s.
Definition ToUpper (s : string) : string :=
  if isASCII s then map_str upper s else ToUpper_u s.

(** [strconv.ParseUint(s, 10, 64)]. *)
Fixpoint parseDigits (s : string) (n : Z) : result Z :=
  match s with
  | EmptyString => Ok n
  | String c s' =>
      if isDigit c then
        let n1 := n * 10 + (ascii_Z c - 48) in
        if 2 ^ 64 <=? n1 then Err (ErrText "value out of range") else parseDigits s' n1
      else Err (ErrText "invalid syntax")
  end.

Definition ParseUint (s : string) : result Z :=
  match s with
  | EmptyString => Err (ErrText "invalid syntax")
  | _ => parseDigits s 0
  end.

(** The factor of a unit. *)
Definition unitSize (unit_ : string) : option Z :=
  let u := ToUpper unit_ in
  if bool_decide (u ∈ ["G"; "GB"; "GIB"]) then Some Gigabyte
  else if bool_decide (u ∈ ["M"; "MB"; "MIB"]) then Some Megabyte
  else if bool_decide (u ∈ ["K"; "KB"; "KIB"]) then Some Kilobyte
  else if bool_decide (u = "B") then Some Byte
  else None.

Definition ParseByteSize (s : string) : result Z :=
  match IndexLetter s with
  | None => Err (ErrText "failed to find unit")
  | Some i =>
      let bytesString := TrimSpace (take_str i s) in
      let unit_ := TrimSpace (drop_str i s) in
      match ParseUint bytesString with
      | Err err => Err (Errorf "failed to parse number: %w" [err])
      | Ok bytes =>
          match unitSize unit_ with
          | Some size => Ok (bytes *u size)
          | None => Err (Errorf "invalid unit %q" [])
          end
      end
  end.

(** [ByteSize.Decode]; the value of the receiver, which an error leaves as it was. *)
Definition ByteSize_Decode (s : string) : result Z := ParseByteSize s.

End parse.

(** [ByteSize.String]. *)
Definition ByteSize_String (bs : Z) : string :=
  if bs `mod` Gigabyte =? 0 then fmt_d (bs / Gigabyte) +:+ " GB"
  else if bs `mod` Megabyte =? 0 then fmt_d (bs / Megabyte) +:+ " MB"
  else if bs `mod` Kilobyte =? 0 then fmt_d (bs / Kilobyte) +:+ " KB"
  else fmt_d bs +:+ " B".

(** ** Gigabyte seconds

    [float64] arithmetic with 53 bits of precision, rounding to nearest even. *)
Definition float64 (z : Z) : spec_float := binary_normalize 53 1024 z 0 false.
Definition f_div : spec_float -> spec_float -> spec_float := SFdiv 53 1024.
Definition f_mul : spec_float -> spec_float -> spec_float := SFmul 53 1024.

(** [math.Ceil]. *)
Definition Ceil (f : spec_float) : spec_float :=
  match f with
  | S754_finite s m e =>
      if 0 <=? e then f
      else binary_normalize 53 1024 (- ((if s then Zpos m else Zneg m) / 2 ^ (- e))) 0 s
  | _ => f
  end.

(** Started quanta of 100 ms. *)
Definition quanta (duration : Z) : spec_float :=
  Ceil (f_div (f_div (float64 duration) (float64 1000000)) (float64 100)).

Definition GigabyteSeconds (memory duration : Z) : spec_float :=
  f_div (f_mul (float64 (memory / Megabyte)) (quanta duration)) (float64 10240).

(** Half a gigabyte for 950 ms: 10 quanta of 1/20 gigabyte second. *)
Example GigabyteSeconds_half :
  GigabyteSeconds (512 * Megabyte) 950000000 = f_div (float64 1) (float64 2).
Proof. reflexivity. Qed.

(** ** Printing and parsing *)
Lemma forall_str_app f s t : forall_str f (s +:+ t) = forall_str f s && forall_str f t.
Proof. induction s as [|c s IH]; [done|]. rewrite app_str_cons. cbn. by rewrite IH, andb_assoc. Qed.

Lemma forall_str_impl f g s :
  (forall c, f c = true -> g c = true) -> forall_str f s = true -> forall_str g s = true.
Proof.
  intros Hfg. induction s as [|c s IH]; cbn; [done|]. intros [Hc Hs]%andb_prop.
  by rewrite (Hfg c Hc), IH.
Qed.

Lemma isDigit_char n : (n < 10)%N -> isDigit (pretty_N_char n) = true /\ ascii_Z (pretty_N_char n) - 48 = Z.of_N n.
Proof.
  pose (digit d := isDigit (pretty_N_char d) && (ascii_Z (pretty_N_char d) - 48 =? Z.of_N d)).
  intros Hn. assert (Hall : Forall (fun d => digit d = true) (N.of_nat <$> seq 0 10)) by (by repeat constructor).
  rewrite Forall_forall in Hall. specialize (Hall n).
  destruct (andb_prop (isDigit (pretty_N_char n)) (ascii_Z (pretty_N_char n) - 48 =? Z.of_N n)) as [Hd Hv].
  { apply Hall, list_elem_of_fmap. exists (N.to_nat n). rewrite N2Nat.id. split; [done|].
    apply elem_of_seq. lia. }
  split; [exact Hd|]. by apply Z.eqb_eq.
Qed.

Lemma isDigit_ascii c : isDigit c = true -> (ascii_Z c <? 128) = true.
Proof. unfold isDigit, in_range. intros [_ H]%andb_prop. change (ascii_Z "9") with 57 in H. lia. Qed.

Lemma isDigit_not_letter c : isDigit c = true -> isLetter c = false.
Proof.
  unfold isDigit, isLetter, in_range. intros [_ H]%andb_prop.
  change (ascii_Z "9") with 57 in H. change (ascii_Z "a") with 97. change (ascii_Z "A") with 65.
  destruct (Z.leb_spec 97 (ascii_Z c)), (Z.leb_spec 65 (ascii_Z c)); cbn; lia || done.
Qed.

Lemma isDigit_not_space c : isDigit c = true -> isSpace c = false.
Proof.
  unfold isDigit, isSpace, in_range. intros [H _]%andb_prop. change (ascii_Z "0") with 48 in H.
  change (ascii_Z "013") with 13. destruct (Z.leb_spec (ascii_Z c) 13); [lia|].
  rewrite andb_false_r. cbn. destruct (Ascii.eqb_spec c " "); [subst c|done].
  by vm_compute in H.
Qed.

(** The digits of a number in front of a text. *)
Lemma pretty_N_go_digits n s :
  forall_str isDigit s = true -> forall_str isDigit (pretty_N_go n s) = true.
Proof.
  revert s. induction (N.lt_wf_0 n) as [n _ IH]; intros s Hs.
  destruct (decide (n = 0)%N) as [->|Hn]; [by rewrite pretty_N_go_0|].
  rewrite pretty_N_go_step by lia. apply IH; [by apply N.div_lt; lia|].
  cbn. rewrite Hs. by rewrite (proj1 (isDigit_char _ (N.mod_lt n 10 ltac:(done)))).
Qed.

Lemma parseDigits_go n s :
  (Z.of_N n < 2 ^ 64) -> parseDigits (pretty_N_go n s) 0 = parseDigits s (Z.of_N n).
Proof.
  revert s. induction (N.lt_wf_0 n) as [n _ IH]; intros s Hn.
  destruct (decide (n = 0)%N) as [->|Hpos]; [done|].
  pose proof (N.div_mod n 10 ltac:(done)) as Hdm. pose proof (N.mod_lt n 10 ltac:(done)) as Hm.
  pose proof (N.div_lt n 10 ltac:(lia) ltac:(done)) as Hlt.
  rewrite pretty_N_go_step by lia.
  destruct (isDigit_char (n mod 10) Hm) as [Hdig Hval].
  generalize dependent (n `div` 10)%N. intros q Hdm Hlt.
  generalize dependent (n `mod` 10)%N. intros r Hm Hdig Hval Hdm.
  rewrite IH by lia. cbn [parseDigits]. rewrite Hdig, Hval. cbv zeta.
  replace (Z.of_N q * 10 + Z.of_N r) with (Z.of_N n) by lia.
  destruct (Z.leb_spec (2 ^ 64) (Z.of_N n)); [lia|done].
Qed.

Lemma fmt_d_N z : 0 <= z -> fmt_d z = pretty (Z.to_N z).
Proof. intros. unfold fmt_d, pretty, pretty_Z. destruct z; cbn; done || lia. Qed.

Lemma fmt_d_digits z : 0 <= z -> forall_str isDigit (fmt_d z) = true /\ fmt_d z <> "".
Proof.
  intros Hz. rewrite fmt_d_N by done. unfold pretty, pretty_N. case_decide as Hn; [done|].
  split; [by apply pretty_N_go_digits|]. rewrite pretty_N_go_step by lia. intros He.
  set (s := String _ "") in He. assert (Hlen : forall m t, (String.length t <= String.length (pretty_N_go m t))%nat).
  { intros m. induction (N.lt_wf_0 m) as [m _ IH]; intros t.
    destruct (decide (m = 0)%N) as [->|Hm]; [by rewrite pretty_N_go_0|].
    rewrite pretty_N_go_step by lia. etrans; [|apply IH; by apply N.div_lt; lia]. cbn. lia. }
  specialize (Hlen (Z.to_N z `div` 10)%N s). rewrite He in Hlen. cbn in Hlen. lia.
Qed.

Lemma ParseUint_fmt_d z : 0 <= z < 2 ^ 64 -> ParseUint (fmt_d z) = Ok z.
Proof.
  intros Hz. destruct (fmt_d_digits z ltac:(lia)) as [_ Hne].
  assert (parseDigits (fmt_d z) 0 = Ok z) as Hp.
  { rewrite fmt_d_N by lia. unfold pretty, pretty_N. case_decide as Hn.
    - by replace z with 0 by lia.
    - rewrite parseDigits_go by lia. cbn. by rewrite Z2N.id by lia. }
  unfold ParseUint. by destruct (fmt_d z).
Qed.

Lemma index_str_app f s t :
  forall_str (fun c => negb (f c)) s = true ->
  index_str f (s +:+ t) = (fun i => String.length s + i)%nat <$> index_str f t.
Proof.
  induction s as [|c s IH]; intros Hs.
  - change ("" +:+ t) with t. by destruct (index_str f t).
  - cbn in Hs. apply andb_prop in Hs as [Hc Hs]. rewrite app_str_cons. cbn.
    apply negb_true_iff in Hc. rewrite Hc, IH by done. by destruct (index_str f t).
Qed.

Lemma trim_left_digits s : forall_str isDigit s = true -> trim_left s = s.
Proof. destruct s as [|c s]; cbn; [done|]. intros [Hc _]%andb_prop. by rewrite isDigit_not_space. Qed.

Lemma trim_right_digits s : forall_str isDigit s = true -> trim_right (s +:+ " ") = s.
Proof.
  induction s as [|c s IH]; [done|]. rewrite app_str_cons. cbn. intros [Hc Hs]%andb_prop.
  rewrite IH by done. destruct s; [by rewrite isDigit_not_space|done].
Qed.

Lemma trim_left_app s : s <> "" -> forall_str isDigit s = true -> trim_left (s +:+ " ") = s +:+ " ".
Proof.
  destruct s as [|c s]; [done|]. rewrite app_str_cons. cbn. intros _ [Hc _]%andb_prop.
  by rewrite isDigit_not_space.
Qed.

Section roundtrip.
Context `{Unicode}.

(** A number, a space and a unit of two letters or one. *)
Lemma ParseByteSize_number z u size :
  0 <= z < 2 ^ 64 -> u ∈ ["GB"; "MB"; "KB"; "B"] -> unitSize u = Some size ->
  ParseByteSize (fmt_d z +:+ " " +:+ u) = Ok (z *u size).
Proof using.
  intros Hz Hu Hsize. destruct (fmt_d_digits z ltac:(lia)) as [Hd Hne].
  assert (Ha : forall t, isASCII t = true -> isASCII (fmt_d z +:+ t) = true).
  { intros t Ht. unfold isASCII. rewrite forall_str_app. unfold isASCII in Ht. rewrite Ht, andb_true_r.
    eapply forall_str_impl; [|exact Hd]. apply isDigit_ascii. }
  assert (Huq : isASCII (" " +:+ u) = true /\ index_str isLetter (" " +:+ u) = Some 1%nat /\
    TrimSpace (drop_str 1 (" " +:+ u)) = u).
  { repeat (apply elem_of_cons in Hu as [->|Hu]; [done|]). by apply elem_of_nil in Hu. }
  destruct Huq as (Hau & Hi & Htrim).
  unfold ParseByteSize, IndexLetter. rewrite Ha by done. rewrite index_str_app, Hi.
  2: { eapply forall_str_impl; [|exact Hd]. intros c Hc. by rewrite isDigit_not_letter. }
  cbn [fmap option_fmap option_map].
  replace (drop_str (String.length (fmt_d z) + 1) (fmt_d z +:+ " " +:+ u)) with (drop_str 1 (" " +:+ u)).
  2: { rewrite app_str_assoc. replace (String.length (fmt_d z) + 1)%nat with
         (String.length (fmt_d z +:+ " ")) by (by rewrite length_app_str).
       by rewrite drop_str_app. }
  rewrite Htrim.
  replace (take_str (String.length (fmt_d z) + 1) (fmt_d z +:+ " " +:+ u)) with (fmt_d z +:+ " ").
  2: { rewrite app_str_assoc. replace (String.length (fmt_d z) + 1)%nat with
         (String.length (fmt_d z +:+ " ")) by (by rewrite length_app_str).
       by rewrite take_str_app. }
  unfold TrimSpace at 1. rewrite Ha by done. rewrite trim_left_app, trim_right_digits by done.
  rewrite ParseUint_fmt_d by done. by rewrite Hsize.
Qed.

(** Printing a size and parsing the text gives the size back, for every 64-bit size,
    whichever unit was chosen for it; but a number of any unit that does not fit into 64 bits is
    accepted and wraps around. *)
Theorem ByteSize_roundtrip bs :
  0 <= bs < 2 ^ 64 ->
  ParseByteSize (ByteSize_String bs) = Ok bs /\
  ParseByteSize (fmt_d bs +:+ " GB") = Ok (u64 (bs * Gigabyte)).
Proof using.
  intros Hbs. unfold ByteSize_String.
  assert (Hnum : forall u size, u ∈ ["GB"; "MB"; "KB"; "B"] -> unitSize u = Some size -> 0 < size ->
    bs `mod` size = 0 -> ParseByteSize (fmt_d (bs / size) +:+ " " +:+ u) = Ok bs).
  { intros u size Hu Hs Hpos Hmod. pose proof (Z.div_mod bs size ltac:(lia)) as Hdm.
    rewrite Hmod in Hdm. assert (0 <= bs / size <= bs) by (split; [apply Z.div_pos; lia|nia]).
    rewrite (ParseByteSize_number _ u size) by (lia || done). f_equal. rewrite u64_small; nia. }
  split; [|apply (ParseByteSize_number bs "GB" Gigabyte Hbs); [set_solver|done]].
  destruct (Z.eqb_spec (bs `mod` Gigabyte) 0); [apply (Hnum "GB" Gigabyte); set_solver|].
  destruct (Z.eqb_spec (bs `mod` Megabyte) 0); [apply (Hnum "MB" Megabyte); set_solver|].
  destruct (Z.eqb_spec (bs `mod` Kilobyte) 0); [apply (Hnum "KB" Kilobyte); set_solver|].
  change " B" with (" " +:+ "B"). rewrite (ParseByteSize_number bs "B" Byte) by (lia || set_solver || done).
  f_equal. unfold Byte. rewrite Z.mul_1_r. by apply u64_small.
Qed.
End roundtrip.

(** Seven and a half gigabytes, and the smallest number of gigabytes that wraps around to nothing. *)
Lemma ByteSize_roundtrip_witness :
  let u := {| IndexLetter_u _ := None; TrimSpace_u s := s; ToUpper_u s := s; Quote_u s := s |} in
  ByteSize_String (7680 * Megabyte) = "7680 MB" /\ ParseByteSize "7680 MB" = Ok (7680 * Megabyte) /\
  ParseByteSize (fmt_d (2 ^ 34) +:+ " GB") = Ok 0.
Proof.
  intros u.
  pose proof (ByteSize_roundtrip (7680 * Megabyte) ltac:(split; [discriminate|reflexivity])) as [H1 _].
  pose proof (ByteSize_roundtrip (2 ^ 34) ltac:(split; [discriminate|reflexivity])) as [_ H2].
  split; [reflexivity|]. split; [exact H1|exact H2].
Defined.
