(* ===== verification/UnitsFloat.v ===== *)
(** * Gigabyte seconds are numbers

    The floating-point computation of [GigabyteSeconds] neither overflows nor
    divides by zero: whatever the memory and the duration, its result is finite,
    so that it can be written into a document. *)
From Stdlib Require Import Floats.SpecFloat.
From S2P Require Export Units.

Local Open Scope Z_scope.

(** A finite number with a mantissa of at most [d] bits and an exponent of at most [e]. *)
Definition sized (d e : Z) (f : spec_float) : Prop :=
  match f with
  | S754_zero _ => True
  | S754_finite _ m x => Zpos m < 2 ^ d /\ x <= e
  | _ => False
  end.

Lemma sized_mono d e d' e' f : 0 <= d <= d' -> e <= e' -> sized d e f -> sized d' e' f.
Proof.
  intros Hd He. destruct f as [| | |s m x]; try done. intros [Hm Hx]. split; [|lia].
  pose proof (Z.pow_le_mono_r 2 d d' ltac:(lia) ltac:(lia)). lia.
Qed.

Lemma digits2_pos_size p : digits2_pos p = Pos.size p.
Proof. induction p as [p IH|p IH|]; cbn; by rewrite ?IH. Qed.

Lemma Zdigits2_le m d : 0 <= d -> 0 <= m < 2 ^ d -> 0 <= Zdigits2 m <= d.
Proof.
  intros Hd Hm. destruct m as [|p|p]; cbn; [lia| |lia]. split; [lia|].
  rewrite digits2_pos_size. pose proof (Pos.size_le p) as Hs.
  destruct (Z.le_gt_cases (Zpos (Pos.size p)) d) as [|Hgt]; [done|exfalso].
  assert (Hz : 2 ^ Zpos (Pos.size p) <= 2 * Zpos p) by (rewrite <- Pos2Z.inj_pow; lia).
  pose proof (Z.pow_le_mono_r 2 (d + 1) (Zpos (Pos.size p)) ltac:(lia) ltac:(lia)) as Hp.
  rewrite Z.pow_add_r in Hp by lia. lia.
Qed.

Lemma Zdigits2_gt p : Zpos p < 2 ^ Zdigits2 (Zpos p).
Proof. cbn. rewrite digits2_pos_size, <- Pos2Z.inj_pow. pose proof (Pos.size_gt p). lia. Qed.

Lemma shr_1_le r : 0 <= shr_m r -> 0 <= shr_m (shr_1 r) <= shr_m r.
Proof. destruct r as [[|[p|p|]|p] b c]; cbn; lia. Qed.

Lemma iter_shr_le n r : 0 <= shr_m r -> 0 <= shr_m (SpecFloat.iter_pos shr_1 n r) <= shr_m r.
Proof.
  revert r. induction n as [n IH|n IH|]; intros r Hr; cbn; [| |by apply shr_1_le].
  - pose proof (shr_1_le r Hr). pose proof (IH (shr_1 r) ltac:(lia)).
    pose proof (IH (SpecFloat.iter_pos shr_1 n (shr_1 r)) ltac:(lia)). lia.
  - pose proof (IH r ltac:(lia)). pose proof (IH (SpecFloat.iter_pos shr_1 n r) ltac:(lia)). lia.
Qed.

Lemma shr_record_of_loc_m m l : shr_m (shr_record_of_loc m l) = m.
Proof. by destruct l as [|[]]. Qed.

(** Shifting to the right does not increase the mantissa, and the exponent by no more than the bits that do not fit. *)
Lemma shr_fexp_spec m e l d b :
  53 <= d -> 0 <= m < 2 ^ d -> 0 <= b -> e <= b ->
  let '(r, e') := shr_fexp 53 1024 m e l in 0 <= shr_m r <= m /\ e' <= b + (d - 53).
Proof.
  intros Hd Hm Hb He. unfold shr_fexp. pose proof (Zdigits2_le m d ltac:(lia) Hm) as Hdig.
  pose proof (shr_record_of_loc_m m l) as Hr. set (r := shr_record_of_loc m l) in *.
  destruct (fexp 53 1024 (Zdigits2 m + e) - e) as [|n|n] eqn:Hn; cbn [shr]; [lia| |lia].
  split; [rewrite <- Hr; apply iter_shr_le; lia|]. unfold fexp, SpecFloat.emin in Hn. lia.
Qed.

Lemma round_nearest_even_le m l : m <= round_nearest_even m l <= m + 1.
Proof. destruct l as [|[]]; cbn; try destruct (Z.even m); lia. Qed.

Lemma round_aux_sized s m e l d b :
  53 <= d -> 0 <= m < 2 ^ d -> 0 <= b -> e <= b -> b + 2 * d <= 1076 ->
  sized (d + 1) (b + 2 * d - 105) (binary_round_aux 53 1024 s m e l).
Proof.
  intros Hd Hm Hb He Hbd. unfold binary_round_aux.
  pose proof (shr_fexp_spec m e l d b Hd Hm Hb He) as H1.
  destruct (shr_fexp 53 1024 m e l) as [r1 e1]. destruct H1 as [H1 He1].
  pose proof (round_nearest_even_le (shr_m r1) (loc_of_shr_record r1)) as Hr.
  set (m2 := round_nearest_even _ _) in *.
  assert (Hm2 : 0 <= m2 < 2 ^ (d + 1)).
  { rewrite Z.pow_add_r by lia. pose proof (Z.pow_le_mono_r 2 1 d ltac:(lia) ltac:(lia)). lia. }
  pose proof (shr_fexp_spec m2 e1 loc_Exact (d + 1) (b + (d - 53)) ltac:(lia) Hm2 ltac:(lia) He1) as H2.
  destruct (shr_fexp 53 1024 m2 e1 loc_Exact) as [r2 e2]. destruct H2 as [H2 He2].
  destruct (shr_m r2) as [|p|p]; [done| |lia].
  destruct (Z.leb_spec e2 (1024 - 53)); [|lia]. cbn. lia.
Qed.

Lemma iter_xO p n : Zpos (Pos.iter xO p n) = Zpos p * 2 ^ Zpos n.
Proof.
  rewrite <- Pos2Z.inj_pow, <- Pos2Z.inj_mul. f_equal.
  induction n as [|n IH] using Pos.peano_ind; [cbn; lia|].
  rewrite Pos.iter_succ, IH, Pos.pow_succ_r. lia.
Qed.

Lemma normalize_sized z d s :
  53 <= d <= 500 -> Z.abs z < 2 ^ d -> sized (d + 1) (2 * d - 105) (binary_normalize 53 1024 z 0 s).
Proof.
  intros Hd Hz.
  assert (Hround : forall s p, Zpos p < 2 ^ d -> sized (d + 1) (2 * d - 105) (binary_round 53 1024 s p 0)).
  { intros s0 p Hp. unfold binary_round, shl_align.
    pose proof (Zdigits2_gt p) as Hgt. cbn [Zdigits2] in Hgt.
    destruct (fexp 53 1024 (Zpos (digits2_pos p) + 0) - 0) as [|n|n] eqn:Hn;
      [by apply (round_aux_sized _ _ _ _ d 0); lia..|].
    apply (round_aux_sized _ _ _ _ d 0); try lia. split; [lia|]. rewrite iter_xO.
    unfold fexp, SpecFloat.emin in Hn.
    assert (Zpos p * 2 ^ Zpos n < 2 ^ (Zpos (digits2_pos p) + Zpos n)).
    { rewrite Z.pow_add_r by lia. apply Z.mul_lt_mono_pos_r; [|lia]. apply Z.pow_pos_nonneg; lia. }
    pose proof (Z.pow_le_mono_r 2 (Zpos (digits2_pos p) + Zpos n) d ltac:(lia) ltac:(lia)). lia. }
  destruct z as [|p|p]; cbn [binary_normalize]; [done|apply Hround; lia|apply Hround; lia].
Qed.

Lemma mul_sized d1 e1 d2 e2 f g :
  0 <= d1 -> 0 <= d2 -> 0 <= e1 -> 0 <= e2 -> 53 <= d1 + d2 -> e1 + e2 + 2 * (d1 + d2) <= 1076 ->
  sized d1 e1 f -> sized d2 e2 g ->
  sized (d1 + d2 + 1) (e1 + e2 + 2 * (d1 + d2) - 105) (f_mul f g).
Proof.
  intros ????? Hb Hf Hg. unfold f_mul. destruct f as [| | |s m x]; try done; [by destruct g|].
  destruct g as [| | |t n y]; try done. destruct Hf as [Hm Hx], Hg as [Hn Hy]. cbn [SFmul].
  apply round_aux_sized; try lia. split; [lia|]. rewrite Pos2Z.inj_mul, Z.pow_add_r by lia.
  apply Z.mul_lt_mono_nonneg; lia.
Qed.

(** A divisor with a mantissa of 53 bits and an exponent of at least [- k]. *)
Lemma div_sized d e k t n y f :
  106 <= d -> 0 <= e -> 0 <= k -> Zpos n < 2 ^ 53 -> - k <= y -> e + k + 2 * d <= 1076 ->
  sized d e f -> sized (d + 1) (e + k + 2 * d - 105) (f_div f (S754_finite t n y)).
Proof.
  intros Hd He Hk Hn Hy Hb Hf. unfold f_div. destruct f as [| | |s m x]; try done.
  destruct Hf as [Hm Hx]. cbn [SFdiv]. unfold SFdiv_core_binary.
  pose proof (Zdigits2_le (Zpos n) 53 ltac:(lia) ltac:(lia)) as Hdn.
  pose proof (Zdigits2_gt m) as Hgm. assert (0 < Zdigits2 (Zpos m)) by (cbn; lia).
  set (dm := Zdigits2 (Zpos m)) in *. set (dn := Zdigits2 (Zpos n)) in *.
  set (e' := Z.min (fexp 53 1024 (dm + x - (dn + y))) (x - y)).
  set (m' := match x - y - e' with 0 => Zpos m | Zpos _ => Z.shiftl (Zpos m) (x - y - e') | Zneg _ => 0 end).
  assert (Hm' : 0 <= m' < 2 ^ d).
  { unfold m'. destruct (x - y - e') as [|q|q] eqn:Hq; [lia| |lia]. rewrite Z.shiftl_mul_pow2 by lia.
    split; [lia|].
    assert (Zpos m * 2 ^ Zpos q < 2 ^ (dm + Zpos q)).
    { rewrite Z.pow_add_r by lia. apply Z.mul_lt_mono_pos_r; [|lia]. apply Z.pow_pos_nonneg; lia. }
    unfold e', fexp, SpecFloat.emin in Hq.
    pose proof (Z.pow_le_mono_r 2 (dm + Zpos q) d ltac:(lia) ltac:(lia)). lia. }
  pose proof (Z_div_mod m' (Zpos n) ltac:(lia)) as Hdiv. destruct (Z.div_eucl m' (Zpos n)) as [q r].
  replace (e + k + 2 * d - 105) with ((e + k) + 2 * d - 105) by lia.
  apply round_aux_sized; try lia.
  destruct Hdiv as [Hdiv Hr]. nia.
Qed.

Lemma Ceil_sized d e f : 53 <= d <= 500 -> sized d e f -> sized (d + 1) (Z.max e (2 * d - 105)) (Ceil f).
Proof.
  intros Hd Hf. destruct f as [| | |s m x]; try done. cbn [Ceil].
  destruct (Z.leb_spec 0 x) as [Hx|Hx]; [by eapply sized_mono; [..|exact Hf]; lia|].
  eapply sized_mono; [..|apply (normalize_sized _ d)]; try lia. destruct Hf as [Hm _].
  pose proof (Z.pow_pos_nonneg 2 (- x) ltac:(lia) ltac:(lia)) as Hp.
  rewrite Z.abs_opp. set (z := if s then Zpos m else Zneg m).
  pose proof (Z.div_mod z (2 ^ - x) ltac:(lia)) as Hdm. pose proof (Z.mod_pos_bound z (2 ^ - x) Hp).
  destruct s; cbn in z; subst z; nia.
Qed.

Lemma float64_sized z : Z.abs z < 2 ^ 64 -> sized 65 23 (float64 z).
Proof. intros. by apply (normalize_sized z 64). Qed.

Lemma quanta_sized duration : Z.abs duration < 2 ^ 64 -> sized 109 318 (quanta duration).
Proof.
  intros Hd. unfold quanta. apply (Ceil_sized 108 318); [lia|].
  set (million := float64 1000000). vm_compute in million. set (hundred := float64 100). vm_compute in hundred.
  apply (div_sized 107 163 46); try lia. apply (div_sized 106 23 33); try lia.
  eapply sized_mono; [..|by apply float64_sized]; lia.
Qed.

Lemma GigabyteSeconds_sized memory duration :
  0 <= memory < 2 ^ 64 -> - 2 ^ 63 <= duration < 2 ^ 63 -> sized 176 868 (GigabyteSeconds memory duration).
Proof.
  intros Hm Hd. unfold GigabyteSeconds. set (divisor := float64 10240). vm_compute in divisor.
  assert (Hmem : 0 <= memory / Megabyte < 2 ^ 64).
  { assert (1 <= Megabyte) by done.
    split; [apply Z.div_pos; lia|]. apply Z.le_lt_trans with memory; [|lia]. apply Z.div_le_upper_bound; nia. }
  apply (div_sized 175 584 39); try lia. apply (mul_sized 65 23 109 318); try lia.
  - apply float64_sized. lia.
  - apply quanta_sized. lia.
Qed.

(** The gigabyte seconds of an activation are a finite number, neither infinite nor not a number, for
    every size of memory and every duration, negative ones included. *)
Theorem GigabyteSeconds_finite memory duration :
  0 <= memory < 2 ^ 64 -> - 2 ^ 63 <= duration < 2 ^ 63 ->
  match GigabyteSeconds memory duration with
  | S754_zero _ | S754_finite _ _ _ => True
  | S754_infinity _ | S754_nan => False
  end.
Proof. intros Hm Hd. pose proof (GigabyteSeconds_sized memory duration Hm Hd). by destruct (GigabyteSeconds _ _). Qed.

(** The largest memory and the longest duration; a clock that went back. *)
Lemma GigabyteSeconds_finite_witness :
  (match GigabyteSeconds (2 ^ 64 - 1) (2 ^ 63 - 1) with S754_finite false _ _ => True | _ => False end) /\
  (match GigabyteSeconds Megabyte (- 1) with
   | S754_zero _ | S754_finite _ _ _ => True
   | S754_infinity _ | S754_nan => False
   end).
Proof.
  split; [vm_compute; exact I|].
  exact (GigabyteSeconds_finite Megabyte (- 1) ltac:(split; [discriminate|reflexivity])
    ltac:(split; [discriminate|reflexivity])).
Defined.
