(* ===== verification/JsonText.v ===== *)
(** * JSON texts

    What [encoding/json] accepts as a text and what it makes of it: the scanner
    of values, the numbers, and the strings with their escapes, where bytes
    that are not UTF-8 are replaced.  A number is kept as its literal.  The
    nesting limit of 10000 of the scanner is left out. *)
From S2P Require Export Units.

Module JSON.
Inductive jdoc :=
| DNull
| DBool (b : bool)
| DNumber (literal : string)
| DString (s : string)
| DArray (l : list jdoc)
| DObject (l : list (string * jdoc)).

Definition backslash : ascii := "092"%char.

(** ** UTF-8 *)
Definition between (lo hi : Z) (c : ascii) : bool := (lo <=? ascii_Z c) && (ascii_Z c <=? hi).
Definition cont (c : ascii) : bool := between 128 191 c.

(** The second byte that may follow the first byte of a sequence of three or four. *)
Definition second3 (c d : ascii) : bool :=
  if ascii_Z c =? 224 then between 160 191 d
  else if ascii_Z c =? 237 then between 128 159 d
  else cont d.
Definition second4 (c d : ascii) : bool :=
  if ascii_Z c =? 240 then between 144 191 d
  else if ascii_Z c =? 244 then between 128 143 d
  else cont d.

(** The number of bytes of the character at the start, 0 if they are not UTF-8. *)
Definition width (s : string) : nat :=
  match s with
  | EmptyString => O
  | String c s1 =>
      if ascii_Z c <? 128 then 1%nat
      else if between 194 223 c then
        match s1 with String d _ => if cont d then 2%nat else O | _ => O end
      else if between 224 239 c then
        match s1 with
        | String d (String e _) => if second3 c d && cont e then 3%nat else O
        | _ => O
        end
      else if between 240 244 c then
        match s1 with
        | String d (String e (String f _)) => if second4 c d && cont e && cont f then 4%nat else O
        | _ => O
        end
      else O
  end.

(** [utf8.ValidString]. *)
Fixpoint validUTF8 (s : string) : bool :=
  match s with
  | EmptyString => true
  | String c s1 =>
      match width s with
      | 1%nat => validUTF8 s1
      | 2%nat => match s1 with String _ s2 => validUTF8 s2 | _ => false end
      | 3%nat => match s1 with String _ (String _ s3) => validUTF8 s3 | _ => false end
      | 4%nat => match s1 with String _ (String _ (String _ s4)) => validUTF8 s4 | _ => false end
      | _ => false
      end
  end.

Definition byte (z : Z) : ascii := Ascii.ascii_of_N (Z.to_N z).

(** [utf8.EncodeRune], for a rune that is not a surrogate. *)
Definition encodeRune (z : Z) : string :=
  if z <? 128 then String (byte z) ""
  else if z <? 2048 then String (byte (192 + z / 64)) (String (byte (128 + z `mod` 64)) "")
  else if z <? 65536 then
    String (byte (224 + z / 4096)) (String (byte (128 + z / 64 `mod` 64)) (String (byte (128 + z `mod` 64)) ""))
  else
    String (byte (240 + z / 262144)) (String (byte (128 + z / 4096 `mod` 64))
      (String (byte (128 + z / 64 `mod` 64)) (String (byte (128 + z `mod` 64)) ""))).

(** U+FFFD. *)
Definition replacement : string := encodeRune 65533.

(** ** Strings *)

(** The character an escape with one letter stands for. *)
Definition unescape (l : ascii) : option ascii :=
  if Ascii.eqb l double_quote || Ascii.eqb l backslash || Ascii.eqb l "/" then Some l
  else if Ascii.eqb l "b" then Some "008"%char
  else if Ascii.eqb l "f" then Some "012"%char
  else if Ascii.eqb l "n" then Some "010"%char
  else if Ascii.eqb l "r" then Some "013"%char
  else if Ascii.eqb l "t" then Some "009"%char
  else None.

Definition hexValue (c : ascii) : option Z :=
  if in_range "0" "9" c then Some (ascii_Z c - 48)
  else if in_range "a" "f" c then Some (ascii_Z c - 87)
  else if in_range "A" "F" c then Some (ascii_Z c - 55)
  else None.

Definition hex4 (a b c d : ascii) : option Z :=
  match hexValue a, hexValue b, hexValue c, hexValue d with
  | Some x, Some y, Some z, Some w => Some (((x * 16 + y) * 16 + z) * 16 + w)
  | _, _, _, _ => None
  end.

(** A string in pieces: bytes, and the code units of escapes with digits. *)
Inductive piece := Bytes (t : string) | Code (z : Z).

Definition more (p : piece) (r : option (list piece * string)) : option (list piece * string) :=
  match r with Some (l, rest) => Some (p :: l, rest) | None => None end.

(** The pieces up to the closing quote, and what follows it. *)
Fixpoint pieces (s : string) : option (list piece * string) :=
  match s with
  | EmptyString => None
  | String c s1 =>
      if Ascii.eqb c double_quote then Some ([], s1)
      else if Ascii.eqb c backslash then
        match s1 with
        | String l s2 =>
            if Ascii.eqb l "u" then
              match s2 with
              | String h1 (String h2 (String h3 (String h4 s6))) =>
                  match hex4 h1 h2 h3 h4 with Some z => more (Code z) (pieces s6) | None => None end
              | _ => None
              end
            else match unescape l with
                 | Some c' => more (Bytes (String c' "")) (pieces s2)
                 | None => None
                 end
        | EmptyString => None
        end
      else if ascii_Z c <? 32 then None
      else match width s with
           | 1%nat => more (Bytes (String c "")) (pieces s1)
           | 2%nat => match s1 with
                      | String d s2 => more (Bytes (String c (String d ""))) (pieces s2)
                      | _ => None
                      end
           | 3%nat => match s1 with
                      | String d (String e s3) => more (Bytes (String c (String d (String e "")))) (pieces s3)
                      | _ => None
                      end
           | 4%nat => match s1 with
                      | String d (String e (String f s4)) =>
                          more (Bytes (String c (String d (String e (String f ""))))) (pieces s4)
                      | _ => None
                      end
           | _ => more (Bytes replacement) (pieces s1)
           end
  end.

Definition surrogate (z : Z) : bool := (55296 <=? z) && (z <? 57344).

(** Putting the pieces together: two halves of a pair of surrogates make a rune, others none. *)
Fixpoint assemble (l : list piece) : string :=
  match l with
  | [] => ""
  | Bytes t :: l' => t +:+ assemble l'
  | Code z :: l' =>
      if surrogate z then
        match l' with
        | Code z2 :: l'' =>
            if (z <? 56320) && (56320 <=? z2) && (z2 <? 57344)
            then encodeRune ((z - 55296) * 1024 + (z2 - 56320) + 65536) +:+ assemble l''
            else replacement +:+ assemble l'
        | _ => replacement +:+ assemble l'
        end
      else encodeRune z +:+ assemble l'
  end.

(** The string after an opening quote, and what follows its closing quote. *)
Definition readString (s : string) : option (string * string) :=
  match pieces s with Some (l, rest) => Some (assemble l, rest) | None => None end.

(** ** Numbers *)
Fixpoint digits (s : string) : string * string :=
  match s with
  | String c s' => if isDigit c then let '(d, r) := digits s' in (String c d, r) else ("", s)
  | EmptyString => ("", "")
  end.

(** At least one digit; the integer part has no superfluous zero. *)
Definition digits1 (s : string) : option (string * string) :=
  match digits s with (EmptyString, _) => None | p => Some p end.
Definition intPart (s : string) : option (string * string) :=
  match s with
  | String c s' => if Ascii.eqb c "0" then Some ("0", s') else digits1 s
  | EmptyString => None
  end.
Definition fracPart (s : string) : option (string * string) :=
  match s with
  | String c s' => if Ascii.eqb c "." then prod_map (String ".") id <$> digits1 s' else Some ("", s)
  | EmptyString => Some ("", "")
  end.
Definition expPart (s : string) : option (string * string) :=
  match s with
  | String c s' =>
      if Ascii.eqb c "e" || Ascii.eqb c "E" then
        match s' with
        | String d s'' =>
            if Ascii.eqb d "+" || Ascii.eqb d "-"
            then prod_map (fun t => String c (String d t)) id <$> digits1 s''
            else prod_map (String c) id <$> digits1 s'
        | EmptyString => None
        end
      else Some ("", s)
  | EmptyString => Some ("", "")
  end.

(** The literal of a number, and what follows it. *)
Definition unsignedNumber (s : string) : option (string * string) :=
  match intPart s with
  | None => None
  | Some (i, r) =>
      match fracPart r with
      | None => None
      | Some (f, r) => prod_map (fun e => i +:+ f +:+ e) id <$> expPart r
      end
  end.
Definition number (s : string) : option (string * string) :=
  match s with
  | String c s' => if Ascii.eqb c "-" then prod_map (String "-") id <$> unsignedNumber s' else unsignedNumber s
  | EmptyString => None
  end.

(** ** Values *)
Definition isBlank (c : ascii) : bool :=
  Ascii.eqb c " " || Ascii.eqb c "009" || Ascii.eqb c "010" || Ascii.eqb c "013".

Fixpoint skip (s : string) : string :=
  match s with
  | String c s' => if isBlank c then skip s' else s
  | EmptyString => ""
  end.

(** A text that starts with [p], after blanks; what follows. *)
Definition expect (p s : string) : option string :=
  if HasPrefix (skip s) p then Some (drop_str (String.length p) (skip s)) else None.

Definition scalar (s : string) : option (jdoc * string) :=
  match expect "null" s with
  | Some r => Some (DNull, r)
  | None =>
      match expect "true" s with
      | Some r => Some (DBool true, r)
      | None =>
          match expect "false" s with
          | Some r => Some (DBool false, r)
          | None =>
              match expect (String double_quote "") s with
              | Some r => prod_map DString id <$> readString r
              | None => prod_map DNumber id <$> number (skip s)
              end
          end
      end
  end.

(** A value, the elements of an array from the second on, and the members of an object from the
    second on; [n] is fuel. *)
Fixpoint value_ (n : nat) (s : string) {struct n} : option (jdoc * string) :=
  match n with
  | O => None
  | S n =>
      match expect "[" s with
      | Some r =>
          match expect "]" r with
          | Some r => Some (DArray [], r)
          | None =>
              match value_ n r with
              | Some (d, r) => prod_map (fun l => DArray (d :: l)) id <$> elements n r
              | None => None
              end
          end
      | None =>
          match expect "{" s with
          | Some r =>
              match expect "}" r with
              | Some r => Some (DObject [], r)
              | None =>
                  match member n r with
                  | Some (kd, r) => prod_map (fun l => DObject (kd :: l)) id <$> members n r
                  | None => None
                  end
              end
          | None => scalar s
          end
      end
  end
with elements (n : nat) (s : string) {struct n} : option (list jdoc * string) :=
  match n with
  | O => None
  | S n =>
      match expect "]" s with
      | Some r => Some ([], r)
      | None =>
          match expect "," s with
          | Some r =>
              match value_ n r with
              | Some (d, r) => prod_map (cons d) id <$> elements n r
              | None => None
              end
          | None => None
          end
      end
  end
with member (n : nat) (s : string) {struct n} : option ((string * jdoc) * string) :=
  match n with
  | O => None
  | S n =>
      match expect (String double_quote "") s with
      | Some r =>
          match readString r with
          | Some (k, r) =>
              match expect ":" r with
              | Some r => prod_map (pair k) id <$> value_ n r
              | None => None
              end
          | None => None
          end
      | None => None
      end
  end
with members (n : nat) (s : string) {struct n} : option (list (string * jdoc) * string) :=
  match n with
  | O => None
  | S n =>
      match expect "}" s with
      | Some r => Some ([], r)
      | None =>
          match expect "," s with
          | Some r =>
              match member n r with
              | Some (kd, r) => prod_map (cons kd) id <$> members n r
              | None => None
              end
          | None => None
          end
      end
  end.

(** Enough for every text, since every call is for a shorter text. *)
Definition json_fuel (s : string) : nat := S (String.length s).

(** A whole text. *)
Definition Parse (s : string) : option jdoc :=
  match value_ (json_fuel s) s with
  | Some (d, r) => if bool_decide (skip r = "") then Some d else None
  | None => None
  end.

(** ** The fuel is enough *)
Notation len := String.length.

Lemma skip_le s : (len (skip s) <= len s)%nat.
Proof. induction s as [|c s IH]; cbn; [done|]. destruct (isBlank c); cbn; lia. Qed.

Lemma expect_lt p s r : expect p s = Some r -> (len r + len p <= len s)%nat.
Proof.
  unfold expect. destruct (HasPrefix (skip s) p) eqn:Hp; [|done]. intros [= <-].
  rewrite length_drop_str. apply HasPrefix_inv in Hp. apply (f_equal len) in Hp.
  rewrite length_app_str in Hp. pose proof (skip_le s). lia.
Qed.

Lemma more_Some p o l r : more p o = Some (l, r) -> exists l', o = Some (l', r) /\ l = p :: l'.
Proof. destruct o as [[l' r']|]; cbn; [|done]. intros [= <- <-]. by exists l'. Qed.

Lemma pieces_lt s l r : pieces s = Some (l, r) -> (len r < len s)%nat.
Proof.
  revert l r. induction (well_founded_ltof _ len s) as [s _ IH]. unfold ltof in IH. intros l r.
  destruct s as [|c s1]; cbn; [done|].
  assert (Hrec : forall p t l, (len t <= len s1)%nat -> more p (pieces t) = Some (l, r) -> (len r < S (len s1))%nat).
  { intros p t l' Ht Hm. apply more_Some in Hm as (l'' & Hm & _). apply IH in Hm; cbn; lia. }
  intros Hp. repeat case_match; simplify_eq; cbn [String.length] in *; try done; try lia;
    (eapply Hrec; [|eassumption]; cbn [String.length]; lia).
Qed.

Lemma readString_lt s t r : readString s = Some (t, r) -> (len r < len s)%nat.
Proof.
  unfold readString. destruct (pieces s) as [[l r']|] eqn:Hp; [|done]. intros [= <- <-]. by eapply pieces_lt.
Qed.

Lemma digits_app s : (digits s).1 +:+ (digits s).2 = s.
Proof.
  induction s as [|c s IH]; cbn; [done|]. destruct (isDigit c); [|done].
  destruct (digits s) as [d r]. cbn in *. by rewrite app_str_cons, IH.
Qed.

(** What a part of a number reads is in front of what it leaves. *)
Lemma digits1_app s d r : digits1 s = Some (d, r) -> s = d +:+ r /\ d <> "".
Proof.
  unfold digits1. pose proof (digits_app s) as Hd. destruct (digits s) as [[|c d'] r']; [done|].
  intros [= <- <-]. by split.
Qed.

Lemma prod_map_Some {A B C} (f : A -> B) (o : option (A * C)) b c :
  prod_map f id <$> o = Some (b, c) -> exists a, o = Some (a, c) /\ b = f a.
Proof. destruct o as [[a c']|]; cbn; [|done]. intros [= <- <-]. by exists a. Qed.

Lemma intPart_app s d r : intPart s = Some (d, r) -> s = d +:+ r /\ d <> "".
Proof.
  destruct s as [|c s]; cbn; [done|]. destruct (Ascii.eqb_spec c "0") as [->|].
  - intros [= <- <-]. done.
  - apply digits1_app.
Qed.

Lemma fracPart_app s d r : fracPart s = Some (d, r) -> s = d +:+ r.
Proof.
  destruct s as [|c s]; cbn; [by intros [= <- <-]|]. destruct (Ascii.eqb_spec c ".") as [->|].
  - intros (a & Ha & ->)%prod_map_Some. apply digits1_app in Ha as [-> _]. done.
  - by intros [= <- <-].
Qed.

Lemma expPart_app s d r : expPart s = Some (d, r) -> s = d +:+ r.
Proof.
  destruct s as [|c s]; cbn; [by intros [= <- <-]|].
  destruct (Ascii.eqb c "e" || Ascii.eqb c "E"); [|by intros [= <- <-]].
  destruct s as [|d0 s]; [done|]. destruct (Ascii.eqb d0 "+" || Ascii.eqb d0 "-");
    intros (a & Ha & ->)%prod_map_Some; apply digits1_app in Ha as [Ha _]; cbn;
    rewrite ?app_str_cons; congruence.
Qed.

Lemma number_app s d r : number s = Some (d, r) -> s = d +:+ r /\ d <> "".
Proof.
  assert (Hu : forall s d r, unsignedNumber s = Some (d, r) -> s = d +:+ r /\ d <> "").
  { clear. intros s d r. unfold unsignedNumber. destruct (intPart s) as [[i r1]|] eqn:Hi; [|done].
    destruct (fracPart r1) as [[f r2]|] eqn:Hf; [|done]. intros (e & He & ->)%prod_map_Some.
    apply intPart_app in Hi as [-> Hne]. apply fracPart_app in Hf as ->. apply expPart_app in He as ->.
    rewrite <- !app_str_assoc. split; [done|]. by destruct i. }
  destruct s as [|c s]; cbn; [done|]. destruct (Ascii.eqb_spec c "-") as [->|]; [|apply Hu].
  intros (a & Ha & ->)%prod_map_Some. apply Hu in Ha as [-> _]. done.
Qed.

Lemma scalar_lt s d r : scalar s = Some (d, r) -> (len r < len s)%nat.
Proof.
  unfold scalar. intros Hs. repeat case_match; simplify_eq;
    repeat match goal with H : expect _ _ = Some _ |- _ => apply expect_lt in H; cbn in H end; try lia.
  - apply prod_map_Some in Hs as (t & Hs%readString_lt & _). lia.
  - apply prod_map_Some in Hs as (t & Hs%number_app & _). destruct Hs as [Hs Hne].
    apply (f_equal len) in Hs. rewrite length_app_str in Hs. pose proof (skip_le s).
    destruct t; [done|cbn in Hs; lia].
Qed.

(** Every reader consumes something, and its fuel does not matter once it exceeds the length. *)
Lemma readers_lt n :
  (forall s d r, value_ n s = Some (d, r) -> (len r < len s)%nat) /\
  (forall s l r, elements n s = Some (l, r) -> (len r < len s)%nat) /\
  (forall s kd r, member n s = Some (kd, r) -> (len r < len s)%nat) /\
  (forall s l r, members n s = Some (l, r) -> (len r < len s)%nat).
Proof.
  induction n as [|n (IHv & IHe & IHm & IHs)]; [split_and!; done|]. split_and!; intros s x r; cbn;
    intros Hx; repeat case_match; simplify_eq; try done;
    repeat match goal with
    | H : expect _ _ = Some _ |- _ => apply expect_lt in H; cbn in H
    | H : prod_map _ _ <$> _ = Some _ |- _ => apply prod_map_Some in H as (? & H & ?)
    | H : value_ n _ = Some _ |- _ => apply IHv in H
    | H : elements n _ = Some _ |- _ => apply IHe in H
    | H : member n _ = Some _ |- _ => apply IHm in H
    | H : members n _ = Some _ |- _ => apply IHs in H
    | H : readString _ = Some _ |- _ => apply readString_lt in H
    | H : scalar _ = Some _ |- _ => apply scalar_lt in H
    end; lia.
Qed.

Lemma fuel_enough n : forall m s, (len s < n)%nat -> (len s < m)%nat ->
  value_ n s = value_ m s /\ elements n s = elements m s /\
  member n s = member m s /\ members n s = members m s.
Proof.
  induction n as [|n IH]; intros [|m] s Hn Hm; try lia.
  assert (Hr : forall r, (len r < len s)%nat -> value_ n r = value_ m r /\ elements n r = elements m r /\
    member n r = member m r /\ members n r = members m r) by (intros r Hr; apply IH; lia).
  destruct (readers_lt m) as (Hv & _ & Hme & _).
  split_and!; cbn;
    repeat match goal with
    | |- match expect ?p ?t with _ => _ end = _ =>
        let H := fresh in destruct (expect p t) eqn:H; [apply expect_lt in H; cbn in H|]
    | |- match readString ?t with _ => _ end = _ =>
        let H := fresh in destruct (readString t) as [[??]|] eqn:H; [apply readString_lt in H|]
    | |- match value_ _ ?t with _ => _ end = match value_ ?k ?t with _ => _ end =>
        let H := fresh in rewrite (proj1 (Hr t ltac:(lia)));
        destruct (value_ k t) as [[??]|] eqn:H; [apply Hv in H|]
    | |- match member _ ?t with _ => _ end = match member ?k ?t with _ => _ end =>
        let H := fresh in rewrite (proj1 (proj2 (proj2 (Hr t ltac:(lia)))));
        destruct (member k t) as [[??]|] eqn:H; [apply Hme in H|]
    end; try done; f_equal; apply Hr; lia.
Qed.

(** ** The readers without fuel *)
Definition value (s : string) : option (jdoc * string) := value_ (json_fuel s) s.
Definition elems (s : string) : option (list jdoc * string) := elements (json_fuel s) s.
Definition field (s : string) : option ((string * jdoc) * string) := member (json_fuel s) s.
Definition fields (s : string) : option (list (string * jdoc) * string) := members (json_fuel s) s.

Arguments value : simpl never.
Arguments elems : simpl never.
Arguments field : simpl never.
Arguments fields : simpl never.

Lemma readers_fuel n s : (len s < n)%nat ->
  value_ n s = value s /\ elements n s = elems s /\ member n s = field s /\ members n s = fields s.
Proof. intros Hn. apply fuel_enough; unfold json_fuel; lia. Qed.

Lemma value_lt s d r : value s = Some (d, r) -> (len r < len s)%nat.
Proof. apply readers_lt. Qed.
Lemma field_lt s kd r : field s = Some (kd, r) -> (len r < len s)%nat.
Proof. apply readers_lt. Qed.

#[local] Ltac without_fuel :=
  repeat match goal with
  | |- match expect ?p ?t with _ => _ end = _ =>
      let H := fresh in destruct (expect p t) eqn:H; [apply expect_lt in H; cbn in H|]
  | |- match readString ?t with _ => _ end = _ =>
      let H := fresh in destruct (readString t) as [[??]|] eqn:H; [apply readString_lt in H|]
  | |- match value_ ?n ?t with _ => _ end = _ =>
      let H := fresh in rewrite (proj1 (readers_fuel n t ltac:(lia)));
      destruct (value t) as [[??]|] eqn:H; [apply value_lt in H|]
  | |- match member ?n ?t with _ => _ end = _ =>
      let H := fresh in rewrite (proj1 (proj2 (proj2 (readers_fuel n t ltac:(lia)))));
      destruct (field t) as [[??]|] eqn:H; [apply field_lt in H|]
  end; try done; f_equal; apply readers_fuel; lia.

Lemma value_eq s : value s =
  match expect "[" s with
  | Some r =>
      match expect "]" r with
      | Some r => Some (DArray [], r)
      | None =>
          match value r with
          | Some (d, r) => prod_map (fun l => DArray (d :: l)) id <$> elems r
          | None => None
          end
      end
  | None =>
      match expect "{" s with
      | Some r =>
          match expect "}" r with
          | Some r => Some (DObject [], r)
          | None =>
              match field r with
              | Some (kd, r) => prod_map (fun l => DObject (kd :: l)) id <$> fields r
              | None => None
              end
          end
      | None => scalar s
      end
  end.
Proof. unfold value at 1, json_fuel. cbn [value_]. without_fuel. Qed.

Lemma elems_eq s : elems s =
  match expect "]" s with
  | Some r => Some ([], r)
  | None =>
      match expect "," s with
      | Some r =>
          match value r with
          | Some (d, r) => prod_map (cons d) id <$> elems r
          | None => None
          end
      | None => None
      end
  end.
Proof. unfold elems at 1, json_fuel. cbn [elements]. without_fuel. Qed.

Lemma field_eq s : field s =
  match expect (String double_quote "") s with
  | Some r =>
      match readString r with
      | Some (k, r) =>
          match expect ":" r with
          | Some r => prod_map (pair k) id <$> value r
          | None => None
          end
      | None => None
      end
  | None => None
  end.
Proof. unfold field at 1, json_fuel. cbn [member]. without_fuel. Qed.

Lemma fields_eq s : fields s =
  match expect "}" s with
  | Some r => Some ([], r)
  | None =>
      match expect "," s with
      | Some r =>
          match field r with
          | Some (kd, r) => prod_map (cons kd) id <$> fields r
          | None => None
          end
      | None => None
      end
  end.
Proof. unfold fields at 1, json_fuel. cbn [members]. without_fuel. Qed.

(** ** Texts put together from parts *)

(** The next character of a text, for one that does not start with a blank. *)
Lemma skip_char c s : isBlank c = false -> skip (String c s) = String c s.
Proof. cbn. by intros ->. Qed.

Lemma HasPrefix_char c s d p : HasPrefix (String c s) (String d p) = if Ascii.eqb d c then HasPrefix s p else false.
Proof.
  unfold HasPrefix. cbn. destruct (Ascii.ascii_dec d c) as [->|Hne]; [by rewrite Ascii.eqb_refl|].
  by rewrite (proj2 (Ascii.eqb_neq d c) Hne).
Qed.

Lemma expect_char c d s p :
  isBlank c = false ->
  expect (String d p) (String c s) =
    if Ascii.eqb d c then if HasPrefix s p then Some (drop_str (len p) s) else None else None.
Proof.
  intros Hc. unfold expect. rewrite skip_char, HasPrefix_char by done. by destruct (Ascii.eqb d c).
Qed.

Lemma expect_here c s : isBlank c = false -> expect (String c "") (String c s) = Some s.
Proof. intros Hc. rewrite expect_char, Ascii.eqb_refl by done. by destruct s. Qed.

Lemma expect_blank p c s : isBlank c = true -> expect p (String c s) = expect p s.
Proof. intros Hc. unfold expect. cbn [skip]. by rewrite Hc. Qed.

Lemma number_quote c s : isDigit c = false -> Ascii.eqb c "-" = false -> number (String c s) = None.
Proof.
  intros Hd Hm. unfold number. rewrite Hm. unfold unsignedNumber, intPart.
  destruct (Ascii.eqb_spec c "0") as [->|]; [done|]. unfold digits1. cbn [digits]. by rewrite Hd.
Qed.

(** Values by their first character. *)
Lemma value_array s : value (String "[" s) =
  match expect "]" s with
  | Some r => Some (DArray [], r)
  | None => match value s with
            | Some (d, r) => prod_map (fun l => DArray (d :: l)) id <$> elems r
            | None => None
            end
  end.
Proof. by rewrite value_eq, expect_here. Qed.

Lemma value_object s : value (String "{" s) =
  match expect "}" s with
  | Some r => Some (DObject [], r)
  | None => match field s with
            | Some (kd, r) => prod_map (fun l => DObject (kd :: l)) id <$> fields r
            | None => None
            end
  end.
Proof. by rewrite value_eq, expect_char, expect_here. Qed.

Lemma value_string s : value (String double_quote s) = prod_map DString id <$> readString s.
Proof.
  rewrite value_eq, !expect_char by done. cbn. unfold scalar. rewrite !expect_char by done. cbn.
  by destruct s.
Qed.

Lemma value_literal d p s :
  (d, p) ∈ [(DNull, "null"); (DBool true, "true"); (DBool false, "false")] ->
  value (p +:+ s) = Some (d, s).
Proof.
  intros Hd. rewrite value_eq.
  repeat (apply elem_of_cons in Hd as [[= -> ->]|Hd]); [..|by apply elem_of_nil in Hd];
    cbn; rewrite !app_str_cons, !expect_char by done; cbn; unfold scalar;
    rewrite !expect_char by done; cbn; rewrite ?HasPrefix_char; by destruct s.
Qed.

(** A text that does not go on with a number. *)
Definition ends_number (s : string) : bool :=
  match s with
  | String c _ => negb (isDigit c || Ascii.eqb c "." || Ascii.eqb c "e" || Ascii.eqb c "E")
  | EmptyString => true
  end.

Lemma digits_ends d s : forall_str isDigit d = true -> ends_number s = true -> digits (d +:+ s) = (d, s).
Proof.
  intros Hd Hs. induction d as [|c d IH].
  - destruct s as [|c s]; [done|]. cbn [ends_number] in Hs. change ("" +:+ String c s) with (String c s).
    cbn [digits]. by destruct (isDigit c).
  - cbn [forall_str] in Hd. apply andb_prop in Hd as [Hc Hd]. rewrite app_str_cons. cbn [digits].
    by rewrite Hc, IH.
Qed.

(** The literals of integers. *)
Lemma fmt_d_lead z : 0 < z -> exists c t, fmt_d z = String c t /\ isDigit c = true /\ c <> "0"%char.
Proof.
  intros Hz. rewrite fmt_d_N by lia. unfold pretty, pretty_N. case_decide as H0; [lia|]. clear H0.
  assert (Hn : (0 < Z.to_N z)%N) by lia. clear Hz. generalize dependent (Z.to_N z). intros n Hn.
  generalize "" at 1. induction (N.lt_wf_0 n) as [n _ IH]. intros s.
  rewrite pretty_N_go_step by lia. destruct (decide (n `div` 10 = 0)%N) as [He|Hne].
  - rewrite He, pretty_N_go_0. eexists _, _. split; [done|].
    assert (Hlt : (n < 10)%N) by (apply N.div_small_iff in He; lia).
    destruct (isDigit_char (n mod 10) ltac:(by apply N.mod_lt)) as [Hd Hv]. split; [done|].
    intros H0. rewrite H0, N.mod_small in Hv by done. change (ascii_Z "0") with 48 in Hv. lia.
  - apply IH; [by apply N.div_lt|by apply N.neq_0_lt_0].
Qed.

Lemma unsigned_fmt_d z s :
  0 <= z -> ends_number s = true -> unsignedNumber (fmt_d z +:+ s) = Some (fmt_d z, s).
Proof.
  intros Hz Hs. unfold unsignedNumber.
  assert (Hi : intPart (fmt_d z +:+ s) = Some (fmt_d z, s)).
  { destruct (decide (z = 0)) as [->|Hne]; [done|].
    destruct (fmt_d_lead z ltac:(lia)) as (c & t & He & Hc & H0).
    destruct (fmt_d_digits z Hz) as [Hd _]. rewrite He in *. unfold intPart. rewrite app_str_cons.
    destruct (Ascii.eqb_spec c "0"); [done|]. unfold digits1. rewrite <- app_str_cons.
    by rewrite digits_ends. }
  rewrite Hi. destruct s as [|c s]; [cbn; by rewrite !app_str_nil_r|]. cbn [fracPart expPart].
  cbn [ends_number] in Hs. apply negb_true_iff in Hs. do 3 apply orb_false_elim in Hs as [Hs ?].
  repeat (match goal with H : Ascii.eqb _ _ = false |- _ => rewrite H end;
    cbn [orb expPart fmap option_fmap option_map prod_map]).
  cbn. by rewrite !app_str_nil_r.
Qed.

Lemma fmt_d_neg p : fmt_d (Zneg p) = String "-" (fmt_d (Zpos p)).
Proof. done. Qed.

Lemma number_fmt_d z s : ends_number s = true -> number (fmt_d z +:+ s) = Some (fmt_d z, s).
Proof.
  intros Hs. destruct (decide (0 <= z)) as [Hz|Hz].
  - pose proof (unsigned_fmt_d z s Hz Hs) as Hu. destruct (fmt_d_digits z Hz) as [Hd Hne].
    destruct (fmt_d z) as [|c t]; [done|]. rewrite app_str_cons in *. cbn [number].
    destruct (Ascii.eqb_spec c "-") as [->|]; [done|exact Hu].
  - destruct z as [|p|p]; try lia. rewrite fmt_d_neg, app_str_cons. cbn [number Ascii.eqb].
    by rewrite unsigned_fmt_d.
Qed.

(** A value whose first character starts neither an array, an object, a literal nor a string. *)
Lemma value_number c t r l :
  number (String c t) = Some (l, r) -> value (String c t) = Some (DNumber l, r).
Proof.
  intros Hn.
  assert (Hc : isDigit c = true \/ c = "-"%char).
  { destruct (isDigit c) eqn:Hd; [by left|]. destruct (Ascii.eqb_spec c "-"); [by right|].
    rewrite number_quote in Hn; [done..|]. by apply Ascii.eqb_neq. }
  assert (Hx : isBlank c = false /\ forallb (fun d => negb (Ascii.eqb d c)) ["["; "{"; "n"; "t"; "f"; double_quote]%char = true).
  { destruct Hc as [Hc| ->]; [|done]. revert Hc. clear.
    destruct c as [[] [] [] [] [] [] [] []]; intros Hc; vm_compute in Hc; done. }
  destruct Hx as [Hb Hx]. cbn [forallb] in Hx.
  repeat (apply andb_prop in Hx as [?%negb_true_iff Hx]).
  rewrite value_eq, !expect_char by done. unfold scalar. rewrite !expect_char by done.
  repeat match goal with H : Ascii.eqb _ _ = false |- _ => rewrite H; clear H end.
  by rewrite skip_char, Hn.
Qed.

Lemma value_int z s : ends_number s = true -> value (fmt_d z +:+ s) = Some (DNumber (fmt_d z), s).
Proof.
  intros Hs. pose proof (number_fmt_d z s Hs) as Hn.
  destruct (fmt_d z) as [|c t] eqn:Hz; [|rewrite app_str_cons in *; by apply value_number].
  exfalso. destruct z as [|p|p]; [done| |done].
  by destruct (fmt_d_digits (Zpos p) ltac:(lia)).
Qed.

(** A text is what stands for a document, whatever follows. *)
Lemma Parse_value s d : value s = Some (d, "") -> Parse s = Some d.
Proof. unfold Parse. fold (value s). intros ->. done. Qed.

(** ** Examples *)
Example Parse_object :
  Parse (String double_quote ("a\u00e9\n" +:+ String double_quote "")) = Some (DString ("aé" +:+ String "010" "")) /\
  Parse " { } " = Some (DObject []) /\ Parse "[1, -2.50e+3 ,null]" =
    Some (DArray [DNumber "1"; DNumber "-2.50e+3"; DNull]) /\
  Parse "01" = None /\ Parse "[1,]" = None.
Proof. vm_compute. split_and!; reflexivity. Qed.
End JSON.
