(* ===== verification/JsonPrint.v ===== *)
(** * JSON texts that are written

    How [encoding/json] writes a string (with [<], [>] and [&] escaped), and
    how it copies a [json.RawMessage]; what is written reads back. *)
From S2P Require Export JsonText.

Module Print.
Import JSON.

Definition hexDigit (z : Z) : ascii := default "0"%char (String.get (Z.to_nat z) "0123456789abcdef").

(** A character below 128. *)
Definition unicodeEscape (z : Z) : string :=
  String backslash (String "u" (String "0" (String "0" (String (hexDigit (z / 16)) (String (hexDigit (z `mod` 16)) ""))))).

Definition html (c : ascii) : bool := Ascii.eqb c "<" || Ascii.eqb c ">" || Ascii.eqb c "&".

Definition escapeASCII (c : ascii) : string :=
  if Ascii.eqb c double_quote || Ascii.eqb c backslash then String backslash (String c "")
  else if Ascii.eqb c "010" then String backslash "n"
  else if Ascii.eqb c "013" then String backslash "r"
  else if Ascii.eqb c "009" then String backslash "t"
  else if (ascii_Z c <? 32) || html c then unicodeEscape (ascii_Z c)
  else String c "".

(** U+2028 and U+2029. *)
Definition separator (c d e : ascii) : bool :=
  (ascii_Z c =? 226) && (ascii_Z d =? 128) && between 168 169 e.

Definition escape3 (c d e : ascii) : string :=
  if separator c d e then String backslash ("u202" +:+ String (hexDigit (ascii_Z e - 160)) "")
  else String c (String d (String e "")).

(** The characters of a string between its quotes. *)
Fixpoint escape (s : string) : string :=
  match s with
  | EmptyString => ""
  | String c s1 =>
      match width s with
      | 1%nat => escapeASCII c +:+ escape s1
      | 2%nat => match s1 with String d s2 => String c (String d (escape s2)) | _ => "" end
      | 3%nat => match s1 with String d (String e s3) => escape3 c d e +:+ escape s3 | _ => "" end
      | 4%nat => match s1 with
                 | String d (String e (String f s4)) => String c (String d (String e (String f (escape s4))))
                 | _ => ""
                 end
      | _ => String backslash "ufffd" +:+ escape s1
      end
  end.

Definition quote (s : string) : string := String double_quote (escape s +:+ String double_quote "").

(** [strings.ToValidUTF8] with U+FFFD for every byte. *)
Fixpoint coerce (s : string) : string :=
  match s with
  | EmptyString => ""
  | String c s1 =>
      match width s with
      | 1%nat => String c (coerce s1)
      | 2%nat => match s1 with String d s2 => String c (String d (coerce s2)) | _ => "" end
      | 3%nat => match s1 with String d (String e s3) => String c (String d (String e (coerce s3))) | _ => "" end
      | 4%nat => match s1 with
                 | String d (String e (String f s4)) => String c (String d (String e (String f (coerce s4))))
                 | _ => ""
                 end
      | _ => replacement +:+ coerce s1
      end
  end.

(** [json.Compact] with escapes for HTML, on a valid text; [inside] a string. *)
Fixpoint compact (inside : bool) (s : string) : string :=
  match s with
  | EmptyString => ""
  | String c s1 =>
      if html c then unicodeEscape (ascii_Z c) +:+ compact inside s1
      else if inside then
        if Ascii.eqb c backslash then
          match s1 with String d s2 => String c (String d (compact true s2)) | _ => String c "" end
        else if Ascii.eqb c double_quote then String c (compact false s1)
        else match s1 with
             | String d (String e s3) =>
                 if separator c d e then escape3 c d e +:+ compact true s3 else String c (compact true s1)
             | _ => String c (compact true s1)
             end
      else if isBlank c then compact false s1
      else String c (compact (Ascii.eqb c double_quote) s1)
  end.

(** ** Strings read back *)

(** Induction over the characters of a string. *)
Lemma string_width_ind (P : string -> Prop) :
  P "" ->
  (forall c s, width (String c s) = 1%nat -> P s -> P (String c s)) ->
  (forall c d s, width (String c (String d s)) = 2%nat -> P s -> P (String c (String d s))) ->
  (forall c d e s, width (String c (String d (String e s))) = 3%nat -> P s -> P (String c (String d (String e s)))) ->
  (forall c d e f s, width (String c (String d (String e (String f s)))) = 4%nat -> P s ->
     P (String c (String d (String e (String f s))))) ->
  (forall c s, width (String c s) = 0%nat -> P s -> P (String c s)) ->
  forall s, P s.
Proof.
  intros H0 H1 H2 H3 H4 Hbad s. induction (well_founded_ltof _ String.length s) as [s _ IH]. unfold ltof in IH.
  destruct s as [|c s]; [done|].
  assert (Hw : (width (String c s) <= 4)%nat) by (cbn; repeat case_match; lia).
  destruct (width (String c s)) as [|[|[|[|[|]]]]] eqn:Hws; try lia.
  - apply Hbad; [done|]. apply IH. cbn. lia.
  - apply H1; [done|]. apply IH. cbn. lia.
  - destruct s as [|d s]; [by cbn in Hws; repeat case_match|]. apply H2; [done|]. apply IH. cbn. lia.
  - destruct s as [|d [|e s]]; [by cbn in Hws; repeat case_match..|]. apply H3; [done|]. apply IH. cbn. lia.
  - destruct s as [|d [|e [|f s]]]; [by cbn in Hws; repeat case_match..|]. apply H4; [done|]. apply IH. cbn. lia.
Qed.

(** The number of bytes depends on the bytes only. *)
Lemma width2 c d s t : width (String c (String d s)) = 2%nat -> width (String c (String d t)) = 2%nat.
Proof. unfold width. repeat case_match; simplify_eq; congruence. Qed.
Lemma width3 c d e s t :
  width (String c (String d (String e s))) = 3%nat -> width (String c (String d (String e t))) = 3%nat.
Proof. unfold width. repeat case_match; simplify_eq; congruence. Qed.
Lemma width4 c d e f s t :
  width (String c (String d (String e (String f s)))) = 4%nat ->
  width (String c (String d (String e (String f t)))) = 4%nat.
Proof. unfold width. repeat case_match; simplify_eq; congruence. Qed.

(** One character of a string, written and read back as one piece. *)
Definition reads_piece (written : string) (t : string) : Prop :=
  exists p, (forall rest, pieces (written +:+ rest) = more p (pieces rest)) /\
    forall l, assemble (p :: l) = t +:+ assemble l.

Lemma reads_ASCII c s : width (String c s) = 1%nat -> reads_piece (escapeASCII c) (String c "").
Proof.
  intros Hw.
  assert (Hc : (ascii_Z c <? 128) = true) by (unfold width in Hw; by repeat case_match).
  clear Hw. unfold reads_piece.
  exists (if Ascii.eqb c double_quote || Ascii.eqb c backslash || bool_decide (c ∈ ["010"; "013"; "009"]%char)
          then Bytes (String c "")
          else if (ascii_Z c <? 32) || html c then Code (ascii_Z c) else Bytes (String c "")).
  destruct c as [[] [] [] [] [] [] [] []]; try discriminate Hc; by split.
Qed.

(** A character of several bytes is read as it is. *)
Lemma not_plain c : (128 <=? ascii_Z c) = true ->
  Ascii.eqb c double_quote = false /\ Ascii.eqb c backslash = false /\ (ascii_Z c <? 32) = false.
Proof. destruct c as [[] [] [] [] [] [] [] []]; intros Hc; vm_compute in Hc; done. Qed.

Lemma width_multi c s : (2 <= width (String c s))%nat -> (128 <=? ascii_Z c) = true.
Proof.
  unfold width. destruct (Z.ltb_spec (ascii_Z c) 128); [lia|]. intros _. by apply Z.leb_le.
Qed.

Lemma width_bad c s : width (String c s) = 0%nat -> (128 <=? ascii_Z c) = true.
Proof. unfold width. destruct (Z.ltb_spec (ascii_Z c) 128); [done|]. intros _. by apply Z.leb_le. Qed.

#[local] Ltac multi_byte Hw :=
  eexists (Bytes _); split; [intros rest|intros l; reflexivity];
  rewrite !app_str_cons; cbn [pieces];
  destruct (not_plain _ (width_multi _ _ ltac:(rewrite Hw; lia))) as (-> & -> & ->).

Lemma reads_width2 c d s :
  width (String c (String d s)) = 2%nat -> reads_piece (String c (String d "")) (String c (String d "")).
Proof. intros Hw. multi_byte Hw. by rewrite (width2 _ _ _ _ Hw). Qed.

Lemma reads_width3 c d e s :
  width (String c (String d (String e s))) = 3%nat ->
  reads_piece (escape3 c d e) (String c (String d (String e ""))).
Proof.
  intros Hw. unfold escape3. destruct (separator c d e) eqn:Hs.
  - unfold separator in Hs. clear Hw. exists (Code (ascii_Z e + 8064)).
    apply andb_prop in Hs as [[Hc Hd]%andb_prop He].
    destruct c as [[] [] [] [] [] [] [] []]; try discriminate Hc; clear Hc.
    destruct d as [[] [] [] [] [] [] [] []]; try discriminate Hd; clear Hd.
    destruct e as [[] [] [] [] [] [] [] []]; try discriminate He; clear He; by split.
  - multi_byte Hw. by rewrite (width3 _ _ _ _ _ Hw).
Qed.

Lemma reads_width4 c d e f s :
  width (String c (String d (String e (String f s)))) = 4%nat ->
  reads_piece (String c (String d (String e (String f "")))) (String c (String d (String e (String f "")))).
Proof. intros Hw. multi_byte Hw. by rewrite (width4 _ _ _ _ _ _ Hw). Qed.

Lemma reads_bad : reads_piece (String backslash "ufffd") replacement.
Proof. by exists (Code 65533). Qed.

Lemma reads_more w t rest u r :
  reads_piece w t -> (exists l, pieces rest = Some (l, r) /\ assemble l = u) ->
  exists l, pieces (w +:+ rest) = Some (l, r) /\ assemble l = t +:+ u.
Proof.
  intros (p & Hp & Ha) (l & Hl & <-). exists (p :: l). split; [|apply Ha]. rewrite Hp, Hl. done.
Qed.

(** A string that is written reads back, but for bytes that are not UTF-8. *)
Lemma readString_escape s r : readString (escape s +:+ String double_quote r) = Some (coerce s, r).
Proof.
  assert (H : exists l, pieces (escape s +:+ String double_quote r) = Some (l, r) /\ assemble l = coerce s).
  { induction s as [|c s Hw IH|c d s Hw IH|c d e s Hw IH|c d e f s Hw IH|c s Hw IH] using string_width_ind.
    - by exists [].
    - cbn [escape coerce]. rewrite Hw, <- app_str_assoc. apply (reads_more _ (String c "")); [by eapply reads_ASCII|done].
    - cbn [escape coerce]. rewrite Hw.
      apply (reads_more (String c (String d "")) (String c (String d ""))); [by eapply reads_width2|done].
    - cbn [escape coerce]. rewrite Hw, <- app_str_assoc.
      apply (reads_more _ (String c (String d (String e "")))); [by eapply reads_width3|done].
    - cbn [escape coerce]. rewrite Hw.
      apply (reads_more (String c (String d (String e (String f "")))) (String c (String d (String e (String f "")))));
        [by eapply reads_width4|done].
    - cbn [escape coerce]. rewrite Hw, <- app_str_assoc. apply (reads_more _ replacement); [apply reads_bad|done]. }
  destruct H as (l & Hl & Ha). unfold readString. by rewrite Hl, Ha.
Qed.

Lemma coerce_valid s : validUTF8 s = true -> coerce s = s.
Proof.
  induction s as [|c s Hw IH|c d s Hw IH|c d e s Hw IH|c d e f s Hw IH|c s Hw IH] using string_width_ind;
    cbn [validUTF8 coerce]; rewrite ?Hw; intros Hv; rewrite ?IH by done; done.
Qed.

Lemma quote_app s r : quote s +:+ r = String double_quote (escape s +:+ String double_quote r).
Proof. unfold quote. by rewrite app_str_cons, <- app_str_assoc. Qed.

Lemma value_quote s r : value (quote s +:+ r) = Some (DString (coerce s), r).
Proof. by rewrite quote_app, value_string, readString_escape. Qed.

(** ASCII texts are UTF-8. *)
Lemma isASCII_valid s : isASCII s = true -> validUTF8 s = true.
Proof.
  unfold isASCII. induction s as [|c s IH]; [done|]. cbn [forall_str validUTF8]. intros [Hc Hs]%andb_prop.
  unfold width. rewrite Hc. by apply IH.
Qed.
End Print.
