(* ===== verification/JsonCopy.v ===== *)
(** * Copies of raw JSON texts

    A [json.RawMessage] within a document is copied by [json.Compact]: the copy
    reads as the text does. *)
From S2P Require Export JsonPrint.

Module Copy.
Import JSON Print.

(** Pieces that stand for the same characters. *)
Inductive same_piece : piece -> piece -> Prop :=
| same_refl p : same_piece p p
| same_code z : surrogate z = false -> same_piece (Bytes (encodeRune z)) (Code z).

Lemma assemble_same l l' : Forall2 same_piece l l' -> assemble l = assemble l'.
Proof.
  remember (List.length l) as n eqn:Hn. revert l l' Hn.
  induction (lt_wf n) as [n _ IH]. intros l l' -> Hs.
  destruct Hs as [|p p' l l' Hp Hs]; [done|].
  assert (Hl : assemble l = assemble l') by (eapply IH; [|done|done]; cbn; lia).
  destruct Hp as [[t|z]|z Hz]; cbn [assemble]; [by rewrite Hl| |by rewrite Hz, Hl].
  destruct (surrogate z); [|by rewrite Hl]. destruct Hs as [|q q' m m' Hq Hs]; [done|].
  destruct Hq as [[t|z2]|z2 Hz2]; [by rewrite Hl| |].
  - rewrite Hl. by rewrite (IH (List.length m) ltac:(cbn; lia) m m' eq_refl Hs).
  - replace ((z <? 56320) && (56320 <=? z2) && (z2 <? 57344)) with false; [by rewrite Hl|].
    unfold surrogate in Hz2. destruct (Z.ltb_spec z 56320), (Z.leb_spec 56320 z2), (Z.ltb_spec z2 57344),
      (Z.leb_spec 55296 z2); cbn in *; done || lia.
Qed.

(** Characters that are copied one by one within a string. *)
Definition plain (c : ascii) : bool :=
  negb (html c || Ascii.eqb c backslash || Ascii.eqb c double_quote || (ascii_Z c =? 226)).

Lemma compact_plain c s : plain c = true -> compact true (String c s) = String c (compact true s).
Proof.
  unfold plain. intros H%negb_true_iff. do 3 apply orb_false_elim in H as [H ?]. cbn [compact].
  rewrite H. repeat match goal with E : Ascii.eqb _ _ = false |- _ => rewrite E end.
  destruct s as [|d [|e s]]; [done..|]. unfold separator.
  match goal with E : (ascii_Z c =? 226) = false |- _ => rewrite E end. done.
Qed.

Lemma cont_plain c : cont c = true -> plain c = true.
Proof. destruct c as [[] [] [] [] [] [] [] []]; intros H; vm_compute in H; done. Qed.

Lemma hexValue_plain c z : hexValue c = Some z -> plain c = true.
Proof. destruct c as [[] [] [] [] [] [] [] []]; intros H; vm_compute in H; done. Qed.

Lemma second3_cont c d : second3 c d = true -> cont d = true.
Proof.
  unfold second3, cont, between. intros H. repeat case_match;
    apply andb_prop in H as [?%Z.leb_le ?%Z.leb_le]; apply andb_true_intro; split; apply Z.leb_le; lia.
Qed.
Lemma second4_cont c d : second4 c d = true -> cont d = true.
Proof.
  unfold second4, cont, between. intros H. repeat case_match;
    apply andb_prop in H as [?%Z.leb_le ?%Z.leb_le]; apply andb_true_intro; split; apply Z.leb_le; lia.
Qed.

Lemma lead_plain c : (ascii_Z c <> 226) -> (128 <=? ascii_Z c) = true -> plain c = true.
Proof. destruct c as [[] [] [] [] [] [] [] []]; intros Hn Hc; vm_compute in Hn, Hc; done. Qed.

(** The bytes after the first one of a character. *)
Lemma width2_cont c d s : width (String c (String d s)) = 2%nat -> ascii_Z c <> 226 /\ cont d = true.
Proof.
  unfold width, between. intros H. repeat case_match; simplify_eq;
    repeat match goal with E : _ && _ = true |- _ => apply andb_prop in E as [?%Z.leb_le ?%Z.leb_le] end;
    split; done || lia.
Qed.
Lemma width3_cont c d e s :
  width (String c (String d (String e s))) = 3%nat -> cont d = true /\ cont e = true.
Proof.
  unfold width. intros H. repeat case_match; simplify_eq.
  match goal with E : second3 _ _ && _ = true |- _ => apply andb_prop in E as [E1%second3_cont E2] end. done.
Qed.
Lemma width4_cont c d e f s :
  width (String c (String d (String e (String f s)))) = 4%nat ->
  ascii_Z c <> 226 /\ cont d = true /\ cont e = true /\ cont f = true.
Proof.
  unfold width. intros H. repeat case_match; simplify_eq.
  match goal with E : second4 _ _ && _ && _ = true |- _ =>
    apply andb_prop in E as [[E1%second4_cont E2]%andb_prop E3] end.
  match goal with E : between 240 244 c = true |- _ => apply andb_prop in E as [?%Z.leb_le _] end.
  split_and!; done || lia.
Qed.

(** A byte that starts no character still does not when the rest of the string is copied. *)
Lemma compact_head d s r :
  cont d = false -> exists d' x, compact true (String d s) +:+ r = String d' x /\ cont d' = false.
Proof.
  intros Hd. cbn [compact]. destruct (html d); [by eexists _, _|].
  destruct (Ascii.eqb_spec d backslash) as [->|]; [destruct s; by eexists _, _|].
  destruct (Ascii.eqb_spec d double_quote) as [->|]; [by eexists _, _|].
  destruct s as [|e [|f s]]; [by eexists _, _..|]. destruct (separator d e f) eqn:Hs; [|by eexists _, _].
  unfold escape3. rewrite Hs. by eexists _, _.
Qed.

Lemma width_head c d s : (128 <=? ascii_Z c) = true -> cont d = false -> width (String c (String d s)) = 0%nat.
Proof.
  intros Hc Hd. unfold width. apply Z.leb_le in Hc. destruct (Z.ltb_spec (ascii_Z c) 128); [lia|]. rewrite Hd.
  assert (H3 : second3 c d = false) by (apply not_true_iff_false; intros H3%second3_cont; congruence).
  assert (H4 : second4 c d = false) by (apply not_true_iff_false; intros H4%second4_cont; congruence).
  rewrite H3, H4. cbn. by repeat case_match.
Qed.

Lemma pieces_cons c s x : (128 <=? ascii_Z c) = true -> pieces (String c s) = Some x -> s <> "".
Proof.
  intros Hc Hp ->. cbn [pieces] in Hp. destruct (not_plain _ Hc) as (E1 & E2 & E3). rewrite E1, E2, E3 in Hp.
  by repeat case_match.
Qed.

Lemma cont_high c : cont c = true -> (128 <=? ascii_Z c) = true /\ forall s, width (String c s) = 0%nat.
Proof.
  intros Hc. split; [by apply andb_prop in Hc as [? _]|]. intros s.
  destruct c as [[] [] [] [] [] [] [] []]; vm_compute in Hc; done.
Qed.

(** In a string that is closed, the byte after one of a sequence exists. *)
Lemma pieces_next c s x :
  cont c = true -> pieces (String c s) = Some x ->
  exists d s', s = String d s' /\ exists y, pieces s = Some y.
Proof.
  intros Hc Hp. destruct (cont_high _ Hc) as [Hh Hw]. pose proof (pieces_cons _ _ _ Hh Hp) as Hne.
  destruct s as [|d s]; [done|]. exists d, s. split; [done|].
  rewrite <- (app_str_nil_r (String d s)) in Hp. cbn [pieces] in Hp.
  destruct (not_plain _ Hh) as (E1 & E2 & E3). rewrite E1, E2, E3, Hw, app_str_nil_r in Hp.
  destruct (pieces (String d s)) as [y|]; [by exists y|done].
Qed.

Lemma width_bad_compact c s r x :
  width (String c s) = 0%nat -> pieces s = Some x -> width (String c (compact true s +:+ r)) = 0%nat.
Proof.
  intros Hw Hp. pose proof (width_bad _ _ Hw) as Hc.
  destruct s as [|d s]; [done|]. destruct (cont d) eqn:Hd.
  2:{ destruct (compact_head d s r Hd) as (d' & y & -> & Hd'). by apply width_head. }
  destruct (pieces_next _ _ _ Hd Hp) as (e & s' & -> & y & Hy).
  rewrite compact_plain, app_str_cons by by apply cont_plain.
  destruct (cont e) eqn:He.
  2:{ destruct (compact_head e s' r He) as (e' & z & -> & He'). revert Hw. unfold width. rewrite Hd, He, He'.
      rewrite !andb_false_r. repeat case_match; done. }
  destruct (pieces_next _ _ _ He Hy) as (f & s & -> & z & Hz).
  rewrite compact_plain, app_str_cons by by apply cont_plain.
  destruct (cont f) eqn:Hf.
  2:{ destruct (compact_head f s r Hf) as (f' & w & -> & Hf'). revert Hw. unfold width.
      rewrite Hd, He, Hf, Hf', !andb_false_r. done. }
  rewrite compact_plain, app_str_cons by by apply cont_plain.
  exact Hw.
Qed.

Lemma html_ASCII c : html c = true -> (ascii_Z c <? 128) = true /\ surrogate (ascii_Z c) = false /\
  encodeRune (ascii_Z c) = String c "" /\
  forall s, pieces (unicodeEscape (ascii_Z c) +:+ s) = more (Code (ascii_Z c)) (pieces s).
Proof.
  intros Hc. unfold html in Hc. apply orb_prop in Hc as [[Hc|Hc]%orb_prop|Hc];
    apply Ascii.eqb_eq in Hc; subst c; by split_and!.
Qed.

(** What the copy of a string within quotes reads as. *)
Definition copies (r rest s : string) : Prop :=
  forall l, pieces s = Some (l, r) ->
  exists l', pieces (compact true s +:+ rest) = Some (l', compact false r +:+ rest) /\ Forall2 same_piece l l'.

Lemma copies_more r rest s t w p p' :
  copies r rest t -> pieces s = more p (pieces t) ->
  compact true s +:+ rest = w +:+ compact true t +:+ rest -> same_piece p p' ->
  (forall x, pieces (w +:+ x) = more p' (pieces x)) -> copies r rest s.
Proof.
  intros Ht Hs Hc Hp Hw l Hl. rewrite Hs in Hl. apply more_Some in Hl as (l1 & Hl & ->).
  destruct (Ht l1 Hl) as (l' & Hl' & Hf). exists (p' :: l'). split; [by rewrite Hc, Hw, Hl'|by constructor].
Qed.

Lemma copies_escape r rest s :
  (forall t, (String.length t < String.length s)%nat -> copies r rest t) -> copies r rest (String backslash s).
Proof.
  intros IH. destruct s as [|e s]; [done|]. destruct (Ascii.eqb_spec e "u") as [->|He].
  - destruct s as [|h1 [|h2 [|h3 [|h4 s]]]]; try done. destruct (hex4 h1 h2 h3 h4) as [z|] eqn:Hh.
    2:{ intros l. cbn [pieces]. cbn [Ascii.eqb Bool.eqb]. by rewrite Hh. }
    assert (Hx : plain h1 = true /\ plain h2 = true /\ plain h3 = true /\ plain h4 = true).
    { unfold hex4 in Hh. repeat case_match; simplify_eq; split_and!; by eapply hexValue_plain. }
    destruct Hx as (H1 & H2 & H3 & H4).
    apply (copies_more r rest _ s (String backslash (String "u" (String h1 (String h2 (String h3 (String h4 "")))))) (Code z) (Code z)).
    + apply IH. cbn. lia.
    + cbn [pieces]. cbn [Ascii.eqb Bool.eqb]. by rewrite Hh.
    + change (compact true (String backslash (String "u" ?x))) with (String backslash (String "u" (compact true x))).
      by rewrite !compact_plain by done.
    + constructor.
    + intros x. rewrite !app_str_cons. cbn [pieces]. cbn [Ascii.eqb Bool.eqb]. by rewrite Hh.
  - apply Ascii.eqb_neq in He. destruct (unescape e) as [e'|] eqn:He'.
    2:{ intros l. cbn [pieces]. cbn [Ascii.eqb Bool.eqb]. by rewrite He, He'. }
    apply (copies_more r rest _ s (String backslash (String e "")) (Bytes (String e' "")) (Bytes (String e' "")));
      [apply IH; cbn; lia| |done|constructor|intros x; rewrite !app_str_cons];
      cbn [pieces]; cbn [Ascii.eqb Bool.eqb]; by rewrite He, He'.
Qed.

Lemma copies_ASCII r rest c s :
  width (String c s) = 1%nat -> Ascii.eqb c double_quote = false -> Ascii.eqb c backslash = false ->
  copies r rest s -> copies r rest (String c s).
Proof.
  intros Hw Hq Hb IH.
  assert (Hlt : (ascii_Z c <? 128) = true) by (unfold width in Hw; by repeat case_match).
  destruct (ascii_Z c <? 32) eqn:Hlow; [intros l; cbn [pieces]; by rewrite Hq, Hb, Hlow|].
  assert (Hpc : forall x, pieces (String c x) = more (Bytes (String c "")) (pieces x)).
  { intros x. cbn [pieces]. rewrite Hq, Hb, Hlow. unfold width. by rewrite Hlt. }
  destruct (html c) eqn:Hh.
  - destruct (html_ASCII c Hh) as (_ & Hs & Hr & Hu).
    apply (copies_more r rest _ s (unicodeEscape (ascii_Z c)) (Bytes (String c "")) (Code (ascii_Z c)));
      [done|apply Hpc| | |done].
    + cbn [compact]. by rewrite Hh, <- app_str_assoc.
    + rewrite <- Hr. by constructor.
  - apply (copies_more r rest _ s (String c "") (Bytes (String c "")) (Bytes (String c "")));
      [done|apply Hpc| |constructor|apply Hpc].
    rewrite compact_plain; [done|]. unfold plain. rewrite Hh, Hq, Hb.
    destruct (Z.eqb_spec (ascii_Z c) 226); [lia|done].
Qed.

#[local] Ltac piece_of Hw :=
  cbn [pieces]; destruct (not_plain _ (width_multi _ _ ltac:(rewrite Hw; lia))) as (-> & -> & ->).

Lemma reads_separator c d e :
  separator c d e = true ->
  exists z, surrogate z = false /\ encodeRune z = String c (String d (String e "")) /\
    forall x, pieces (escape3 c d e +:+ x) = more (Code z) (pieces x).
Proof.
  intros Hs. exists (ascii_Z e + 8064). unfold escape3. rewrite Hs. unfold separator in Hs.
  apply andb_prop in Hs as [[Hc Hd]%andb_prop He].
  destruct c as [[] [] [] [] [] [] [] []]; try discriminate Hc; clear Hc.
  destruct d as [[] [] [] [] [] [] [] []]; try discriminate Hd; clear Hd.
  destruct e as [[] [] [] [] [] [] [] []]; try discriminate He; clear He; by split_and!.
Qed.

Lemma copies3 r rest c d e s :
  width (String c (String d (String e s))) = 3%nat -> copies r rest s -> copies r rest (String c (String d (String e s))).
Proof.
  intros Hw IH. pose proof (width_multi _ _ ltac:(rewrite Hw; lia)) as Hc.
  destruct (width3_cont _ _ _ _ Hw) as [Hd He]. destruct (not_plain _ Hc) as (Hq & Hb & _).
  assert (Hhtml : html c = false).
  { apply not_true_iff_false. intros Hh. destruct (html_ASCII _ Hh) as [Hlt _].
    apply Z.leb_le in Hc. apply Z.ltb_lt in Hlt. lia. }
  assert (Hread : forall x, pieces (String c (String d (String e x))) =
    more (Bytes (String c (String d (String e "")))) (pieces x)).
  { intros x. piece_of Hw. by rewrite (width3 _ _ _ _ _ Hw). }
  destruct (separator c d e) eqn:Hs.
  - destruct (reads_separator c d e Hs) as (z & Hsu & Hr & Hx).
    apply (copies_more r rest _ s (escape3 c d e) (Bytes (String c (String d (String e "")))) (Code z));
      [done|apply Hread| |rewrite <- Hr; by constructor|done].
    cbn [compact]. rewrite Hhtml, Hb, Hq, Hs. by rewrite <- app_str_assoc.
  - apply (copies_more r rest _ s (String c (String d (String e ""))) (Bytes (String c (String d (String e ""))))
      (Bytes (String c (String d (String e ""))))); [done|apply Hread| |constructor|intros x; apply Hread].
    assert (compact true (String c (String d (String e s))) = String c (compact true (String d (String e s)))) as ->.
    { cbn [compact]. by rewrite Hhtml, Hb, Hq, Hs. }
    by rewrite !compact_plain by by apply cont_plain.
Qed.

Lemma copies_multi r rest c s :
  (2 <= width (String c s))%nat ->
  (forall t, (String.length t < String.length s)%nat -> copies r rest t) -> copies r rest (String c s).
Proof.
  intros Hge IH. pose proof (width_multi _ _ Hge) as Hc.
  destruct (width (String c s)) as [|[|[|[|[|]]]]] eqn:Hw; try lia.
  - destruct s as [|d s]; [by cbn in Hw; repeat case_match|].
    destruct (width2_cont _ _ _ Hw) as [H226 Hd].
    apply (copies_more r rest _ s (String c (String d "")) (Bytes (String c (String d ""))) (Bytes (String c (String d ""))));
      [apply IH; cbn; lia| | |constructor|].
    + piece_of Hw. by rewrite Hw.
    + by rewrite !compact_plain by first [by apply lead_plain | by apply cont_plain].
    + intros x. rewrite !app_str_cons. piece_of Hw. by rewrite (width2 _ _ _ _ Hw).
  - destruct s as [|d [|e s]]; [by cbn in Hw; repeat case_match..|].
    apply copies3; [done|]. apply IH. cbn. lia.
  - destruct s as [|d [|e [|f s]]]; [by cbn in Hw; repeat case_match..|].
    destruct (width4_cont _ _ _ _ _ Hw) as (H226 & Hd & He & Hf).
    apply (copies_more r rest _ s (String c (String d (String e (String f ""))))
      (Bytes (String c (String d (String e (String f ""))))) (Bytes (String c (String d (String e (String f ""))))));
      [apply IH; cbn; lia| | |constructor|].
    + piece_of Hw. by rewrite Hw.
    + by rewrite !compact_plain by first [by apply lead_plain | by apply cont_plain].
    + intros x. rewrite !app_str_cons. piece_of Hw. by rewrite (width4 _ _ _ _ _ _ Hw).
  - exfalso. clear -Hw. unfold width in Hw. repeat case_match; simplify_eq.
Qed.

Lemma copies_bad r rest c s :
  width (String c s) = 0%nat -> copies r rest s -> copies r rest (String c s).
Proof.
  intros Hw IH l Hp. pose proof (width_bad _ _ Hw) as Hc. destruct (not_plain _ Hc) as (Hq & Hb & Hlow).
  cbn [pieces] in Hp. rewrite Hq, Hb, Hlow, Hw in Hp. apply more_Some in Hp as (l1 & Hp & ->).
  destruct (IH l1 Hp) as (l' & Hl' & Hf). exists (Bytes replacement :: l'). split; [|by constructor; [apply same_refl|]].
  assert (compact true (String c s) = String c (compact true s)) as ->.
  { cbn [compact]. assert (html c = false) as ->.
    { apply not_true_iff_false. intros Hh. destruct (html_ASCII _ Hh) as [Hlt _].
      apply Z.leb_le in Hc. apply Z.ltb_lt in Hlt. lia. }
    rewrite Hb, Hq. destruct s as [|d [|e s]]; [done..|]. destruct (separator c d e) eqn:Hs; [|done].
    exfalso. clear -Hs Hw. unfold separator in Hs. apply andb_prop in Hs as [[Hc Hd]%andb_prop He].
    destruct c as [[] [] [] [] [] [] [] []]; try discriminate Hc; clear Hc.
    destruct d as [[] [] [] [] [] [] [] []]; try discriminate Hd; clear Hd.
    destruct e as [[] [] [] [] [] [] [] []]; try discriminate He; vm_compute in Hw; discriminate Hw. }
  rewrite app_str_cons. cbn [pieces]. rewrite Hq, Hb, Hlow, (width_bad_compact _ _ _ _ Hw Hp), Hl'. done.
Qed.

Lemma compact_pieces r rest s : copies r rest s.
Proof.
  induction (well_founded_ltof _ String.length s) as [s _ IH]. unfold ltof in IH.
  destruct s as [|c s]; [done|].
  destruct (Ascii.eqb_spec c double_quote) as [->|Hq].
  { intros l Hp. cbn [pieces] in Hp. injection Hp as <- <-. exists []. by split. }
  destruct (Ascii.eqb_spec c backslash) as [->|Hb]; [apply copies_escape; intros t Ht; apply IH; cbn; lia|].
  apply Ascii.eqb_neq in Hq, Hb.
  assert (Hw : width (String c s) = 1%nat \/ width (String c s) = 0%nat \/ (2 <= width (String c s))%nat) by lia.
  destruct Hw as [Hw|[Hw|Hw]].
  - apply copies_ASCII; [done..|]. apply IH. cbn. lia.
  - apply copies_bad; [done|]. apply IH. cbn. lia.
  - apply copies_multi; [done|]. intros t Ht. apply IH. cbn. lia.
Qed.

Lemma compact_readString s t r rest :
  readString s = Some (t, r) -> readString (compact true s +:+ rest) = Some (t, compact false r +:+ rest).
Proof.
  unfold readString. destruct (pieces s) as [[l r']|] eqn:Hp; [|done]. intros [= <- <-].
  destruct (compact_pieces r' rest s l Hp) as (l' & -> & Hf). by rewrite (assemble_same _ _ Hf).
Qed.

(** ** Numbers read again *)
Definition no_digit (s : string) : bool := match s with String c _ => negb (isDigit c) | _ => true end.

Lemma ends_no_digit s : ends_number s = true -> no_digit s = true.
Proof. destruct s as [|c s]; [done|]. cbn [ends_number no_digit]. by destruct (isDigit c). Qed.

Lemma digits_all s : forall_str isDigit (digits s).1 = true.
Proof.
  induction s as [|c s IH]; cbn; [done|]. destruct (isDigit c) eqn:Hc; [|done].
  destruct (digits s). cbn in *. by rewrite Hc.
Qed.

Lemma digits_no_digit d y : forall_str isDigit d = true -> no_digit y = true -> digits (d +:+ y) = (d, y).
Proof.
  intros Hd Hy. induction d as [|c d IH].
  - change ("" +:+ y) with y. destruct y as [|c y]; [done|]. cbn [no_digit] in Hy. cbn [digits].
    by destruct (isDigit c).
  - cbn [forall_str] in Hd. apply andb_prop in Hd as [Hc Hd]. rewrite app_str_cons. cbn [digits]. by rewrite Hc, IH.
Qed.

Lemma digits1_again s d r y :
  digits1 s = Some (d, r) -> no_digit y = true -> digits1 (d +:+ y) = Some (d, y) /\ forall_str isDigit d = true.
Proof.
  unfold digits1. pose proof (digits_all s) as Hd. destruct (digits s) as [[|c d'] r']; [done|].
  intros [= <- <-] Hy. split; [|done]. by rewrite digits_no_digit.
Qed.

Lemma intPart_again s d r y :
  intPart s = Some (d, r) -> no_digit y = true -> intPart (d +:+ y) = Some (d, y) /\ forall_str isDigit d = true.
Proof.
  destruct s as [|c s]; [done|]. cbn [intPart]. destruct (Ascii.eqb_spec c "0") as [->|Hc].
  - intros [= <- <-] _. done.
  - intros Hd Hy. destruct (digits1_again _ _ _ y Hd Hy) as [Ha Hf]. split; [|done].
    apply digits1_app in Hd as [He Hne]. destruct d as [|c' d]; [done|]. injection He as <- He.
    rewrite app_str_cons in *. cbn [intPart]. by rewrite (proj2 (Ascii.eqb_neq c "0") Hc).
Qed.

Definition numChar (c : ascii) : bool :=
  isDigit c || Ascii.eqb c "." || Ascii.eqb c "e" || Ascii.eqb c "E" || Ascii.eqb c "+" || Ascii.eqb c "-".

Lemma digit_numChar d : forall_str isDigit d = true -> forall_str numChar d = true.
Proof. apply forall_str_impl. intros c Hc. unfold numChar. by rewrite Hc. Qed.

Lemma fracPart_again s f r y :
  fracPart s = Some (f, r) -> no_digit y = true -> (f = "" -> fracPart y = Some ("", y)) ->
  fracPart (f +:+ y) = Some (f, y) /\ forall_str numChar f = true /\ (f <> "" -> no_digit f = true).
Proof.
  destruct s as [|c s]; [intros [= <- <-] Hy He; by rewrite app_str_nil_l, He|]. cbn [fracPart].
  destruct (Ascii.eqb_spec c ".") as [->|Hc]; [|intros [= <- <-] Hy He; by rewrite app_str_nil_l, He].
  intros (d & Hd & ->)%prod_map_Some Hy _. destruct (digits1_again _ _ _ y Hd Hy) as [Ha Hf].
  rewrite app_str_cons. cbn [fracPart Ascii.eqb Bool.eqb]. rewrite Ha. split_and!; [done| |done].
  cbn [forall_str]. by apply digit_numChar.
Qed.

Lemma expPart_again s e r y :
  expPart s = Some (e, r) -> ends_number y = true ->
  expPart (e +:+ y) = Some (e, y) /\ forall_str numChar e = true /\
  (e <> "" -> no_digit e = true /\ fracPart (e +:+ y) = Some ("", e +:+ y)).
Proof.
  intros He Hy.
  assert (H0 : expPart y = Some ("", y)).
  { destruct y as [|c y]; [done|]. cbn [ends_number] in Hy. apply negb_true_iff in Hy.
    do 3 apply orb_false_elim in Hy as [Hy ?]. cbn [expPart].
    by repeat match goal with H : Ascii.eqb c _ = false |- _ => rewrite H end. }
  destruct s as [|c s]; [injection He as <- <-; by rewrite app_str_nil_l|]. cbn [expPart] in He.
  destruct (Ascii.eqb c "e" || Ascii.eqb c "E") eqn:Hc; [|injection He as <- <-; by rewrite app_str_nil_l].
  assert (Hnum : numChar c = true /\ isDigit c = false /\ Ascii.eqb c "." = false).
  { apply orb_prop in Hc as [Hc|Hc]; apply Ascii.eqb_eq in Hc as ->; done. }
  destruct Hnum as (Hn & Hd0 & Hdot). destruct s as [|d0 s]; [done|].
  apply ends_no_digit in Hy.
  destruct (Ascii.eqb d0 "+" || Ascii.eqb d0 "-") eqn:Hs; apply prod_map_Some in He as (d & Hd & ->);
    destruct (digits1_again _ _ _ y Hd Hy) as [Ha Hf]; rewrite !app_str_cons; cbn [expPart fracPart no_digit];
    rewrite Hc, Hdot, Hd0; (split_and!; [|cbn [forall_str]; rewrite Hn|done]).
  - by rewrite Hs, Ha.
  - assert (numChar d0 = true) as -> by (apply orb_prop in Hs as [Hs|Hs]; apply Ascii.eqb_eq in Hs as ->; done).
    by apply digit_numChar.
  - apply digits1_app in Hd as [He Hne]. destruct d as [|d1 d]; [done|]. injection He as <- He.
    rewrite app_str_cons in *. by rewrite Hs, Ha.
  - by apply digit_numChar.
Qed.

Lemma unsigned_again s l r y :
  unsignedNumber s = Some (l, r) -> ends_number y = true ->
  unsignedNumber (l +:+ y) = Some (l, y) /\ forall_str numChar l = true.
Proof.
  unfold unsignedNumber. intros Hs Hy. destruct (intPart s) as [[i r1]|] eqn:Hi; [|done].
  destruct (fracPart r1) as [[f r2]|] eqn:Hf; [|done]. apply prod_map_Some in Hs as (e & He & ->).
  destruct (expPart_again _ _ _ y He Hy) as (He' & Hen & Hne).
  assert (Hy0 : fracPart y = Some ("", y)).
  { destruct y as [|c y]; [done|]. cbn [ends_number] in Hy. apply negb_true_iff in Hy.
    do 3 apply orb_false_elim in Hy as [Hy ?]. cbn [fracPart].
    by repeat match goal with H : Ascii.eqb c _ = false |- _ => rewrite H end. }
  assert (Hey : no_digit (e +:+ y) = true /\ fracPart (e +:+ y) = Some ("", e +:+ y)).
  { destruct e as [|c e]; [split; [by apply ends_no_digit|done]|]. destruct (Hne ltac:(done)) as [Hc ?]. done. }
  destruct Hey as [Hey1 Hey2].
  destruct (fracPart_again _ _ _ (e +:+ y) Hf Hey1 ltac:(done)) as (Hf' & Hfn & Hfne).
  assert (Hfy : no_digit (f +:+ e +:+ y) = true).
  { destruct f as [|c f]; [done|]. by specialize (Hfne ltac:(done)). }
  destruct (intPart_again _ _ _ (f +:+ e +:+ y) Hi Hfy) as [Hi' Hid].
  rewrite <- !app_str_assoc, Hi', Hf', He'. split; [done|].
  rewrite !forall_str_app, Hfn, Hen, digit_numChar by done. done.
Qed.

Lemma number_again s l r y :
  number s = Some (l, r) -> ends_number y = true ->
  number (l +:+ y) = Some (l, y) /\ forall_str numChar l = true.
Proof.
  intros Hs Hy. destruct s as [|c s]; [done|]. cbn [number] in Hs.
  destruct (Ascii.eqb_spec c "-") as [->|Hc].
  - apply prod_map_Some in Hs as (u & Hu & ->). destruct (unsigned_again _ _ _ y Hu Hy) as [Hu' Hn].
    rewrite app_str_cons. cbn [number Ascii.eqb Bool.eqb]. by rewrite Hu'.
  - destruct (unsigned_again _ _ _ y Hs Hy) as [Hu' Hn]. split; [|done].
    assert (Hl : exists l', l = String c l').
    { destruct (number_app (String c s) l r) as [He Hne].
      { cbn [number]. by rewrite (proj2 (Ascii.eqb_neq c "-") Hc). }
      destruct l as [|c' l]; [done|]. injection He as <- He. by exists l. }
    destruct Hl as [l' ->]. rewrite app_str_cons in *. cbn [number].
    by rewrite (proj2 (Ascii.eqb_neq c "-") Hc).
Qed.

(** ** Values *)
Lemma expect_inv c s r : expect (String c "") s = Some r -> skip s = String c r.
Proof.
  unfold expect. destruct (HasPrefix (skip s) (String c "")) eqn:Hp; [|done]. intros [= <-].
  by apply HasPrefix_inv in Hp.
Qed.

Lemma expect_skip c s r : skip s = String c r -> expect (String c "") s = Some r.
Proof.
  unfold expect. intros ->. change (String c r) with (String c "" +:+ r). rewrite HasPrefix_app.
  by destruct r.
Qed.

Lemma expect_other c d s x : skip s = String d x -> d <> c -> expect (String c "") s = None.
Proof.
  unfold expect. intros -> Hd. rewrite HasPrefix_char. by destruct (Ascii.eqb_spec c d) as [->|].
Qed.

Lemma skip_head s c r : skip s = String c r -> isBlank c = false.
Proof.
  induction s as [|d s IH]; cbn; [done|]. destruct (isBlank d) eqn:Hd; [done|]. by intros [= -> _].
Qed.

(** What a scalar starts with. *)
Lemma scalar_cases s d r :
  scalar s = Some (d, r) ->
  (exists p, (d, p) ∈ [(DNull, "null"); (DBool true, "true"); (DBool false, "false")] /\ skip s = p +:+ r) \/
  (exists t x, d = DString t /\ skip s = String double_quote x /\ readString x = Some (t, r)) \/
  (exists l, d = DNumber l /\ number (skip s) = Some (l, r)).
Proof.
  unfold scalar.
  assert (He : forall p x, expect p s = Some x -> skip s = p +:+ x).
  { intros p x. unfold expect. destruct (HasPrefix (skip s) p) eqn:Hp; [|done]. intros [= <-].
    by apply HasPrefix_inv. }
  destruct (expect "null" s) as [x|] eqn:H1; [intros [= <- <-]; left; exists "null"; split; [set_solver|by apply He]|].
  destruct (expect "true" s) as [x|] eqn:H2; [intros [= <- <-]; left; exists "true"; split; [set_solver|by apply He]|].
  destruct (expect "false" s) as [x|] eqn:H3; [intros [= <- <-]; left; exists "false"; split; [set_solver|by apply He]|].
  destruct (expect (String double_quote "") s) as [x|] eqn:H4; [|].
  - intros (t & Ht & ->)%prod_map_Some. right. left.
    exists t, x. split_and!; [done|by apply expect_inv|done].
  - intros (l & Hl & ->)%prod_map_Some. right. right. by exists l.
Qed.

Lemma expect_none c p s : skip s = "" -> expect (String c p) s = None.
Proof. unfold expect. by intros ->. Qed.

(** A text that a reader accepts is not blank. *)
Lemma readers_not_blank s : skip s = "" ->
  value s = None /\ elems s = None /\ field s = None /\ fields s = None.
Proof.
  intros Hs. assert (He : forall c p, expect (String c p) s = None) by (intros; unfold expect; by rewrite Hs).
  rewrite value_eq, elems_eq, field_eq, fields_eq, !He. unfold scalar. by rewrite !He, Hs.
Qed.

Section copy.
Context (rest : string).
Notation C s := (compact false s +:+ rest).

Definition outside (c : ascii) : bool := negb (html c || isBlank c || Ascii.eqb c double_quote).

Lemma compact_outside c s : outside c = true -> C (String c s) = String c (C s).
Proof.
  unfold outside. intros H%negb_true_iff. do 2 apply orb_false_elim in H as [H ?]. cbn [compact].
  rewrite H. by repeat match goal with E : _ = false |- _ => rewrite E; clear E end.
Qed.

Lemma compact_outside_app l s : forall_str outside l = true -> C (l +:+ s) = l +:+ C s.
Proof.
  induction l as [|c l IH]; [done|]. cbn [forall_str]. intros [Hc Hl]%andb_prop.
  rewrite !app_str_cons, compact_outside by done. by rewrite IH.
Qed.

Lemma compact_skip s : compact false s = compact false (skip s).
Proof.
  induction s as [|c s IH]; [done|]. cbn [skip]. destruct (isBlank c) eqn:Hc; [|done]. rewrite <- IH.
  cbn [compact]. rewrite Hc. destruct (html c) eqn:Hh; [|done].
  unfold html in Hh. exfalso. apply orb_prop in Hh as [[Hh|Hh]%orb_prop|Hh];
    apply Ascii.eqb_eq in Hh as ->; done.
Qed.

Lemma compact_quote s : C (String double_quote s) = String double_quote (compact true s +:+ rest).
Proof. done. Qed.

Lemma numChar_outside l : forall_str numChar l = true -> forall_str outside l = true.
Proof. apply forall_str_impl. intros c. by destruct c as [[] [] [] [] [] [] [] []]. Qed.

(** Delimiters are found in the copy where they are in the text. *)
Definition delimiter (c : ascii) : bool := bool_decide (c ∈ ["["; "]"; "{"; "}"; ","; ":"]%char).

Lemma delimiter_outside c : delimiter c = true -> outside c = true /\ isBlank c = false.
Proof. by destruct c as [[] [] [] [] [] [] [] []]. Qed.

Lemma expect_copy c s :
  delimiter c = true -> skip s <> "" ->
  expect (String c "") (C s) = (fun r => C r) <$> expect (String c "") s.
Proof.
  intros Hc Hs. destruct (delimiter_outside c Hc) as [Ho Hb]. rewrite compact_skip.
  destruct (skip s) as [|d x] eqn:Hd; [done|]. pose proof (skip_head _ _ _ Hd) as Hbd.
  destruct (decide (d = c)) as [->|Hne].
  - rewrite (expect_skip _ _ _ Hd). cbn [fmap option_fmap option_map]. rewrite compact_outside by done.
    by rewrite expect_here.
  - rewrite (expect_other _ _ _ _ Hd Hne). cbn [fmap option_fmap option_map].
    destruct (html d) eqn:Hh.
    + cbn [compact]. rewrite Hh. unfold unicodeEscape. rewrite !app_str_cons.
      rewrite expect_char by done. destruct (Ascii.eqb_spec c backslash) as [->|]; [done|done].
    + assert (Hcopy : exists y, C (String d x) = String d y).
      { cbn [compact]. rewrite Hh, Hbd. by eexists. }
      destruct Hcopy as [y ->]. rewrite expect_char by done.
      by destruct (Ascii.eqb_spec c d) as [->|].
Qed.

Lemma copy_expect c s r : expect (String c "") s = Some r -> delimiter c = true -> C s = String c (C r).
Proof.
  intros He Hc. rewrite compact_skip, (expect_inv _ _ _ He). apply compact_outside. by apply delimiter_outside.
Qed.

Lemma copy_quote s r :
  expect (String double_quote "") s = Some r -> C s = String double_quote (compact true r +:+ rest).
Proof. intros He. by rewrite compact_skip, (expect_inv _ _ _ He). Qed.

Lemma elems_ends s x : elems s = Some x -> ends_number (C s) = true.
Proof.
  rewrite elems_eq. destruct (expect "]" s) as [r|] eqn:H1; [by rewrite (copy_expect _ _ _ H1 eq_refl)|].
  destruct (expect "," s) as [r|] eqn:H2; [by rewrite (copy_expect _ _ _ H2 eq_refl)|done].
Qed.

Lemma fields_ends s x : fields s = Some x -> ends_number (C s) = true.
Proof.
  rewrite fields_eq. destruct (expect "}" s) as [r|] eqn:H1; [by rewrite (copy_expect _ _ _ H1 eq_refl)|].
  destruct (expect "," s) as [r|] eqn:H2; [by rewrite (copy_expect _ _ _ H2 eq_refl)|done].
Qed.

Lemma scalar_copy s d r :
  scalar s = Some (d, r) -> ends_number (C r) = true -> value (C s) = Some (d, C r).
Proof.
  intros Hs He. rewrite compact_skip. destruct (scalar_cases _ _ _ Hs) as [(p & Hp & ->)|[(t & x & -> & -> & Ht)|(l & -> & Hl)]].
  - rewrite compact_outside_app; [by apply value_literal|].
    repeat (apply elem_of_cons in Hp as [[= _ ->]|Hp]; [done|]). by apply elem_of_nil in Hp.
  - rewrite compact_quote, value_string, (compact_readString _ _ _ _ Ht). done.
  - destruct (number_again _ _ _ (C r) Hl He) as [Hn Hc]. apply number_app in Hl as [-> Hne].
    rewrite compact_outside_app by by apply numChar_outside. destruct l as [|c l]; [done|].
    rewrite app_str_cons in *. by apply value_number.
Qed.

Definition copied (s : string) : Prop :=
  (forall d r, value s = Some (d, r) -> ends_number (C r) = true -> value (C s) = Some (d, C r)) /\
  (forall l r, elems s = Some (l, r) -> elems (C s) = Some (l, C r)) /\
  (forall kd r, field s = Some (kd, r) -> ends_number (C r) = true -> field (C s) = Some (kd, C r)) /\
  (forall l r, fields s = Some (l, r) -> fields (C s) = Some (l, C r)).

#[local] Ltac shorter :=
  repeat match goal with
  | H : expect _ _ = Some _ |- _ => apply expect_lt in H; cbn in H
  | H : readString _ = Some _ |- _ => apply readString_lt in H
  | H : value _ = Some _ |- _ => apply value_lt in H
  | H : field _ = Some _ |- _ => apply field_lt in H
  end; lia.

Lemma value_copied s :
  (forall t, (String.length t < String.length s)%nat -> copied t) ->
  forall d r, value s = Some (d, r) -> ends_number (C r) = true -> value (C s) = Some (d, C r).
Proof.
  intros IH d r Hv He.
  assert (Hb : skip s <> "") by (intros Hb; destruct (readers_not_blank s Hb); congruence).
  rewrite value_eq in Hv. destruct (expect "[" s) as [r1|] eqn:H1.
  { rewrite (copy_expect _ _ _ H1 eq_refl), value_array.
    assert (Hb1 : skip r1 <> "").
    { intros Hb1. destruct (readers_not_blank r1 Hb1) as (E & _). by rewrite expect_none, E in Hv. }
    rewrite expect_copy by done. destruct (expect "]" r1) as [r2|] eqn:H2; [by simplify_eq/=|]. cbn.
    destruct (value r1) as [[d1 r2]|] eqn:H3; [|done]. apply prod_map_Some in Hv as (l & Hl & ->).
    destruct (IH r1 ltac:(shorter)) as (Hv & _). destruct (IH r2 ltac:(shorter)) as (_ & Hel & _).
    rewrite (Hv _ _ H3) by by eapply elems_ends. by rewrite (Hel _ _ Hl). }
  destruct (expect "{" s) as [r1|] eqn:H2; [|by apply scalar_copy].
  rewrite (copy_expect _ _ _ H2 eq_refl), value_object.
  assert (Hb1 : skip r1 <> "").
  { intros Hb1. destruct (readers_not_blank r1 Hb1) as (_ & _ & E & _). by rewrite expect_none, E in Hv. }
  rewrite expect_copy by done. destruct (expect "}" r1) as [r2|] eqn:H3; [by simplify_eq/=|]. cbn.
  destruct (field r1) as [[d1 r2]|] eqn:H4; [|done]. apply prod_map_Some in Hv as (l & Hl & ->).
  destruct (IH r1 ltac:(shorter)) as (_ & _ & Hf & _). destruct (IH r2 ltac:(shorter)) as (_ & _ & _ & Hfs).
  rewrite (Hf _ _ H4) by by eapply fields_ends. by rewrite (Hfs _ _ Hl).
Qed.

Lemma elems_copied s :
  (forall t, (String.length t < String.length s)%nat -> copied t) ->
  forall l r, elems s = Some (l, r) -> elems (C s) = Some (l, C r).
Proof.
  intros IH l r Hv.
  assert (Hb : skip s <> "") by (intros Hb; destruct (readers_not_blank s Hb) as (_ & ? & _); congruence).
  rewrite elems_eq in Hv |- *. rewrite !expect_copy by done.
  destruct (expect "]" s) as [r1|] eqn:H1; [by simplify_eq/=|]. cbn.
  destruct (expect "," s) as [r1|] eqn:H2; [|done]. cbn.
  destruct (value r1) as [[d1 r2]|] eqn:H3; [|done]. apply prod_map_Some in Hv as (l1 & Hl & ->).
  destruct (IH r1 ltac:(shorter)) as (Hv & _). destruct (IH r2 ltac:(shorter)) as (_ & Hel & _).
  rewrite (Hv _ _ H3) by by eapply elems_ends. by rewrite (Hel _ _ Hl).
Qed.

Lemma field_copied s :
  (forall t, (String.length t < String.length s)%nat -> copied t) ->
  forall kd r, field s = Some (kd, r) -> ends_number (C r) = true -> field (C s) = Some (kd, C r).
Proof.
  intros IH kd r Hv He. rewrite field_eq in Hv |- *.
  destruct (expect (String double_quote "") s) as [r1|] eqn:H1; [|done].
  rewrite (copy_quote _ _ H1), expect_here by done.
  destruct (readString r1) as [[k r2]|] eqn:H2; [|done]. rewrite (compact_readString _ _ _ _ H2).
  destruct (expect ":" r2) as [r3|] eqn:H3; [|done]. rewrite (copy_expect _ _ _ H3 eq_refl), expect_here by done.
  apply prod_map_Some in Hv as (d & Hd & ->). destruct (IH r3 ltac:(shorter)) as (Hv & _).
  by rewrite (Hv _ _ Hd He).
Qed.

Lemma fields_copied s :
  (forall t, (String.length t < String.length s)%nat -> copied t) ->
  forall l r, fields s = Some (l, r) -> fields (C s) = Some (l, C r).
Proof.
  intros IH l r Hv.
  assert (Hb : skip s <> "") by (intros Hb; destruct (readers_not_blank s Hb) as (_ & _ & _ & ?); congruence).
  rewrite fields_eq in Hv |- *. rewrite !expect_copy by done.
  destruct (expect "}" s) as [r1|] eqn:H1; [by simplify_eq/=|]. cbn.
  destruct (expect "," s) as [r1|] eqn:H2; [|done]. cbn.
  destruct (field r1) as [[d1 r2]|] eqn:H3; [|done]. apply prod_map_Some in Hv as (l1 & Hl & ->).
  destruct (IH r1 ltac:(shorter)) as (_ & _ & Hv & _). destruct (IH r2 ltac:(shorter)) as (_ & _ & _ & Hel).
  rewrite (Hv _ _ H3) by by eapply fields_ends. by rewrite (Hel _ _ Hl).
Qed.

Lemma all_copied s : copied s.
Proof.
  induction (well_founded_ltof _ String.length s) as [s _ IH]. unfold ltof in IH. split_and!.
  - by apply value_copied.
  - by apply elems_copied.
  - by apply field_copied.
  - by apply fields_copied.
Qed.

(** The copy of a text that is a document reads as the document, whatever follows. *)
Lemma value_compact s d :
  Parse s = Some d -> ends_number rest = true -> value (C s) = Some (d, rest).
Proof.
  unfold Parse. fold (value s). destruct (value s) as [[d' r]|] eqn:Hv; [|done].
  case_bool_decide as Hr; [|done]. intros [= ->] He.
  assert (Hc : compact false r = "") by (by rewrite compact_skip, Hr).
  destruct (all_copied s) as (Hcopy & _). rewrite (Hcopy _ _ Hv), Hc; [done|]. by rewrite Hc.
Qed.
End copy.
End Copy.
