(* ===== verification/FunctionDoc.v ===== *)
(** * Function documents

    [FunctionCode.UnmarshalJSON], [Limits.MarshalJSON] and
    [Limits.UnmarshalJSON] of [pkg/entities/function.go]. *)
From S2P Require Export Base64 Json.

Local Open Scope go_scope.

(** ** The code of a function *)
Definition memPrefix : string := "mem:".
Definition couchPrefix : string := "couch:".
Definition binaryType : string := "application/octet-stream".

Definition set_Resolved (s : string) (c : FunctionCode) : FunctionCode :=
  {| Resolved := s; AttachmentID := AttachmentID c; IsBinary := IsBinary c |}.
Definition set_Attachment (id : string) (isBinary : bool) (c : FunctionCode) : FunctionCode :=
  {| Resolved := Resolved c; AttachmentID := id; IsBinary := isBinary |}.

Definition FunctionCode_zero : FunctionCode :=
  {| Resolved := ""; AttachmentID := ""; IsBinary := false |}.

(** A buffer of [n] zero bytes overwritten from its start. *)
Definition buffer (n : nat) (s : string) : string :=
  s +:+ repeat_char "000" (n - String.length s).

Section code.
Context `{FastJSON}.

(** An attachment that is inlined in its name. *)
Definition unmarshalInlined (parsed : json) (name : string) (isBinary : bool) (c : FunctionCode) :
    outcome (result FunctionCode) :=
  let length := GetInt (Some parsed) ["length"] in
  if length =? 0 then Done (Ok (set_Resolved "" c))
  else if length <? 0 then Panics
  else match Decode64 URLEncoding (Z.to_nat length) (TrimPrefix name memPrefix) with
       | OutOfRange => Panics
       | CorruptInput =>
           Done (Err (Errorf "failed to base64 decode inlined attachment: %w" [ErrText "illegal base64 data"]))
       | Decoded bytes =>
           if isBinary then Done (Ok (set_Resolved (EncodeToString StdEncoding bytes) c))
           else Done (Ok (set_Resolved (buffer (Z.to_nat length) bytes) c))
       end.

Definition unmarshalCode (data : string) (c : FunctionCode) : outcome (result FunctionCode) :=
  match ParseBytes data with
  | Err err => Done (Err (Errorf "failed to parse code: %w" [err]))
  | Ok parsed =>
      if TypeIsString parsed then Done (Ok (set_Resolved (GetStringBytes (Some parsed) []) c))
      else
        let name := GetStringBytes (Some parsed) ["attachmentName"] in
        let isBinary := bool_decide (GetStringBytes (Some parsed) ["attachmentType"] = binaryType) in
        if HasPrefix name memPrefix then unmarshalInlined parsed name isBinary c
        else Done (Ok (set_Attachment (TrimPrefix name couchPrefix) isBinary c))
  end.
End code.

(** ** Limits

    [time.Duration(n) * time.Millisecond] and products of [units.ByteSize] wrap. *)
Definition u64_of_int64 (z : Z) : Z := u64 z.

Definition unmarshalLimits `{FastJSON} (data : string) : result Limits :=
  match ParseBytes data with
  | Err err => Err err
  | Ok parsed =>
      Ok {| Timeout := i64 (GetInt64 (Some parsed) ["timeout"] * Millisecond);
            lim_Memory := u64_of_int64 (GetInt64 (Some parsed) ["memory"]) *u Megabyte;
            lim_Logs := u64_of_int64 (GetInt64 (Some parsed) ["logs"]) *u Kilobyte |}
  end.

Definition json_field (name : string) (value : Z) : string :=
  String "034"%char name +:+ String "034"%char ":" +:+ fmt_d value.

Definition marshalLimits (l : Limits) : string :=
  "{" +:+ json_field "timeout" (Milliseconds (Timeout l)) +:+ "," +:+
  json_field "memory" (lim_Memory l / Megabyte) +:+ "," +:+
  json_field "logs" (lim_Logs l / Kilobyte) +:+ "}".

(** ** Properties *)
Lemma buffer_exact s : buffer (String.length s) s = s.
Proof. unfold buffer. rewrite Nat.sub_diag. apply app_str_nil_r. Qed.

Lemma decodeQuanta_short alphabet s room :
  alphabet_ok alphabet = true -> (room < String.length s)%nat ->
  decodeQuanta alphabet room (EncodeToString alphabet s) = OutOfRange.
Proof.
  intros Hok. revert room. induction s as [|a|a b|a b c s IH] using string_ind3; intros room Hroom;
    cbn [EncodeToString]; cbn in Hroom; [lia|..]; cbn [decodeQuanta];
    rewrite ?(proj1 (enc_char_spec _ Hok _)), ?(decodeMap_pad _ Hok); cbn [Ascii.eqb andb].
  - destruct (Nat.ltb_spec room 1); [done|lia].
  - destruct (Nat.ltb_spec room 2); [done|lia].
  - destruct (Nat.ltb_spec room 3); [done|]. by rewrite IH by lia.
Qed.

Section properties.
Context `{FastJSON}.

(** The document of an attachment with the given name, type and length. *)
Definition attachment (data name type : string) (length : Z) : Prop :=
  exists v, ParseBytes data = Ok v /\ TypeIsString v = false /\
    GetStringBytes (Some v) ["attachmentName"] = name /\
    GetStringBytes (Some v) ["attachmentType"] = type /\ GetInt (Some v) ["length"] = length.

(** C39: what becomes of code, by the way it is stored. Plain text is taken as it is. An attachment that
    the controller inlined, in the alphabet for URLs, is empty if its length is missing or zero, whatever
    there is in its name; the call panics if the length is negative or smaller than that of the code; from
    the length of the code on, binary code is decoded and encoded in the standard alphabet, and plain code is
    decoded and followed by a zero byte for each byte by which the length is too large. Any other attachment
    is left to be fetched, under its name without
    the prefix of the database. *)
Theorem unmarshalCode_cases data code name type length :
  (forall v, ParseBytes data = Ok v -> TypeIsString v = true ->
     unmarshalCode data FunctionCode_zero =
     Done (Ok (set_Resolved (GetStringBytes (Some v) []) FunctionCode_zero))) /\
  (attachment data (memPrefix +:+ EncodeToString URLEncoding code) type length ->
     unmarshalCode data FunctionCode_zero =
     if length =? 0 then Done (Ok FunctionCode_zero)
     else if length <? str_len code then Panics
     else Done (Ok (set_Resolved
            (if bool_decide (type = binaryType) then EncodeToString StdEncoding code
             else code +:+ repeat_char "000" (Z.to_nat (length - str_len code))) FunctionCode_zero))) /\
  (attachment data name type length -> HasPrefix name memPrefix = false ->
     unmarshalCode data FunctionCode_zero =
     Done (Ok (set_Attachment (TrimPrefix name couchPrefix) (bool_decide (type = binaryType)) FunctionCode_zero))).
Proof.
  split_and!.
  - intros v Hv Ht. unfold unmarshalCode. by rewrite Hv, Ht.
  - intros (v & Hv & Ht & Hn & Hty & Hlen). unfold unmarshalCode, unmarshalInlined.
    rewrite Hv, Ht, Hn, Hty, HasPrefix_app, TrimPrefix_app, Hlen. pose proof (str_len_nonneg code).
    destruct (Z.eqb_spec length 0) as [|Hz]; [done|].
    destruct (Z.ltb_spec length (str_len code)) as [Hs|Hs].
    + destruct (Z.ltb_spec length 0); [done|]. unfold Decode64.
      rewrite encode_no_line_break by apply URLEncoding_ok.
      by rewrite decodeQuanta_short by (apply URLEncoding_ok || (unfold str_len in *; lia)).
    + destruct (Z.ltb_spec length 0); [lia|].
      rewrite Decode64_encode by (apply URLEncoding_ok || (unfold str_len in *; lia)).
      case_bool_decide; [done|]. unfold buffer, str_len.
      by replace (Z.to_nat length - String.length code)%nat
        with (Z.to_nat (length - Z.of_nat (String.length code))) by lia.
  - intros (v & Hv & Ht & Hn & Hty & _) Hp. unfold unmarshalCode. by rewrite Hv, Ht, Hn, Hty, Hp.
Qed.

(** Limits that are written to a document are read back from it, rounded down to whole
    milliseconds, megabytes and kilobytes; [v] is the document. *)
Lemma limits_roundtrip l v :
  - 2 ^ 63 <= Timeout l < 2 ^ 63 -> 0 <= lim_Memory l < 2 ^ 64 -> 0 <= lim_Logs l < 2 ^ 64 ->
  ParseBytes (marshalLimits l) = Ok v ->
  GetInt64 (Some v) ["timeout"] = Milliseconds (Timeout l) ->
  GetInt64 (Some v) ["memory"] = lim_Memory l / Megabyte ->
  GetInt64 (Some v) ["logs"] = lim_Logs l / Kilobyte ->
  unmarshalLimits (marshalLimits l) =
    Ok {| Timeout := Timeout l - Z.rem (Timeout l) Millisecond;
          lim_Memory := lim_Memory l - lim_Memory l mod Megabyte;
          lim_Logs := lim_Logs l - lim_Logs l mod Kilobyte |}.
Proof using.
  intros Ht Hm Hl Hv Hvt Hvm Hvl. unfold unmarshalLimits. rewrite Hv, Hvt, Hvm, Hvl.
  unfold u64_of_int64, Milliseconds.
  assert (Hu : forall x d, 0 <= x < 2 ^ 64 -> 0 < d -> u64 (u64 (x / d) * d) = x - x mod d).
  { intros x d Hx Hd. pose proof (Z.mul_div_le x d Hd). pose proof (Z.div_pos x d ltac:(lia) Hd).
    assert (x / d <= x) by (apply Z.div_le_upper_bound; nia).
    assert (0 <= x / d * d) by (apply Z.mul_nonneg_nonneg; lia).
    rewrite Z.mod_eq by lia. generalize dependent (x / d). intros q ? ? ? ?.
    rewrite (u64_small q), u64_small by lia. lia. }
  rewrite !Hu by (done || (unfold Megabyte, Kilobyte; lia)). do 2 f_equal.
  rewrite Z.rem_eq by done. rewrite i64_small; [lia|]. change Millisecond with 1000000.
  destruct (Z.le_gt_cases 0 (Timeout l)).
  - pose proof (Z.mul_quot_le (Timeout l) 1000000 ltac:(lia) ltac:(lia)). lia.
  - pose proof (Z.mul_quot_ge (Timeout l) 1000000 ltac:(lia) ltac:(lia)). lia.
Qed.
End properties.

Definition inline_document (type : string) (length : Z) : tree :=
  TObject [("attachmentName", TString "mem:aGVsbG8="); ("attachmentType", TString type);
           ("length", TInt length)].

Definition documents : FastJSON :=
  Tree.reader [("text", TString "def main(): pass"); ("plain", inline_document "text/plain" 5);
               ("binary", inline_document binaryType 5); ("short", inline_document "text/plain" 3);
               ("empty", inline_document "text/plain" 0);
               ("remote", TObject [("attachmentName", TString "couch:f3a1")])].

Lemma unmarshalCode_cases_witness :
  unmarshalCode (H := documents) "plain" FunctionCode_zero = Done (Ok (set_Resolved "hello" FunctionCode_zero)) /\
  unmarshalCode (H := documents) "short" FunctionCode_zero = Panics /\
  unmarshalCode (H := documents) "empty" FunctionCode_zero = Done (Ok FunctionCode_zero) /\
  unmarshalCode (H := documents) "remote" FunctionCode_zero =
    Done (Ok (set_Attachment "f3a1" false FunctionCode_zero)).
Proof.
  pose (F := documents). split_and!.
  - exact (proj1 (proj2 (unmarshalCode_cases (H := F) "plain" "hello" "" "text/plain" 5)) ltac:(by eexists)).
  - exact (proj1 (proj2 (unmarshalCode_cases (H := F) "short" "hello" "" "text/plain" 3)) ltac:(by eexists)).
  - exact (proj1 (proj2 (unmarshalCode_cases (H := F) "empty" "hello" "" "text/plain" 0)) ltac:(by eexists)).
  - exact (proj2 (proj2 (unmarshalCode_cases (H := F) "remote" "" "couch:f3a1" "" 0)) ltac:(by eexists) eq_refl).
Defined.
