(* ===== verification/ActivationDoc.v ===== *)
(** * Documents of activations

    [Activation.GigabyteSeconds] and [Activation.MarshalJSON] of
    [pkg/entities/activation.go], [Annotations.MarshalJSON] and
    [Annotations.UnmarshalJSON] of [pkg/entities/annotations.go].  A document is
    a tree of Go values; its text is what [encoding/json] makes of it. *)
From Stdlib Require Import Floats.SpecFloat.
From S2P Require Export FunctionDoc Units Payload.

(** What is handed to [json.Marshal]; a [json.RawMessage] is a text. *)
Inductive value :=
| JAny (v : any)
| JBool (b : bool)
| JInt (z : Z)
| JString (s : string)
| JRaw (text : string)
| JArray (l : list value)
| JObject (l : list (string * value)).

(** ** Annotations *)
Definition key_le (x y : string * any) : Prop := String.le x.1 y.1.

#[export] Instance key_le_dec : RelDecision key_le.
Proof. intros x y. unfold key_le. apply _. Defined.

(** [jsonAnnotation]: an empty key and a nil value are omitted. *)
Definition jsonAnnotation (kv : string * any) : value :=
  JObject ((if bool_decide (kv.1 = "") then [] else [("key", JString kv.1)]) ++
           (match kv.2 with VNil => [] | v => [("value", JAny v)] end)).

(** [Annotations.MarshalJSON]: sorted by key. *)
Definition marshalAnnotations {MA : MapRange string any} (seed : nat) (a : Annotations) : value :=
  JArray (jsonAnnotation <$> merge_sort key_le (go_range seed a)).

(** [Annotations.UnmarshalJSON] of a list of key/value pairs, missing ones being zero values. *)
Definition fieldOf (name : string) (l : list (string * value)) : option value :=
  Tree.assoc name l.
Definition annotationOf (v : value) : string * any :=
  match v with
  | JObject l =>
      (match fieldOf "key" l with Some (JString s) => s | _ => "" end,
       match fieldOf "value" l with Some (JAny a) => a | _ => VNil end)
  | _ => ("", VNil)
  end.
Definition unmarshalAnnotations (v : value) : option Annotations :=
  match v with
  | JArray l => Some (collect (annotationOf <$> l))
  | _ => None
  end.

(** ** Activations *)

(** [time.Time.Sub] saturates. *)
Definition time_Sub (t u : Z) : Z := Z.max (- 2 ^ 63) (Z.min (2 ^ 63 - 1) (t - u)).

(** A [float64] as an annotation value. *)
Definition any_of_float (f : spec_float) : any :=
  match f with
  | S754_finite s m e => VFloat (if s then Zneg m else Zpos m) e
  | S754_zero _ => VFloat 0 0
  | S754_infinity _ | S754_nan => VOther "unsupported value"
  end.

Definition activationGigabyteSeconds (a : Activation) : spec_float :=
  if HasPrefix (af_Path (act_Function a)) "fnsystem/builder" then S754_zero false
  else GigabyteSeconds (lim_Memory (af_Limits (act_Function a))) (time_Sub (End_ a) (Start a)).

(** The first writes to [a.Annotations], in their order. *)
Definition schemaAnnotations (a : Activation) (m : Annotations) : Annotations :=
  let fn := act_Function a in
  let m := <["path" := VString (af_Path fn)]> m in
  let m := <["kind" := VString (af_Kind fn)]> m in
  let m := <["entry" := VString (Entrypoint fn)]> m in
  let m := <["limits" := VOther (marshalLimits (af_Limits fn))]> m in
  let m := if bool_decide (af_Binding fn = "") then m else <["binding" := VString (af_Binding fn)]> m in
  let m := <["timeout" := VBool (IsTimeout a)]> m in
  let m := <["gbs" := any_of_float (activationGigabyteSeconds a)]> m in
  let m := if 0 <? WaitTime a then <["waitTime" := VOther (fmt_d (Milliseconds (WaitTime a)))]> m else m in
  if 0 <? InitTime a then <["initTime" := VOther (fmt_d (Milliseconds (InitTime a)))]> m else m.

(** The last write, after the document has been put together around the same map. *)
Definition causedAnnotation (a : Activation) (m : Annotations) : Annotations :=
  if bool_decide (Cause a = "") then m else <["causedBy" := VString "sequence"]> m.

Section marshal.
Context {MA : MapRange string any}.
(** [json.Marshal]. *)
Context (json_Marshal : value -> result string).

(** The result and its size. *)
Definition responseResult (r : ActivationResponse) : result (string * Z) :=
  if bool_decide (Error r = "") then Ok (Result r, str_len (Result r))
  else match json_Marshal (JObject [("error", JString (Error r))]) with
       | Err err => Err (Errorf "failed to marshal error result: %w" [err])
       | Ok errorResult => Ok (errorResult, str_len errorResult)
       end.

Definition interim (seed : nat) (a : Activation) (m : Annotations) (result : string) (size : Z) : value :=
  JObject ([
    ("activationId", JString (act_ActivationID a));
    ("namespace", JString (act_Namespace a));
    ("subject", JString (Subject a));
    ("name", JString (af_Name (act_Function a)));
    ("version", JString (af_Version (act_Function a)));
    ("annotations", marshalAnnotations seed m);
    ("logs", JArray (JString <$> Logs a));
    ("start", JInt (UnixMilli (Start a)));
    ("end", JInt (UnixMilli (End_ a)));
    ("duration", JInt (Milliseconds (time_Sub (End_ a) (Start a))));
    ("response", JObject [
       ("result", JRaw result);
       ("statusCode", JInt (statusCode (StatusCode (Response a))));
       ("size", JInt size)]);
    ("publish", JBool false)] ++
    (if bool_decide (Cause a = "") then [] else [("cause", JString (Cause a))])).

(** [Activation.MarshalJSON] of an activation whose map of annotations is [annotations], nil or
    not, and what the map holds afterwards.  A nil map is replaced by one of the call's own. *)
Definition MarshalJSON (seed : nat) (annotations : option Annotations) (a : Activation) :
    result string * option Annotations :=
  let m := schemaAnnotations a (default ∅ annotations) in
  match responseResult (Response a) with
  | Err err => (Err err, (fun _ => m) <$> annotations)
  | Ok (result, size) =>
      let m := causedAnnotation a m in
      (json_Marshal (interim seed a m result size), (fun _ => m) <$> annotations)
  end.
End marshal.

(** ** Lemmas *)
#[export] Instance key_le_trans : Transitive key_le.
Proof. intros x y z. unfold key_le. apply transitivity. Qed.

#[export] Instance key_le_total : Total key_le.
Proof. intros x y. unfold key_le. apply (total String.le). Qed.

Section annotations.
Context {MA : MapRange string any}.

Lemma sorted_range_perm seed (m : Annotations) : merge_sort key_le (go_range seed m) ≡ₚ map_to_list m.
Proof using. rewrite merge_sort_Permutation. apply go_range_perm. Qed.

(** The list does not depend on the order in which the map is ranged over. *)
Lemma marshalAnnotations_order seed seed' (m : Annotations) :
  marshalAnnotations seed m = marshalAnnotations seed' m.
Proof using.
  unfold marshalAnnotations. do 2 f_equal.
  apply (StronglySorted_unique_strong key_le).
  - intros [k v] [k' v'] H1 H2 Hle Hle'.
    rewrite sorted_range_perm in H1, H2. apply elem_of_map_to_list in H1, H2.
    assert (k = k') as <- by (by apply (anti_symm String.le)). congruence.
  - apply (StronglySorted_merge_sort key_le).
  - apply (StronglySorted_merge_sort key_le).
  - by rewrite !sorted_range_perm.
Qed.

Lemma annotationOf_jsonAnnotation kv : annotationOf (jsonAnnotation kv) = kv.
Proof using.
  destruct kv as [k v]. unfold jsonAnnotation. cbn [fst snd].
  case_bool_decide as Hk; [subst k|]; by destruct v.
Qed.

Lemma annotations_roundtrip seed (m : Annotations) :
  unmarshalAnnotations (marshalAnnotations seed m) = Some m.
Proof using.
  cbn. f_equal. rewrite <- list_fmap_compose.
  rewrite (list_fmap_ext _ id) by (intros; apply annotationOf_jsonAnnotation).
  rewrite list_fmap_id. apply collect_map, sorted_range_perm.
Qed.
End annotations.

(** What a key of the annotations holds after the writes. *)
Definition written (a : Activation) (k : string) : option any :=
  let fn := act_Function a in
  if bool_decide (k = "path") then Some (VString (af_Path fn))
  else if bool_decide (k = "kind") then Some (VString (af_Kind fn))
  else if bool_decide (k = "entry") then Some (VString (Entrypoint fn))
  else if bool_decide (k = "limits") then Some (VOther (marshalLimits (af_Limits fn)))
  else if bool_decide (k = "binding") then
    (if bool_decide (af_Binding fn = "") then None else Some (VString (af_Binding fn)))
  else if bool_decide (k = "timeout") then Some (VBool (IsTimeout a))
  else if bool_decide (k = "gbs") then Some (any_of_float (activationGigabyteSeconds a))
  else if bool_decide (k = "waitTime") then
    (if 0 <? WaitTime a then Some (VOther (fmt_d (Milliseconds (WaitTime a)))) else None)
  else if bool_decide (k = "initTime") then
    (if 0 <? InitTime a then Some (VOther (fmt_d (Milliseconds (InitTime a)))) else None)
  else None.

Lemma schemaAnnotations_lookup a m k :
  schemaAnnotations a m !! k = match written a k with Some v => Some v | None => m !! k end.
Proof.
  unfold schemaAnnotations, written.
  generalize (any_of_float (activationGigabyteSeconds a)), (marshalLimits (af_Limits (act_Function a))).
  intros gbs limits. unfold Annotations in *.
  repeat case_match; subst;
    repeat match goal with
      | H : bool_decide _ = true |- _ => apply bool_decide_eq_true in H; subst
      | H : bool_decide _ = false |- _ => apply bool_decide_eq_false in H
      end; simplify_eq;
    repeat first [rewrite lookup_insert_eq | rewrite lookup_insert_ne by (done || congruence)]; done.
Qed.

Lemma schemaAnnotations_idemp a m : schemaAnnotations a (causedAnnotation a (schemaAnnotations a m)) =
  causedAnnotation a (schemaAnnotations a m).
Proof.
  apply map_eq. intros k. rewrite schemaAnnotations_lookup. unfold causedAnnotation, Annotations in *.
  case_bool_decide; [rewrite schemaAnnotations_lookup; by destruct (written a k)|].
  rewrite !lookup_insert. case_decide as Hk; [subst k; done|].
  rewrite schemaAnnotations_lookup. by destruct (written a k).
Qed.

Lemma causedAnnotation_idemp a m : causedAnnotation a (causedAnnotation a m) = causedAnnotation a m.
Proof. unfold causedAnnotation. case_bool_decide; [done|]. unfold Annotations in *. by rewrite insert_insert_eq. Qed.

Lemma schemaAnnotations_twice a m : schemaAnnotations a (schemaAnnotations a m) = schemaAnnotations a m.
Proof.
  apply map_eq. intros k. rewrite !schemaAnnotations_lookup. by destruct (written a k).
Qed.

Section document.
Context {MA : MapRange string any} (json_Marshal : value -> result string).

Notation marshal := (MarshalJSON json_Marshal).

(** What a reader of the document finds under the key of an annotation. *)
Definition annotation_read (a : Activation) (m : Annotations) (k : string) : option any :=
  if decide (k = "causedBy" /\ Cause a <> "") then Some (VString "sequence")
  else match written a k with Some v => Some v | None => m !! k end.

(** The text of an activation does not depend on the order in which maps are ranged over, and
    marshalling the activation again gives the same text although the first time wrote into the
    map of annotations the activation shares, whose values it finds already there. The annotations
    that a reader of the document gets are those of the function and the invocation, and otherwise
    those the activation had; the result is the function's or an object with the error, with its
    size. *)
Theorem MarshalJSON_stable seed seed' annotations a :
  let '(r, after) := marshal seed annotations a in
  marshal seed' after a = (r, after) /\
  match (if bool_decide (Error (Response a) = "") then Ok (Result (Response a))
         else json_Marshal (JObject [("error", JString (Error (Response a)))])) with
  | Err e => r = Err (Errorf "failed to marshal error result: %w" [e])
  | Ok result => exists doc annos,
      r = json_Marshal (JObject doc) /\
      (fieldOf "annotations" doc ≫= unmarshalAnnotations) = Some annos /\
      (forall k, annos !! k = annotation_read a (default ∅ annotations) k) /\
      fieldOf "response" doc = Some (JObject [
        ("result", JRaw result); ("statusCode", JInt (statusCode (StatusCode (Response a))));
        ("size", JInt (str_len result))])
  end.
Proof using.
  unfold MarshalJSON. set (m := schemaAnnotations a (default ∅ annotations)).
  set (res := if bool_decide _ then _ else _).
  assert (Hr : responseResult json_Marshal (Response a) =
    match res with Ok r => Ok (r, str_len r)
    | Err e => Err (Errorf "failed to marshal error result: %w" [e]) end).
  { unfold responseResult, res. by case_bool_decide. }
  rewrite Hr. destruct res as [result|e].
  - split.
    + destruct annotations as [m0|]; cbn.
      * unfold m. rewrite schemaAnnotations_idemp, causedAnnotation_idemp. f_equal. f_equal.
        unfold interim. by rewrite (marshalAnnotations_order seed' seed).
      * f_equal. f_equal. unfold interim. by rewrite (marshalAnnotations_order seed' seed).
    + eexists _, (causedAnnotation a m). split; [done|]. split_and!; [| |done].
      * change (unmarshalAnnotations (marshalAnnotations seed (causedAnnotation a m)) =
          Some (causedAnnotation a m)). apply annotations_roundtrip.
      * intros k. unfold causedAnnotation, annotation_read, Annotations in *.
        case_bool_decide as Hc.
        -- rewrite decide_False by tauto. apply schemaAnnotations_lookup.
        -- rewrite lookup_insert. case_decide as Hk.
           ++ by rewrite decide_True.
           ++ rewrite decide_False by (intros [-> _]; done). apply schemaAnnotations_lookup.
  - split; [|done]. destruct annotations as [m0|]; cbn; [|done]. unfold m; cbn. by rewrite schemaAnnotations_twice.
Qed.
End document.
