(* ===== verification/PayloadDoc.v ===== *)
(** * Documents of payloads

    [ContainerInitPayload.MarshalJSON] and [ContainerRunPayload.MarshalJSON] of
    [pkg/exec/payload.go], around the environment built in Payload.v. *)
From S2P Require Export ActivationDoc.

Local Open Scope go_scope.

(** How [encoding/json] writes a map: sorted by key. *)
Definition field_le (x y : string * value) : Prop := String.le x.1 y.1.

#[export] Instance field_le_dec : RelDecision field_le.
Proof. intros x y. unfold field_le. apply _. Defined.

Definition goMap (m : gmap string value) : value := JObject (merge_sort field_le (map_to_list m)).

Definition initValue (p : ContainerInitPayload) (env : gmap string string) : value :=
  goMap {[ "value" := goMap (list_to_map [
    ("name", JString (init_Name p));
    ("main", JString (init_Entrypoint p));
    ("code", JString (init_Code p));
    ("binary", JBool (init_IsBinary p));
    ("env", goMap (JString <$> env))]) ]}.

Definition runValue (p : ContainerRunPayload) : value :=
  let e := run_Environment p in
  let parameters := match run_Parameters p with
                    | None => JRaw "{}"
                    | Some m => goMap (JRaw <$> m)
                    end in
  let env := list_to_map [
    ("value", parameters);
    ("activation_id", JString (env_ActivationID e));
    ("transaction_id", JString (env_TransactionID e));
    ("namespace", JString (env_Namespace e));
    ("action_name", JString (FunctionName e));
    ("action_version", JString (FunctionVersion e));
    ("deadline", JString (fmt_d (UnixMilli (Deadline e))))] in
  goMap (if bool_decide (env_APIKey e = "") then env else <["api_key" := JString (env_APIKey e)]> env).

Section marshal.
Context (parseString : string -> result string) {MS : MapRange string string}.
Context (json_Marshal : value -> result string).

(** [ContainerInitPayload.MarshalJSON]. *)
Definition marshalInit (seed : nat) (p : ContainerInitPayload) : result string :=
  env ← initEnv parseString seed p;
  json_Marshal (initValue p env).

(** [ContainerRunPayload.MarshalJSON]. *)
Definition marshalRun (p : ContainerRunPayload) : result string := json_Marshal (runValue p).
End marshal.

(** ** Reading documents *)

(** The value under a path of keys. *)
Fixpoint at_path (v : value) (path : list string) : option value :=
  match path with
  | [] => Some v
  | k :: path' => match v with JObject l => fieldOf k l ≫= fun v' => at_path v' path' | _ => None end
  end.

Lemma assoc_elem {A} k (v : A) l : NoDup l.*1 -> (k, v) ∈ l -> Tree.assoc k l = Some v.
Proof.
  induction l as [|[k' v'] l IH]; intros Hnd Hin; [by apply elem_of_nil in Hin|].
  apply NoDup_cons in Hnd as [Hk Hnd]. cbn. case_bool_decide as He.
  - subst k'. apply elem_of_cons in Hin as [Hin|Hin]; [congruence|]. exfalso. apply Hk.
    by apply (list_elem_of_fmap_2 fst) in Hin.
  - apply elem_of_cons in Hin as [Hin|Hin]; [congruence|]. by apply IH.
Qed.

Lemma assoc_not_elem {A} k (l : list (string * A)) : k ∉ l.*1 -> Tree.assoc k l = None.
Proof.
  induction l as [|[k' v'] l IH]; cbn; [done|]. intros [Hne Hk]%not_elem_of_cons.
  rewrite bool_decide_eq_false_2 by done. by apply IH.
Qed.

Lemma at_goMap m k path : at_path (goMap m) (k :: path) = m !! k ≫= fun v => at_path v path.
Proof.
  cbn. unfold fieldOf. set (l := merge_sort field_le (map_to_list m)).
  assert (Hp : l ≡ₚ map_to_list m) by apply merge_sort_Permutation.
  assert (Hnd : NoDup l.*1) by (rewrite Hp; apply NoDup_fst_map_to_list).
  destruct (m !! k) as [v|] eqn:Hk.
  - rewrite (assoc_elem k v); [done..|]. rewrite Hp. by apply elem_of_map_to_list.
  - rewrite assoc_not_elem; [done|]. rewrite Hp. intros ([k' v] & -> & Hv)%list_elem_of_fmap.
    apply elem_of_map_to_list in Hv. cbn in Hk. congruence.
Qed.

Lemma at_init p env k path :
  at_path (initValue p env) ("value" :: k :: path) =
  (list_to_map [
    ("name", JString (init_Name p));
    ("main", JString (init_Entrypoint p));
    ("code", JString (init_Code p));
    ("binary", JBool (init_IsBinary p));
    ("env", goMap (JString <$> env))] : gmap string value) !! k ≫= fun v => at_path v path.
Proof.
  unfold initValue. rewrite at_goMap, lookup_singleton_eq. cbn [mbind option_bind]. by rewrite at_goMap.
Qed.

Section properties.
Context (parseString : string -> result string) {MS : MapRange string string}.
Context (json_Marshal : value -> result string).

Lemma addParameters_result params env :
  match addParameters parseString params env with
  | Ok _ => Forall (fun kv => is_ok (envValue parseString kv.1 kv.2) = true) params
  | Err e => exists k v, (k, v) ∈ params /\ envValue parseString k v = Err e
  end.
Proof using.
  revert env. induction params as [|[k v] params IH]; intros env; cbn; [done|].
  destruct (envValue parseString k v) as [val|e] eqn:Ev; cbn; [|exists k, v; set_solver].
  specialize (IH (<[k := val]> env)). destruct (addParameters _ _ _).
  - constructor; [cbn; by rewrite Ev|done].
  - destruct IH as (k' & v' & Hin & He). exists k', v'. set_solver.
Qed.

Lemma initEnv_fails seed p e :
  initEnv parseString seed p = Err e ->
  exists k v, default ∅ (init_Parameters p) !! k = Some v /\ envValue parseString k v = Err e.
Proof using.
  unfold initEnv. intros He. pose proof (addParameters_result
    (match init_Parameters p with None => [] | Some m => go_range seed m end)
    (baseEnv (init_Environment p))) as Hr. rewrite He in Hr. destruct Hr as (k & v & Hin & Hv).
  exists k, v. split; [|done]. destruct (init_Parameters p) as [m|]; [|by apply elem_of_nil in Hin].
  rewrite (go_range_perm seed m) in Hin. by apply elem_of_map_to_list.
Qed.

(** The environment, variable by variable. *)
Definition variable (p : ContainerInitPayload) (k : string) : option string :=
  match default ∅ (init_Parameters p) !! k with
  | Some v => match envValue parseString k v with Ok val => Some val | Err _ => None end
  | None => baseEnv (init_Environment p) !! k
  end.

Lemma initEnv_variable seed p env k : initEnv parseString seed p = Ok env -> env !! k = variable p k.
Proof using.
  intros He. destruct (initEnv_spec _ _ _ _ He) as (Hin & Hout & _). unfold variable.
  destruct (default ∅ (init_Parameters p) !! k) as [v|] eqn:Hk; [|by apply Hout].
  destruct (Hin k v Hk) as (val & Hv & Hl). by rewrite Hv.
Qed.

(** The document of an initialization fails exactly if the text of some init parameter is a
    string that cannot be parsed, and then with the error of such a parameter; otherwise it is the
    same document in whatever order the parameters are ranged over, with the code and its
    entrypoint, and with an environment whose variables are the parameters, strings unescaped and
    everything else as it was sent, and otherwise those of the invocation. *)
Theorem marshalInit_spec p :
  let broken k e := exists v, default ∅ (init_Parameters p) !! k = Some v /\ envValue parseString k v = Err e in
  (forall k e seed, broken k e ->
     exists k' e', broken k' e' /\ marshalInit parseString json_Marshal seed p = Err e') /\
  ((forall k e, ~ broken k e) ->
     exists doc, (forall seed, marshalInit parseString json_Marshal seed p = json_Marshal doc) /\
       at_path doc ["value"; "name"] = Some (JString (init_Name p)) /\
       at_path doc ["value"; "main"] = Some (JString (init_Entrypoint p)) /\
       at_path doc ["value"; "code"] = Some (JString (init_Code p)) /\
       at_path doc ["value"; "binary"] = Some (JBool (init_IsBinary p)) /\
       forall k, at_path doc ["value"; "env"; k] = JString <$> variable p k).
Proof using.
  intros broken. split.
  - intros k e seed (v & Hk & Hv). unfold marshalInit.
    destruct (initEnv parseString seed p) as [env|e'] eqn:He; cbn.
    + destruct (initEnv_spec _ _ _ _ He) as (Hin & _). destruct (Hin k v Hk) as (val & Hval & _). congruence.
    + destruct (initEnv_fails _ _ _ He) as (k' & v' & Hk' & Hv'). exists k', e'. split; [by exists v'|done].
  - intros Hok.
    assert (Hall : forall seed, exists env, initEnv parseString seed p = Ok env).
    { intros seed. destruct (initEnv parseString seed p) as [env|e] eqn:He; [by exists env|].
      destruct (initEnv_fails _ _ _ He) as (k & v & Hk & Hv). exfalso. apply (Hok k e). by exists v. }
    destruct (Hall 0%nat) as [env He]. exists (initValue p env). split_and!.
    + intros seed. destruct (Hall seed) as [env' He']. unfold marshalInit. rewrite He'. cbn.
      do 2 f_equal. apply map_eq. intros k. by rewrite (initEnv_variable _ _ _ k He'), (initEnv_variable _ _ _ k He).
    + by rewrite at_init.
    + by rewrite at_init.
    + by rewrite at_init.
    + by rewrite at_init.
    + intros k. rewrite at_init. cbn [list_to_map foldr uncurry].
      rewrite !lookup_insert_ne, lookup_insert_eq by done. cbn [mbind option_bind snd].
      rewrite at_goMap, lookup_fmap, (initEnv_variable _ _ _ k He). by destruct (variable p k).
Qed.

(** The document of a run: its parameters as they were sent, an empty object if there are none, and
    the invocation, the API key only if it is passed. *)
Theorem runValue_spec p :
  (forall k, at_path (runValue p) ["value"; k] = JRaw <$> default ∅ (run_Parameters p) !! k) /\
  (run_Parameters p = None -> at_path (runValue p) ["value"] = Some (JRaw "{}")) /\
  at_path (runValue p) ["activation_id"] = Some (JString (env_ActivationID (run_Environment p))) /\
  at_path (runValue p) ["transaction_id"] = Some (JString (env_TransactionID (run_Environment p))) /\
  at_path (runValue p) ["namespace"] = Some (JString (env_Namespace (run_Environment p))) /\
  at_path (runValue p) ["action_name"] = Some (JString (FunctionName (run_Environment p))) /\
  at_path (runValue p) ["action_version"] = Some (JString (FunctionVersion (run_Environment p))) /\
  at_path (runValue p) ["deadline"] = Some (JString (fmt_d (UnixMilli (Deadline (run_Environment p))))) /\
  at_path (runValue p) ["api_key"] =
    (if bool_decide (env_APIKey (run_Environment p) = "") then None
     else Some (JString (env_APIKey (run_Environment p)))).
Proof using.
  assert (Hval : forall k path, k <> "api_key" -> at_path (runValue p) (k :: path) =
    (list_to_map [
      ("value", match run_Parameters p with None => JRaw "{}" | Some m => goMap (JRaw <$> m) end);
      ("activation_id", JString (env_ActivationID (run_Environment p)));
      ("transaction_id", JString (env_TransactionID (run_Environment p)));
      ("namespace", JString (env_Namespace (run_Environment p)));
      ("action_name", JString (FunctionName (run_Environment p)));
      ("action_version", JString (FunctionVersion (run_Environment p)));
      ("deadline", JString (fmt_d (UnixMilli (Deadline (run_Environment p)))))] : gmap string value) !! k
      ≫= fun v => at_path v path).
  { intros k path Hk. unfold runValue. rewrite at_goMap. case_bool_decide; [done|].
    by rewrite lookup_insert_ne by done. }
  split_and!; try (by rewrite Hval).
  - intros k. rewrite Hval by done. cbn [list_to_map foldr uncurry]. rewrite lookup_insert_eq. cbn [mbind option_bind snd].
    destruct (run_Parameters p) as [m|]; cbn [default]; [|done].
    rewrite at_goMap, lookup_fmap. unfold id. by destruct (m !! k).
  - intros Hp. rewrite Hval by done. by rewrite Hp.
  - unfold runValue. rewrite at_goMap. case_bool_decide; [done|]. by rewrite lookup_insert_eq.
Qed.
End properties.

(** ** Concrete payloads *)
Definition test_json (v : value) : result string :=
  match at_path v ["value"; "env"; "NAME"] with Some (JString s) => Ok s | _ => Ok "" end.

Definition test_broken : ContainerInitPayload :=
  {| init_Name := "hello"; init_Entrypoint := "main"; init_Code := "code"; init_IsBinary := false;
     init_Environment := test_environment;
     init_Parameters := Some (<["NAME" := ""]> (<["BAD" := String double_quote ""]> ∅)) |}.

Definition test_parse (s : string) : result string :=
  if Nat.ltb 1 (String.length s) then unquote s else Err (ErrText "unexpected end").

Lemma marshalInit_spec_witness :
  marshalInit test_parse test_json 3 test_init = Ok "world" /\
  exists e, marshalInit test_parse test_json 0 test_broken = Err e.
Proof.
  split.
  - destruct (proj2 (marshalInit_spec test_parse test_json test_init)) as (doc & Hdoc & _ & _ & _ & _ & Henv).
    + intros k e (v & Hk & He). unfold test_init in Hk. cbn [init_Parameters default] in Hk. unfold id in Hk.
      rewrite !lookup_insert in Hk. repeat case_decide; simplify_eq; by vm_compute in He.
    + rewrite Hdoc. unfold test_json. rewrite Henv. vm_compute. reflexivity.
  - destruct (proj1 (marshalInit_spec test_parse test_json test_broken) "BAD"
      (Errorf "failed to parse init parameter %s into string: %w" [ErrText "unexpected end"]) 0%nat)
      as (_ & e & _ & He).
    + exists (String double_quote ""). split; vm_compute; reflexivity.
    + by exists e.
Defined.
