(* ===== verification/JsonMarshal.v ===== *)
(** * Documents that are written

    [json.Marshal] of the trees of values that the program hands to it, and
    that what it writes reads back.  Numbers with a fraction are written by the
    interface [FloatText]; arrays and objects that were read from a document
    are kept as texts and copied like a [json.RawMessage]. *)
From S2P Require Export JsonCopy PayloadDoc.

(** The text of [mantissa * 2 ^ exponent], which is a number of JSON. *)
Class FloatText := {
  FormatFloat : Z -> Z -> string;
  FormatFloat_number m e s :
    JSON.ends_number s = true -> JSON.number (FormatFloat m e +:+ s) = Some (FormatFloat m e, s)
}.

Module Marshal.
Import JSON Print Copy.
#[local] Notation value := ActivationDoc.value.

Section values.
Context `{FloatText}.

(** Induction over trees of values. *)
Lemma value_tree_ind (P : value -> Prop) :
  (forall a, P (JAny a)) -> (forall b, P (JBool b)) -> (forall z, P (JInt z)) -> (forall s, P (JString s)) ->
  (forall t, P (JRaw t)) -> (forall l, Forall P l -> P (JArray l)) ->
  (forall l, Forall (fun kv => P kv.2) l -> P (JObject l)) -> forall v, P v.
Proof.
  intros Ha Hb Hz Hs Hr Hl Ho. fix IH 1. intros [a|b|z|s|t|l|l].
  - apply Ha.
  - apply Hb.
  - apply Hz.
  - apply Hs.
  - apply Hr.
  - apply Hl. induction l; constructor; [apply IH|done].
  - apply Ho. induction l; constructor; [apply IH|done].
Qed.

Definition anyText (a : any) : string :=
  match a with
  | VNil => "null"
  | VBool b => if b then "true" else "false"
  | VFloat m e => FormatFloat m e
  | VString s => quote s
  | VOther t => compact false t
  end.

Fixpoint text (v : value) : string :=
  match v with
  | JAny a => anyText a
  | JBool b => if b then "true" else "false"
  | JInt z => fmt_d z
  | JString s => quote s
  | JRaw t => compact false t
  | JArray l => "[" +:+ GoStrings.Join (List.map text l) "," +:+ "]"
  | JObject l => "{" +:+ GoStrings.Join (List.map (fun kv => quote kv.1 +:+ ":" +:+ text kv.2) l) "," +:+ "}"
  end.

(** The raw texts within are documents. *)
Definition anyValid (a : any) : bool :=
  match a with VOther t => bool_decide (is_Some (Parse t)) | _ => true end.

Fixpoint raws_valid (v : value) : bool :=
  match v with
  | JAny a => anyValid a
  | JRaw t => bool_decide (is_Some (Parse t))
  | JArray l => forallb raws_valid l
  | JObject l => forallb (fun kv => raws_valid kv.2) l
  | _ => true
  end.

Definition json_Marshal (v : value) : result string :=
  if raws_valid v then Ok (text v)
  else Err (Errorf "json: error calling MarshalJSON for type %s: %w" [ErrText "invalid character"]).

(** The document of a value. *)
Definition anyDoc (a : any) : jdoc :=
  match a with
  | VNil => DNull
  | VBool b => DBool b
  | VFloat m e => DNumber (FormatFloat m e)
  | VString s => DString (coerce s)
  | VOther t => default DNull (Parse t)
  end.

Fixpoint docOf (v : value) : jdoc :=
  match v with
  | JAny a => anyDoc a
  | JBool b => DBool b
  | JInt z => DNumber (fmt_d z)
  | JString s => DString (coerce s)
  | JRaw t => default DNull (Parse t)
  | JArray l => DArray (List.map docOf l)
  | JObject l => DObject (List.map (fun kv => (coerce kv.1, docOf kv.2)) l)
  end.

(** ** Reading back *)
Fixpoint prefixed (sep : string) (l : list string) : string :=
  match l with [] => "" | s :: l' => sep +:+ s +:+ prefixed sep l' end.

Lemma Join_cons s l sep : GoStrings.Join (s :: l) sep = s +:+ prefixed sep l.
Proof.
  revert s. induction l as [|t l IH]; intros s; [cbn; by rewrite app_str_nil_r|].
  change (GoStrings.Join (s :: t :: l) sep) with (s +:+ sep +:+ GoStrings.Join (t :: l) sep). by rewrite IH.
Qed.

Lemma value_not_end s x : JSON.value s = Some x -> expect "]" s = None.
Proof.
  intros Hv. destruct (expect "]" s) as [r|] eqn:He; [|done]. apply expect_inv in He. exfalso.
  rewrite JSON.value_eq, !(expect_other _ _ _ _ He) in Hv by done. unfold scalar in Hv.
  unfold expect in Hv. by rewrite He in Hv.
Qed.

Lemma field_not_end s x : field s = Some x -> expect "}" s = None.
Proof.
  intros Hv. destruct (expect "}" s) as [r|] eqn:He; [|done]. apply expect_inv in He. exfalso.
  by rewrite field_eq, (expect_other _ _ _ _ He) in Hv.
Qed.

Definition reads_back (v : value) : Prop :=
  forall rest, ends_number rest = true -> JSON.value (text v +:+ rest) = Some (docOf v, rest).

Lemma prefixed_ends l c s : isDigit c = false -> Ascii.eqb c "." = false -> Ascii.eqb c "e" = false ->
  Ascii.eqb c "E" = false -> ends_number (prefixed "," l +:+ String c s) = true.
Proof. intros H1 H2 H3 H4. destruct l; cbn [prefixed]; [|done]. rewrite app_str_nil_l. cbn [ends_number]. by rewrite H1, H2, H3, H4. Qed.

Lemma elems_text l rest :
  Forall reads_back l ->
  elems (prefixed "," (List.map text l) +:+ String "]" rest) = Some (List.map docOf l, rest).
Proof.
  induction 1 as [|v l Hv Hl IH]; cbn [prefixed List.map].
  - rewrite app_str_nil_l, elems_eq, expect_here by done. done.
  - rewrite <- !app_str_assoc, app_str_cons, app_str_nil_l, elems_eq, expect_char, expect_here by done.
    cbn [Ascii.eqb Bool.eqb]. rewrite Hv by by apply prefixed_ends. by rewrite IH.
Qed.

Lemma field_text k v rest :
  reads_back v -> ends_number rest = true ->
  field ((quote k +:+ ":" +:+ text v) +:+ rest) = Some ((coerce k, docOf v), rest).
Proof.
  intros Hv Hr. rewrite <- !app_str_assoc, quote_app, field_eq, expect_here, readString_escape by done.
  rewrite app_str_cons, app_str_nil_l, expect_here by done. by rewrite Hv.
Qed.

Lemma fields_text l rest :
  Forall (fun kv => reads_back kv.2) l ->
  fields (prefixed "," (List.map (fun kv => quote kv.1 +:+ ":" +:+ text kv.2) l) +:+ String "}" rest) =
  Some (List.map (fun kv => (coerce kv.1, docOf kv.2)) l, rest).
Proof.
  induction 1 as [|kv l Hv Hl IH]; cbn [prefixed List.map].
  - rewrite app_str_nil_l, fields_eq, expect_here by done. done.
  - rewrite <- app_str_assoc, app_str_cons, app_str_nil_l, fields_eq, expect_char, expect_here by done.
    cbn [Ascii.eqb Bool.eqb]. rewrite <- app_str_assoc, field_text by (done || by apply prefixed_ends).
    by rewrite IH.
Qed.

Lemma any_reads_back a : anyValid a = true -> reads_back (JAny a).
Proof.
  intros Ha rest Hr. destruct a as [|b|m e|s|t]; cbn [text anyText docOf anyDoc].
  - apply value_literal. set_solver.
  - destruct b; apply value_literal; set_solver.
  - pose proof (FormatFloat_number m e rest Hr) as Hn. destruct (FormatFloat m e) as [|c t] eqn:Hf.
    + apply number_app in Hn as [_ ?]. done.
    + rewrite app_str_cons in *. by apply value_number.
  - apply value_quote.
  - cbn in Ha. apply bool_decide_eq_true in Ha as [d Hd]. rewrite Hd. by apply value_compact.
Qed.

Lemma text_reads_back v : raws_valid v = true -> reads_back v.
Proof.
  induction v as [a|b|z|s|t|l IH|l IH] using value_tree_ind; cbn [raws_valid]; intros Hv.
  - by apply any_reads_back.
  - intros rest _. destruct b; apply value_literal; set_solver.
  - intros rest Hr. by apply value_int.
  - intros rest _. apply value_quote.
  - intros rest Hr. apply bool_decide_eq_true in Hv as [d Hd]. cbn [text docOf]. rewrite Hd. by apply value_compact.
  - assert (Hl : Forall reads_back l).
    { clear -IH Hv. induction IH as [|v l Hx _ IH]; [done|]. cbn in Hv. apply andb_prop in Hv as [? ?].
      constructor; auto. }
    intros rest _. cbn [text docOf]. destruct Hl as [|v l Hv' Hl]; cbn [List.map].
    + cbn [GoStrings.Join]. rewrite <- !app_str_assoc, app_str_cons, !app_str_nil_l, value_array, app_str_cons, app_str_nil_l.
      by rewrite expect_here.
    + rewrite Join_cons, <- !app_str_assoc, app_str_cons, app_str_nil_l, value_array.
      assert (He : ends_number (prefixed "," (List.map text l) +:+ "]" +:+ rest) = true) by by apply prefixed_ends.
      rewrite (value_not_end _ _ (Hv' _ He)), (Hv' _ He).
      change ("]" +:+ rest) with (String "]" rest). by rewrite elems_text.
  - assert (Hl : Forall (fun kv => reads_back kv.2) l).
    { clear -IH Hv. induction IH as [|v l Hx _ IH]; [done|]. cbn in Hv. apply andb_prop in Hv as [? ?].
      constructor; auto. }
    intros rest _. cbn [text docOf]. destruct Hl as [|kv l Hv' Hl]; cbn [List.map].
    + cbn [GoStrings.Join]. rewrite <- !app_str_assoc, app_str_cons, !app_str_nil_l, value_object, app_str_cons, app_str_nil_l.
      by rewrite expect_here.
    + rewrite Join_cons, <- (app_str_assoc "{"), app_str_cons, app_str_nil_l, value_object, <- !(app_str_assoc _ _ rest).
      set (tl := prefixed "," _).
      assert (He : ends_number (tl +:+ "}" +:+ rest) = true) by by apply prefixed_ends.
      rewrite <- (app_str_assoc _ tl). pose proof (field_text kv.1 kv.2 _ Hv' He) as Hf.
      rewrite (field_not_end _ _ Hf), Hf.
      change ("}" +:+ rest) with (String "}" rest). unfold tl. by rewrite fields_text.
Qed.

(** What is written reads back as the document of the value. *)
Lemma Marshal_reads v t : json_Marshal v = Ok t -> Parse t = Some (docOf v).
Proof.
  unfold json_Marshal. destruct (raws_valid v) eqn:Hv; [|done]. intros [= <-].
  apply Parse_value. rewrite <- (app_str_nil_r (text v)). by apply text_reads_back.
Qed.
End values.
End Marshal.
