(* ===== verification/Ack.v ===== *)
(** * Completion messages

    [pkg/protocol/ack.go]: the texts sent back to a controller, with the verb
    [%q] of [fmt] for texts of ASCII characters. *)
From S2P Require Export JsonMarshal.

Notation backslash := JSON.backslash.
Notation hexDigit := Print.hexDigit.

(** The letter after the backslash, for the characters that have one. *)
Definition escapeLetter (c : ascii) : option ascii :=
  if Ascii.eqb c double_quote || Ascii.eqb c backslash then Some c
  else if Ascii.eqb c "007" then Some "a"%char
  else if Ascii.eqb c "008" then Some "b"%char
  else if Ascii.eqb c "012" then Some "f"%char
  else if Ascii.eqb c "010" then Some "n"%char
  else if Ascii.eqb c "013" then Some "r"%char
  else if Ascii.eqb c "009" then Some "t"%char
  else if Ascii.eqb c "011" then Some "v"%char
  else None.

Definition isPrint (c : ascii) : bool := in_range " " "~" c.

Definition quoteChar (c : ascii) : string :=
  match escapeLetter c with
  | Some l => String backslash (String l "")
  | None =>
      if isPrint c then String c ""
      else String backslash (String "x" (String (hexDigit (ascii_Z c / 16))
                                            (String (hexDigit (ascii_Z c `mod` 16)) "")))
  end.

Fixpoint quoteChars (s : string) : string :=
  match s with
  | EmptyString => ""
  | String c s' => quoteChar c +:+ quoteChars s'
  end.

(** [%q]. *)
Definition Quote `{Unicode} (s : string) : string :=
  if isASCII s then String double_quote (quoteChars s +:+ String double_quote "") else Quote_u s.

(** [%t]. *)
Definition fmt_t (b : bool) : string := if b then "true" else "false".

(** A field name of an object, with its quotes and colon. *)
Definition fieldName (s : string) : string := String double_quote (s +:+ String double_quote ":").

Section ack.
Context `{Unicode}.

Definition CombinedCompletionMessage (instance : Z) (tid : string) (transactionStart : Z)
    (activation : string) (isSystemError : bool) : string :=
  "{" +:+ fieldName "transid" +:+ "[" +:+ Quote tid +:+ "," +:+ fmt_d (UnixMilli transactionStart) +:+ "]," +:+
  fieldName "response" +:+ activation +:+ "," +:+
  fieldName "isSystemError" +:+ fmt_t isSystemError +:+ "," +:+
  fieldName "invoker" +:+ "{" +:+ fieldName "instance" +:+ fmt_d instance +:+ "," +:+
  fieldName "userMemory" +:+ String double_quote ("0 g" +:+ String double_quote "}}").

Definition MiniCombinedCompletionMessage (instance : Z) (tid : string) (transactionStart : Z)
    (aid : string) (isSystemError : bool) : string :=
  CombinedCompletionMessage instance tid transactionStart (Quote aid) isSystemError.
End ack.

(** ** Reading a quoted text as JSON *)
Definition readQuoted (s : string) : option (string * string) :=
  match s with
  | String c s' => if Ascii.eqb c double_quote then JSON.readString s' else None
  | EmptyString => None
  end.

(** Characters for which [%q] produces what JSON allows. *)
Definition jsonSafe (c : ascii) : bool :=
  isPrint c || bool_decide (c ∈ ["008"; "009"; "010"; "012"; "013"]%char).

(** What is read after the quotation of one character. *)
Lemma pieces_char c t :
  (ascii_Z c <? 128) = true ->
  JSON.pieces (quoteChar c +:+ t) =
  if jsonSafe c then JSON.more (JSON.Bytes (String c "")) (JSON.pieces t) else None.
Proof.
  intros Hc. destruct c as [[] [] [] [] [] [] [] []]; try discriminate Hc; try reflexivity.
Qed.

Lemma readString_char c t :
  (ascii_Z c <? 128) = true ->
  JSON.readString (quoteChar c +:+ t) =
  if jsonSafe c then match JSON.readString t with Some (r, rest) => Some (String c r, rest) | None => None end
  else None.
Proof.
  intros Hc. unfold JSON.readString. rewrite pieces_char by done. destruct (jsonSafe c); [|done].
  by destruct (JSON.pieces t) as [[l r]|].
Qed.

(** A text that was printed with [%q] reads back as JSON, and only if it has none of the
    characters for which [%q] uses an escape of Go that JSON does not know. *)
Lemma readQuoted_Quote `{Unicode} s t :
  isASCII s = true ->
  readQuoted (Quote s +:+ t) = if forall_str jsonSafe s then Some (s, t) else None.
Proof.
  intros Hs. unfold Quote. rewrite Hs, app_str_cons. cbn [readQuoted]. rewrite Ascii.eqb_refl.
  induction s as [|c s IH]; [done|]. cbn [isASCII forall_str] in Hs. unfold isASCII in *.
  cbn [forall_str] in Hs. apply andb_prop in Hs as [Hc Hs]. cbn [quoteChars forall_str].
  rewrite <- !app_str_assoc, readString_char by done. rewrite app_str_assoc, IH by done.
  destruct (jsonSafe c); cbn [andb]; [|done]. by destruct (forall_str jsonSafe s).
Qed.

(** A bell in an identifier makes a message that is no JSON document. *)
Example bell_is_not_json :
  let u := {| IndexLetter_u _ := None; TrimSpace_u s := s; ToUpper_u s := s; Quote_u s := s |} in
  Quote (String "007" "") = String double_quote (String backslash (String "a" (String double_quote ""))) /\
  readQuoted (Quote (String "007" "")) = None.
Proof. split; reflexivity. Qed.
