(* ===== verification/Crypto.v ===== *)
(** * Encrypted values

    [pkg/encryption]: the keys of the configuration and the decryption of
    values ([keys.go], [decryptor.go]).  Byte slices are strings. *)
From S2P Require Export Base64 Errors.

Local Open Scope go_scope.

(** ** AES-GCM

    The cipher itself is a parameter: what [Seal] and [Open] compute from a key
    of a proper size, a nonce and a text. *)
Class GCM := {
  gcm_Seal : string -> string -> string -> string;
  gcm_Open : string -> string -> string -> option string
}.

(** What the program relies on: a sealed text opens under its key and nonce, and is
    longer than its tag of 16 bytes. *)
Class GCMLaws `{GCM} := {
  gcm_open_seal key nonce text : gcm_Open key nonce (gcm_Seal key nonce text) = Some text;
  gcm_seal_tag key nonce text : (16 <= String.length (gcm_Seal key nonce text))%nat
}.

(** [aes.NewCipher]: AES-128, AES-192 or AES-256. *)
Definition NewCipher (key : string) : result string :=
  if bool_decide (String.length key ∈ [16; 24; 32]%nat) then Ok key
  else Err (ErrText "crypto/aes: invalid key size").

Record aead := { aead_block : string; aead_nonceSize : Z }.

Definition NewGCMWithNonceSize (block : string) (size : Z) : result aead :=
  if size <=? 0 then Err (ErrText "cipher: the nonce can't have zero length")
  else Ok {| aead_block := block; aead_nonceSize := size |}.

(** [AEAD.Open]: a nonce of the wrong length panics. *)
Definition Open `{GCM} (a : aead) (nonce ciphertext : string) : outcome (result string) :=
  if negb (str_len nonce =? aead_nonceSize a) then Panics
  else if str_len ciphertext <? 16 then Done (Err (ErrText "cipher: message authentication failed"))
  else match gcm_Open (aead_block a) nonce ciphertext with
       | Some text => Done (Ok text)
       | None => Done (Err (ErrText "cipher: message authentication failed"))
       end.

(** ** The decryptor *)
Definition nonceSize : Z := 128.
Definition nonceSizeLength : Z := 4.

Definition Keys : Type := gmap string string.
Definition Decryptor : Type := gmap string aead.

Definition newAEAD (key : string) : result aead :=
  match NewCipher key with
  | Err err => Err (Errorf "failed to create cipher block from key: %w" [err])
  | Ok block =>
      match NewGCMWithNonceSize block nonceSize with
      | Err err => Err (Errorf "failed to create GCM instance: %w" [err])
      | Ok aesgcm => Ok aesgcm
      end
  end.

Fixpoint newAEADs (keys : list (string * string)) (acc : Decryptor) : result Decryptor :=
  match keys with
  | [] => Ok acc
  | (keyName, key) :: rest =>
      aesgcm ← newAEAD key;
      newAEADs rest (<[keyName := aesgcm]> acc)
  end.

Definition NewDecryptor {MK : MapRange string string} (seed : nat) (keys : Keys) : result Decryptor :=
  newAEADs (go_range seed keys) ∅.

(** [binary.BigEndian.Uint32], of the first four bytes. *)
Definition Uint32 (b : string) : outcome Z :=
  match b with
  | String b0 (String b1 (String b2 (String b3 _))) =>
      Done (Z.lor (Z.lor (Z.shiftl (ascii_Z b0) 24) (Z.shiftl (ascii_Z b1) 16))
                  (Z.lor (Z.shiftl (ascii_Z b2) 8) (ascii_Z b3)))
  | _ => Panics
  end.

(** A slice expression [b[lo:hi]]. *)
Definition slice (b : string) (lo hi : Z) : outcome string :=
  if (lo <? 0) || (hi <? lo) || (str_len b <? hi) then Panics
  else Done (take_str (Z.to_nat (hi - lo)) (drop_str (Z.to_nat lo) b)).

Definition Decrypt `{GCM} (d : Decryptor) (keyName encrypted : string) : outcome (result string) :=
  match d !! keyName with
  | None => Done (Err (Errorf "failed to find key for name %q" []))
  | Some aesgcm =>
      if str_len encrypted <=? nonceSizeLength + nonceSize
      then Done (Err (Errorf "malformed encrypted value: length %d <= %d" []))
      else
        givenNonceLength ← Uint32 encrypted;
        if negb (givenNonceLength =? nonceSize)
        then Done (Err (Errorf "malformed encrypted value: wrong nonce-length of %d" []))
        else
          nonce ← slice encrypted nonceSizeLength (nonceSizeLength + nonceSize);
          ciphertext ← slice encrypted (nonceSizeLength + nonceSize) (str_len encrypted);
          Open aesgcm nonce ciphertext
  end.

(** ** The configuration

    [encoding/json] is given by what it makes of a text. *)
Fixpoint decodeKeys (base64Keys : list (string * string)) (keys : Keys) : outcome (result Keys) :=
  match base64Keys with
  | [] => Done (Ok keys)
  | (keyName, base64EncodedKey) :: rest =>
      match Decode64 StdEncoding (DecodedLen (String.length base64EncodedKey)) base64EncodedKey with
      | OutOfRange => Panics
      | CorruptInput =>
          Done (Err (Errorf "failed to base64-decode key %s: %w" [ErrText "illegal base64 data"]))
      | Decoded decodedKey => decodeKeys rest (<[keyName := decodedKey]> keys)
      end
  end.

(** [Keys.Decode]: the value stored in the receiver, which an error leaves as it was. *)
Definition Decode {MK : MapRange string string} (unmarshal : string -> result (gmap string string))
    (seed : nat) (s : string) : outcome (result Keys) :=
  match unmarshal s with
  | Err err => Done (Err (Errorf "failed to parse encryption config as JSON: %w" [err]))
  | Ok base64Keys => decodeKeys (go_range seed base64Keys) ∅
  end.

(** ** Lemmas *)
Lemma newAEAD_ok key :
  newAEAD key = if bool_decide (String.length key ∈ [16; 24; 32]%nat)
                then Ok {| aead_block := key; aead_nonceSize := nonceSize |}
                else Err (Errorf "failed to create cipher block from key: %w"
                            [ErrText "crypto/aes: invalid key size"]).
Proof. unfold newAEAD, NewCipher. by case_bool_decide. Qed.

Lemma newAEADs_spec keys acc :
  NoDup keys.*1 ->
  match newAEADs keys acc with
  | Ok d =>
      (forall k key, (k, key) ∈ keys -> newAEAD key = Ok {| aead_block := key; aead_nonceSize := nonceSize |}
         /\ d !! k = Some {| aead_block := key; aead_nonceSize := nonceSize |}) /\
      (forall k, k ∉ keys.*1 -> d !! k = acc !! k)
  | Err _ => exists k key, (k, key) ∈ keys /\ String.length key ∉ [16; 24; 32]%nat
  end.
Proof.
  revert acc. induction keys as [|[k key] keys IH]; intros acc Hnd; cbn.
  { split; [by intros ? ? ?%elem_of_nil|done]. }
  apply NoDup_cons in Hnd as [Hk Hnd]. pose proof (newAEAD_ok key) as Ha.
  case_bool_decide as Hlen; rewrite Ha; cbn.
  - specialize (IH (<[k:={| aead_block := key; aead_nonceSize := nonceSize |}]> acc) Hnd).
    destruct (newAEADs keys _) as [d|e].
    + destruct IH as [IH1 IH2]. split.
      * intros k' key' [[= -> ->]|Hin]%elem_of_cons; [|by apply IH1].
        split; [done|]. rewrite IH2 by done. apply lookup_insert_eq.
      * intros k' [Hne Hk']%not_elem_of_cons. rewrite IH2 by done. by apply lookup_insert_ne.
    + destruct IH as (k' & key' & Hin & Hlen'). exists k', key'. by rewrite elem_of_cons; auto.
  - exists k, key. split; [by left|done].
Qed.

Section decrypt.
Context `{GCMLaws} {MK : MapRange string string}.

(** A decryptor is made iff all keys have a proper length, and has exactly the names of the keys. *)
Lemma NewDecryptor_spec seed keys :
  match NewDecryptor seed keys with
  | Ok d => forall k, d !! k = (fun key => {| aead_block := key; aead_nonceSize := nonceSize |}) <$> keys !! k
  | Err _ => exists k key, keys !! k = Some key /\ String.length key ∉ [16; 24; 32]%nat
  end.
Proof using.
  unfold NewDecryptor. pose proof (go_range_perm seed keys) as Hp.
  assert (Hin : forall k key, (k, key) ∈ go_range seed keys <-> keys !! k = Some key).
  { intros k key. rewrite Hp. apply elem_of_map_to_list. }
  pose proof (newAEADs_spec (go_range seed keys) ∅) as Hs.
  specialize (Hs ltac:(rewrite Hp; apply NoDup_fst_map_to_list)).
  destruct (newAEADs _ _) as [d|e].
  - destruct Hs as [Hs1 Hs2]. intros k. destruct (keys !! k) as [key|] eqn:Hk; cbn.
    + by apply Hs1, Hin.
    + apply Hs2. intros ([k' key] & -> & Hk'%Hin)%list_elem_of_fmap. cbn in Hk. congruence.
  - destruct Hs as (k & key & Hk & Hlen). exists k, key. by rewrite <- Hin.
Qed.

Lemma slice_ok b lo hi :
  0 <= lo <= hi -> hi <= str_len b ->
  slice b lo hi = Done (take_str (Z.to_nat (hi - lo)) (drop_str (Z.to_nat lo) b)).
Proof using.
  intros H1 H2. unfold slice.
  destruct (Z.ltb_spec lo 0), (Z.ltb_spec hi lo), (Z.ltb_spec (str_len b) hi); cbn; done || lia.
Qed.

(** The decryptor of proper keys never panics. *)
Lemma Decrypt_returns seed keys d keyName encrypted :
  NewDecryptor seed keys = Ok d -> Decrypt d keyName encrypted <> Panics.
Proof using.
  intros Hd. pose proof (NewDecryptor_spec seed keys) as Hs. rewrite Hd in Hs.
  unfold Decrypt. rewrite Hs. destruct (keys !! keyName) as [key|]; cbn; [|done].
  destruct (Z.leb_spec (str_len encrypted) (nonceSizeLength + nonceSize)) as [|Hlen]; [done|].
  unfold nonceSizeLength, nonceSize in Hlen.
  destruct encrypted as [|b0 [|b1 [|b2 [|b3 rest]]]]; try (unfold str_len in Hlen; cbn in Hlen; lia).
  cbn [Uint32 mbind outcome_MBind]. case_match; [done|].
  set (e := String b0 _) in *.
  rewrite !slice_ok by (unfold nonceSizeLength, nonceSize; lia). cbn [mbind outcome_MBind].
  unfold Open. cbn [aead_nonceSize]. set (nonce := take_str _ _).
  destruct (Z.eqb_spec (str_len nonce) nonceSize) as [|Hne]; cbn [negb].
  - repeat case_match; done.
  - exfalso. apply Hne. unfold nonce, str_len. rewrite length_take_str, length_drop_str.
    unfold str_len, nonceSizeLength, nonceSize in *. lia.
Qed.

(** The format of an encrypted value: four bytes with the length of the nonce, the nonce, and
    what the cipher made of the text. *)
Definition sealed (key nonce text : string) : string :=
  String "000" (String "000" (String "000" (String "128" nonce))) +:+ gcm_Seal key nonce text.

Lemma Decrypt_sealed seed keys d keyName key nonce text :
  NewDecryptor seed keys = Ok d -> keys !! keyName = Some key -> str_len nonce = nonceSize ->
  Decrypt d keyName (sealed key nonce text) = Done (Ok text).
Proof using H0.
  intros Hd Hk Hn. pose proof (NewDecryptor_spec seed keys) as Hs. rewrite Hd in Hs.
  unfold Decrypt. rewrite Hs, Hk. cbn [fmap option_fmap option_map].
  set (s := gcm_Seal key nonce text). pose proof (gcm_seal_tag key nonce text) as Htag. fold s in Htag.
  assert (Hlen : str_len (sealed key nonce text) = 4 + 128 + str_len s).
  { unfold sealed. fold s. rewrite str_len_app. unfold str_len in *. cbn [String.length]. unfold nonceSize in Hn. lia. }
  assert (Hss : 16 <= str_len s) by (unfold str_len; lia).
  rewrite Hlen. unfold nonceSizeLength, nonceSize. destruct (Z.leb_spec (4 + 128 + str_len s) (4 + 128)); [lia|].
  change (Uint32 (sealed key nonce text)) with (Done 128). cbn [mbind outcome_MBind].
  cbn [Z.eqb Pos.eqb negb].
  rewrite !slice_ok by lia. cbn [mbind outcome_MBind].
  assert (Hn' : String.length nonce = 128%nat) by (unfold str_len, nonceSize in Hn; lia).
  replace (Z.to_nat (4 + 128 - 4)) with (String.length nonce) by lia.
  replace (drop_str (Z.to_nat 4) (sealed key nonce text)) with (nonce +:+ s) by reflexivity.
  rewrite take_str_app.
  replace (drop_str (Z.to_nat (4 + 128)) (sealed key nonce text)) with s.
  2: { unfold sealed. fold s. cbn [Z.to_nat].
       replace (Z.to_nat (4 + 128)) with (String.length
         (String "000" (String "000" (String "000" (String "128" nonce))))) by (cbn; lia).
       by rewrite drop_str_app. }
  replace (Z.to_nat (4 + 128 + str_len s - (4 + 128))) with (String.length s + 0)%nat
    by (unfold str_len; lia).
  rewrite Nat.add_0_r. replace (take_str (String.length s) s) with s
    by (rewrite <- (app_str_nil_r s) at 3; by rewrite take_str_app).
  unfold Open. cbn [aead_nonceSize aead_block]. rewrite Hn. rewrite Z.eqb_refl. cbn [negb].
  destruct (Z.ltb_spec (str_len s) 16); [lia|]. unfold s. by rewrite gcm_open_seal.
Qed.
End decrypt.
