(* ===== verification/Message.v ===== *)
(** * Activation messages

    [ParseActivationMessage] of [pkg/protocol/activation.go]: reading a message
    of the controller, decrypting its locked parameters and telling init
    parameters from those of the run. *)
From S2P Require Export Json Crypto.

Section message.
Context `{FastJSON} `{GCM} {MP : MapRange string json}.

Definition nsAnnotations (nsVals : option json) : gmap string string :=
  collect ((fun anno => (GetStringBytes (Some anno) ["key"], GetStringBytes (Some anno) ["value"]))
             <$> GetArray nsVals ["annotations"]).

Definition initParameterKeys (parsed : json) : gset string :=
  list_to_set ((fun keyVal => GetStringBytes (Some keyVal) []) <$> GetArray (Some parsed) ["initArgs"]).

(** The value of an encrypted parameter. *)
Definition unlock (decryptor : Decryptor) (encryptionKeyVal v : json) : outcome (result string) :=
  let encryptionKey := GetStringBytes (Some encryptionKeyVal) [] in
  let base64Encoded := GetStringBytes (Some v) [] in
  match Decode64 StdEncoding (DecodedLen (String.length base64Encoded)) base64Encoded with
  | OutOfRange => Panics
  | CorruptInput =>
      Done (Err (Errorf "failed to base64-decode encrypted value: %w" [ErrText "illegal base64 data"]))
  | Decoded decoded =>
      match Decrypt decryptor encryptionKey decoded with
      | Panics => Panics
      | Done (Err err) => Done (Err (Errorf "failed to decrypt value: %w" [err]))
      | Done (Ok unlocked) => Done (Ok unlocked)
      end
  end.

Definition parameterValue (decryptor : Decryptor) (lockedParameters : option object)
    (k : string) (v : json) : outcome (result string) :=
  encryptionKeyVal ← ObjectGet lockedParameters k;
  match encryptionKeyVal with
  | Some encryptionKeyVal => unlock decryptor encryptionKeyVal v
  | None => Done (Ok (MarshalTo v))
  end.

(** The loop over the parameters: init parameters and parameters of the run. *)
Fixpoint partition (decryptor : Decryptor) (lockedParameters : option object) (initKeys : gset string)
    (l : list (string * json)) (acc : gmap string string * gmap string string) :
    outcome (result (gmap string string * gmap string string)) :=
  match l with
  | [] => Done (Ok acc)
  | (k, v) :: rest =>
      call_bind (parameterValue decryptor lockedParameters k v) (fun value =>
        let '(initParameters, runParameters) := acc in
        partition decryptor lockedParameters initKeys rest
          (if decide (k ∈ initKeys) then (<[k := value]> initParameters, runParameters)
           else (initParameters, <[k := value]> runParameters)))
  end.

Definition parameters (content : object) : gmap string json := collect (Visit content).

Definition messageParameters (seed : nat) (decryptor : Decryptor) (parsed : json) :
    outcome (result (Parameters * Parameters)) :=
  match GetObject (Some parsed) ["content"] with
  | None => Done (Ok (None, None))
  | Some content =>
      call_bind
        (partition decryptor (GetObject (Some parsed) ["lockedArgs"]) (initParameterKeys parsed)
           (go_range seed (parameters content)) (∅, ∅))
        (fun '(initParameters, runParameters) =>
           Done (Ok (Some initParameters, Some runParameters)))
  end.

Definition storeActivations (userVals : option json) : bool :=
  match Get userVals ["limits"; "storeActivations"] with
  | None => true
  | Some storeActivationVal => GetBool (Some storeActivationVal) []
  end.

Definition ParseActivationMessage (seed : nat) (data : string) (decryptor : Decryptor) :
    outcome (result ActivationMessage) :=
  match ParseBytes data with
  | Err err => Done (Err (Errorf "failed to parse JSON: %w" [err]))
  | Ok parsed =>
      match GetArray (Some parsed) ["transid"] with
      | [tid0; tid1] =>
          let actionVal := Get (Some parsed) ["action"] in
          let userVals := Get (Some parsed) ["user"] in
          let nsVals := Get userVals ["namespace"] in
          call_bind (messageParameters seed decryptor parsed) (fun '(initParameters, runParameters) =>
            Done (Ok {|
              TransactionID := GetStringBytes (Some tid0) [];
              TransactionStart := GetInt64 (Some tid1) [] * Millisecond;
              ActivationID := GetStringBytes (Some parsed) ["activationId"];
              RootControllerIndex := GetStringBytes (Some parsed) ["rootControllerIndex"; "asString"];
              CausedBy := GetStringBytes (Some parsed) ["cause"];
              IsBlocking := GetBool (Some parsed) ["blocking"];
              msg_Function := {|
                fn_Namespace := GetStringBytes actionVal ["path"];
                fn_Name := GetStringBytes actionVal ["name"];
                fn_Version := GetStringBytes actionVal ["version"];
                fn_Binding := GetStringBytes actionVal ["binding"];
                fn_Revision := GetStringBytes (Some parsed) ["revision"] |};
              Identity := {|
                id_Subject := GetStringBytes userVals ["subject"];
                id_Namespace := GetStringBytes nsVals ["name"];
                id_Annotations := nsAnnotations nsVals;
                APIKey := GetStringBytes userVals ["authkey"; "api_key"];
                StoreActivations := storeActivations userVals |};
              msg_Parameters := runParameters;
              InitParameters := initParameters |}))
      | _ => Done (Err (ErrText "malformed input: transid was not an array of length 2"))
      end
  end.
End message.
