(* ===== verification/MessageSpec.v ===== *)
(** * Activation messages: what a parsed message holds *)
From S2P Require Export Message.

Lemma partition_spec `{FastJSON} `{GCM} dec locked ks l acc :
  NoDup l.*1 ->
  match partition dec locked ks l acc with
  | Done (Ok (i, r)) =>
      (forall k v, (k, v) ∈ l -> exists value, parameterValue dec locked k v = Done (Ok value) /\
         (if decide (k ∈ ks) then i !! k = Some value /\ r !! k = acc.2 !! k
          else r !! k = Some value /\ i !! k = acc.1 !! k)) /\
      (forall k, k ∉ l.*1 -> i !! k = acc.1 !! k /\ r !! k = acc.2 !! k)
  | Done (Err _) => exists k v e, (k, v) ∈ l /\ parameterValue dec locked k v = Done (Err e)
  | Panics => exists k v, (k, v) ∈ l /\ parameterValue dec locked k v = Panics
  end.
Proof.
  revert acc. induction l as [|[k v] l IH]; intros [i0 r0] Hnd; cbn.
  { split; [by intros ? ? ?%elem_of_nil|done]. }
  apply NoDup_cons in Hnd as [Hk Hnd].
  destruct (parameterValue dec locked k v) as [[value|e]|] eqn:Hv; cbn;
    [|exists k, v, e; split; [by left|done]|exists k, v; split; [by left|done]].
  set (acc' := if decide (k ∈ ks) then _ else _). specialize (IH acc' Hnd).
  destruct (partition dec locked ks l acc') as [[[i r]|e]|].
  - destruct IH as [IH1 IH2]. split.
    + intros k' v' [[= -> ->]|Hin]%elem_of_cons.
      * exists value. split; [done|]. destruct (IH2 k Hk) as [Hi Hr]. rewrite Hi, Hr.
        unfold acc'. case_decide; cbn; by rewrite lookup_insert_eq.
      * destruct (IH1 k' v' Hin) as (x & Hx & Hif). exists x. split; [done|].
        assert (k' <> k) by (intros ->; apply Hk, list_elem_of_fmap; by exists (k, v')).
        unfold acc' in Hif. case_decide; case_decide; cbn in Hif;
          rewrite ?lookup_insert_ne in Hif by done; done.
    + intros k' [Hne Hk']%not_elem_of_cons. destruct (IH2 k' Hk') as [-> ->].
      unfold acc'. case_decide; cbn; rewrite ?lookup_insert_ne by done; done.
  - destruct IH as (k' & v' & e' & Hin & He). exists k', v', e'. split; [by right|done].
  - destruct IH as (k' & v' & Hin & He). exists k', v'. split; [by right|done].
Qed.

Section spec.
Context `{FastJSON} `{GCMLaws} {MP : MapRange string json} {MK : MapRange string string}.

(** A reader whose objects can be asked for any key, if they are there. *)
Definition objects_readable : Prop := forall o k, ObjectGet (Some o) k <> Panics.

Lemma unlock_returns s0 keys dec kv v : NewDecryptor s0 keys = Ok dec -> unlock dec kv v <> Panics.
Proof using.
  intros Hd. unfold unlock.
  pose proof (Decode64_in_range StdEncoding (GetStringBytes (Some v) [])) as Hr.
  destruct (Decode64 _ _ _) as [bytes| |]; [|done|done].
  pose proof (Decrypt_returns s0 keys dec (GetStringBytes (Some kv) []) bytes Hd) as Hp.
  by destruct (Decrypt _ _ _) as [[|]|].
Qed.

(** Only asking an object that is not there can panic. *)
Lemma parameterValue_panics s0 keys dec locked k v :
  objects_readable -> NewDecryptor s0 keys = Ok dec ->
  parameterValue dec locked k v = Panics -> locked = None.
Proof using.
  intros Ho Hd. destruct locked as [locked|]; [|done]. unfold parameterValue. specialize (Ho locked k).
  destruct (ObjectGet (Some locked) k) as [[kv|]|]; cbn; [|done|done].
  intros Hp. by apply (unlock_returns s0 keys dec kv v) in Hd.
Qed.

(** What a message says about its parameters, apart from the order in which a map is ranged over. *)
Definition message_with (data : string) (content locked : object) (parsed : json) : Prop :=
  ParseBytes data = Ok parsed /\ List.length (GetArray (Some parsed) ["transid"]) = 2%nat /\
  GetObject (Some parsed) ["content"] = Some content /\
  GetObject (Some parsed) ["lockedArgs"] = Some locked.

(** The part of the parser that reads the parameters. *)
Lemma parse_content seed data dec content parsed :
  ParseBytes data = Ok parsed -> List.length (GetArray (Some parsed) ["transid"]) = 2%nat ->
  GetObject (Some parsed) ["content"] = Some content ->
  let r := partition dec (GetObject (Some parsed) ["lockedArgs"]) (initParameterKeys parsed)
             (go_range seed (parameters content)) (∅, ∅) in
  match ParseActivationMessage seed data dec with
  | Done (Ok msg) => exists init run,
      InitParameters msg = Some init /\ msg_Parameters msg = Some run /\ r = Done (Ok (init, run))
  | Done (Err e) => r = Done (Err e)
  | Panics => r = Panics
  end.
Proof using.
  intros Hp Ht Hc. unfold ParseActivationMessage, messageParameters. rewrite Hp.
  destruct (GetArray (Some parsed) ["transid"]) as [|tid0 [|tid1 [|? ?]]]; try done.
  rewrite Hc. destruct (partition _ _ _ _ _) as [[[i r]|e]|]; cbn; [|done|done].
  by exists i, r.
Qed.

Lemma range_keys seed (m : gmap string json) :
  NoDup (go_range seed m).*1 /\ forall k v, (k, v) ∈ go_range seed m <-> m !! k = Some v.
Proof using.
  split; [|intros k v]; rewrite (go_range_perm seed m); [apply NoDup_fst_map_to_list|].
  apply elem_of_map_to_list.
Qed.

(** What becomes of a message whose parameters are [content]. *)
Definition parameters_read (dec : Decryptor) (parsed : json) (content : object)
    (r : outcome (result ActivationMessage)) : Prop :=
  let locked := GetObject (Some parsed) ["lockedArgs"] in
  match r with
  | Panics => locked = None /\ parameters content <> ∅
  | Done (Err _) => exists k v e,
      parameters content !! k = Some v /\ parameterValue dec locked k v = Done (Err e)
  | Done (Ok msg) => exists init run,
      InitParameters msg = Some init /\ msg_Parameters msg = Some run /\
      forall k, match parameters content !! k with
                | None => init !! k = None /\ run !! k = None
                | Some v => exists value, parameterValue dec locked k v = Done (Ok value) /\
                    if decide (k ∈ initParameterKeys parsed)
                    then init !! k = Some value /\ run !! k = None
                    else run !! k = Some value /\ init !! k = None
                end
  end.

(** Asking for a member of an object that is not there. *)
Definition nil_object_panics : Prop := forall k, ObjectGet None k = Panics.

Lemma parameters_panic dec parsed content seed data :
  ParseBytes data = Ok parsed -> List.length (GetArray (Some parsed) ["transid"]) = 2%nat ->
  GetObject (Some parsed) ["content"] = Some content ->
  nil_object_panics -> GetObject (Some parsed) ["lockedArgs"] = None -> parameters content <> ∅ ->
  ParseActivationMessage seed data dec = Panics.
Proof using.
  intros Hd Ht Hc Hnil Hl Hne. pose proof (parse_content seed data dec content parsed Hd Ht Hc) as Hp.
  rewrite Hl in Hp. destruct (go_range seed (parameters content)) as [|[k v] l] eqn:E.
  - pose proof (go_range_perm seed (parameters content)) as Hperm. rewrite E in Hperm.
    by apply Permutation_nil, map_to_list_empty_iff in Hperm.
  - cbn in Hp. unfold parameterValue in Hp. rewrite Hnil in Hp. cbn in Hp.
    destruct (ParseActivationMessage seed data dec) as [[|]|]; [|done|done]. by destruct Hp as (? & ? & _ & _ & ?).
Qed.

(** C25: What the parser does with any input. It is rejected if it is no JSON or its transaction is not an
    array of two. Without parameters it is accepted and both maps are absent. With parameters it is
    accepted only if every parameter is in exactly one of the two maps, with the init parameters those
    the controller lists as such, as its JSON text or, if it is locked, decrypted, and nothing else is in
    the maps; it is rejected only if one of the locked parameters cannot be decoded or decrypted; and the
    parser panics only if there are parameters but no object with the locked ones, not even an empty one,
    and then it does. *)
Theorem ParseActivationMessage_parameters s0 keys dec seed data :
  objects_readable -> nil_object_panics -> NewDecryptor s0 keys = Ok dec ->
  let r := ParseActivationMessage seed data dec in
  match ParseBytes data with
  | Err _ => exists e, r = Done (Err e)
  | Ok parsed =>
      if (List.length (GetArray (Some parsed) ["transid"]) =? 2)%nat then
        match GetObject (Some parsed) ["content"] with
        | None => exists msg, r = Done (Ok msg) /\ InitParameters msg = None /\ msg_Parameters msg = None
        | Some content =>
            parameters_read dec parsed content r /\
            (GetObject (Some parsed) ["lockedArgs"] = None -> parameters content <> ∅ -> r = Panics)
        end
      else exists e, r = Done (Err e)
  end.
Proof using.
  intros Ho Hnil Hd. cbv zeta. destruct (ParseBytes data) as [parsed|e] eqn:Hp;
    [|unfold ParseActivationMessage; rewrite Hp; eauto].
  destruct (Nat.eqb_spec (List.length (GetArray (Some parsed) ["transid"])) 2) as [Ht|Ht].
  2: { unfold ParseActivationMessage. rewrite Hp.
       destruct (GetArray (Some parsed) ["transid"]) as [|? [|? [|? ?]]]; eauto; done. }
  destruct (GetObject (Some parsed) ["content"]) as [content|] eqn:Hc.
  2: { unfold ParseActivationMessage, messageParameters. rewrite Hp, Hc.
       destruct (GetArray (Some parsed) ["transid"]) as [|? [|? [|? ?]]]; try done. by eexists. }
  split; [|by apply parameters_panic].
  pose proof (parse_content seed data dec content parsed Hp Ht Hc) as Hr.
  destruct (range_keys seed (parameters content)) as [Hnd Hin].
  pose proof (partition_spec dec (GetObject (Some parsed) ["lockedArgs"]) (initParameterKeys parsed) _ (∅, ∅) Hnd) as Hs.
  unfold parameters_read. destruct (ParseActivationMessage seed data dec) as [[msg|e]|].
  - destruct Hr as (i & r & Hi & Hr & Hq). rewrite Hq in Hs. destruct Hs as [Hs1 Hs2].
    exists i, r. split_and!; [done|done|]. intros k.
    destruct (parameters content !! k) as [v|] eqn:Hk; [by apply Hs1, Hin|].
    apply (Hs2 k). intros ([k' v] & -> & Hv%Hin)%list_elem_of_fmap. cbn in Hk. congruence.
  - rewrite Hr in Hs. destruct Hs as (k & v & e' & Hk & He). exists k, v, e'. by rewrite <- Hin.
  - rewrite Hr in Hs. destruct Hs as (k & v & Hk & He). split.
    + by apply (parameterValue_panics s0 keys dec _ k v Ho Hd).
    + intros Hem. apply Hin in Hk. by rewrite Hem, lookup_empty in Hk.
Qed.

(** C40: A parameter that the controller encrypted under a known key, in its format and encoding,
    arrives as the text it was, in the map it belongs to. *)
Theorem locked_parameter_roundtrip s0 keys dec seed data content locked parsed msg k v kv keyName key nonce text :
  NewDecryptor s0 keys = Ok dec -> message_with data content locked parsed ->
  parameters content !! k = Some v -> ObjectGet (Some locked) k = Done (Some kv) ->
  GetStringBytes (Some kv) [] = keyName -> keys !! keyName = Some key ->
  str_len nonce = nonceSize ->
  GetStringBytes (Some v) [] = EncodeToString StdEncoding (sealed key nonce text) ->
  ParseActivationMessage seed data dec = Done (Ok msg) ->
  (if decide (k ∈ initParameterKeys parsed) then InitParameters msg else msg_Parameters msg)
    ≫= lookup k = Some text.
Proof using H1.
  intros Hd (Hm1 & Hm2 & Hm3 & Hm4) Hk Hkv Hname Hkey Hn Henc Hmsg.
  pose proof (parse_content seed data dec content parsed Hm1 Hm2 Hm3) as Hp. rewrite Hmsg, Hm4 in Hp.
  destruct Hp as (i & r & -> & -> & Hp). destruct (range_keys seed (parameters content)) as [Hnd Hin].
  pose proof (partition_spec dec (Some locked) (initParameterKeys parsed) _ (∅, ∅) Hnd) as Hs.
  rewrite Hp in Hs. destruct Hs as [Hs _].
  destruct (Hs k v) as (value & Hv & Hif); [by apply Hin|].
  assert (value = text) as ->; [|case_decide; cbn; by destruct Hif].
  unfold parameterValue in Hv. rewrite Hkv in Hv. cbn in Hv. unfold unlock in Hv.
  rewrite Henc, Hname, Decode64_encode in Hv
    by (apply StdEncoding_ok || apply DecodedLen_encode).
  rewrite (Decrypt_sealed s0 keys dec keyName key nonce text Hd Hkey Hn) in Hv. congruence.
Qed.
End spec.

(** ** A concrete message *)
Module Locked.
(** A cipher that prepends a tag of 16 bytes. *)
Definition tag : string := repeat_char "#" 16.

#[export] Instance plain_gcm : GCM := {
  gcm_Seal key nonce text := tag +:+ text;
  gcm_Open key nonce sealed_text :=
    if HasPrefix sealed_text tag then Some (drop_str 16 sealed_text) else None
}.

#[export] Instance plain_gcm_laws : GCMLaws.
Proof.
  split; cbn [gcm_Open gcm_Seal plain_gcm].
  - intros key nonce text. by rewrite HasPrefix_app.
  - intros key nonce text. rewrite length_app_str. cbn. lia.
Qed.

Definition key : string := repeat_char "k" 32.
Definition keys : Keys := {[ "k1" := key ]}.
Definition nonce : string := repeat_char "n" 128.

Definition dec : Decryptor := {[ "k1" := {| aead_block := key; aead_nonceSize := nonceSize |} ]}.

Definition secret : tree := TString (EncodeToString StdEncoding (sealed key nonce "42")).

Definition content : list (string * tree) :=
  [("NAME", TString "world");
   ("secret", secret)].
Definition locked : list (string * tree) := [("secret", TString "k1")].

Definition document : tree := TObject [
  ("transid", TArray [TString "t1"; TInt 1000]);
  ("activationId", TString "a1");
  ("initArgs", TArray [TString "secret"]);
  ("lockedArgs", TObject locked);
  ("content", TObject content)].

#[export] Instance documents : FastJSON := Tree.reader [("message", document)].

Lemma is_message : message_with "message" content locked document.
Proof. repeat split. Qed.

Definition parsed : outcome (result ActivationMessage) := ParseActivationMessage 0 "message" dec.
End Locked.

Lemma ParseActivationMessage_parameters_witness :
  match Locked.parsed with
  | Done (Ok msg) => exists init run, InitParameters msg = Some init /\ msg_Parameters msg = Some run /\
      init !! "secret" = Some "42" /\ run !! "secret" = None
  | _ => False
  end.
Proof.
  destruct (ParseActivationMessage_parameters (H := Locked.documents) (H0 := Locked.plain_gcm)
    (MK := range_in_order string string) 0 Locked.keys Locked.dec 0 "message"
    ltac:(intros o k; discriminate) ltac:(intros k; reflexivity) ltac:(vm_compute; reflexivity)) as [Hp _].
  fold Locked.parsed in Hp. destruct Locked.parsed as [[msg|e]|] eqn:E; [|vm_compute in E; discriminate E..].
  destruct Hp as (init & run & Hi & Hr & Hk). exists init, run. split; [exact Hi|]. split; [exact Hr|].
  specialize (Hk "secret").
  destruct Hk as (value & Hv & Hk). change (init !! "secret" = Some value /\ run !! "secret" = None) in Hk.
  vm_compute in Hv. injection Hv as <-. exact Hk.
Defined.

Lemma locked_parameter_roundtrip_witness :
  exists msg, Locked.parsed = Done (Ok msg) /\ InitParameters msg ≫= lookup "secret" = Some "42".
Proof.
  destruct Locked.parsed as [[msg|e]|] eqn:E; [|vm_compute in E; discriminate E..].
  exists msg. split; [reflexivity|].
  exact (locked_parameter_roundtrip (H := Locked.documents) (H0 := Locked.plain_gcm) (H1 := Locked.plain_gcm_laws)
    (MK := range_in_order string string) 0 Locked.keys Locked.dec 0 "message" Locked.content Locked.locked Locked.document msg "secret"
    Locked.secret (TString "k1")
    "k1" Locked.key Locked.nonce "42" ltac:(vm_compute; reflexivity) Locked.is_message
    ltac:(vm_compute; reflexivity) eq_refl eq_refl ltac:(vm_compute; reflexivity)
    ltac:(vm_compute; reflexivity) ltac:(vm_compute; reflexivity) E).
Defined.
