(* ===== verification/KafkaRunner.v ===== *)
(** * Invocations through Kafka

    [pkg/kafka/runner.go]: [Runner.Invoke] around any inner runner, and the
    worker of [cmd/invoker/main.go] that feeds it. *)
From S2P Require Export Ack ActivationDoc Message Runner.

Definition blockingInvocationCutoff : Z := 10 * 60 * Second.

Inductive kafka_op : Type -> Type :=
  (* reading the set of blocked namespaces under its mutex *)
| NamespaceBlocked (namespace : string) : kafka_op bool
| KafkaNow : kafka_op Z
| WriteMessages (topic value : string) : kafka_op (option go_error).

Section kafka.
Context `{Unicode} {MA : MapRange string any}.
(** [json.Marshal] of the documents of activations. *)
Context (json_Marshal : value -> result string).

(** [json.Marshal] of an activation. *)
Definition marshalActivation (a : Activation) : result string :=
  (MarshalJSON json_Marshal 0 (Some (act_Annotations a)) a).1.

Definition isSystemError (a : Activation) : bool :=
  bool_decide (StatusCode (Response a) = ActivationStatusCodeSystemError).

(** The response of the deferred function. *)
Definition ackResponse (InstanceID : Z) (msg : ActivationMessage) (activation : Activation) : string :=
  let mini := MiniCombinedCompletionMessage InstanceID (TransactionID msg) (TransactionStart msg)
                (ActivationID msg) (isSystemError activation) in
  if negb (IsBlocking msg) then mini
  else match marshalActivation activation with
       | Err _ => mini
       | Ok activationBytes =>
           CombinedCompletionMessage InstanceID (TransactionID msg) (TransactionStart msg)
             activationBytes (isSystemError activation)
       end.

Definition ackTopic (msg : ActivationMessage) : string := "completed" +:+ RootControllerIndex msg.

Section inner.
Context {E : Type -> Type} (inner : ActivationMessage -> proc E Activation).

Notation kafkaM := (proc (sum_op kafka_op E)).
Definition kafka {X} (e : kafka_op X) : kafkaM X := trigger (inl_op e).

(** Whether the message is a blocking one that is too old. *)
Definition skipInvocation (msg : ActivationMessage) : kafkaM bool :=
  if IsBlocking msg then
    now ← kafka KafkaNow;
    Ret (blockingInvocationCutoff <? time_Sub now (TransactionStart msg))
  else Ret false.

(** The deferred function. *)
Definition respond (InstanceID : Z) (msg : ActivationMessage) (activation : Activation) : kafkaM unit :=
  _ ← kafka KafkaNow;
  _ ← kafka (WriteMessages (ackTopic msg) (ackResponse InstanceID msg activation));
  _ ← kafka KafkaNow;
  Ret tt.

Definition kafkaInvoke (InstanceID : Z) (msg : ActivationMessage) : kafkaM unit :=
  isNamespaceBlocked ← kafka (NamespaceBlocked (id_Namespace (Identity msg)));
  skip ← skipInvocation msg;
  if isNamespaceBlocked || skip then
    _ ← kafka (WriteMessages (ackTopic msg)
                 (MiniCombinedCompletionMessage InstanceID (TransactionID msg) (TransactionStart msg)
                    (ActivationID msg) false));
    Ret tt
  else
    activation ← proc_map (fun X e => inr_op e) (inner msg);
    respond InstanceID msg activation.
End inner.
End kafka.

(** ** The worker *)

(** What is used of a [kafka.Message]. *)
Record kafka_message := { km_Offset : Z; km_Value : string }.

Inductive worker_op (E : Type -> Type) : Type -> Type :=
| ReadMessage : worker_op E (result kafka_message)
  (* storing the offset if it is higher, see Offsets.v *)
| StoreHighest (offset : Z) : worker_op E unit
| Invoking {X} (e : E X) : worker_op E X.
Arguments ReadMessage {E}.
Arguments StoreHighest {E} offset.
Arguments Invoking {E X} e.

Section worker.
Context `{FastJSON} `{GCM} {MP : MapRange string json}.
Context {E : Type -> Type} (invoke : ActivationMessage -> proc E unit).

(** One round of the loop of a worker; [true] if the loop ends. Nothing recovers from a panic. *)
Definition workerRound (seed : nat) (decryptor : Decryptor) : proc (worker_op E) (outcome bool) :=
  r ← trigger ReadMessage;
  match r with
  | Err err => Ret (Done (isCanceled err))
  | Ok msg =>
      _ ← trigger (StoreHighest (i64 (km_Offset msg + 1)));
      match ParseActivationMessage seed (km_Value msg) decryptor with
      | Panics => Ret Panics
      | Done (Err _) => Ret (Done false)
      | Done (Ok parsed) =>
          _ ← proc_map (fun X e => Invoking e) (invoke parsed);
          Ret (Done false)
      end
  end.
End worker.
