(* ===== verification/KafkaSpec.v ===== *)
(** * Invocations through Kafka: one message, one answer

    The worker, the Kafka runner and the runner put together: what happens
    between reading a message and reading the next one. *)
From S2P Require Export KafkaRunner RunnerLogs MessageSpec.

(** ** What is observed of a worker *)
Inductive wevent :=
| WRead (r : result kafka_message)
| WOffset (offset : Z)
| WBlocked (namespace : string) (blocked : bool)
| WNow (t : Z)
| WInner (e : event)
| WAck (topic value : string).

Definition kafka_events (X : Type) (op : kafka_op X) : X -> list wevent :=
  match op in kafka_op X return X -> list wevent with
  | NamespaceBlocked ns => fun b => [WBlocked ns b]
  | KafkaNow => fun t => [WNow t]
  | WriteMessages topic value => fun _ => [WAck topic value]
  end.

Definition invoking_events (X : Type) (op : sum_op kafka_op runner_op X) : X -> list wevent :=
  match op with
  | inl_op e => kafka_events X e
  | inr_op e => fun x => WInner <$> events X e x
  end.

Definition worker_events (X : Type) (op : worker_op (sum_op kafka_op runner_op) X) : X -> list wevent :=
  match op in worker_op _ X return X -> list wevent with
  | ReadMessage => fun r => [WRead r]
  | StoreHighest offset => fun _ => [WOffset offset]
  | Invoking e => fun x => invoking_events _ e x
  end.

(** Any answer is possible; the state is the list of what happened so far. *)
Definition worker_observed (X : Type) (op : worker_op (sum_op kafka_op runner_op) X)
    (tr : list wevent) (x : X) (tr' : list wevent) : Prop := tr' = tr ++ worker_events X op x.

Definition invoking_observed (X : Type) (op : sum_op kafka_op runner_op X)
    (tr : list wevent) (x : X) (tr' : list wevent) : Prop := tr' = tr ++ invoking_events X op x.

#[local] Arguments Invoke : simpl never.
#[local] Arguments kafkaInvoke : simpl never.
#[local] Arguments ackResponse : simpl never.
#[local] Arguments MiniCombinedCompletionMessage : simpl never.
#[local] Arguments ParseActivationMessage : simpl never.

Section spec.
Context `{Unicode} `{FastJSON} `{GCM} {MA : MapRange string any} {MP : MapRange string json}.
Context (json_Marshal : value -> result string).
Context (unmarshalObject : string -> result (option (gset string))).
Context (unmarshalError : string -> result string) (formatTime : Z -> string).
Context (empty_document : is_ok (unmarshalObject "") = false).
Context (InstanceID : Z) (seed : nat) (decryptor : Decryptor).

Definition innerInvoke : ActivationMessage -> runM Activation :=
  Invoke unmarshalObject unmarshalError formatTime.

Definition invokeMessage : ActivationMessage -> proc (sum_op kafka_op runner_op) unit :=
  kafkaInvoke json_Marshal innerInvoke InstanceID.

(** A message whose caller waits, and has done so for longer than the cutoff. *)
Definition tooOld (msg : ActivationMessage) (now : Z) : bool :=
  IsBlocking msg && (blockingInvocationCutoff <? time_Sub now (TransactionStart msg)).

(** How a message is served. *)
Inductive served (msg : ActivationMessage) : list wevent -> Prop :=
| served_skipped blocked now :
    blocked || tooOld msg now = true ->
    served msg (WBlocked (id_Namespace (Identity msg)) blocked ::
                (if IsBlocking msg then [WNow now] else []) ++
                [WAck (ackTopic msg) (MiniCombinedCompletionMessage InstanceID (TransactionID msg)
                   (TransactionStart msg) (ActivationID msg) false)])
| served_invoked now a tr t1 t2 :
    tooOld msg now = false ->
    protocol tr -> one_of (Response a) ->
    decided_status unmarshalObject tr = Some (StatusCode (Response a)) ->
    served msg (WBlocked (id_Namespace (Identity msg)) false ::
                (if IsBlocking msg then [WNow now] else []) ++
                (WInner <$> tr ++ (if negb (IsBlocking msg) && StoreActivations (Identity msg)
                                   then [EWrite a] else [])) ++
                [WNow t1; WAck (ackTopic msg) (ackResponse json_Marshal InstanceID msg a); WNow t2]).

(** The inner runner runs as it does on its own. *)
Lemma inner_runs msg tr a tr' :
  runs invoking_observed (proc_map (fun X e => inr_op e) (innerInvoke msg)) tr a tr' ->
  exists tr0, tr' = tr ++ (WInner <$> tr0) /\ runs observed (innerInvoke msg) [] a tr0.
Proof using Type.
  intros Hr. apply (runs_map (fun X (e : runner_op X) => inr_op e) invoking_observed observed (fun tr0 => tr ++ (WInner <$> tr0))).
  - intros X e t x s. unfold invoking_observed, observed. intros ->. cbn.
    exists (t ++ events X e x). split; [|done]. by rewrite fmap_app, (assoc (++)).
  - cbn. by rewrite app_nil_r.
Qed.

(** Either the invocation is skipped, or the inner runner serves it and the answer comes last. *)
Lemma invokeMessage_runs msg tr' :
  runs invoking_observed (invokeMessage msg) [] tt tr' ->
  exists blocked now,
    let start := WBlocked (id_Namespace (Identity msg)) blocked :: (if IsBlocking msg then [WNow now] else []) in
    if blocked || tooOld msg now then
      tr' = start ++ [WAck (ackTopic msg) (MiniCombinedCompletionMessage InstanceID (TransactionID msg)
                        (TransactionStart msg) (ActivationID msg) false)]
    else exists a tr0 t1 t2, runs observed (innerInvoke msg) [] a tr0 /\
      tr' = start ++ (WInner <$> tr0) ++
            [WNow t1; WAck (ackTopic msg) (ackResponse json_Marshal InstanceID msg a); WNow t2].
Proof using Type.
  unfold invokeMessage, kafkaInvoke. cbn. intros (blocked & tr1 & -> & Hr). cbn in Hr.
  apply runs_bind in Hr as (skip & tr2 & Hskip & Hr).
  assert (exists now, tr2 = WBlocked (id_Namespace (Identity msg)) blocked ::
    (if IsBlocking msg then [WNow now] else []) /\ skip = tooOld msg now) as (now & -> & ->).
  { unfold skipInvocation, tooOld in *. destruct (IsBlocking msg); cbn in Hskip.
    - destruct Hskip as (now & tr3 & -> & <- & ->). by exists now.
    - destruct Hskip as [<- ->]. by exists 0. }
  exists blocked, now. cbv zeta. destruct (blocked || tooOld msg now).
  - cbn in Hr. destruct Hr as (x & tr3 & -> & _ & ->). done.
  - apply runs_bind in Hr as (a & tr3 & Hinv & Hr). apply inner_runs in Hinv as (tr0 & -> & Hinv).
    cbn in Hr. destruct Hr as (t1 & tr4 & -> & x & tr5 & -> & t2 & tr6 & -> & _ & ->).
    exists a, tr0, t1, t2. split; [done|]. cbn. by rewrite <- !(assoc (++)).
Qed.

Lemma invokeMessage_served msg tr' :
  runs invoking_observed (invokeMessage msg) [] tt tr' -> served msg tr'.
Proof using empty_document.
  intros (blocked & now & Hr)%invokeMessage_runs. cbv zeta in Hr.
  destruct (blocked || tooOld msg now) eqn:Eb.
  - rewrite Hr. by apply served_skipped.
  - apply orb_false_elim in Eb as [-> Hold]. destruct Hr as (a & tr0 & t1 & t2 & Hinv & ->).
    apply happens_Invoke in Hinv as (tri & -> & Hp & Ho & Hst); [|done].
    specialize (Hst []). rewrite app_nil_r in Hst. cbn [app]. by apply served_invoked.
Qed.

(** C3: A worker that reads a message from Kafka writes exactly one answer for it, last, to the
    completion topic of the controller that sent it, unless the message cannot be parsed or its parsing
    panics, which ends the program: those are the only cases without an answer. The function is not executed if the namespace is blocked, nor
    if the caller waits for a message that is too old. Otherwise the whole protocol of an invocation
    comes in between, and the answer carries the activation it ended with, marked as a system error
    exactly if that is what was decided. An error of the reader ends the worker only if it is due to
    the cancelled context. *)
Theorem worker_serves stop tr :
  runs worker_observed (workerRound invokeMessage seed decryptor) [] stop tr ->
  (exists err, tr = [WRead (Err err)] /\ stop = Done (isCanceled err)) \/
  (exists km rest, tr = WRead (Ok km) :: WOffset (i64 (km_Offset km + 1)) :: rest /\
     match ParseActivationMessage seed (km_Value km) decryptor with
     | Panics => stop = Panics /\ rest = []
     | Done (Err _) => stop = Done false /\ rest = []
     | Done (Ok msg) => stop = Done false /\ served msg rest
     end).
Proof using empty_document.
  unfold workerRound. cbn. intros (r & tr1 & -> & Hr). destruct r as [km|err].
  2: { destruct Hr as [<- ->]. left. by exists err. }
  cbn in Hr. destruct Hr as (u & tr2 & -> & Hr). cbn in Hr. right. exists km.
  destruct (ParseActivationMessage seed (km_Value km) decryptor) as [[msg|e]|].
  - apply runs_bind in Hr as ([] & tr3 & Hinv & [<- ->]).
    apply (runs_map (fun X (e : sum_op kafka_op runner_op X) => Invoking e) worker_observed invoking_observed
      (fun tr0 => [WRead (Ok km); WOffset (i64 (km_Offset km + 1))] ++ tr0) _ []) in Hinv
      as (tr0 & -> & Hinv).
    + exists tr0. split_and!; [done|done|]. by apply invokeMessage_served.
    + intros X e t x s. unfold worker_observed, invoking_observed. intros ->. cbn.
      by exists (t ++ invoking_events X e x).
  - destruct Hr as [<- ->]. by exists [].
  - destruct Hr as [<- ->]. by exists [].
Qed.
End spec.

(** ** A concrete round: a message whose function runs *)
Definition ascii_only : Unicode :=
  {| IndexLetter_u _ := None; TrimSpace_u s := s; ToUpper_u s := s; Quote_u s := s |}.

Definition invoking_handle (X : Type) (op : sum_op kafka_op runner_op X) :
    list wevent -> option (X * list wevent) :=
  match op in sum_op _ _ _ return list wevent -> option (X * list wevent) with
  | inl_op e =>
      match e in kafka_op Y return list wevent -> option (Y * list wevent) with
      | NamespaceBlocked ns => fun tr => Some (false, tr ++ [WBlocked ns false])
      | KafkaNow => fun tr => Some (0, tr ++ [WNow 0])
      | WriteMessages topic value => fun tr => Some (None, tr ++ [WAck topic value])
      end
  | inr_op e => fun tr =>
      match runner_handle None X e [] with
      | Some (x, evs) => Some (x, tr ++ (WInner <$> evs))
      | None => None
      end
  end.

Definition worker_handle (km : kafka_message) (X : Type) (op : worker_op (sum_op kafka_op runner_op) X) :
    list wevent -> option (X * list wevent) :=
  match op in worker_op _ Y return list wevent -> option (Y * list wevent) with
  | ReadMessage => fun tr => Some (Ok km, tr ++ [WRead (Ok km)])
  | StoreHighest offset => fun tr => Some (tt, tr ++ [WOffset offset])
  | Invoking e => invoking_handle _ e
  end.

Lemma worker_handle_sound km X (op : worker_op (sum_op kafka_op runner_op) X) tr x tr' :
  worker_handle km X op tr = Some (x, tr') -> worker_observed X op tr x tr'.
Proof.
  destruct op as [| |X e]; cbn; [intros ?; by simplify_eq..|].
  destruct e as [e|e]; cbn; [destruct e; cbn; intros ?; by simplify_eq|].
  destruct (runner_handle None X e []) as [[y evs]|] eqn:He; [|done].
  apply runner_handle_sound in He. unfold observed in He. intros [= <- <-]. by rewrite He.
Qed.

Module Served.
#[local] Existing Instances ascii_only Locked.documents Locked.plain_gcm.

Definition message : kafka_message := {| km_Offset := 41; km_Value := "message" |}.

(** Documents are all [{}]. *)
Definition no_documents (v : value) : result string := Ok "{}".

Definition round : proc (worker_op (sum_op kafka_op runner_op)) (outcome bool) :=
  workerRound (invokeMessage no_documents plain_document no_error_field some_time 7) 0 Locked.dec.

Definition done_ : option (outcome bool * list wevent) := attempt (worker_handle message) round [].

Definition acks (tr : list wevent) : nat :=
  List.length (List.filter (fun w => match w with WAck _ _ => true | _ => false end) tr).

Lemma served_facts :
  match done_ with
  | Some (stop, tr) => stop = Done false /\ acks tr = 1%nat /\ List.length tr = 13%nat
  | None => False
  end.
Proof. vm_compute. done. Qed.
End Served.

Lemma worker_serves_witness :
  exists tr, Served.done_ = Some (Done false, tr) /\ Served.acks tr = 1%nat /\
    exists km rest, tr = WRead (Ok km) :: WOffset (i64 (km_Offset km + 1)) :: rest.
Proof.
  pose proof Served.served_facts as Hf. destruct Served.done_ as [[stop tr]|] eqn:E; [|destruct Hf].
  destruct Hf as (-> & Hack & Hlen). exists tr. split; [reflexivity|]. split; [exact Hack|].
  destruct (worker_serves (H := ascii_only) (H0 := Locked.documents) (H1 := Locked.plain_gcm)
    Served.no_documents plain_document no_error_field some_time eq_refl 7 0 Locked.dec (Done false) tr)
    as [(err & -> & _)|(km & rest & -> & _)].
  - apply (attempt_runs (worker_handle Served.message) worker_observed
             (worker_handle_sound Served.message) Served.round [] (Done false) tr E).
  - discriminate Hlen.
  - exists km, rest. reflexivity.
Defined.
