(* ===== verification/HttpRunner.v ===== *)
(** * Invocations through HTTP

    [pkg/http/runner.go]: [Runner.ServeHTTP] around an inner runner, and what it
    does when that is the runner of [pkg/runner]. *)
From S2P Require Export KafkaSpec.

Inductive http_op : Type -> Type :=
| ReadBody : http_op (result string)
| AddHeader (key val : string) : http_op unit
| WriteHeader (status : Z) : http_op unit
  (* if the response writer is a flusher *)
| Flush : http_op unit
| HttpWrite (body : string) : http_op (option go_error).

Definition StatusOK : Z := 200.
Definition StatusBadRequest : Z := 400.
Definition StatusInternalServerError : Z := 500.

Section http.
Context `{Unicode} `{FastJSON} `{GCM} {MA : MapRange string any} {MP : MapRange string json}.
Context (json_Marshal : value -> result string).
Context {E : Type -> Type} (inner : ActivationMessage -> proc E Activation).

Notation httpM := (proc (sum_op http_op E)).
Definition http {X} (e : http_op X) : httpM X := trigger (inl_op e).

(** The body of the response. *)
Definition httpResponse (InstanceID : Z) (msg : ActivationMessage) (activation : Activation) : string :=
  let isSystemError := bool_decide (StatusCode (Response activation) = ActivationStatusCodeSystemError) in
  let mini := MiniCombinedCompletionMessage InstanceID (TransactionID msg) (TransactionStart msg)
                (ActivationID msg) isSystemError in
  if negb (IsBlocking msg) then mini
  else match marshalActivation json_Marshal activation with
       | Err _ => mini
       | Ok activationBytes =>
           CombinedCompletionMessage InstanceID (TransactionID msg) (TransactionStart msg)
             activationBytes isSystemError
       end.

(** After the message has been parsed. *)
Definition serveMessage (InstanceID : Z) (msg : ActivationMessage) : httpM unit :=
  _ ← http (AddHeader "Content-Type" "application/json");
  _ ← http (WriteHeader StatusOK);
  _ ← http Flush;
  activation ← proc_map (fun X (e : E X) => inr_op e) (inner msg);
  _ ← http (HttpWrite (httpResponse InstanceID msg activation));
  Ret tt.

(** A panic is left to the server that calls the handler. *)
Definition ServeHTTP (InstanceID : Z) (seed : nat) (decryptor : Decryptor) : httpM (outcome unit) :=
  input ← http ReadBody;
  match input with
  | Err _ => _ ← http (WriteHeader StatusInternalServerError); Ret (Done tt)
  | Ok input =>
      match ParseActivationMessage seed input decryptor with
      | Panics => Ret Panics
      | Done (Err _) => _ ← http (WriteHeader StatusBadRequest); Ret (Done tt)
      | Done (Ok msg) => _ ← serveMessage InstanceID msg; Ret (Done tt)
      end
  end.
End http.

(** ** What a client sees *)
Inductive hevent :=
| HRead (r : result string)
| HHeader (key val : string)
| HStatus (status : Z)
| HFlush
| HInner (e : event)
| HBody (body : string).

Definition http_events (X : Type) (op : sum_op http_op runner_op X) : X -> list hevent :=
  match op in sum_op _ _ _ return X -> list hevent with
  | inl_op e =>
      match e in http_op Y return Y -> list hevent with
      | ReadBody => fun r => [HRead r]
      | AddHeader k v => fun _ => [HHeader k v]
      | WriteHeader status => fun _ => [HStatus status]
      | Flush => fun _ => [HFlush]
      | HttpWrite body => fun _ => [HBody body]
      end
  | inr_op e => fun x => HInner <$> events X e x
  end.

Definition http_observed (X : Type) (op : sum_op http_op runner_op X)
    (tr : list hevent) (x : X) (tr' : list hevent) : Prop := tr' = tr ++ http_events X op x.

#[local] Arguments Invoke : simpl never.
#[local] Arguments httpResponse : simpl never.
#[local] Arguments ParseActivationMessage : simpl never.

Section spec.
Context `{Unicode} `{FastJSON} `{GCM} {MA : MapRange string any} {MP : MapRange string json}.
Context (json_Marshal : value -> result string).
Context (unmarshalObject : string -> result (option (gset string))).
Context (unmarshalError : string -> result string) (formatTime : Z -> string).
Context (empty_document : is_ok (unmarshalObject "") = false).
Context (InstanceID : Z) (seed : nat) (decryptor : Decryptor).

Definition serve : proc (sum_op http_op runner_op) (outcome unit) :=
  ServeHTTP json_Marshal (innerInvoke unmarshalObject unmarshalError formatTime)
    InstanceID seed decryptor.

(** The inner runner runs as it does on its own. *)
Lemma http_inner_runs msg tr a tr' :
  runs http_observed (proc_map (fun X e => inr_op e)
                        (innerInvoke unmarshalObject unmarshalError formatTime msg)) tr a tr' ->
  exists tr0, tr' = tr ++ (HInner <$> tr0) /\
    runs observed (innerInvoke unmarshalObject unmarshalError formatTime msg) [] a tr0.
Proof using Type.
  intros Hr. apply (runs_map (fun X (e : runner_op X) => inr_op e) http_observed observed
    (fun tr0 => tr ++ (HInner <$> tr0))).
  - intros X e t x s. unfold http_observed, observed. intros ->. cbn.
    exists (t ++ events X e x). split; [|done]. by rewrite fmap_app, (assoc (++)).
  - cbn. by rewrite app_nil_r.
Qed.

(** C30: Every request gets exactly one status, unless parsing its body panics: then the handler ends
    with that panic and has written nothing. The status is 500 if the body cannot be read, 400 if that is
    no message, and otherwise 200, sent and flushed before the function is looked at and whatever
    becomes of it. With 200 the whole protocol of an invocation follows and then exactly one body,
    the same answer that the Kafka runner would write for the activation. *)
Theorem ServeHTTP_answers r tr :
  runs http_observed serve [] r tr ->
  exists input, match input with
  | Err _ => r = Done tt /\ tr = [HRead input; HStatus StatusInternalServerError]
  | Ok body =>
      match ParseActivationMessage seed body decryptor with
      | Panics => r = Panics /\ tr = [HRead input]
      | Done (Err _) => r = Done tt /\ tr = [HRead input; HStatus StatusBadRequest]
      | Done (Ok msg) => r = Done tt /\ exists a tr0,
          tr = [HRead input; HHeader "Content-Type" "application/json"; HStatus StatusOK; HFlush] ++
               (HInner <$> tr0 ++ (if negb (IsBlocking msg) && StoreActivations (Identity msg)
                                   then [EWrite a] else [])) ++
               [HBody (ackResponse json_Marshal InstanceID msg a)] /\
          protocol tr0 /\ one_of (Response a) /\
          decided_status unmarshalObject tr0 = Some (StatusCode (Response a))
      end
  end.
Proof using empty_document.
  unfold serve, ServeHTTP. cbn. intros (input & tr1 & -> & Hr). exists input.
  destruct input as [body|err]; [|by destruct Hr as (x & tr2 & -> & <- & ->)].
  destruct (ParseActivationMessage seed body decryptor) as [[msg|e]|]; cbn in Hr.
  - destruct Hr as (x1 & tr2 & -> & x2 & tr3 & -> & x3 & tr4 & -> & Hr). cbn in Hr.
    apply runs_bind in Hr as ([] & tr' & Hr & [<- ->]).
    apply runs_bind in Hr as (a & tr5 & Hinv & Hr).
    apply http_inner_runs in Hinv as (tr0 & -> & Hinv).
    apply happens_Invoke in Hinv as (tri & -> & Hp & Ho & Hst); [|done].
    cbn in Hr. destruct Hr as (x & tr6 & -> & _ & ->). split; [done|]. exists a, tri. specialize (Hst []).
    rewrite app_nil_r in Hst. split_and!; [|done..]. done.
  - by destruct Hr as (x & tr2 & -> & <- & ->).
  - by destruct Hr as [<- ->].
Qed.
End spec.

(** ** A concrete request *)
Definition http_handle (body : string) (X : Type) (op : sum_op http_op runner_op X) :
    list hevent -> option (X * list hevent) :=
  match op in sum_op _ _ _ return list hevent -> option (X * list hevent) with
  | inl_op e =>
      match e in http_op Y return list hevent -> option (Y * list hevent) with
      | ReadBody => fun tr => Some (Ok body, tr ++ [HRead (Ok body)])
      | AddHeader k v => fun tr => Some (tt, tr ++ [HHeader k v])
      | WriteHeader status => fun tr => Some (tt, tr ++ [HStatus status])
      | Flush => fun tr => Some (tt, tr ++ [HFlush])
      | HttpWrite b => fun tr => Some (None, tr ++ [HBody b])
      end
  | inr_op e => fun tr =>
      match runner_handle (Some DeadlineExceeded) X e [] with
      | Some (x, evs) => Some (x, tr ++ (HInner <$> evs))
      | None => None
      end
  end.

Lemma http_handle_sound body X (op : sum_op http_op runner_op X) tr x tr' :
  http_handle body X op tr = Some (x, tr') -> http_observed X op tr x tr'.
Proof.
  destruct op as [e|e]; cbn; [destruct e; cbn; intros ?; by simplify_eq|].
  destruct (runner_handle _ X e []) as [[y evs]|] eqn:He; [|done].
  apply runner_handle_sound in He. unfold observed in He. intros [= <- <-]. by rewrite He.
Qed.

(** The function times out: the status was sent before. *)
Module TimedOut.
#[local] Existing Instances ascii_only Locked.documents Locked.plain_gcm.

Definition handler : proc (sum_op http_op runner_op) (outcome unit) :=
  serve Served.no_documents plain_document no_error_field some_time 7 0 Locked.dec.

Definition done_ : option (outcome unit * list hevent) := attempt (http_handle "message") handler [].

Lemma timed_out_facts :
  match done_ with
  | Some (r, tr) => r = Done tt /\ take 4 tr = [HRead (Ok "message"); HHeader "Content-Type" "application/json";
                                 HStatus StatusOK; HFlush]
  | None => False
  end.
Proof. vm_compute. done. Qed.
End TimedOut.

Lemma ServeHTTP_answers_witness :
  exists tr, TimedOut.done_ = Some (Done tt, tr) /\
    take 4 tr = [HRead (Ok "message"); HHeader "Content-Type" "application/json"; HStatus StatusOK; HFlush] /\
    exists input : result string, List.head tr = Some (HRead input).
Proof.
  pose proof TimedOut.timed_out_facts as Hf. destruct TimedOut.done_ as [[r tr]|] eqn:E; [|destruct Hf].
  destruct Hf as [-> Hf]. exists tr. split; [reflexivity|]. split; [exact Hf|].
  destruct (ServeHTTP_answers (H := ascii_only) (H0 := Locked.documents) (H1 := Locked.plain_gcm)
    Served.no_documents plain_document no_error_field some_time eq_refl 7 0 Locked.dec (Done tt) tr
    (attempt_runs (http_handle "message") http_observed (http_handle_sound "message")
       TimedOut.handler [] (Done tt) tr E)) as (input & _).
  destruct tr as [|e tr]; [discriminate Hf|]. exists (Ok "message"). injection Hf as -> _. reflexivity.
Defined.
