(* ===== verification/Offsets.v ===== *)
(** * The highest offset

    The workers of [cmd/invoker/main.go] share an atomic counter that holds the
    highest offset they have read; each of them raises it in a loop of loads and
    compare-and-swaps.  The loops, interleaved in any way, implement a counter
    that is raised to the maximum in one step. *)
From S2P Require Export Errors.

(** ** The code *)

(** Where a worker is in the loop. *)
Inductive pc :=
| Outside
  (* about to load the counter *)
| AtLoad (offset : Z)
  (* has loaded [current], which is below [offset], and is about to compare and swap *)
| AtSwap (offset current : Z).

(** One operation on the counter: its new value, and where the worker is afterwards. *)
Definition loopStep (lastOffset : Z) (p : pc) : Z * pc :=
  match p with
  | Outside => (lastOffset, Outside)
  | AtLoad offset =>
      if offset <=? lastOffset then (lastOffset, Outside) else (lastOffset, AtSwap offset lastOffset)
  | AtSwap offset current =>
      if lastOffset =? current then (offset, Outside) else (lastOffset, AtLoad offset)
  end.

(** The counter and the workers. *)
Record offsets := mkOffsets { lastOffset : Z; workers : list pc }.

(** What is observed: a worker has read a message whose offset is one less, or has stored. *)
Inductive label := Begin (i : nat) (offset : Z) | Finish (i : nat).

Inductive offsets_step : offsets -> option label -> offsets -> Prop :=
| step_begin s i offset :
    workers s !! i = Some Outside ->
    offsets_step s (Some (Begin i offset)) (mkOffsets (lastOffset s) (<[i := AtLoad offset]> (workers s)))
| step_loop s i p last' :
    workers s !! i = Some p -> p <> Outside -> loopStep (lastOffset s) p = (last', Outside) ->
    offsets_step s (Some (Finish i)) (mkOffsets last' (<[i := Outside]> (workers s)))
| step_again s i p p' last' :
    workers s !! i = Some p -> p' <> Outside -> loopStep (lastOffset s) p = (last', p') ->
    offsets_step s None (mkOffsets last' (<[i := p']> (workers s))).

(** [workers] goroutines, started before any message. *)
Definition offsets_start (n : nat) : offsets := mkOffsets 0 (replicate n Outside).

(** ** The specification: the counter is raised in one step *)
Record highest := mkHighest { maximum : Z; pending : list (option Z) }.

Inductive highest_step : highest -> label -> highest -> Prop :=
| spec_begin s i offset :
    pending s !! i = Some None ->
    highest_step s (Begin i offset) (mkHighest (maximum s) (<[i := Some offset]> (pending s)))
| spec_finish s i offset :
    pending s !! i = Some (Some offset) ->
    highest_step s (Finish i) (mkHighest (Z.max (maximum s) offset) (<[i := None]> (pending s))).

Definition highest_start (n : nat) : highest := mkHighest 0 (replicate n None).

(** Runs and what is observed of them. *)
Inductive offsets_run : offsets -> list label -> offsets -> Prop :=
| run_nil s : offsets_run s [] s
| run_silent s s1 s2 tr : offsets_step s None s1 -> offsets_run s1 tr s2 -> offsets_run s tr s2
| run_label s l s1 s2 tr : offsets_step s (Some l) s1 -> offsets_run s1 tr s2 -> offsets_run s (l :: tr) s2.

Inductive highest_run : highest -> list label -> highest -> Prop :=
| hrun_nil s : highest_run s [] s
| hrun_label s l s1 s2 tr : highest_step s l s1 -> highest_run s1 tr s2 -> highest_run s (l :: tr) s2.

(** ** The simulation *)
Definition pc_offset (p : pc) : option Z :=
  match p with Outside => None | AtLoad o => Some o | AtSwap o _ => Some o end.

Definition abstraction (s : offsets) : highest := mkHighest (lastOffset s) (pc_offset <$> workers s).

(** A loaded value is below the offset, and the counter has not fallen below it since. *)
Definition pc_ok (last : Z) (p : pc) : Prop :=
  match p with AtSwap o current => current < o /\ current <= last | _ => True end.

Definition offsets_ok (s : offsets) : Prop := Forall (pc_ok (lastOffset s)) (workers s).

Lemma pc_ok_mono last last' p : last <= last' -> pc_ok last p -> pc_ok last' p.
Proof. destruct p; cbn; lia || done. Qed.

Lemma loopStep_ok last p last' p' :
  pc_ok last p -> loopStep last p = (last', p') ->
  last <= last' /\ pc_ok last' p' /\
  (p' = Outside -> forall o, pc_offset p = Some o -> last' = Z.max last o) /\
  (p' <> Outside -> last' = last /\ pc_offset p' = pc_offset p).
Proof.
  destruct p as [|o|o c]; cbn; intros Hp Hs.
  - simplify_eq. done.
  - destruct (Z.leb_spec o last); simplify_eq; cbn; split_and!; try lia; try done.
    intros _ o' [= <-]. lia.
  - destruct (Z.eqb_spec last c); simplify_eq; cbn; split_and!; try lia; try done.
    intros _ o' [= <-]. lia.
Qed.

Lemma Forall_pc_mono last last' l : last <= last' -> Forall (pc_ok last) l -> Forall (pc_ok last') l.
Proof. intros Hle Hl. eapply Forall_impl; [exact Hl|]. intros p. by apply pc_ok_mono. Qed.

Lemma offsets_step_ok s l s' : offsets_step s l s' -> offsets_ok s -> offsets_ok s' /\ lastOffset s <= lastOffset s'.
Proof.
  unfold offsets_ok.
  intros [s0 i o Hi|s0 i p last' Hi Hp Hl|s0 i p p' last' Hi Hp Hl] Hok; cbn.
  - split; [by apply Forall_insert|lia].
  - pose proof (Forall_lookup_1 _ _ _ _ Hok Hi) as Hpi.
    destruct (loopStep_ok _ _ _ _ Hpi Hl) as (Hle & _). split; [|done].
    apply Forall_insert; [by eapply Forall_pc_mono|done].
  - pose proof (Forall_lookup_1 _ _ _ _ Hok Hi) as Hpi.
    destruct (loopStep_ok _ _ _ _ Hpi Hl) as (Hle & Hp' & _). split; [|done].
    apply Forall_insert; [by eapply Forall_pc_mono|done].
Qed.

(** Each observed step is the step of the specification, the others are invisible. *)
Lemma offsets_simulation s l s' :
  offsets_step s l s' -> offsets_ok s ->
  match l with
  | Some l => highest_step (abstraction s) l (abstraction s')
  | None => abstraction s' = abstraction s
  end.
Proof.
  unfold offsets_ok, abstraction.
  intros [s0 i o Hi|s0 i p last' Hi Hp Hl|s0 i p p' last' Hi Hp Hl] Hok; cbn.
  - rewrite list_fmap_insert. apply (spec_begin (mkHighest _ _)). cbn. by rewrite list_lookup_fmap, Hi.
  - pose proof (Forall_lookup_1 _ _ _ _ Hok Hi) as Hpi.
    destruct (loopStep_ok _ _ _ _ Hpi Hl) as (_ & _ & Hmax & _).
    destruct (pc_offset p) as [o|] eqn:Ho; [|by destruct p].
    rewrite list_fmap_insert, (Hmax eq_refl o eq_refl).
    apply (spec_finish (mkHighest _ _) i o). cbn. rewrite list_lookup_fmap, Hi. cbn. by rewrite Ho.
  - pose proof (Forall_lookup_1 _ _ _ _ Hok Hi) as Hpi.
    destruct (loopStep_ok _ _ _ _ Hpi Hl) as (_ & _ & _ & Hsame). destruct (Hsame Hp) as [-> Ho].
    f_equal. rewrite list_fmap_insert. apply list_insert_id. rewrite list_lookup_fmap, Hi. cbn. by rewrite Ho.
Qed.

Lemma offsets_run_refines s tr s' :
  offsets_run s tr s' -> offsets_ok s ->
  highest_run (abstraction s) tr (abstraction s') /\ offsets_ok s'.
Proof.
  induction 1 as [s|s s1 s2 tr Hs Hr IH|s l s1 s2 tr Hs Hr IH]; intros Hok.
  - split; [constructor|done].
  - destruct (offsets_step_ok _ _ _ Hs Hok) as [Hok1 _]. destruct (IH Hok1) as [IH1 IH2].
    split; [|done]. by rewrite <- (offsets_simulation _ _ _ Hs Hok).
  - destruct (offsets_step_ok _ _ _ Hs Hok) as [Hok1 _]. destruct (IH Hok1) as [IH1 IH2].
    split; [|done]. econstructor; [|done]. by apply (offsets_simulation _ _ _ Hs Hok).
Qed.

(** ** Progress *)

(** How far a worker is from leaving the loop. *)
Definition distance (last : Z) (p : pc) : Z :=
  match p with
  | Outside => 0
  | AtLoad o => 2 * Z.max 0 (o - last) + 2
  | AtSwap o c => if c =? last then 2 * Z.max 0 (o - last) + 1 else 2 * Z.max 0 (o - last) + 3
  end.

Definition work (s : offsets) : Z := sumZ (distance (lastOffset s)) (workers s).

Lemma distance_nonneg last p : 0 <= distance last p.
Proof. destruct p as [|o|o c]; cbn; [lia..|]. destruct (c =? last); lia. Qed.

Lemma distance_mono last last' p :
  last <= last' -> pc_ok last p -> distance last' p <= distance last p.
Proof.
  destruct p as [|o|o c]; cbn; intros Hle Hok; [lia..|].
  destruct (Z.eqb_spec c last), (Z.eqb_spec c last'); lia.
Qed.

Lemma loopStep_distance last p last' p' :
  pc_ok last p -> p <> Outside -> loopStep last p = (last', p') -> distance last' p' < distance last p.
Proof.
  destruct p as [|o|o c]; cbn; intros Hok Hp Hl; [done|..].
  - destruct (Z.leb_spec o last); simplify_eq; cbn; [lia|]. rewrite Z.eqb_refl. lia.
  - destruct (Z.eqb_spec last c), (Z.eqb_spec c last); simplify_eq; cbn; lia.
Qed.

Lemma sumZ_insert_lt last last' l i p p' :
  last <= last' -> Forall (pc_ok last) l -> l !! i = Some p -> distance last' p' < distance last p ->
  sumZ (distance last') (<[i := p']> l) < sumZ (distance last) l.
Proof.
  intros Hle Hok Hi Hlt.
  assert (Hs : forall m : list pc, Forall (pc_ok last) m ->
    sumZ (distance last') m <= sumZ (distance last) m).
  { intros m Hm. apply sumZ_le. intros x Hx. apply distance_mono; [done|].
    by apply (proj1 (Forall_forall _ _) Hm). }
  pose proof (lookup_lt_Some _ _ _ Hi) as Hlen. rewrite insert_take_drop by done.
  pose proof (take_drop_middle l i p Hi) as Hl. rewrite <- Hl in Hok.
  apply Forall_app in Hok as [H1 H2]. apply Forall_cons in H2 as [_ H2].
  apply Hs in H1, H2. rewrite <- (f_equal (sumZ (distance last)) Hl), !sumZ_app, !sumZ_cons. lia.
Qed.

Lemma work_decreases s l s' :
  offsets_step s l s' -> offsets_ok s -> (forall i o, l <> Some (Begin i o)) -> 0 <= work s' < work s.
Proof.
  unfold work, offsets_ok.
  intros [s0 i o Hi|s0 i p last' Hi Hp Hl|s0 i p p' last' Hi Hp Hl] Hok Hb; cbn;
    [by destruct (Hb i o)|..];
    pose proof (Forall_lookup_1 _ _ _ _ Hok Hi) as Hpi;
    destruct (loopStep_ok _ _ _ _ Hpi Hl) as (Hle & _);
    (split; [apply sumZ_nonneg; intros; apply distance_nonneg|]);
    apply (sumZ_insert_lt _ _ _ _ p); try done.
  - by apply loopStep_distance.
  - apply loopStep_distance; [done| |done]. destruct p; [|done..]. cbn in Hl. by simplify_eq.
Qed.

(** ** What the counter holds *)
Definition begun (tr : list label) : list Z :=
  omap (fun l => match l with Begin _ o => Some o | Finish _ => None end) tr.

Lemma foldr_max_comm m x l : foldr Z.max (Z.max m x) l = Z.max x (foldr Z.max m l).
Proof. induction l as [|y l IH]; cbn; lia. Qed.

Lemma foldr_max_le m l : m <= foldr Z.max m l.
Proof. induction l as [|y l IH]; cbn; lia. Qed.

Lemma omap_insert_none (l : list (option Z)) i x m :
  l !! i = Some None -> foldr Z.max m (omap id (<[i := Some x]> l)) = Z.max x (foldr Z.max m (omap id l)).
Proof.
  revert i. induction l as [|y l IH]; intros [|i]; cbn; [done..| |].
  - by intros [= ->].
  - intros Hi. destruct y as [y|]; cbn; rewrite IH by done; lia.
Qed.

Lemma omap_insert_some (l : list (option Z)) i x m :
  l !! i = Some (Some x) ->
  foldr Z.max (Z.max m x) (omap id (<[i := None]> l)) = foldr Z.max m (omap id l).
Proof.
  revert i. induction l as [|y l IH]; intros [|i]; cbn; [done..| |].
  - intros [= ->]. cbn. apply foldr_max_comm.
  - intros Hi. destruct y as [y|]; cbn; by rewrite IH.
Qed.

Lemma highest_run_max s tr s' :
  highest_run s tr s' ->
  foldr Z.max (maximum s') (omap id (pending s')) =
  foldr Z.max (foldr Z.max (maximum s) (omap id (pending s))) (begun tr).
Proof.
  induction 1 as [s|s l s1 s2 tr Hs Hr IH]; [done|]. rewrite IH.
  destruct Hs as [s i o Hi|s i o Hi]; cbn.
  - rewrite omap_insert_none by done. rewrite Z.max_comm, foldr_max_comm. done.
  - by rewrite omap_insert_some.
Qed.

(** Steps that do not begin anything. *)
Inductive steps_only : nat -> offsets -> offsets -> Prop :=
| only_0 s : steps_only 0 s s
| only_S n s l s1 s2 :
    offsets_step s l s1 -> (forall i o, l <> Some (Begin i o)) -> steps_only n s1 s2 -> steps_only (S n) s s2.

Lemma steps_only_bounded n s s' : steps_only n s s' -> offsets_ok s -> Z.of_nat n <= work s.
Proof.
  induction 1 as [s|n s l s1 s2 Hs Hb Hr IH]; intros Hok.
  - apply sumZ_nonneg. intros. apply distance_nonneg.
  - destruct (offsets_step_ok _ _ _ Hs Hok) as [Hok1 _]. specialize (IH Hok1).
    pose proof (work_decreases _ _ _ Hs Hok Hb). lia.
Qed.

Lemma steps_only_mono n s s' : steps_only n s s' -> offsets_ok s -> lastOffset s <= lastOffset s'.
Proof.
  induction 1 as [s|n s l s1 s2 Hs Hb Hr IH]; intros Hok; [lia|].
  destruct (offsets_step_ok _ _ _ Hs Hok) as [Hok1 Hle]. specialize (IH Hok1). lia.
Qed.

Lemma offsets_run_mono s tr s' : offsets_run s tr s' -> offsets_ok s -> lastOffset s <= lastOffset s'.
Proof.
  induction 1 as [s|s s1 s2 tr Hs Hr IH|s l s1 s2 tr Hs Hr IH]; intros Hok; [lia|..];
    destruct (offsets_step_ok _ _ _ Hs Hok) as [Hok1 Hle]; specialize (IH Hok1); lia.
Qed.

Lemma omap_none_replicate n : omap id (replicate n (@None Z)) = [].
Proof. induction n; cbn; done. Qed.

Lemma offsets_start_ok n : offsets_ok (offsets_start n).
Proof. unfold offsets_ok. cbn. by apply Forall_replicate. Qed.

Lemma abstraction_start n : abstraction (offsets_start n) = highest_start n.
Proof. unfold abstraction, highest_start. cbn. by rewrite fmap_replicate. Qed.

(** C26: However the workers' loops interleave, they look to an observer like workers that raise the
    counter to the maximum in a single step between reading a message and going on; the counter is
    never above the greatest offset that was read nor ever falls, and is exactly the greatest once
    no worker is in its loop. No schedule keeps workers in their loops: without new messages there
    are at most as many steps as the distances of the offsets from the counter allow. *)
Theorem lastOffset_refines_maximum n tr s :
  offsets_run (offsets_start n) tr s ->
  highest_run (highest_start n) tr (abstraction s) /\
  0 <= lastOffset s <= foldr Z.max 0 (begun tr) /\
  (Forall (eq Outside) (workers s) -> lastOffset s = foldr Z.max 0 (begun tr)) /\
  (forall k s', steps_only k s s' -> Z.of_nat k <= work s /\ lastOffset s <= lastOffset s').
Proof.
  intros Hr. destruct (offsets_run_refines _ _ _ Hr (offsets_start_ok n)) as [Hh Hok].
  rewrite abstraction_start in Hh. pose proof (highest_run_max _ _ _ Hh) as Hm. cbn in Hm.
  rewrite omap_none_replicate in Hm. cbn in Hm. split_and!.
  - done.
  - apply (offsets_run_mono _ _ _ Hr (offsets_start_ok n)).
  - rewrite <- Hm. apply foldr_max_le.
  - intros Hout. rewrite <- Hm. replace (omap id (pc_offset <$> workers s)) with (@nil Z); [done|].
    clear Hm. induction Hout as [|p l <- Hl IH]; [done|exact IH].
  - intros k s' Hk. split; [by eapply steps_only_bounded|by eapply steps_only_mono].
Qed.

(** Two workers; the second reads a lower offset, loads the counter before the first has stored, fails
    to swap and gives up. *)
Lemma lastOffset_refines_maximum_witness :
  let s := mkOffsets 8 [Outside; Outside] in
  offsets_run (offsets_start 2) [Begin 0 8; Begin 1 5; Finish 0; Finish 1] s /\ lastOffset s = 8.
Proof.
  intros s.
  assert (Hr : offsets_run (offsets_start 2) [Begin 0 8; Begin 1 5; Finish 0; Finish 1] s).
  { eapply run_label; [apply (step_begin _ 0); reflexivity|].
    eapply run_label; [apply (step_begin _ 1); reflexivity|].
    eapply run_silent; [apply (step_again _ 0 (AtLoad 8) (AtSwap 8 0) 0); [reflexivity|discriminate|reflexivity]|].
    eapply run_silent; [apply (step_again _ 1 (AtLoad 5) (AtSwap 5 0) 0); [reflexivity|discriminate|reflexivity]|].
    eapply run_label; [apply (step_loop _ 0 (AtSwap 8 0) 8); [reflexivity|discriminate|reflexivity]|].
    eapply run_silent; [apply (step_again _ 1 (AtSwap 5 0) (AtLoad 5) 8); [reflexivity|discriminate|reflexivity]|].
    eapply run_label; [apply (step_loop _ 1 (AtLoad 5) 8); [reflexivity|discriminate|reflexivity]|].
    apply run_nil. }
  split; [exact Hr|].
  destruct (lastOffset_refines_maximum 2 _ s Hr) as (_ & _ & Hq & _).
  apply Hq. repeat constructor.
Defined.
