(* ===== verification/KafkaSetup.v ===== *)
(** * Setting up Kafka and TLS

    [pkg/tls/tls.go] and the rest of [pkg/kafka/kafka.go]: the configurations of
    the writer, the reader and the client, and the creation of the invoker's
    topic over connections that are closed by deferred calls. *)
From S2P Require Export Units Entities.

Local Open Scope go_scope.

(** ** TLS

    [x509.CertPool.AppendCertsFromPEM]: the pool afterwards, and whether there was a certificate. *)
Class PEM := {
  certificate : Type;
  AppendCertsFromPEM : list certificate -> string -> list certificate * bool
}.

(** What is used of a [tls.Config]; copied by [Clone]. *)
Record tls_config `{PEM} := { MinVersion : Z; RootCAs : list certificate; ServerName : string }.

Definition VersionTLS12 : Z := 0x0303.
Definition clusterCACertPath : string := "/certs/ca.crt".
Definition tlsServerName : string := "kafka.openwhisk.svc.cluster.local".

Section setup.
Context `{PEM}.

(** Given the pool of the system and the contents of the file of certificates. *)
Definition GetClusterTLSConfig (SystemCertPool : result (list certificate)) (ReadFile : string -> result string) :
    result tls_config :=
  let pool := match SystemCertPool with Ok pool => pool | Err _ => [] end in
  match ReadFile clusterCACertPath with
  | Err err => Err (Errorf "failed to read cluster CA cert: %w" [err])
  | Ok crt =>
      let '(pool, ok) := AppendCertsFromPEM pool crt in
      if ok then Ok {| MinVersion := VersionTLS12; RootCAs := pool; ServerName := "" |}
      else Err (ErrText "failed to append cert to pool")
  end.

Definition kafkaTLSConfig (tlsConfig : tls_config) : tls_config :=
  {| MinVersion := MinVersion tlsConfig; RootCAs := RootCAs tlsConfig; ServerName := tlsServerName |}.

(** ** Configurations *)
Definition connectionTimeout : Z := 10 * Second.
Definition invokerMaxMessageSize : Z := 2 * Megabyte.
Definition Hour : Z := 3600 * Second.

Record kafka_transport := { tr_DialTimeout : Z; tr_TLS : tls_config }.
Record kafka_writer_config :=
  { wc_Addr : string; wc_Transport : kafka_transport; BatchBytes : Z; BatchSize : Z; wc_MaxAttempts : Z }.
Record kafka_reader_config := {
  rc_Dialer : kafka_transport; Brokers : list string; GroupID : string; rc_Topic : string;
  MinBytes : Z; MaxBytes : Z; MaxWait : Z; rc_MaxAttempts : Z; StartOffset : Z; RetentionTime : Z
}.
Record kafka_client_config := { kc_Addr : string; kc_Transport : kafka_transport }.

Definition LastOffset_ : Z := -1.

Definition transport (tlsConfig : tls_config) : kafka_transport :=
  {| tr_DialTimeout := connectionTimeout; tr_TLS := kafkaTLSConfig tlsConfig |}.

Definition NewKafkaWriter (host : string) (tlsConfig : tls_config) : kafka_writer_config :=
  {| wc_Addr := host; wc_Transport := transport tlsConfig;
     BatchBytes := i64 invokerMaxMessageSize; BatchSize := 1; wc_MaxAttempts := 10 |}.

Definition NewKafkaReader (host topic : string) (tlsConfig : tls_config) : kafka_reader_config :=
  {| rc_Dialer := transport tlsConfig; Brokers := [host]; GroupID := topic; rc_Topic := topic;
     MinBytes := 1; MaxBytes := i64 invokerMaxMessageSize; MaxWait := 500 * Millisecond;
     rc_MaxAttempts := 10; StartOffset := LastOffset_; RetentionTime := 7 * 24 * Hour |}.

Definition NewKafkaClient (host : string) (tlsConfig : tls_config) : kafka_client_config :=
  {| kc_Addr := host; kc_Transport := transport tlsConfig |}.

(** ** Topics *)
Record topic_config := {
  tc_Topic : string; NumPartitions : Z; ReplicationFactor : Z; ConfigEntries : list (string * string)
}.

Definition invokerTopic (topic : string) : topic_config :=
  {| tc_Topic := topic; NumPartitions := 1; ReplicationFactor := 1;
     ConfigEntries := [
       ("max.message.bytes", fmt_d (i64 invokerMaxMessageSize));
       ("segment.bytes", fmt_d (i64 (512 * Megabyte)));
       ("retention.bytes", fmt_d (i64 (1 * Gigabyte)));
       ("retention.ms", fmt_d (i64 (Z.quot (48 * Hour) Millisecond)))] |}.

(** Calls on connections, which are numbered as they are opened. *)
Inductive topic_op : Type -> Type :=
| Dial (dialer : kafka_transport) (address : string) : topic_op (result nat)
| Controller (conn : nat) : topic_op (result (string * Z))
| CreateTopics (conn : nat) (topic : topic_config) : topic_op (option go_error)
| Close (conn : nat) : topic_op (option go_error).

(** [net.JoinHostPort]. *)
Definition JoinHostPort (host port : string) : string :=
  if forall_str (fun c => negb (Ascii.eqb c ":")) host
  then host +:+ ":" +:+ port else "[" +:+ host +:+ "]:" +:+ port.

(** From the second connection on. *)
Definition createOnController (dialer : kafka_transport) (controller : string * Z) (topic : topic_config) :
    proc topic_op (option go_error) :=
  r ← trigger (Dial dialer (JoinHostPort controller.1 (fmt_d controller.2)));
  match r with
  | Err err => Ret (Some (Errorf "failed to connect to controller to create topic: %w" [err]))
  | Ok controllerConn =>
      err ← trigger (CreateTopics controllerConn topic);
      _ ← trigger (Close controllerConn);
      Ret match err with
          | Some err => Some (Errorf "failed to create topic: %w" [err])
          | None => None
          end
  end.

Definition CreateTopic (host : string) (tlsConfig : tls_config) (topic : topic_config) :
    proc topic_op (option go_error) :=
  let dialer := transport tlsConfig in
  conn ← trigger (Dial dialer host);
  match conn with
  | Err err => Ret (Some (Errorf "failed to connect to kafka to create topic: %w" [err]))
  | Ok conn =>
      controller ← trigger (Controller conn);
      result ← match controller with
               | Err err => Ret (Some (Errorf "failed to get controller of the kafka cluster: %w" [err]))
               | Ok controller => createOnController dialer controller topic
               end;
      _ ← trigger (Close conn);
      Ret result
  end.

Definition CreateInvokerTopic (host : string) (tlsConfig : tls_config) (topic : string) :
    proc topic_op (option go_error) :=
  r ← CreateTopic host tlsConfig (invokerTopic topic);
  Ret match r with
      | Some err => Some (Errorf "failed to create invoker topic: %w" [err])
      | None => None
      end.

(** ** Connections

    The addresses of the open ones by their numbers, the next number, the answers to questions for the
    controller, the requests to create a topic, with where each was sent and its answer, and whether a
    connection was used or closed that was not open. *)
Record network := {
  opened : gmap nat string; nextConn : nat; controllers : list (result (string * Z));
  requests : list (string * topic_config * option go_error); misused : bool
}.

Definition with_conn (w : network) (address : string) : network :=
  {| opened := <[nextConn w := address]> (opened w); nextConn := S (nextConn w);
     controllers := controllers w; requests := requests w; misused := misused w |}.
Definition without_conn (w : network) (conn : nat) : network :=
  {| opened := delete conn (opened w); nextConn := nextConn w; controllers := controllers w;
     requests := requests w; misused := misused w |}.
Definition with_controller (w : network) (r : result (string * Z)) : network :=
  {| opened := opened w; nextConn := nextConn w; controllers := controllers w ++ [r];
     requests := requests w; misused := misused w |}.
Definition with_request (w : network) (address : string) (topic : topic_config) (r : option go_error) : network :=
  {| opened := opened w; nextConn := nextConn w; controllers := controllers w;
     requests := requests w ++ [(address, topic, r)]; misused := misused w |}.
Definition misuse (w : network) : network :=
  {| opened := opened w; nextConn := nextConn w; controllers := controllers w; requests := requests w;
     misused := true |}.

(** Calls have any answer. What a request to create a topic does at the controller is not modelled: it
    succeeds without effect if the topic exists, and a failed one may still have created it. *)
Definition network_step (X : Type) (op : topic_op X) (w : network) : X -> network -> Prop :=
  match op in topic_op Y return Y -> network -> Prop with
  | Dial _ address => fun r w' =>
      (r = Ok (nextConn w) /\ w' = with_conn w address) \/ (exists err, r = Err err /\ w' = w)
  | Controller conn => fun r w' => w' = if opened w !! conn then with_controller w r else misuse w
  | CreateTopics conn topic => fun r w' =>
      w' = match opened w !! conn with
           | Some address => with_request w address topic r
           | None => misuse w
           end
  | Close conn => fun _ w' => w' = if opened w !! conn then without_conn w conn else misuse w
  end.

Notation runs_net p w r w' := (runs network_step p w r w').

Definition fresh_next (w : network) : Prop := forall n, is_Some (opened w !! n) -> (n < nextConn w)%nat.

Lemma fresh_with_conn w address : fresh_next w -> fresh_next (with_conn w address).
Proof using.
  intros Hw n. cbn. destruct (decide (n = nextConn w)) as [->|Hn]; [lia|].
  rewrite lookup_insert_ne by done. intros Hs%Hw. lia.
Qed.

Lemma fresh_lookup w : fresh_next w -> opened w !! nextConn w = None.
Proof using. intros Hw. apply eq_None_not_Some. intros Hs%Hw. lia. Qed.

(** The connections are as they were before, and none was misused. *)
Definition untouched (w w' : network) : Prop :=
  opened w' = opened w /\ misused w' = misused w /\ (nextConn w <= nextConn w')%nat.

(** What was sent to the controller and what was reported. *)
Definition reported (topic : topic_config) (controller : string * Z)
    (sent : list (string * topic_config * option go_error)) (r : option go_error) : Prop :=
  let request := (JoinHostPort controller.1 (fmt_d controller.2), topic) in
  match r with
  | None => sent = [(request, None)]
  | Some _ => sent = [] \/ exists err, sent = [(request, Some err)]
  end.

(** Nothing is left of what a program did, apart from its question for the controller and its request. *)
Definition tidy (topic : topic_config) (w : network) (r : option go_error) (w' : network) : Prop :=
  untouched w w' /\
  exists asked sent, controllers w' = controllers w ++ asked /\ requests w' = requests w ++ sent /\
    match asked with
    | [Ok controller] => reported topic controller sent r
    | _ => is_Some r /\ sent = []
    end.

Lemma createOnController_sends dialer controller topic w r w' :
  fresh_next w -> runs_net (createOnController dialer controller topic) w r w' ->
  untouched w w' /\ controllers w' = controllers w /\
  exists sent, requests w' = requests w ++ sent /\ reported topic controller sent r.
Proof using.
  intros Hw. unfold createOnController, untouched. cbn. intros (c & w1 & [[-> ->]|(err & -> & ->)] & Hr); cbn in Hr.
  - destruct Hr as (e & w2 & -> & e' & w3 & -> & <- & ->). cbn. rewrite lookup_insert_eq. cbn.
    rewrite lookup_insert_eq. cbn. rewrite delete_insert_id by by apply fresh_lookup. split_and!; [done|done|lia|done|].
    eexists. split; [done|]. destruct e; cbn; eauto.
  - destruct Hr as [<- ->]. split_and!; [done..|]. exists []. rewrite app_nil_r. cbn. auto.
Qed.

Lemma tidy_error topic w e e' w' : tidy topic w (Some e) w' -> tidy topic w (Some e') w'.
Proof using.
  intros (Hu & asked & sent & Hc & Hs & Ha). split; [done|]. exists asked, sent. split_and!; [done..|].
  destruct asked as [|[c|c] [|]]; cbn in *; try done; by destruct Ha.
Qed.

(** C29: creating the topic of an invoker, wherever it fails, uses only connections that are open, closes
    each one that it opened exactly once and no others, and asks the controller that it was told of, and
    no other, at most once to create the topic with its configuration. It reports success exactly if that
    controller was asked and answered without an error; otherwise it reports an error. *)
Theorem CreateInvokerTopic_tidy host tlsConfig topic w r w' :
  fresh_next w -> runs_net (CreateInvokerTopic host tlsConfig topic) w r w' ->
  tidy (invokerTopic topic) w r w'.
Proof using.
  intros Hw Hr. unfold CreateInvokerTopic in Hr. apply runs_bind in Hr as (r1 & w1 & Hr & [<- ->]).
  assert (Ht : tidy (invokerTopic topic) w r1 w1);
    [|destruct r1; [by eapply tidy_error|done]].
  unfold CreateTopic in Hr. cbn in Hr. destruct Hr as (conn & w2 & [[-> ->]|(err & -> & ->)] & Hr); cbn in Hr;
    [|destruct Hr as [<- ->]; split; [done|]; exists [], []; rewrite !app_nil_r; eauto 6].
  destruct Hr as (controller & w3 & -> & Hr). rewrite lookup_insert_eq in Hr.
  apply runs_bind in Hr as (res & w4 & Hres & Hr). cbn in Hr. destruct Hr as (e & w5 & -> & -> & ->).
  set (w3 := with_controller _ _) in *.
  assert (Hin : untouched w3 w4 /\ controllers w4 = controllers w3 /\ exists sent,
    requests w4 = requests w3 ++ sent /\
    match controller with Ok controller => reported (invokerTopic topic) controller sent r1
    | Err _ => is_Some r1 /\ sent = [] end).
  { destruct controller as [controller|err].
    - eapply createOnController_sends; [|exact Hres]. by apply (fresh_with_conn w host).
    - destruct Hres as [<- ->]. split_and!; [done..|]. exists []. rewrite app_nil_r. eauto. }
  destruct Hin as ((H1 & H2 & H3) & H4 & sent & H5 & H6). rewrite H1. cbn. rewrite lookup_insert_eq.
  unfold tidy, untouched. cbn in *. rewrite H1, H2, delete_insert_id by by apply fresh_lookup.
  split_and!; [done..|lia|]. exists [controller], sent. by destruct controller.
Qed.

(** The sizes and times that have to fit together: what the writers and the topic accept and the reader
    reads is the same, two megabytes, more than one for each way; a segment and the whole topic hold it
    many times; offsets outlive the messages they point to. *)
Lemma kafka_limits_agree host topic tlsConfig :
  let limit := MaxBytes (NewKafkaReader host topic tlsConfig) in
  BatchBytes (NewKafkaWriter host tlsConfig) = limit /\ 1 * Megabyte < limit /\
  ("max.message.bytes", fmt_d limit) ∈ ConfigEntries (invokerTopic topic) /\
  ("segment.bytes", fmt_d (256 * limit)) ∈ ConfigEntries (invokerTopic topic) /\
  ("retention.bytes", fmt_d (512 * limit)) ∈ ConfigEntries (invokerTopic topic) /\
  exists ms, ("retention.ms", fmt_d ms) ∈ ConfigEntries (invokerTopic topic) /\
    ms * Millisecond < RetentionTime (NewKafkaReader host topic tlsConfig).
Proof using.
  cbv zeta. split_and!; [done|done|..].
  - apply list_elem_of_In. by left.
  - apply list_elem_of_In. right. by left.
  - apply list_elem_of_In. do 2 right. by left.
  - exists (48 * 3600 * 1000). split; [|done]. apply list_elem_of_In. do 3 right. by left.
Qed.
End setup.

(** ** A concrete setup *)
Definition one_certificate : PEM :=
  {| certificate := string; AppendCertsFromPEM pool crt := if bool_decide (crt = "") then (pool, false) else (pool ++ [crt], true) |}.
#[local] Existing Instance one_certificate.

Example GetClusterTLSConfig_cases :
  GetClusterTLSConfig (Ok ["root"]) (fun _ => Ok "ca") =
    Ok {| MinVersion := VersionTLS12; RootCAs := ["root"; "ca"]; ServerName := "" |} /\
  GetClusterTLSConfig (Err (ErrText "unsupported")) (fun _ => Ok "ca") =
    Ok {| MinVersion := VersionTLS12; RootCAs := ["ca"]; ServerName := "" |} /\
  is_ok (GetClusterTLSConfig (Ok ["root"]) (fun _ => Ok "")) = false.
Proof. split_and!; reflexivity. Qed.

Definition some_tls : tls_config := {| MinVersion := VersionTLS12; RootCAs := ["ca"]; ServerName := "" |}.
Definition no_network : network := {| opened := ∅; nextConn := 0; controllers := []; requests := []; misused := false |}.

Lemma CreateInvokerTopic_tidy_witness :
  exists w', runs network_step (CreateInvokerTopic "kafka:9093" some_tls "invoker0") no_network None w' /\
    tidy (invokerTopic "invoker0") no_network None w' /\ opened w' = ∅.
Proof.
  assert (Hw : fresh_next no_network) by (intros n [x Hx]; discriminate Hx).
  assert (Hr : exists w', runs network_step (CreateInvokerTopic "kafka:9093" some_tls "invoker0") no_network None w').
  { eexists. exists (Ok 0%nat). eexists. split; [left; split; reflexivity|].
    exists (Ok ("broker", 9093)). eexists. split; [reflexivity|].
    exists (Ok 1%nat). eexists. split; [left; split; reflexivity|].
    exists None. eexists. split; [reflexivity|]. exists None. eexists. split; [reflexivity|].
    exists None. eexists. split; [reflexivity|]. split; reflexivity. }
  destruct Hr as [w' Hr]. exists w'. split; [exact Hr|].
  pose proof (CreateInvokerTopic_tidy "kafka:9093" some_tls "invoker0" no_network None w' Hw Hr) as Ht.
  split; [exact Ht|]. apply Ht.
Defined.
