(* ===== verification/Urls.v ===== *)
(** * Escaping in URLs

    [url.PathEscape], [url.QueryEscape] and [url.PathUnescape] of the standard
    library. *)
From S2P Require Export GoStrings.

Inductive encoding := encodePathSegment | encodeQueryComponent.

Definition alphanumeric (c : ascii) : bool :=
  in_range "a" "z" c || in_range "A" "Z" c || in_range "0" "9" c.

Fixpoint one_of_chars (c : ascii) (s : string) : bool :=
  match s with
  | EmptyString => false
  | String d s' => Ascii.eqb c d || one_of_chars c s'
  end.

Definition shouldEscape (c : ascii) (mode : encoding) : bool :=
  if alphanumeric c || one_of_chars c "-_.~" then false
  else if one_of_chars c "$&+,/:;=?@" then
    match mode with
    | encodePathSegment => one_of_chars c "/;,?"
    | encodeQueryComponent => true
    end
  else true.

Definition upperhex (z : Z) : ascii :=
  Ascii.ascii_of_N (Z.to_N (if z <? 10 then 48 + z else 55 + z)).

Definition escape_char (mode : encoding) (c : ascii) : string :=
  match mode with
  | encodeQueryComponent => if Ascii.eqb c " " then "+" else
      if shouldEscape c mode
      then String "%" (String (upperhex (ascii_Z c / 16)) (String (upperhex (ascii_Z c mod 16)) ""))
      else String c ""
  | encodePathSegment =>
      if shouldEscape c mode
      then String "%" (String (upperhex (ascii_Z c / 16)) (String (upperhex (ascii_Z c mod 16)) ""))
      else String c ""
  end.

Fixpoint escape (mode : encoding) (s : string) : string :=
  match s with
  | EmptyString => EmptyString
  | String c s' => escape_char mode c +:+ escape mode s'
  end.

Definition PathEscape : string -> string := escape encodePathSegment.
Definition QueryEscape : string -> string := escape encodeQueryComponent.

Definition unhex (c : ascii) : option Z :=
  if in_range "0" "9" c then Some (ascii_Z c - 48)
  else if in_range "a" "f" c then Some (ascii_Z c - 87)
  else if in_range "A" "F" c then Some (ascii_Z c - 55)
  else None.

(** [None] is an [EscapeError]. *)
Fixpoint PathUnescape (s : string) : option string :=
  match s with
  | EmptyString => Some ""
  | String c s' =>
      if Ascii.eqb c "%" then
        match s' with
        | String a (String b s'') =>
            match unhex a, unhex b, PathUnescape s'' with
            | Some x, Some y, Some t => Some (String (Ascii.ascii_of_N (Z.to_N (16 * x + y))) t)
            | _, _, _ => None
            end
        | _ => None
        end
      else match PathUnescape s' with Some t => Some (String c t) | None => None end
  end.

Definition space_to_plus (c : ascii) : ascii := if Ascii.eqb c " " then "+" else c.

(** ** All 256 characters *)
Definition all_ascii : list ascii := Ascii.ascii_of_nat <$> seq 0 256.

Lemma all_ascii_complete c : In c all_ascii.
Proof.
  unfold all_ascii. apply in_map_iff. exists (Ascii.nat_of_ascii c). split.
  - apply Ascii.ascii_nat_embedding.
  - apply in_seq. pose proof (Ascii.nat_ascii_bounded c). lia.
Qed.

(** What one escaped character is read back as, whatever follows. *)
Definition reads_as (mode : encoding) (c : ascii) : ascii :=
  match mode with encodePathSegment => c | encodeQueryComponent => space_to_plus c end.

Definition read_check (mode : encoding) (c : ascii) : bool :=
  match escape_char mode c with
  | String p (String a (String b EmptyString)) =>
      Ascii.eqb p "%" &&
      match unhex a, unhex b with
      | Some x, Some y => Ascii.eqb (Ascii.ascii_of_N (Z.to_N (16 * x + y))) (reads_as mode c)
      | _, _ => false
      end
  | String d EmptyString => negb (Ascii.eqb d "%") && Ascii.eqb d (reads_as mode c)
  | _ => false
  end.

Lemma read_check_all mode : forallb (read_check mode) all_ascii = true.
Proof. destruct mode; vm_compute; done. Qed.

Lemma PathUnescape_escape_char mode c s :
  PathUnescape (escape_char mode c +:+ s) =
  match PathUnescape s with Some t => Some (String (reads_as mode c) t) | None => None end.
Proof.
  pose proof (read_check_all mode) as Hall. rewrite forallb_forall in Hall.
  specialize (Hall c (all_ascii_complete c)). unfold read_check in Hall.
  destruct (escape_char mode c) as [|p [|a [|b [|? ?]]]]; try done.
  - apply andb_prop in Hall as [H1 H2]. apply negb_true_iff in H1. apply Ascii.eqb_eq in H2.
    change (String p "" +:+ s) with (String p s). cbn [PathUnescape]. by rewrite H1, H2.
  - apply andb_prop in Hall as [H1 H2].
    change (String p (String a (String b "")) +:+ s) with (String p (String a (String b s))).
    cbn [PathUnescape]. rewrite H1. destruct (unhex a) as [x|], (unhex b) as [y|]; try done.
    apply Ascii.eqb_eq in H2. by rewrite H2.
Qed.

Lemma PathUnescape_escape mode s : PathUnescape (escape mode s) = Some (map_str (reads_as mode) s).
Proof.
  induction s as [|c s IH]; cbn [escape map_str]; [done|].
  by rewrite PathUnescape_escape_char, IH.
Qed.

Lemma map_str_id s : map_str (fun c => c) s = s.
Proof. induction s as [|c s IH]; cbn; [done|]. by rewrite IH. Qed.

Lemma PathUnescape_PathEscape s : PathUnescape (PathEscape s) = Some s.
Proof. unfold PathEscape. rewrite PathUnescape_escape. cbn. by rewrite map_str_id. Qed.

Lemma PathUnescape_QueryEscape s : PathUnescape (QueryEscape s) = Some (map_str space_to_plus s).
Proof. apply PathUnescape_escape. Qed.

Lemma space_to_plus_id s : one_of_chars " " s = false <-> map_str space_to_plus s = s.
Proof.
  induction s as [|c s IH]; [done|]. cbn [one_of_chars map_str]. unfold space_to_plus at 1.
  rewrite orb_false_iff, IH, (Ascii.eqb_sym " " c).
  destruct (Ascii.eqb_spec c " ") as [->|Hc]; split.
  - intros [Hc _]. done.
  - intros [=].
  - intros [_ ->]. done.
  - intros [=]. by split.
Qed.
