(* ===== verification/Couch.v ===== *)
(** * CouchDB: the client

    [pkg/couchdb/client.go]: requests with retries, fetching functions and
    their attachments, writing documents in bulk, the blocked namespaces, and
    the HTTP client that is replaced when it is too old. *)
From S2P Require Export FunctionDoc Urls.

(** ** Constants *)
Definition functionsDB : string := "whisks".
Definition activationsDB : string := "activations".
Definition baseRetryInterval : Z := 50 * Millisecond.
Definition retryIntervalFactor : Z := 2.
Definition maxRetryInterval : Z := 5 * Second.
Definition maxRetryDuration : Z := 120 * Second.
Definition maxConnectionLifetime : Z := 15 * Second.

(** ** Requests

    A URL below the base: its escaped path elements and its query. *)
Record couch_url := { path : list string; query : list (string * string) }.

Record couch_response := { cr_StatusCode : Z; cr_Body : result string }.

Inductive couch_op : Type -> Type :=
| WithTimeout (d : Z) : couch_op unit                     (* context.WithTimeout *)
| CtxEnded : couch_op bool                                (* ctx.Err() != nil *)
| SingleRequest (method : string) (url : couch_url) (content : option string) :
    couch_op (result couch_response)
| Sleep (d : Z) : couch_op unit.

Notation couchM := (proc couch_op).

Definition JoinPath (elems : list string) : couch_url := {| path := elems; query := [] |}.

Definition add_query (k v : string) (u : couch_url) : couch_url :=
  {| path := path u; query := query u ++ [(k, v)] |}.

(** The HTTP client has timeouts of its own, such as that of the dialer of [http.DefaultTransport]. Their
    errors count as [context.DeadlineExceeded] too; all that is known is that they take some time. *)
Class HttpTimeouts := { ioTimeout : Z; ioTimeout_pos : 0 < ioTimeout }.

(** As many timeouts as fit into [maxRetryDuration]. *)
Definition maxTimeouts `{HttpTimeouts} : nat := Z.to_nat (maxRetryDuration / ioTimeout).

(** Enough tries for [maxRetryDuration]. *)
Definition requestTries `{HttpTimeouts} : nat := 31 + maxTimeouts.

Definition outOfTries : go_error := ErrText "model: the context never ended".

Definition grow (retryInterval : Z) : Z :=
  if maxRetryInterval <? retryInterval * retryIntervalFactor then maxRetryInterval
  else retryInterval * retryIntervalFactor.

(** The loop of [request]. *)
Fixpoint requestLoop (fuel : nat) (method : string) (url : couch_url) (content : option string)
    (retryInterval : Z) (lastErr : option go_error) : couchM (result couch_response) :=
  match fuel with
  | O => Ret (Err outOfTries)
  | S fuel' =>
      ended ← trigger CtxEnded;
      if ended : bool then
        Ret (Err (Errorf "failed to successfully reach database after %d retries: %w"
                    (match lastErr with Some e => [e] | None => [] end)))
      else
        r ← trigger (SingleRequest method url content);
        match r with
        | Ok resp => Ret (Ok resp)
        | Err err =>
            if isDeadlineExceeded err then
              requestLoop fuel' method url content retryInterval lastErr
            else
              _ ← trigger (Sleep (grow retryInterval));
              requestLoop fuel' method url content (grow retryInterval) (Some err)
        end
  end.

Definition withRev (rev : string) (url : couch_url) : couch_url :=
  if bool_decide (rev = "") then url else add_query "rev" rev url.

Definition request `{HttpTimeouts} (method : string) (url : couch_url) (rev : string) (content : option string) :
    couchM (result couch_response) :=
  requestLoop requestTries method (withRev rev url) content baseRetryInterval None.

(** What [getRequest] makes of the outcome. *)
Definition readResponse (resp : result couch_response) : result string :=
  match resp with
  | Err err => Err (Errorf "failed to execute get request: %w" [err])
  | Ok resp =>
      match cr_Body resp with
      | Err err => Err (Errorf "failed to read body from fetched document(s): %w" [err])
      | Ok body =>
          if cr_StatusCode resp =? 404 then Err errNotFound
          else if cr_StatusCode resp =? 200 then Ok body
          else Err (Errorf "unexpected status code for fetching document(s): %d, body %q" [])
      end
  end.

Definition getRequest `{HttpTimeouts} (url : couch_url) (rev : string) : couchM (result string) :=
  _ ← trigger (WithTimeout maxRetryDuration);
  resp ← request "GET" url rev None;
  Ret (readResponse resp).

(** ** Functions *)
Definition set_Code (f : FunctionCode -> FunctionCode) (fn : EntityFunction) : EntityFunction :=
  {| f_Name := f_Name fn; f_Namespace := f_Namespace fn;
     f_Exec := {| exec_Kind := exec_Kind (f_Exec fn); Code := f (Code (f_Exec fn));
                  Main := Main (f_Exec fn); Binary := Binary (f_Exec fn) |};
     f_Annotations := f_Annotations fn; f_Limits := f_Limits fn |}.

(** A missing document becomes a missing function. *)
Definition genericNotFound (err : go_error) : go_error :=
  if isNotFound err then ErrFunctionNotFound else err.

Definition documentURL (fqdn : string) : couch_url := JoinPath [functionsDB; PathEscape fqdn].
Definition attachmentURL (fqdn id : string) : couch_url := JoinPath [functionsDB; QueryEscape fqdn; id].

Section functions.
Context `{HttpTimeouts}.
(** [json.Unmarshal] into an [entities.Function], which may panic on an inlined attachment. *)
Context (unmarshalFunction : string -> outcome (result EntityFunction)).

Definition GetFunction (fqdn rev : string) : couchM (outcome (result EntityFunction)) :=
  doc ← getRequest (documentURL fqdn) rev;
  match doc with
  | Err err => Ret (Done (Err (Errorf "failed to fetch function: %w" [genericNotFound err])))
  | Ok bs =>
      match unmarshalFunction bs with
      | Panics => Ret Panics
      | Done (Err err) => Ret (Done (Err (Errorf "failed to parse function: %w" [err])))
      | Done (Ok fn) =>
          if bool_decide (AttachmentID (Code (f_Exec fn)) = "") then Ret (Done (Ok fn))
          else
            att ← getRequest (attachmentURL fqdn (AttachmentID (Code (f_Exec fn)))) rev;
            match att with
            | Err err => Ret (Done (Err (Errorf "failed to fetch attachment: %w" [genericNotFound err])))
            | Ok bs =>
                if IsBinary (Code (f_Exec fn))
                then Ret (Done (Ok (set_Code (set_Resolved (EncodeToString StdEncoding bs)) fn)))
                else Ret (Done (Ok (set_Code (set_Resolved bs) fn)))
            end
      end
  end.
End functions.

(** ** Documents in bulk *)
Section bulk.
Context `{HttpTimeouts}.
(** [json.Marshal] of a [bulkInsertRequest], which fails if a document is not JSON. *)
Context (marshalBulk : list string -> result string).

Definition WriteDocuments (db : string) (docs : list string) : couchM (option go_error) :=
  match marshalBulk docs with
  | Err err => Ret (Some (Errorf "failed to marshal bulk request: %w" [err]))
  | Ok bs =>
      _ ← trigger (WithTimeout maxRetryDuration);
      resp ← request "POST" (JoinPath [db; "_bulk_docs"]) "" (Some bs);
      Ret match resp with
          | Err err => Some (Errorf "failed to execute bulk activation request: %w" [err])
          | Ok resp =>
              if (cr_StatusCode resp =? 201) || (cr_StatusCode resp =? 202) then
                match cr_Body resp with
                | Err err => Some (Errorf "failed to read body from bulk activation: %w" [err])
                | Ok _ => None
                end
              else
                match cr_Body resp with
                | Err err => Some (Errorf "failed to read body from bulk activation request: %w" [err])
                | Ok _ => Some (Errorf "unexpected status code for bulk activation: %d, body %q" [])
                end
          end
  end.
End bulk.

(** ** Blocked namespaces *)
Section blocked.
Context `{HttpTimeouts}.
(** [json.Unmarshal] into a [blockedNamespacesViewResponse]: the keys of its rows. *)
Context (unmarshalView : string -> result (list string)).

Definition blockedNamespacesURL : couch_url :=
  add_query "reduce" "false"
    (JoinPath ["subjects"; "_design"; "namespaceThrottlings"; "_view"; "blockedNamespaces"]).

(** A nil map reads like an empty one. *)
Definition GetBlockedNamespaces : couchM (result (gset string)) :=
  resp ← getRequest blockedNamespacesURL "";
  Ret match resp with
      | Err err => Err (Errorf "failed to execute request to get blocked namespaces: %w" [err])
      | Ok resp =>
          match unmarshalView resp with
          | Err err => Err (Errorf "failed to parse blocked namespaces request: %w" [err])
          | Ok keys => Ok (foldr (fun k s => {[k]} ∪ s) ∅ keys)
          end
      end.
End blocked.

(** ** The HTTP client

    The identity of the client and the instant it was created at; each of the
    two sections under the lock as a function of the time. *)
Definition client_state : Type := option (nat * Z).

Definition fresh (now : Z) (c : client_state) : option nat :=
  match c with
  | Some (id, createdAt) => if now - createdAt <? maxConnectionLifetime then Some id else None
  | None => None
  end.

(** [getClient], second section: a client is created only if there is still no fresh one. *)
Definition getClientLocked (now : Z) (newId : nat) (c : client_state) : nat * client_state :=
  match fresh now c with
  | Some id => (id, c)
  | None => (newId, Some (newId, now))
  end.

(** ** Meaning of the operations

    The clock, the deadline of the context in use and whether it has ended,
    the sleeps and the exchanges so far. *)
Record cstate := mkCstate {
  now : Z;
  deadline : Z;
  ended : bool;
  sleeps : list Z;
  exchanges : list (string * couch_url * result couch_response)
}.

(** Time passes; a context ends at its deadline, or earlier when it is cancelled. *)
Definition passes (s s' : cstate) : Prop :=
  now s <= now s' /\ deadline s' = deadline s /\ (ended s = true -> ended s' = true) /\
  (deadline s <= now s' -> ended s' = true).

(** Errors from outside are not those that the client makes up itself. *)
Definition foreign (e : go_error) : Prop := isNotFound e = false /\ isFunctionNotFound e = false.

(** An exchange fails with the deadline's error because the context has ended, or after a timeout of the
    HTTP client. *)
Definition couch_exec `{HttpTimeouts} (X : Type) (op : couch_op X) : cstate -> X -> cstate -> Prop :=
  match op in couch_op X return cstate -> X -> cstate -> Prop with
  | WithTimeout d => fun s _ s' =>
      now s' = now s /\ deadline s' = now s + d /\ sleeps s' = sleeps s /\ exchanges s' = exchanges s
  | CtxEnded => fun s x s' =>
      passes s s' /\ x = ended s' /\ sleeps s' = sleeps s /\ exchanges s' = exchanges s
  | SingleRequest method url _ => fun s x s' =>
      passes s s' /\ sleeps s' = sleeps s /\ exchanges s' = exchanges s ++ [(method, url, x)] /\
      match x with
      | Err e => foreign e /\
          (isDeadlineExceeded e = true -> ended s' = true \/ now s + ioTimeout <= now s')
      | Ok resp => forall e, cr_Body resp = Err e -> foreign e
      end
  | Sleep d => fun s _ s' =>
      passes s s' /\ now s + d <= now s' /\ sleeps s' = sleeps s ++ [d] /\ exchanges s' = exchanges s
  end.

Notation couch_runs := (runs couch_exec).
