(* ===== verification/Documents.v ===== *)
(** * Documents that other programs read

    The texts that the invoker puts together by hand around the output of
    [encoding/json]: completion messages (ack.go), and the documents and bulk
    requests of the activation batcher.  They read back as the documents they
    are meant to be. *)
From S2P Require Export KafkaRunner Batcher Couch.
Import JSON Print Copy Marshal.

(** ** Texts without escapes *)
Definition unescaped (c : ascii) : bool :=
  isPrint c && negb (Ascii.eqb c double_quote || Ascii.eqb c backslash).

Lemma unescaped_piece c x : unescaped c = true -> pieces (String c x) = more (Bytes (String c "")) (pieces x).
Proof. destruct c as [[] [] [] [] [] [] [] []]; intros Hc; vm_compute in Hc; done. Qed.

Lemma readString_unescaped s r :
  forall_str unescaped s = true -> readString (s +:+ String double_quote r) = Some (s, r).
Proof.
  intros Hs. unfold readString.
  assert (H : exists l, pieces (s +:+ String double_quote r) = Some (l, r) /\ assemble l = s).
  { induction s as [|c s IH]; [by exists []|]. cbn [forall_str] in Hs. apply andb_prop in Hs as [Hc Hs].
    destruct (IH Hs) as (l & Hl & Ha). exists (Bytes (String c "") :: l).
    rewrite app_str_cons, unescaped_piece, Hl by done. cbn [more assemble]. by rewrite Ha. }
  destruct H as (l & Hl & Ha). by rewrite Hl, Ha.
Qed.

(** Putting objects and arrays together from the readings of their parts. *)
Lemma member_reads k s v r :
  forall_str unescaped k = true -> JSON.value s = Some (v, r) -> field (fieldName k +:+ s) = Some ((k, v), r).
Proof.
  intros Hk Hv. unfold fieldName. rewrite app_str_cons, field_eq, expect_here by done.
  rewrite <- app_str_assoc, app_str_cons, readString_unescaped, app_str_cons, app_str_nil_l, expect_here by done.
  by rewrite Hv.
Qed.

Lemma member_unread k s : forall_str unescaped k = true -> JSON.value s = None -> field (fieldName k +:+ s) = None.
Proof.
  intros Hk Hv. unfold fieldName. rewrite app_str_cons, field_eq, expect_here by done.
  rewrite <- app_str_assoc, app_str_cons, readString_unescaped, app_str_cons, app_str_nil_l, expect_here by done.
  by rewrite Hv.
Qed.

Lemma object_unread s : field s = None -> HasPrefix (skip s) "}" = false -> JSON.value (String "{" s) = None.
Proof. intros Hf Hp. rewrite value_object. unfold expect. by rewrite Hp, Hf. Qed.

Lemma array_unread s : JSON.value s = None -> HasPrefix (skip s) "]" = false -> JSON.value (String "[" s) = None.
Proof. intros Hf Hp. rewrite value_array. unfold expect. by rewrite Hp, Hf. Qed.

Lemma Parse_none s : JSON.value s = None -> Parse s = None.
Proof. unfold Parse. fold (JSON.value s). by intros ->. Qed.

Lemma fields_comma s kd r l r' :
  field s = Some (kd, r) -> fields r = Some (l, r') -> fields (String "," s) = Some (kd :: l, r').
Proof. intros Hf Hl. rewrite fields_eq, expect_char, expect_here by done. cbn. by rewrite Hf, Hl. Qed.

Lemma fields_close s : fields (String "}" s) = Some ([], s).
Proof. by rewrite fields_eq, expect_here. Qed.

Lemma elems_comma s d r l r' :
  JSON.value s = Some (d, r) -> elems r = Some (l, r') -> elems (String "," s) = Some (d :: l, r').
Proof. intros Hf Hl. rewrite elems_eq, expect_char, expect_here by done. cbn. by rewrite Hf, Hl. Qed.

Lemma elems_close s : elems (String "]" s) = Some ([], s).
Proof. by rewrite elems_eq, expect_here. Qed.

Lemma object_reads s kd r l r' :
  field s = Some (kd, r) -> fields r = Some (l, r') -> JSON.value (String "{" s) = Some (DObject (kd :: l), r').
Proof. intros Hf Hl. by rewrite value_object, (field_not_end _ _ Hf), Hf, Hl. Qed.

Lemma array_reads s d r l r' :
  JSON.value s = Some (d, r) -> elems r = Some (l, r') -> JSON.value (String "[" s) = Some (DArray (d :: l), r').
Proof. intros Hf Hl. by rewrite value_array, (value_not_end _ _ Hf), Hf, Hl. Qed.

Lemma string_reads s r :
  forall_str unescaped s = true ->
  JSON.value (String double_quote (s +:+ String double_quote r)) = Some (DString s, r).
Proof. intros Hs. by rewrite value_string, readString_unescaped. Qed.

Section completion.
Context `{Unicode}.

Lemma value_Quote s r :
  isASCII s = true -> JSON.value (Quote s +:+ r) = if forall_str jsonSafe s then Some (DString s, r) else None.
Proof.
  intros Hs. pose proof (readQuoted_Quote s r Hs) as Hq. unfold Quote in *. rewrite Hs in *.
  rewrite app_str_cons in *. rewrite value_string. cbn [readQuoted] in Hq. rewrite Ascii.eqb_refl in Hq.
  rewrite Hq. by destruct (forall_str jsonSafe s).
Qed.

(** The document of a completion message. *)
Definition completion (instance : Z) (tid : string) (ms : Z) (response : jdoc) (isSystemError : bool) : jdoc :=
  DObject [
    ("transid", DArray [DString tid; DNumber (fmt_d ms)]);
    ("response", response);
    ("isSystemError", DBool isSystemError);
    ("invoker", DObject [("instance", DNumber (fmt_d instance)); ("userMemory", DString "0 g")])].

(** A text that reads as a document wherever it stands in a larger one. *)
Definition stands_for (t : string) (d : jdoc) : Prop :=
  forall rest, ends_number rest = true -> JSON.value (t +:+ rest) = Some (d, rest).

Lemma fmt_t_stands b : stands_for (fmt_t b) (DBool b).
Proof. intros rest _. destruct b; apply value_literal; set_solver. Qed.

Lemma int_stands z : stands_for (fmt_d z) (DNumber (fmt_d z)).
Proof. intros rest. apply value_int. Qed.

Lemma completion_reads instance tid start response d sys :
  isASCII tid = true -> stands_for response d ->
  Parse (CombinedCompletionMessage instance tid start response sys) =
  if forall_str jsonSafe tid then Some (completion instance tid (UnixMilli start) d sys) else None.
Proof.
  intros Ht Hd. unfold CombinedCompletionMessage.
  destruct (forall_str jsonSafe tid) eqn:Hs.
  - apply Parse_value. eapply object_reads.
    { apply member_reads; [done|]. eapply array_reads; [by rewrite value_Quote, Hs|].
      eapply elems_comma; [by apply int_stands|]. apply elems_close. }
    eapply fields_comma; [apply member_reads; [done|by apply Hd]|].
    eapply fields_comma; [apply member_reads; [done|by apply fmt_t_stands]|].
    eapply fields_comma; [|apply fields_close].
    apply member_reads; [done|]. eapply object_reads; [apply member_reads; [done|by apply int_stands]|].
    eapply fields_comma; [apply member_reads; [done|by apply (string_reads "0 g")]|]. apply fields_close.
  - apply Parse_none, object_unread; [|done]. apply member_unread; [done|].
    apply array_unread; [by rewrite value_Quote, Hs|]. unfold Quote. by rewrite Ht.
Qed.

End completion.

(** ** Activations *)

(** The value under a path of keys. *)
Fixpoint jget (path : list string) (d : jdoc) : option jdoc :=
  match path with
  | [] => Some d
  | k :: path' => match d with DObject l => Tree.assoc k l ≫= jget path' | _ => None end
  end.

(** Limits are written as a document. *)
Definition limitsDoc (l : Limits) : jdoc :=
  DObject [("timeout", DNumber (fmt_d (Milliseconds (Timeout l))));
           ("memory", DNumber (fmt_d (lim_Memory l / Megabyte)));
           ("logs", DNumber (fmt_d (lim_Logs l / Kilobyte)))].

Lemma json_field_reads k z s :
  forall_str unescaped k = true -> ends_number s = true ->
  field (json_field k z +:+ s) = Some ((k, DNumber (fmt_d z)), s).
Proof.
  intros Hk Hs. assert (json_field k z +:+ s = fieldName k +:+ fmt_d z +:+ s) as ->.
  { unfold json_field, fieldName. rewrite !app_str_cons. f_equal.
    by rewrite <- !app_str_assoc, !app_str_cons, !app_str_nil_l. }
  apply member_reads; [done|by apply value_int].
Qed.

Lemma Parse_marshalLimits l : Parse (marshalLimits l) = Some (limitsDoc l).
Proof.
  apply Parse_value. unfold marshalLimits. eapply object_reads; [apply json_field_reads; done|].
  eapply fields_comma; [by apply json_field_reads|].
  eapply fields_comma; [by apply json_field_reads|]. apply fields_close.
Qed.

Lemma Parse_int z : Parse (fmt_d z) = Some (DNumber (fmt_d z)).
Proof. apply Parse_value. rewrite <- (app_str_nil_r (fmt_d z)) at 1. by apply value_int. Qed.

Section activations.
Context `{Unicode} `{FloatText} {MA : MapRange string any}.

Definition annotations_valid (m : Annotations) : Prop := map_Forall (fun _ v => anyValid v = true) m.

Lemma annotations_insert k v m :
  anyValid v = true -> annotations_valid m -> annotations_valid (<[k := v]> m).
Proof. intros. by apply map_Forall_insert_2. Qed.

(** What the program writes into the annotations can be written, if the gigabyte seconds are a number. *)
Definition finite_gbs (a : Activation) : Prop := anyValid (any_of_float (activationGigabyteSeconds a)) = true.

Lemma schema_valid a m :
  finite_gbs a -> annotations_valid m -> annotations_valid (causedAnnotation a (schemaAnnotations a m)).
Proof using.
  intros Hg Hm.
  assert (Hl : anyValid (VOther (marshalLimits (af_Limits (act_Function a)))) = true)
    by (cbn; rewrite Parse_marshalLimits; by apply bool_decide_eq_true).
  assert (Hz : forall z, anyValid (VOther (fmt_d z)) = true)
    by (intros; cbn; rewrite Parse_int; by apply bool_decide_eq_true).
  unfold causedAnnotation, schemaAnnotations.
  repeat case_match; repeat apply annotations_insert; done || apply Hz.
Qed.

Lemma jsonAnnotation_valid kv : raws_valid (jsonAnnotation kv) = anyValid kv.2.
Proof. destruct kv as [k v]. unfold jsonAnnotation. cbn. case_bool_decide; destruct v; cbn; by rewrite ?andb_true_r. Qed.

Lemma marshalAnnotations_valid seed m : annotations_valid m -> raws_valid (marshalAnnotations seed m) = true.
Proof using.
  intros Hm. cbn. apply forallb_forall. intros v Hv.
  apply list_elem_of_In, list_elem_of_fmap in Hv as (kv & -> & Hkv).
  rewrite jsonAnnotation_valid. rewrite sorted_range_perm in Hkv. destruct kv as [k v].
  apply elem_of_map_to_list in Hkv. exact (Hm _ _ Hkv).
Qed.

(** The result of a response: the function's document, or an object with the error. *)
Definition resultText (r : ActivationResponse) : string :=
  if bool_decide (Error r = "") then Result r else text (JObject [("error", JString (Error r))]).
Definition resultDoc (r : ActivationResponse) : option jdoc :=
  if bool_decide (Error r = "") then Parse (Result r)
  else Some (DObject [("error", DString (coerce (Error r)))]).

Lemma Parse_resultText r : Parse (resultText r) = resultDoc r.
Proof using.
  unfold resultText, resultDoc. case_bool_decide; [done|].
  by rewrite (Marshal_reads (JObject [("error", JString (Error r))]) _ eq_refl).
Qed.

Lemma responseResult_text r : responseResult json_Marshal r = Ok (resultText r, str_len (resultText r)).
Proof using. unfold responseResult, resultText. by case_bool_decide. Qed.

(** The tree of values of an activation. *)
Definition activationValue (a : Activation) : ActivationDoc.value :=
  interim 0 a (causedAnnotation a (schemaAnnotations a (act_Annotations a)))
    (resultText (Response a)) (str_len (resultText (Response a))).

Lemma marshalActivation_value a : marshalActivation json_Marshal a = json_Marshal (activationValue a).
Proof using. unfold marshalActivation, MarshalJSON. by rewrite responseResult_text. Qed.

Lemma forallb_strings l : forallb raws_valid (JString <$> l) = true.
Proof using. by induction l. Qed.

Lemma activationValue_valid a d :
  finite_gbs a -> annotations_valid (act_Annotations a) -> resultDoc (Response a) = Some d ->
  raws_valid (activationValue a) = true.
Proof using.
  intros Hg Ha Hd. unfold activationValue, interim. cbn [raws_valid].
  rewrite forallb_app. apply andb_true_intro. split; [|by case_bool_decide].
  cbn [forallb fst snd raws_valid]. rewrite marshalAnnotations_valid by by apply schema_valid.
  rewrite forallb_strings, Parse_resultText, Hd. by rewrite bool_decide_eq_true_2.
Qed.

(** What a reader of the document of an activation finds. *)
Lemma activationDoc_fields a d :
  resultDoc (Response a) = Some d ->
  let doc := docOf (activationValue a) in
  jget ["activationId"] doc = Some (DString (coerce (act_ActivationID a))) /\
  jget ["namespace"] doc = Some (DString (coerce (act_Namespace a))) /\
  jget ["name"] doc = Some (DString (coerce (af_Name (act_Function a)))) /\
  jget ["logs"] doc = Some (DArray ((fun s => DString (coerce s)) <$> Logs a)) /\
  jget ["response"; "result"] doc = Some d /\
  jget ["response"; "statusCode"] doc = Some (DNumber (fmt_d (statusCode (StatusCode (Response a))))).
Proof using.
  intros Hd. unfold activationValue, interim. cbn [docOf]. rewrite map_app.
  cbn [List.map app docOf fst snd]. rewrite Parse_resultText, Hd. split_and!; try reflexivity.
  transitivity (Some (DArray (docOf <$> (JString <$> Logs a)))); [reflexivity|]. do 2 f_equal.
  by rewrite <- list_fmap_compose.
Qed.

Lemma marshalActivation_ok a d :
  finite_gbs a -> annotations_valid (act_Annotations a) -> resultDoc (Response a) = Some d ->
  marshalActivation json_Marshal a = Ok (text (activationValue a)) /\
  stands_for (text (activationValue a)) (docOf (activationValue a)).
Proof using.
  intros Hg Ha Hd. pose proof (activationValue_valid a d Hg Ha Hd) as Hv. split.
  - rewrite marshalActivation_value. unfold json_Marshal. by rewrite Hv.
  - by apply text_reads_back.
Qed.

(** A controller that parses the message it gets for an invocation finds the transaction and whether
    the system failed, and under the response the identifier of the activation if the invocation was
    not a blocking one; for a blocking one it finds the activation, with the document that the
    function returned, or the error, as its result, and the code of its status. Identifiers are in
    characters for which [%q] and JSON agree. *)
Theorem ackResponse_reads id msg a d :
  isASCII (TransactionID msg) = true -> forall_str jsonSafe (TransactionID msg) = true ->
  isASCII (ActivationID msg) = true -> forall_str jsonSafe (ActivationID msg) = true ->
  finite_gbs a -> annotations_valid (act_Annotations a) -> resultDoc (Response a) = Some d ->
  exists doc, Parse (ackResponse json_Marshal id msg a) = Some doc /\
    jget ["transid"] doc =
      Some (DArray [DString (TransactionID msg); DNumber (fmt_d (UnixMilli (TransactionStart msg)))]) /\
    jget ["isSystemError"] doc = Some (DBool (isSystemError a)) /\
    jget ["invoker"; "instance"] doc = Some (DNumber (fmt_d id)) /\
    if IsBlocking msg then
      jget ["response"; "response"; "result"] doc = Some d /\
      jget ["response"; "response"; "statusCode"] doc =
        Some (DNumber (fmt_d (statusCode (StatusCode (Response a))))) /\
      jget ["response"; "activationId"] doc = Some (DString (coerce (act_ActivationID a))) /\
      jget ["response"; "logs"] doc = Some (DArray ((fun s => DString (coerce s)) <$> Logs a))
    else jget ["response"] doc = Some (DString (ActivationID msg)).
Proof using.
  intros Ht Hts Hi His Hg Ha Hd. destruct (marshalActivation_ok a d Hg Ha Hd) as [Hm Hstands].
  destruct (activationDoc_fields a d Hd) as (H1 & _ & _ & H4 & H5 & H6).
  exists (completion id (TransactionID msg) (UnixMilli (TransactionStart msg))
    (if IsBlocking msg then docOf (activationValue a) else DString (ActivationID msg)) (isSystemError a)).
  unfold ackResponse. rewrite Hm. destruct (IsBlocking msg); cbn [negb].
  - split; [rewrite (completion_reads _ _ _ _ _ _ Ht Hstands), Hts; done|]. by split_and!.
  - split; [|by split_and!]. unfold MiniCombinedCompletionMessage.
    rewrite (completion_reads _ _ _ _ (DString (ActivationID msg)) _ Ht), Hts; [done|].
    intros rest _. by rewrite value_Quote, His.
Qed.

(** ** What is written to the database *)

(** [ActivationBatcher.WriteActivation], up to the channel. *)
Definition WriteActivation (a : Activation) : result string :=
  match marshalActivation json_Marshal a with
  | Err err => Err (Errorf "failed to marshal activation: %w" [err])
  | Ok bs => Ok (addId bs (act_Namespace a) (act_ActivationID a))
  end.

(** [json.Marshal] of a [bulkInsertRequest]. *)
Definition marshalBulk (docs : list string) : result string :=
  json_Marshal (JObject [("docs", JArray (JRaw <$> docs))]).

Lemma drop_bracket s : take_str (String.length (s +:+ "}") - 1) (s +:+ "}") = s.
Proof using.
  rewrite length_app_str. change (String.length "}") with 1%nat. rewrite Nat.add_sub. apply take_str_app.
Qed.

Lemma addId_object kv l ns aid :
  addId (text (JObject (kv :: l))) ns aid =
  String "{" ((quote kv.1 +:+ ":" +:+ text kv.2) +:+
    prefixed "," (List.map (fun kv => quote kv.1 +:+ ":" +:+ text kv.2) l) +:+
    String "," (fieldName "_id" +:+ String double_quote ((ns +:+ "/" +:+ aid) +:+ String double_quote "}"))).
Proof using.
  unfold addId. cbn [text List.map]. rewrite Join_cons, (app_str_assoc "{"), drop_bracket, <- (app_str_assoc "{").
  rewrite app_str_cons, app_str_nil_l. unfold fieldName, double_quote_str.
  by rewrite !app_str_cons, <- !app_str_assoc, !app_str_cons, !app_str_nil_l.
Qed.

(** An object that is written, but for its closing bracket, and more fields. *)
Lemma fields_app l rest more r :
  Forall (fun kv => reads_back kv.2) l -> ends_number rest = true -> fields rest = Some (more, r) ->
  fields (prefixed "," (List.map (fun kv => quote kv.1 +:+ ":" +:+ text kv.2) l) +:+ rest) =
  Some (List.map (fun kv => (coerce kv.1, docOf kv.2)) l ++ more, r).
Proof using.
  intros Hl He Hr. induction Hl as [|kv l Hv Hl IH]; cbn [prefixed List.map app]; [done|].
  rewrite <- !(app_str_assoc _ _ rest), app_str_cons, app_str_nil_l.
  eapply fields_comma; [|exact IH]. apply field_text; [done|]. by destruct l.
Qed.

Lemma Parse_addId kv l ns aid :
  raws_valid (JObject (kv :: l)) = true -> forall_str unescaped (ns +:+ "/" +:+ aid) = true ->
  Parse (addId (text (JObject (kv :: l))) ns aid) =
  Some (DObject (List.map (fun kv => (coerce kv.1, docOf kv.2)) (kv :: l) ++ [("_id", DString (ns +:+ "/" +:+ aid))])).
Proof using.
  intros Hv Hu. rewrite addId_object. cbn [raws_valid forallb] in Hv. apply andb_prop in Hv as [Hkv Hl].
  assert (Hls : Forall (fun kv => reads_back kv.2) l).
  { apply Forall_forall. intros x Hx. apply text_reads_back. eapply forallb_forall in Hl; [exact Hl|].
    by apply list_elem_of_In. }
  apply Parse_value. cbn [List.map app]. eapply object_reads.
  - apply field_text; [by apply text_reads_back|]. by destruct l.
  - apply fields_app; [done..|]. eapply fields_comma; [|apply fields_close].
    apply member_reads; [done|]. by apply string_reads.
Qed.

Definition identifier (a : Activation) : string := act_Namespace a +:+ "/" +:+ act_ActivationID a.

(** An activation as the database stores it. *)
Definition storedDoc (a : Activation) : jdoc :=
  match docOf (activationValue a) with
  | DObject l => DObject (l ++ [("_id", DString (identifier a))])
  | d => d
  end.

(** What can be stored. *)
Definition storable (a : Activation) : Prop :=
  finite_gbs a /\ annotations_valid (act_Annotations a) /\ is_Some (resultDoc (Response a)) /\
  forall_str unescaped (identifier a) = true.

Lemma WriteActivation_reads a :
  storable a -> exists t, WriteActivation a = Ok t /\ Parse t = Some (storedDoc a).
Proof using.
  intros (Hg & Ha & [d Hd] & Hu). destruct (marshalActivation_ok a d Hg Ha Hd) as [Hm _].
  eexists. unfold WriteActivation. rewrite Hm. split; [done|].
  pose proof (activationValue_valid a d Hg Ha Hd) as Hv. unfold storedDoc.
  assert (Hkv : exists kv l, activationValue a = JObject (kv :: l)) by (eexists _, _; reflexivity).
  destruct Hkv as (kv & l & Hkv). rewrite Hkv in *. by rewrite Parse_addId.
Qed.

Lemma storedDoc_fields a d :
  resultDoc (Response a) = Some d ->
  jget ["_id"] (storedDoc a) = Some (DString (identifier a)) /\
  jget ["activationId"] (storedDoc a) = Some (DString (coerce (act_ActivationID a))) /\
  jget ["response"; "result"] (storedDoc a) = Some d.
Proof using.
  intros Hd. unfold storedDoc, activationValue, interim. cbn [docOf]. rewrite map_app.
  cbn [List.map app docOf fst snd]. rewrite Parse_resultText, Hd.
  case_bool_decide; split_and!; reflexivity.
Qed.

Lemma marshalBulk_reads docs ds :
  Forall2 (fun t d => Parse t = Some d) docs ds ->
  exists body, marshalBulk docs = Ok body /\ Parse body = Some (DObject [("docs", DArray ds)]).
Proof using.
  intros Hf. eexists. unfold marshalBulk, json_Marshal.
  assert (raws_valid (JObject [("docs", JArray (JRaw <$> docs))]) = true) as Hv.
  { cbn. rewrite andb_true_r. induction Hf as [|t d docs ds Ht _ IH]; [done|]. cbn.
    rewrite bool_decide_eq_true_2 by (by rewrite Ht). exact IH. }
  rewrite Hv. split; [done|].
  rewrite (Marshal_reads (JObject [("docs", JArray (JRaw <$> docs))])); [|unfold json_Marshal; by rewrite Hv].
  assert (Hds : List.map docOf (JRaw <$> docs) = ds).
  { clear Hv. induction Hf as [|t d docs ds Ht _ IH]; [done|]. cbn [fmap list_fmap List.map docOf].
    rewrite Ht, IH. done. }
  cbn [docOf List.map fst snd]. by rewrite Hds.
Qed.

Lemma marshalBulk_fails docs t : t ∈ docs -> Parse t = None -> is_ok (marshalBulk docs) = false.
Proof using.
  intros Ht Hp. unfold marshalBulk, json_Marshal. cbn [raws_valid forallb fst snd].
  replace (forallb raws_valid (JRaw <$> docs)) with false; [done|]. symmetry. apply not_true_iff_false.
  intros Hf. rewrite forallb_forall in Hf. specialize (Hf (JRaw t)). cbn in Hf.
  rewrite Hp in Hf. rewrite bool_decide_eq_false_2 in Hf by (by intros []). discriminate Hf.
  apply list_elem_of_In, list_elem_of_fmap. by exists t.
Qed.

(** C16: the documents of a batch of activations, whatever is in their results, logs, errors and
    annotations, make a request that the database reads as the list of the activations, each with
    the document its function returned, or its error, and with the identifier that the batcher
    adds to the text. But a document that does not read, as that of an activation whose namespace
    holds a quote, makes the request of the whole batch fail. *)
Theorem batch_reads (acts : list Activation) :
  Forall storable acts ->
  exists docs body, Forall2 (fun a t => WriteActivation a = Ok t) acts docs /\
    marshalBulk docs = Ok body /\
    Parse body = Some (DObject [("docs", DArray (storedDoc <$> acts))]) /\
    (forall a d, a ∈ acts -> resultDoc (Response a) = Some d ->
       jget ["_id"] (storedDoc a) = Some (DString (identifier a)) /\
       jget ["activationId"] (storedDoc a) = Some (DString (coerce (act_ActivationID a))) /\
       jget ["response"; "result"] (storedDoc a) = Some d) /\
    (forall more t, t ∈ more -> Parse t = None -> is_ok (marshalBulk (docs ++ more)) = false).
Proof using.
  intros Hs.
  assert (Hd : exists docs, Forall2 (fun a t => WriteActivation a = Ok t) acts docs /\
    Forall2 (fun t d => Parse t = Some d) docs (storedDoc <$> acts)).
  { induction Hs as [|a acts Ha _ (docs & H1 & H2)]; [by exists []|].
    destruct (WriteActivation_reads a Ha) as (t & Ht & Hp). exists (t :: docs). by split; constructor. }
  destruct Hd as (docs & H1 & H2). destruct (marshalBulk_reads _ _ H2) as (body & Hb & Hp).
  exists docs, body. split_and!; [done|done|done|intros; by apply storedDoc_fields|].
  intros more t Ht Hpt. eapply marshalBulk_fails; [|done]. set_solver.
Qed.
End activations.

(** ** A concrete activation *)
Module Stored.
(** Floats written without their fractions. *)
#[export] Instance whole_floats : FloatText := {|
  FormatFloat m e := fmt_d (if 0 <=? e then m * 2 ^ e else m / 2 ^ (- e));
  FormatFloat_number m e s := number_fmt_d _ s
|}.
#[export] Instance ascii : Unicode :=
  {| IndexLetter_u _ := None; TrimSpace_u s := s; ToUpper_u s := s; Quote_u s := s |}.

Definition activation : Activation := {|
  act_ActivationID := "a1"; act_Namespace := "guest"; Subject := "sub"; Cause := "";
  act_Annotations := {["delimiter" := VNil]};
  act_Function := {| af_Name := "fn"; af_Version := "0.0.1"; af_Path := "guest/fn"; af_Kind := "nodejs:14";
                     Entrypoint := "main"; af_Limits := {| Timeout := 3000000000; lim_Memory := 268435456;
                     lim_Logs := 10485760 |}; af_Binding := "" |};
  Entities.Start := 1000000000; End_ := 1250000000; IsTimeout := false; InitTime := 0; WaitTime := 7000000;
  Response := {| Result := "{ }"; Error := ""; StatusCode := ActivationStatusCodeSuccess |};
  Entities.Logs := ["stdout: hi"] |}.

Definition request : ActivationMessage := {|
  TransactionID := "t1"; TransactionStart := 1000000000; ActivationID := "a1"; RootControllerIndex := "0";
  CausedBy := ""; IsBlocking := true;
  msg_Function := {| fn_Namespace := "guest"; fn_Name := "fn"; fn_Version := "0.0.1"; fn_Revision := "1";
                     fn_Binding := "" |};
  Identity := {| id_Subject := "sub"; id_Namespace := "guest"; id_Annotations := ∅; APIKey := "k";
                 StoreActivations := true |};
  msg_Parameters := None; InitParameters := None |}.

Lemma activation_storable : storable activation.
Proof. split_and!; [reflexivity| |by eexists|reflexivity]. by apply map_Forall_singleton. Qed.
End Stored.

#[local] Existing Instances Stored.whole_floats Stored.ascii.

Lemma ackResponse_reads_witness :
  resultDoc (Response Stored.activation) = Some (DObject []) /\
  exists doc, Parse (ackResponse json_Marshal 7 Stored.request Stored.activation) = Some doc /\
    jget ["response"; "response"; "result"] doc = Some (DObject []).
Proof.
  split; [reflexivity|].
  destruct (ackResponse_reads 7 Stored.request Stored.activation (DObject [])) as (doc & Hd & _ & _ & _ & Hr & _);
    [reflexivity..| |reflexivity|].
  - apply Stored.activation_storable.
  - exists doc. split; [exact Hd|exact Hr].
Defined.

Lemma batch_reads_witness :
  Forall storable [Stored.activation] /\
  exists body, Parse body = Some (DObject [("docs", DArray [storedDoc Stored.activation])]).
Proof.
  assert (Hs : Forall storable [Stored.activation]) by (repeat constructor; apply Stored.activation_storable).
  split; [exact Hs|]. destruct (batch_reads _ Hs) as (docs & body & _ & _ & Hp & _).
  exists body. exact Hp.
Defined.
