(* ===== verification/JsonDecode.v ===== *)
(** * Documents decoded into Go values

    How [encoding/json] decodes a document into strings, integers, slices, maps
    and structs: [null] leaves a value as it was, the names of members match
    those of fields without regard to case, members that have no field are
    ignored, later members are decoded over earlier ones, and a value of the
    wrong type is an error.  With it the decoders of [pkg/exec/runtimes.go],
    [pkg/units], [pkg/runner] and [pkg/couchdb] that were parameters. *)
From S2P Require Export Runtimes Documents.
Import JSON.

Local Open Scope go_scope.

Module Decoder.

Definition syntaxError : go_error := ErrText "invalid character".
Definition typeError : go_error := ErrText "json: cannot unmarshal value into Go value".

(** A decoder gets the document and the value it decodes into. *)
Definition decoder (A : Type) : Type := jdoc -> A -> result A.

Definition decodeString : decoder string := fun d old =>
  match d with DString s => Ok s | DNull => Ok old | _ => Err typeError end.

Definition decodeBool : decoder bool := fun d old =>
  match d with DBool b => Ok b | DNull => Ok old | _ => Err typeError end.

(** The value of a string of digits. *)
Fixpoint digitsValue (s : string) (n : Z) : option Z :=
  match s with
  | EmptyString => Some n
  | String c s' => if isDigit c then digitsValue s' (n * 10 + (ascii_Z c - 48)) else None
  end.

(** [strconv.ParseInt(s, 10, 64)] of the literal of a number. *)
Definition ParseInt (s : string) : option Z :=
  let signed := match s with
                | String c s' => if Ascii.eqb c "-" then Z.opp <$> digitsValue s' 0 else digitsValue s 0
                | EmptyString => None
                end in
  match signed with
  | Some z => if (- 2 ^ 63 <=? z) && (z <? 2 ^ 63) then Some z else None
  | None => None
  end.

Definition decodeInt : decoder Z := fun d old =>
  match d with
  | DNumber l => match ParseInt l with Some z => Ok z | None => Err typeError end
  | DNull => Ok old
  | _ => Err typeError
  end.

Section containers.
Context {A : Type} (zero : A) (dec : decoder A).

(** The elements of an array are decoded over those of the slice. *)
Fixpoint decodeElements (l : list jdoc) (old : list A) : result (list A) :=
  match l with
  | [] => Ok []
  | d :: l' =>
      x ← dec d (default zero (head old));
      xs ← decodeElements l' (tail old);
      Ok (x :: xs)
  end.

Definition decodeSlice : decoder (list A) := fun d old =>
  match d with
  | DArray l => decodeElements l old
  | DNull => Ok []
  | _ => Err typeError
  end.

(** The entries of an object are decoded afresh. *)
Fixpoint decodeEntries (l : list (string * jdoc)) (m : gmap string A) : result (gmap string A) :=
  match l with
  | [] => Ok m
  | (k, d) :: l' => x ← dec d zero; decodeEntries l' (<[k := x]> m)
  end.

(** A map that is nil before, and afterwards if the document is [null]. *)
Definition decodeMap (d : jdoc) : result (option (gmap string A)) :=
  match d with
  | DObject l => Some <$> decodeEntries l ∅
  | DNull => Ok None
  | _ => Err typeError
  end.
End containers.

(** Equality of names under simple folding, of a name in ASCII: the Kelvin sign and the long s fold to
    letters. *)
Fixpoint foldName (s : string) : string :=
  match s with
  | EmptyString => ""
  | String c s1 =>
      match s1 with
      | EmptyString => String (upper c) ""
      | String d s2 =>
          if (ascii_Z c =? 197) && (ascii_Z d =? 191) then String "S" (foldName s2)
          else match s2 with
               | EmptyString => String (upper c) (foldName s1)
               | String e s3 =>
                   if (ascii_Z c =? 226) && (ascii_Z d =? 132) && (ascii_Z e =? 170)
                   then String "K" (foldName s3)
                   else String (upper c) (foldName s1)
               end
      end
  end.

(** A struct: its fields with what decodes them. *)
Section struct.
Context {S : Type} (fieldDecoders : list (string * decoder S)).

Definition fieldDecoder (name : string) : option (decoder S) :=
  match Tree.assoc name fieldDecoders with
  | Some dec => Some dec
  | None => snd <$> List.find (fun fd => bool_decide (foldName fd.1 = foldName name)) fieldDecoders
  end.

Fixpoint decodeMembers (l : list (string * jdoc)) (s : S) : result S :=
  match l with
  | [] => Ok s
  | (k, d) :: l' =>
      match fieldDecoder k with
      | None => decodeMembers l' s
      | Some dec => s' ← dec d s; decodeMembers l' s'
      end
  end.

Definition decodeStruct : decoder S := fun d old =>
  match d with
  | DObject l => decodeMembers l old
  | DNull => Ok old
  | _ => Err typeError
  end.
End struct.

(** [json.Unmarshal]. *)
Definition Unmarshal {A} (dec : decoder A) (data : string) (old : A) : result A :=
  match Parse data with
  | Some d => dec d old
  | None => Err syntaxError
  end.

(** ** The decoders of the program *)

(** [RuntimeImage.UnmarshalJSON]. *)
Definition decodeImage : decoder string := fun d _ =>
  '(prefix, name, tag) ← decodeStruct [
    ("prefix", fun d '(p, n, t) => (fun x => (x, n, t)) <$> decodeString d p);
    ("name", fun d '(p, n, t) => (fun x => (p, x, t)) <$> decodeString d n);
    ("tag", fun d '(p, n, t) => (fun x => (p, n, x)) <$> decodeString d t)] d ("", "", "");
  Ok (imageString prefix name tag).

(** [ByteSize.UnmarshalJSON]; a [null] gives the empty text, which is no size. *)
Definition ByteSize_UnmarshalJSON `{Unicode} : decoder Z := fun d _ =>
  match decodeString d "" with
  | Err err => Err (Errorf "failed to parse data into a string: %w" [err])
  | Ok str => ParseByteSize str
  end.

Definition decodeStemcell `{Unicode} : decoder RuntimeStemcellConfig := decodeStruct [
  ("count", fun d s => (fun x => {| Count := x; sc_Memory := sc_Memory s |}) <$> decodeInt d (Count s));
  ("memory", fun d s => (fun x => {| Count := Count s; sc_Memory := x |}) <$> ByteSize_UnmarshalJSON d (sc_Memory s))].

Definition Stemcell_zero : RuntimeStemcellConfig := {| Count := 0; sc_Memory := 0 |}.
Definition Manifest_zero : RuntimeManifest :=
  {| rm_Kind := ""; Default := false; Image := ""; Stemcells := [] |}.

Definition decodeManifest `{Unicode} : decoder RuntimeManifest := decodeStruct [
  ("kind", fun d m => (fun x => {| rm_Kind := x; Default := Default m; Image := Image m; Stemcells := Stemcells m |})
     <$> decodeString d (rm_Kind m));
  ("default", fun d m => (fun x => {| rm_Kind := rm_Kind m; Default := x; Image := Image m; Stemcells := Stemcells m |})
     <$> decodeBool d (Default m));
  ("image", fun d m => (fun x => {| rm_Kind := rm_Kind m; Default := Default m; Image := x; Stemcells := Stemcells m |})
     <$> decodeImage d (Image m));
  ("stemCells", fun d m => (fun x => {| rm_Kind := rm_Kind m; Default := Default m; Image := Image m; Stemcells := x |})
     <$> decodeSlice Stemcell_zero decodeStemcell d (Stemcells m))].

(** [RuntimeManifests.Decode], from the text on: the first document is read for the text under
    [runtimes], an absent one being no document. *)
Definition decodeRaw : decoder jdoc := fun d _ => Ok d.

Definition DecodeManifests `{Unicode} {MR : MapRange string (list RuntimeManifest)} (seed : nat) (s : string) :
    result RuntimeManifests :=
  match Unmarshal (fun d _ => decodeMap DNull decodeRaw d) s None with
  | Err err => Err (Errorf "failed to parse top-level runtime manifest as JSON: %w" [err])
  | Ok raw =>
      let rawManifests :=
        match default ∅ raw !! "runtimes" with
        | None => Err (ErrText "unexpected end of JSON input")
        | Some d => decodeMap [] (decodeSlice Manifest_zero decodeManifest) d
        end in
      match rawManifests with
      | Err err => Err (Errorf "failed to parse runtime manifest as JSON: %w" [err])
      | Ok rawManifests => Runtimes.Decode seed (default ∅ rawManifests)
      end
  end.

(** The result of a run: its keys, [None] for [null]. *)
Definition unmarshalResult (response : string) : result (option (gset string)) :=
  match Unmarshal (fun d _ => decodeMap DNull decodeRaw d) response None with
  | Ok m => Ok ((fun m => dom m) <$> m)
  | Err err => Err err
  end.

(** [runtimeErrorResponse]. *)
Definition unmarshalRuntimeError (response : string) : result string :=
  Unmarshal (decodeStruct [("error", decodeString)]) response "".

(** [blockedNamespacesViewResponse]. *)
Definition unmarshalBlocked (resp : string) : result (list string) :=
  Unmarshal (decodeStruct [("rows", decodeSlice "" (decodeStruct [("key", decodeString)]))]) resp [].
(** The names of keys with their base64 texts, for [Keys.Decode]. *)
Definition unmarshalKeys (s : string) : result (gmap string string) :=
  (fun m => default ∅ m) <$> Unmarshal (fun d _ => decodeMap "" decodeString d) s None.
End Decoder.

(** Documents are written with single quotes here. *)
Definition documentText (lines : list string) : string :=
  map_str (fun c => if Ascii.eqb c "'" then double_quote else c) (String.concat "" lines).

(** [null] is a result without keys, a repeated key counts once, names of fields are matched without
    regard to case, the last one wins, and the wrong type is an error even where [null] is none. *)
Example decoder_cases :
  Decoder.unmarshalResult " null " = Ok None /\ is_ok (Decoder.unmarshalResult "[]") = false /\
  is_ok (Decoder.unmarshalResult "") = false /\
  Decoder.unmarshalResult (documentText ["{'a':[1,2],'error':null,'a':{}}"]) = Ok (Some {["a"; "error"]}) /\
  Decoder.unmarshalRuntimeError (documentText ["{'Error':'x','ERROR':'y','other':1,'error':null}"]) = Ok "y" /\
  is_ok (Decoder.unmarshalRuntimeError (documentText ["{'error':{}}"])) = false /\
  Decoder.unmarshalBlocked (documentText ["{'total_rows':2,'rows':[{'key':'ns1'},{'id':3}]}"]) = Ok ["ns1"; ""] /\
  Decoder.unmarshalKeys (documentText ["{'k':'AAEC'}"]) = Ok {["k" := "AAEC"]}.
Proof. vm_compute. split_and!; reflexivity. Qed.
