(* ===== verification/FunctionDecode.v ===== *)
(** * Documents of functions

    What [json.Unmarshal] makes of the document of a function: the structs of
    [pkg/entities/function.go] and [annotations.go], whose code, limits and
    annotations decode their own raw texts.  A value of the wrong type is
    remembered and decoding goes on; an error of such a method ends it. *)
From Stdlib Require Import Floats.SpecFloat.
From S2P Require Export JsonDecode FunctionDoc.
Import JSON Print Copy Marshal Decoder.

Local Open Scope go_scope.

(** ** The raw texts of elements and members *)
Definition rawValue (s : string) : option (string * string) :=
  match JSON.value s with
  | Some (_, r) => Some (take_str (String.length (skip s) - String.length r) (skip s), r)
  | None => None
  end.

Definition rawMember (s : string) : option ((string * string) * string) :=
  match expect (String double_quote "") s with
  | Some r =>
      match readString r with
      | Some (k, r) =>
          match expect ":" r with
          | Some r => prod_map (pair k) id <$> rawValue r
          | None => None
          end
      | None => None
      end
  | None => None
  end.

Section items.
Context {A : Type} (item : string -> option (A * string)) (close : string).

(** What follows the first item. *)
Fixpoint rawItems (n : nat) (s : string) : option (list A) :=
  match n with
  | O => None
  | S n =>
      match expect close s with
      | Some _ => Some []
      | None =>
          match expect "," s with
          | Some r => match item r with Some (x, r) => cons x <$> rawItems n r | None => None end
          | None => None
          end
      end
  end.

(** All of them, after the opening bracket. *)
Definition rawAll (s : string) : option (list A) :=
  match expect close s with
  | Some _ => Some []
  | None => match item s with Some (x, r) => cons x <$> rawItems (json_fuel r) r | None => None end
  end.
End items.

Definition rawArray (s : string) : option (list string) := expect "[" s ≫= rawAll rawValue "]".
Definition rawObject (s : string) : option (list (string * string)) := expect "{" s ≫= rawAll rawMember "}".

(** ** Values of any type *)

(** Numerator and exponent of ten of a literal, after its sign. *)
Fixpoint decimal (s : string) (afterPoint : bool) (d x : Z) : Z * Z :=
  match s with
  | EmptyString => (d, x)
  | String c s' =>
      if isDigit c then decimal s' afterPoint (d * 10 + (ascii_Z c - 48)) (if afterPoint then x - 1 else x)
      else if Ascii.eqb c "." then decimal s' true d x
      else (* the exponent *)
        let z := match s' with
                 | String e s'' =>
                     if Ascii.eqb e "-" then Z.opp <$> digitsValue s'' 0
                     else if Ascii.eqb e "+" then digitsValue s'' 0 else digitsValue s' 0
                 | EmptyString => None
                 end in
        (d, x + default 0 z)
  end.

(** The nearest float, ties to even; out of the range of all floats the power is not computed. *)
Definition roundDecimal (d x : Z) : spec_float :=
  let digits := Zdigits2 d in
  if d =? 0 then S754_zero false
  else if 1100 <? x then S754_infinity false
  else if x <? - (digits + 1100) then S754_zero false
  else if 0 <=? x then binary_normalize 53 1024 (d * 10 ^ x) 0 false
  else let '(q, e, l) := SFdiv_core_binary 53 1024 d 0 (10 ^ (- x)) 0 in binary_round_aux 53 1024 false q e l.

(** [strconv.ParseFloat]; an overflow is an error. *)
Definition ParseFloat (s : string) : option spec_float :=
  let '(negative, s) := match s with
                        | String c s' => if Ascii.eqb c "-" then (true, s') else (false, s)
                        | EmptyString => (false, s)
                        end in
  let '(d, x) := decimal s false 0 0 in
  match roundDecimal d x with
  | S754_infinity _ | S754_nan => None
  | f => Some (if negative : bool then SFopp f else f)
  end.

(** The numbers within are floats. *)
Fixpoint inRange (d : jdoc) : bool :=
  match d with
  | DNumber l => bool_decide (is_Some (ParseFloat l))
  | DArray l => forallb inRange l
  | DObject l => forallb (fun kd => inRange kd.2) l
  | _ => true
  end.

(** Into an empty interface; arrays and objects are kept as texts. *)
Definition decodeAny (raw : string) : result any :=
  match Parse raw with
  | None => Err syntaxError
  | Some DNull => Ok VNil
  | Some (DBool b) => Ok (VBool b)
  | Some (DNumber l) => match ParseFloat l with Some f => Ok (any_of_float f) | None => Err typeError end
  | Some (DString s) => Ok (VString s)
  | Some d => if inRange d then Ok (VOther raw) else Err typeError
  end.

(** ** Structs

    A field gets the raw text of its value; the result says whether a value of the wrong type was met. *)
Definition rawDecoder (A : Type) : Type := string -> A -> outcome (result (A * bool)).

(** A decoder of documents, whose errors are remembered. *)
Definition remembering {A} (dec : decoder A) : rawDecoder A := fun raw old =>
  match Parse raw with
  | None => Done (Err syntaxError)
  | Some d => match dec d old with
              | Ok a => Done (Ok (a, false))
              | Err _ => Done (Ok (old, true))
              end
  end.

Section struct.
Context {S : Type} (fieldDecoders : list (string * rawDecoder S)).

Definition rawFieldDecoder (name : string) : option (rawDecoder S) :=
  match Tree.assoc name fieldDecoders with
  | Some dec => Some dec
  | None => snd <$> List.find (fun fd => bool_decide (foldName fd.1 = foldName name)) fieldDecoders
  end.

Fixpoint decodeRawMembers (l : list (string * string)) (s : S) (wrong : bool) : outcome (result (S * bool)) :=
  match l with
  | [] => Done (Ok (s, wrong))
  | (k, raw) :: l' =>
      match rawFieldDecoder k with
      | None => decodeRawMembers l' s wrong
      | Some dec => call_bind (dec raw s) (fun '(s, w) => decodeRawMembers l' s (wrong || w))
      end
  end.

Definition decodeRawStruct : rawDecoder S := fun raw old =>
  match Parse raw, rawObject raw with
  | Some (DObject _), Some l => decodeRawMembers l old false
  | Some DNull, _ => Done (Ok (old, false))
  | Some _, _ => Done (Ok (old, true))
  | None, _ => Done (Err syntaxError)
  end.
End struct.

(** [json.Unmarshal]. *)
Definition UnmarshalRaw {A} (dec : rawDecoder A) (data : string) (old : A) : outcome (result A) :=
  call_bind (dec data old) (fun '(a, wrong) => Done (if wrong : bool then Err typeError else Ok a)).

(** A field of a struct, given what to do with its value. *)
Definition rawField {S A} (get : S -> A) (set : A -> S -> S) (dec : rawDecoder A) : rawDecoder S := fun raw s =>
  call_bind (dec raw (get s)) (fun '(a, wrong) => Done (Ok (set a s, wrong))).

(** A method [UnmarshalJSON], whose error ends the decoding. *)
Definition method {A} (m : string -> A -> outcome (result A)) : rawDecoder A := fun raw old =>
  call_bind (m raw old) (fun a => Done (Ok (a, false))).

(** ** Annotations *)

(** [jsonAnnotation]. *)
Definition anyDecoder : rawDecoder any := fun raw old =>
  match decodeAny raw with Ok v => Done (Ok (v, false)) | Err _ => Done (Ok (old, true)) end.
Definition annotationFields : list (string * rawDecoder (string * any)) := [
  ("key", rawField fst (fun k kv => (k, kv.2)) (remembering decodeString));
  ("value", rawField snd (fun v kv => (kv.1, v)) anyDecoder)].
Definition decodeAnnotation : rawDecoder (string * any) := decodeRawStruct annotationFields.

Fixpoint decodeAnnotations (raws : list string) : outcome (result (list (string * any))) :=
  match raws with
  | [] => Done (Ok [])
  | raw :: raws' =>
      call_bind (UnmarshalRaw decodeAnnotation raw ("", VNil)) (fun kv =>
      call_bind (decodeAnnotations raws') (fun l => Done (Ok (kv :: l))))
  end.

(** [Annotations.UnmarshalJSON]. *)
Definition Annotations_UnmarshalJSON (data : string) : outcome (result Annotations) :=
  match Parse data, rawArray data with
  | Some (DArray _), Some raws => call_bind (decodeAnnotations raws) (fun list => Done (Ok (collect list)))
  | Some DNull, _ => Done (Ok ∅)
  | Some _, _ => Done (Err typeError)
  | None, _ => Done (Err syntaxError)
  end.

(** ** Functions *)
Section functions.
Context `{FastJSON}.

Definition Exec_zero : Exec := {| exec_Kind := ""; Entities.Code := FunctionCode_zero; Main := ""; Binary := false |}.
Definition Function_zero : EntityFunction :=
  {| f_Name := ""; f_Namespace := ""; f_Exec := Exec_zero; f_Annotations := ∅;
     f_Limits := {| Timeout := 0; lim_Memory := 0; lim_Logs := 0 |} |}.

Definition set_Kind x e : Exec :=
  {| exec_Kind := x; Entities.Code := Entities.Code e; Main := Main e; Binary := Binary e |}.
Definition set_ExecCode x e : Exec :=
  {| exec_Kind := exec_Kind e; Entities.Code := x; Main := Main e; Binary := Binary e |}.
Definition set_Main x e : Exec :=
  {| exec_Kind := exec_Kind e; Entities.Code := Entities.Code e; Main := x; Binary := Binary e |}.
Definition set_Binary x e : Exec :=
  {| exec_Kind := exec_Kind e; Entities.Code := Entities.Code e; Main := Main e; Binary := x |}.

Definition execFields : list (string * rawDecoder Exec) := [
  ("kind", rawField exec_Kind set_Kind (remembering decodeString));
  ("code", rawField Entities.Code set_ExecCode (method unmarshalCode));
  ("main", rawField Main set_Main (remembering decodeString));
  ("binary", rawField Binary set_Binary (remembering decodeBool))].
Definition decodeExec : rawDecoder Exec := decodeRawStruct execFields.

Definition set_Name x f : EntityFunction :=
  {| f_Name := x; f_Namespace := f_Namespace f; f_Exec := f_Exec f;
     f_Annotations := f_Annotations f; f_Limits := f_Limits f |}.
Definition set_Namespace x f : EntityFunction :=
  {| f_Name := f_Name f; f_Namespace := x; f_Exec := f_Exec f;
     f_Annotations := f_Annotations f; f_Limits := f_Limits f |}.
Definition set_Exec x f : EntityFunction :=
  {| f_Name := f_Name f; f_Namespace := f_Namespace f; f_Exec := x;
     f_Annotations := f_Annotations f; f_Limits := f_Limits f |}.
Definition set_Annotations x f : EntityFunction :=
  {| f_Name := f_Name f; f_Namespace := f_Namespace f; f_Exec := f_Exec f;
     f_Annotations := x; f_Limits := f_Limits f |}.
Definition set_Limits x f : EntityFunction :=
  {| f_Name := f_Name f; f_Namespace := f_Namespace f; f_Exec := f_Exec f;
     f_Annotations := f_Annotations f; f_Limits := x |}.

Definition functionFields : list (string * rawDecoder EntityFunction) := [
  ("name", rawField f_Name set_Name (remembering decodeString));
  ("namespace", rawField f_Namespace set_Namespace (remembering decodeString));
  ("exec", rawField f_Exec set_Exec decodeExec);
  ("annotations", rawField f_Annotations set_Annotations (method (fun data _ => Annotations_UnmarshalJSON data)));
  ("limits", rawField f_Limits set_Limits (method (fun data _ => Done (unmarshalLimits data))))].
Definition decodeFunction : rawDecoder EntityFunction := decodeRawStruct functionFields.

(** [json.Unmarshal(bs, &fn)] of [GetFunction]. *)
Definition unmarshalFunction (data : string) : outcome (result EntityFunction) :=
  UnmarshalRaw decodeFunction data Function_zero.
End functions.

(** ** Errors *)
Section errors.
Context (P : go_error -> Prop) (Hsyntax : P syntaxError) (Htype : P typeError).

Definition errs {A} (dec : rawDecoder A) : Prop := forall raw old e, dec raw old = Done (Err e) -> P e.

Lemma call_bind_Err {A B} (o : outcome (result A)) (f : A -> outcome (result B)) e :
  call_bind o f = Done (Err e) -> o = Done (Err e) \/ exists a, o = Done (Ok a) /\ f a = Done (Err e).
Proof using. destruct o as [[a|e']|]; cbn; [by eauto|intros [= ->]; by left|done]. Qed.

Lemma errs_remembering {A} (dec : decoder A) : errs (remembering dec).
Proof using Hsyntax.
  intros raw old e. unfold remembering. destruct (Parse raw); [by destruct (dec _ _)|]. by intros [= <-].
Qed.

Lemma errs_rawField {S A} (get : S -> A) set dec : errs dec -> errs (rawField get set dec).
Proof using. intros Hd raw s e [He|([a w] & _ & [=])]%call_bind_Err. by eapply Hd. Qed.

Lemma errs_method {A} (m : string -> A -> outcome (result A)) :
  (forall raw old e, m raw old = Done (Err e) -> P e) -> errs (method m).
Proof using. intros Hm raw old e [He|(a & _ & [=])]%call_bind_Err. by eapply Hm. Qed.

Lemma errs_members {S} (fields : list (string * rawDecoder S)) l s w e :
  Forall (fun fd => errs fd.2) fields -> decodeRawMembers fields l s w = Done (Err e) -> P e.
Proof using.
  intros Hf. revert s w. induction l as [|[k raw] l IH]; intros s w; [done|]. cbn [decodeRawMembers].
  destruct (rawFieldDecoder fields k) as [dec|] eqn:Hk; [|apply IH].
  intros [He|([s' w'] & _ & He)]%call_bind_Err; [|by eapply IH].
  assert (exists fd, fd ∈ fields /\ fd.2 = dec) as (fd & Hin & <-).
  { unfold rawFieldDecoder in Hk. destruct (Tree.assoc k fields) eqn:Ha.
    - injection Hk as ->. clear -Ha. induction fields as [|[n d] fields IH]; [done|]. cbn in Ha. case_bool_decide.
      + injection Ha as ->. exists (n, dec). split; [by left|done].
      + destruct (IH Ha) as (fd & ? & ?). exists fd. split; [by right|done].
    - destruct (List.find _ fields) as [fd|] eqn:Hfd; [|done]. apply List.find_some in Hfd as [Hfd _].
      injection Hk as <-. exists fd. split; [by apply list_elem_of_In|done]. }
  rewrite Forall_forall in Hf. by eapply Hf.
Qed.

Lemma errs_struct {S} (fields : list (string * rawDecoder S)) :
  Forall (fun fd => errs fd.2) fields -> errs (decodeRawStruct fields).
Proof using Hsyntax.
  intros Hf raw s e. unfold decodeRawStruct. destruct (Parse raw) as [d|]; [|by intros [= <-]].
  destruct d; try done. destruct (rawObject raw); [|done]. by apply errs_members.
Qed.

Lemma errs_Unmarshal {A} (dec : rawDecoder A) data old e :
  errs dec -> UnmarshalRaw dec data old = Done (Err e) -> P e.
Proof using Htype.
  intros Hd [He|([a w] & _ & He)]%call_bind_Err; [by eapply Hd|]. destruct w; [|done]. by injection He as <-.
Qed.
End errors.

(** Unless the reader of raw documents says so, no error is that of a missing function. *)
Section missing.
Context `{FastJSON} (Hparse : forall data e, ParseBytes data = Err e -> isFunctionNotFound e = false).
Notation P := (fun e => isFunctionNotFound e = false).

Lemma errs_annotations : errs P (method (fun data (_ : Annotations) => Annotations_UnmarshalJSON data)).
Proof using.
  apply errs_method. intros raw _ e. unfold Annotations_UnmarshalJSON.
  destruct (Parse raw) as [d|]; [|by intros [= <-]]. destruct d; try (by intros [= <-]).
  destruct (rawArray raw) as [raws|]; [|by intros [= <-]]. intros [He|(kvs & _ & [=])]%call_bind_Err.
  revert e He. induction raws as [|x raws IH]; intros e; [done|]. cbn [decodeAnnotations].
  intros [He|(kv & _ & [He|(l' & _ & [=])]%call_bind_Err)]%call_bind_Err; [|by apply IH].
  eapply (errs_Unmarshal P); [done| |exact He]. apply errs_struct; [done|]. repeat constructor; apply errs_rawField.
  - by apply errs_remembering.
  - intros raw' old e'. unfold anyDecoder. by destruct (decodeAny raw').
Qed.

Lemma errs_code : errs P (method unmarshalCode).
Proof using Hparse.
  apply errs_method. intros raw c e. unfold unmarshalCode, unmarshalInlined.
  destruct (ParseBytes raw) as [v|e'] eqn:Hp.
  - repeat case_match; try done; by intros [= <-].
  - intros [= <-]. unfold isFunctionNotFound. rewrite errors_Is_wrap. by eapply Hparse.
Qed.

Lemma errs_limits : errs P (method (fun data (_ : Limits) => Done (unmarshalLimits data))).
Proof using Hparse.
  apply errs_method. intros raw _ e. unfold unmarshalLimits. destruct (ParseBytes raw) eqn:Hp; [done|].
  intros [= <-]. by eapply Hparse.
Qed.

Lemma unmarshalFunction_errors data e : unmarshalFunction data = Done (Err e) -> isFunctionNotFound e = false.
Proof using Hparse.
  apply (errs_Unmarshal P eq_refl decodeFunction). apply errs_struct; [done|].
  repeat apply Forall_cons_2; [..|apply Forall_nil_2]; apply errs_rawField;
    [by apply errs_remembering..| |apply errs_annotations|apply errs_limits].
  apply errs_struct; [done|]. repeat apply Forall_cons_2; [..|apply Forall_nil_2]; apply errs_rawField;
    [by apply errs_remembering|apply errs_code|by apply errs_remembering..].
Qed.
End missing.
