(* ===== verification/FunctionDecodeSpec.v ===== *)
(** * Documents of functions read back

    The raw texts of the parts of a document that was written, members in any
    order, the annotations, and the whole document of a function. *)
From Stdlib Require Import Floats.SpecFloat.
From S2P Require Export FunctionDecode.
Import JSON Print Copy Marshal Decoder.

Local Open Scope go_scope.

(** ** Raw texts of written documents *)
Definition starts (s : string) : Prop := exists c x, s = String c x /\ isBlank c = false.

Lemma starts_skip s rest : starts s -> skip (s +:+ rest) = s +:+ rest.
Proof. intros (c & x & -> & Hc). rewrite app_str_cons. by apply skip_char. Qed.

Lemma number_starts s l r : number s = Some (l, r) -> starts s.
Proof.
  destruct s as [|c s]; [done|]. intros Hn. exists c, s. split; [done|].
  destruct (isDigit c) eqn:Hd.
  - revert Hd. clear. destruct c as [[] [] [] [] [] [] [] []]; intros Hc; vm_compute in Hc; done.
  - destruct (Ascii.eqb_spec c "-") as [->|Hne]; [done|].
    rewrite number_quote in Hn; [done..|]. by apply Ascii.eqb_neq.
Qed.

Lemma compact_starts t d : Parse t = Some d -> starts (compact false t).
Proof.
  intros Hp. rewrite compact_skip. destruct (skip t) as [|c x] eqn:Hs.
  { unfold Parse in Hp. fold (JSON.value t) in Hp. by rewrite (proj1 (readers_not_blank t Hs)) in Hp. }
  apply skip_head in Hs as Hc. cbn [compact]. destruct (html c).
  - eexists _, _. unfold unicodeEscape. split; [by rewrite app_str_cons|done].
  - rewrite Hc. by eexists _, _.
Qed.

Section written.
Context `{FloatText}.

Lemma text_starts v : raws_valid v = true -> starts (text v).
Proof using.
  intros Hv. destruct v as [a|b|z|s|t|l|l]; cbn [text].
  - destruct a as [|b|m e|s|t]; cbn [anyText].
    + by eexists _, _.
    + destruct b; by eexists _, _.
    + pose proof (FormatFloat_number m e "" eq_refl) as Hn. rewrite app_str_nil_r in Hn. by eapply number_starts.
    + by eexists _, _.
    + cbn in Hv. apply bool_decide_eq_true in Hv as [d Hd]. by eapply compact_starts.
  - destruct b; by eexists _, _.
  - pose proof (number_fmt_d z "" eq_refl) as Hn. rewrite app_str_nil_r in Hn. by eapply number_starts.
  - by eexists _, _.
  - cbn in Hv. apply bool_decide_eq_true in Hv as [d Hd]. by eapply compact_starts.
  - by eexists _, _.
  - by eexists _, _.
Qed.

(** The raw text of a value that was written is what was written. *)
Lemma rawValue_text v rest : raws_valid v = true -> ends_number rest = true ->
  rawValue (text v +:+ rest) = Some (text v, rest).
Proof using.
  intros Hv Hr. unfold rawValue. rewrite (text_reads_back v Hv rest Hr).
  rewrite starts_skip by by apply text_starts. rewrite length_app_str.
  replace (_ + _ - _)%nat with (String.length (text v)) by lia. by rewrite take_str_app.
Qed.

Definition memberText (kv : string * ActivationDoc.value) : string := quote kv.1 +:+ ":" +:+ text kv.2.
Definition rawEntry (kv : string * ActivationDoc.value) : string * string := (coerce kv.1, text kv.2).

Lemma rawMember_text kv rest : raws_valid kv.2 = true -> ends_number rest = true ->
  rawMember (memberText kv +:+ rest) = Some (rawEntry kv, rest).
Proof using.
  intros Hv Hr. unfold rawMember, memberText.
  rewrite <- !app_str_assoc, quote_app, expect_here, readString_escape by done.
  rewrite app_str_cons, app_str_nil_l, expect_here by done. by rewrite rawValue_text.
Qed.

Section items.
Context {A X : Type} (item : string -> option (A * string)) (close : ascii) (write : X -> string) (raw : X -> A).
Hypothesis Hclose : close = "]"%char \/ close = "}"%char.

Definition written_back (x : X) : Prop :=
  forall rest, ends_number rest = true -> item (write x +:+ rest) = Some (raw x, rest).

Lemma rawItems_text n l : Forall written_back l ->
  (String.length (prefixed "," (List.map write l)) < n)%nat ->
  rawItems item (String close "") n (prefixed "," (List.map write l) +:+ String close "") = Some (List.map raw l).
Proof using Hclose.
  intros Hl. revert n. induction Hl as [|x l Hx Hl IH]; intros n Hn.
  - destruct n; [cbn in Hn; lia|]. cbn [prefixed List.map rawItems]. rewrite app_str_nil_l.
    rewrite expect_here by by destruct Hclose; subst. done.
  - destruct n; [lia|]. cbn [prefixed List.map] in *. rewrite !length_app_str in Hn. cbn [String.length] in Hn.
    rewrite <- !app_str_assoc, app_str_cons, app_str_nil_l. cbn [rawItems].
    rewrite expect_char, expect_here by done.
    replace (Ascii.eqb close ",") with false by by destruct Hclose; subst.
    rewrite Hx by by apply prefixed_ends; destruct Hclose; subst. rewrite IH by lia. done.
Qed.

Hypothesis Hitem : forall s x, item s = Some x -> expect (String close "") s = None.

Lemma rawAll_text l : Forall written_back l ->
  rawAll item (String close "") (GoStrings.Join (List.map write l) "," +:+ String close "") = Some (List.map raw l).
Proof using Hclose Hitem.
  intros [|x l' Hx Hl]; unfold rawAll.
  - cbn [List.map GoStrings.Join]. rewrite app_str_nil_l, expect_here by by destruct Hclose; subst. done.
  - cbn [List.map]. rewrite Join_cons, <- app_str_assoc.
    assert (He : item (write x +:+ prefixed "," (List.map write l') +:+ String close "") =
                 Some (raw x, prefixed "," (List.map write l') +:+ String close ""))
      by by apply Hx, prefixed_ends; destruct Hclose; subst.
    rewrite (Hitem _ _ He), He, rawItems_text; [done|done|].
    unfold json_fuel. rewrite length_app_str. cbn. lia.
Qed.
End items.

(** An array and an object that are written consist of their raw texts. *)
Lemma rawArray_text l : forallb raws_valid l = true -> rawArray (text (JArray l)) = Some (List.map text l).
Proof using.
  intros Hl. unfold rawArray. cbn [text]. rewrite app_str_cons, app_str_nil_l, expect_here by done.
  cbn [mbind option_bind]. apply (rawAll_text rawValue "]" text text); [by left| |].
  - intros s x Hx. unfold rawValue in Hx. destruct (JSON.value s) as [y|] eqn:Hs; [|done]. by eapply value_not_end.
  - apply List.Forall_forall. intros v Hv rest Hr. apply rawValue_text; [|done]. by eapply forallb_forall.
Qed.

Lemma rawObject_text l : forallb (fun kv => raws_valid kv.2) l = true ->
  rawObject (text (JObject l)) = Some (List.map rawEntry l).
Proof using.
  intros Hl. unfold rawObject. cbn [text]. rewrite app_str_cons, app_str_nil_l, expect_here by done.
  cbn [mbind option_bind]. apply (rawAll_text rawMember "}" memberText rawEntry); [by right| |].
  - intros s x Hx. unfold rawMember in Hx. destruct (expect (String double_quote "") s) eqn:He; [|done].
    apply expect_inv in He. by eapply expect_other.
  - apply List.Forall_forall. intros kv Hv rest Hr. apply rawMember_text; [|done].
    by eapply (proj1 (forallb_forall (fun kv => raws_valid kv.2) l)).
Qed.

Lemma Parse_text v : raws_valid v = true -> Parse (text v) = Some (docOf v).
Proof using. intros Hv. apply Marshal_reads. unfold json_Marshal. by rewrite Hv. Qed.
End written.

(** ** Members in any order *)
Section updates.
Context {S : Type} (fields : list (string * rawDecoder S)).

(** Before its member a field has its zero value. *)
Context (fresh : string -> S -> Prop).

(** A member with what it changes. *)
Definition updates (x : (string * string) * (S -> S)) : Prop :=
  exists dec, rawFieldDecoder fields x.1.1 = Some dec /\
    forall s, fresh x.1.1 s -> dec x.1.2 s = Done (Ok (x.2 s, false)).

Definition apart (x y : (string * string) * (S -> S)) : Prop :=
  x.1.1 <> y.1.1 ->
  (forall s, x.2 (y.2 s) = y.2 (x.2 s)) /\ (forall s, fresh y.1.1 s -> fresh y.1.1 (x.2 s)).

Definition ignored (kv : string * string) : Prop := rawFieldDecoder fields kv.1 = None.

#[export] Instance ignored_dec kv : Decision (ignored kv).
Proof. unfold ignored. destruct (rawFieldDecoder fields kv.1); [right|left]; done. Defined.

Lemma decodeRawMembers_ignored l s wrong :
  decodeRawMembers fields l s wrong = decodeRawMembers fields (filter (fun kv => ~ ignored kv) l) s wrong.
Proof.
  revert s wrong. induction l as [|[k raw] l IH]; intros s wrong; [done|].
  rewrite filter_cons. destruct (decide (ignored (k, raw))) as [Hi|Hi].
  - rewrite decide_False by (intros ?; done). rewrite <- IH. cbn [decodeRawMembers].
    unfold ignored in Hi. cbn in Hi. by rewrite Hi.
  - rewrite decide_True by done. cbn [decodeRawMembers]. destruct (rawFieldDecoder fields k) as [dec|]; [|apply IH].
    destruct (dec raw s) as [[[s' w]|e]|]; [apply IH|done..].
Qed.

Lemma decodeRawMembers_updates xs s wrong :
  Forall updates xs -> NoDup (List.map (fun x => x.1.1) xs) -> (forall x y, x ∈ xs -> y ∈ xs -> apart x y) ->
  Forall (fun x => fresh x.1.1 s) xs ->
  decodeRawMembers fields (List.map fst xs) s wrong = Done (Ok (foldr (fun x s => x.2 s) s (rev xs), wrong)).
Proof.
  intros Hu. revert s wrong.
  induction Hu as [|[[k raw] u] xs (dec & Hd & Hs) Hu IH]; intros s wrong Hn Ha Hf; [done|].
  inversion Hn as [|? ? Hk Hn']; subst. inversion Hf as [|? ? Hfx Hf']; subst.
  cbn [List.map decodeRawMembers fst]. cbn in Hd, Hs. rewrite Hd, Hs by done. cbn [call_bind].
  rewrite orb_false_r. rewrite IH; [|done|by intros; apply Ha; right|].
  - cbn [rev]. by rewrite foldr_app.
  - rewrite List.Forall_forall in *. intros y Hy.
    apply (Ha (k, raw, u) y); [by left|by right; apply list_elem_of_In| |by apply Hf'].
    cbn. intros E. apply Hk. rewrite E. apply list_elem_of_In, List.in_map_iff. by exists y.
Qed.

Lemma decodeRawMembers_permuted l xs extra s wrong :
  l ≡ₚ List.map fst xs ++ extra -> Forall ignored extra -> Forall updates xs ->
  NoDup (List.map (fun x => x.1.1) xs) -> (forall x y, x ∈ xs -> y ∈ xs -> apart x y) ->
  Forall (fun x => fresh x.1.1 s) xs ->
  decodeRawMembers fields l s wrong = Done (Ok (foldr (fun x s => x.2 s) s xs, wrong)).
Proof.
  intros Hl He Hu Hn Ha Hf. rewrite decodeRawMembers_ignored.
  assert (Hp : filter (fun kv => ~ ignored kv) l ≡ₚ List.map fst xs).
  { rewrite Hl, filter_app, (filter_none _ extra), app_nil_r.
    - rewrite filter_all; [done|]. intros kv (x & <- & Hx)%list_elem_of_In%List.in_map_iff.
      rewrite List.Forall_forall in Hu. destruct (Hu x Hx) as (dec & Hd & _). unfold ignored. congruence.
    - intros kv Hkv Hno. rewrite Forall_forall in He. by apply Hno, He. }
  destruct (Permutation_map_inv _ _ Hp) as (ys & Hys & Hxy). rewrite Hys.
  assert (Hin : forall x, x ∈ ys -> x ∈ xs) by (intros x; by rewrite Hxy).
  rewrite decodeRawMembers_updates; [|by rewrite <- Hxy|by rewrite <- Hxy|by auto|by rewrite <- Hxy].
  assert (Hr : rev ys ≡ₚ xs) by by rewrite Hxy, <- Permutation_rev.
  do 3 f_equal. apply (foldr_permutation (=)); [apply _| |done].
  intros j1 x j2 y t Hj Hx Hy. apply Ha.
  - rewrite <- Hr. by eapply list_elem_of_lookup_2.
  - rewrite <- Hr. by eapply list_elem_of_lookup_2.
  - intros Hxy'. apply Hj. rewrite <- Hr in Hn.
    eapply (NoDup_lookup _ _ _ (x.1.1) Hn); change (List.map ?f ?l) with (f <$> l);
      rewrite list_lookup_fmap, ?Hx, ?Hy; [done|]. cbn. by rewrite Hxy'.
Qed.
End updates.

Section documents.
Context `{FloatText}.

Lemma decodeRawStruct_text {S} (fields : list (string * rawDecoder S)) l s :
  raws_valid (JObject l) = true ->
  decodeRawStruct fields (text (JObject l)) s = decodeRawMembers fields (List.map rawEntry l) s false.
Proof using.
  intros Hl. unfold decodeRawStruct. rewrite Parse_text by done. cbn [docOf]. by rewrite rawObject_text.
Qed.

(** Values that are decoded as they were: those without arrays and objects at least, if their strings are
    UTF-8. *)
Definition survives (kv : string * any) : Prop :=
  validUTF8 kv.1 = true /\ anyValid kv.2 = true /\ decodeAny (anyText kv.2) = Ok kv.2.

Lemma quote_reads s : validUTF8 s = true -> Parse (quote s) = Some (DString s).
Proof using.
  intros Hs. apply Parse_value. by rewrite <- (app_str_nil_r (quote s)), value_quote, coerce_valid.
Qed.

Lemma annotation_key k l kv : validUTF8 k = true ->
  decodeRawMembers annotationFields (rawEntry ("key", JString k) :: l) kv false =
  decodeRawMembers annotationFields l (k, kv.2) false.
Proof using.
  intros Hk. transitivity (call_bind (rawField fst (fun k kv => (k, kv.2)) (remembering decodeString) (quote k) kv)
    (fun '(s, w) => decodeRawMembers annotationFields l s w)); [reflexivity|].
  unfold rawField, remembering. by rewrite quote_reads.
Qed.

Lemma annotation_value v l kv : decodeAny (anyText v) = Ok v ->
  decodeRawMembers annotationFields (rawEntry ("value", JAny v) :: l) kv false =
  decodeRawMembers annotationFields l (kv.1, v) false.
Proof using.
  intros Hv. transitivity (call_bind (rawField snd (fun v kv => (kv.1, v)) anyDecoder (anyText v) kv)
    (fun '(s, w) => decodeRawMembers annotationFields l s w)); [reflexivity|].
  unfold rawField, anyDecoder. by rewrite Hv.
Qed.

Lemma decodeAnnotation_text kv : survives kv ->
  UnmarshalRaw decodeAnnotation (text (jsonAnnotation kv)) ("", VNil) = Done (Ok kv).
Proof using.
  destruct kv as [k v]. intros (Hk & Hv & Hd). cbn [fst snd] in *.
  unfold UnmarshalRaw, decodeAnnotation, jsonAnnotation.
  cbn [fst snd]. rewrite decodeRawStruct_text; [rewrite List.map_app|].
  - case_bool_decide as E; [subst k|]; cbn [List.map app]; rewrite ?annotation_key by done;
      destruct v; cbn [List.map]; rewrite ?annotation_value by done; reflexivity.
  - change (raws_valid (jsonAnnotation (k, v)) = true). by rewrite jsonAnnotation_valid.
Qed.

Lemma decodeAnnotations_text l : Forall survives l ->
  decodeAnnotations (List.map text (List.map jsonAnnotation l)) = Done (Ok l).
Proof using.
  induction 1 as [|kv l Hkv _ IH]; [done|]. cbn [List.map decodeAnnotations].
  rewrite decodeAnnotation_text by done. cbn [call_bind]. by rewrite IH.
Qed.

Context {MA : MapRange string any}.

Lemma annotations_survive seed (a : Annotations) :
  map_Forall (fun k v => survives (k, v)) a -> Forall survives (merge_sort key_le (go_range seed a)).
Proof using.
  intros Ha. apply Forall_forall. intros [k v] Hkv. rewrite sorted_range_perm in Hkv.
  apply elem_of_map_to_list in Hkv. by apply (Ha k v).
Qed.

Lemma survive_valid (a : Annotations) : map_Forall (fun k v => survives (k, v)) a -> annotations_valid a.
Proof using. intros Ha k v Hkv. apply (Ha k v Hkv). Qed.

(** The text of annotations is read back by the method of the same type. *)
Lemma Annotations_text seed (a : Annotations) :
  map_Forall (fun k v => survives (k, v)) a ->
  Annotations_UnmarshalJSON (text (marshalAnnotations seed a)) = Done (Ok a).
Proof using.
  intros Ha. pose proof (marshalAnnotations_valid seed a (survive_valid a Ha)) as Hv. unfold Annotations_UnmarshalJSON.
  rewrite Parse_text by done. unfold marshalAnnotations in *. cbn [docOf]. rewrite rawArray_text by done.
  change (?f <$> ?l) with (List.map f l). rewrite decodeAnnotations_text by by apply annotations_survive.
  cbn [call_bind]. do 2 f_equal. apply collect_map, sorted_range_perm.
Qed.
End documents.

(** ** Function documents *)
Section roundtrip.
Context `{FloatText} `{FastJSON} {MA : MapRange string any}.

(** The members of the function and of its code, in any order, with others that are no fields. *)
Definition execMembers (kind : string) (code : ActivationDoc.value) (main : string) (binary : bool) :
    list (string * ActivationDoc.value) :=
  [("kind", JString kind); ("code", code); ("main", JString main); ("binary", JBool binary)].

Definition functionMembers (name namespace : string) exec annotations limits : list (string * ActivationDoc.value) :=
  [("name", JString name); ("namespace", JString namespace); ("exec", JObject exec);
   ("annotations", annotations); ("limits", limits)].

Lemma remembering_string s old : validUTF8 s = true ->
  remembering decodeString (quote s) old = Done (Ok (s, false)).
Proof using. intros Hs. unfold remembering. by rewrite quote_reads. Qed.

Lemma updates_field {S A} (fields : list (string * rawDecoder S)) fresh get set (dec : rawDecoder A) k raw x :
  rawFieldDecoder fields k = Some (rawField get set dec) ->
  (forall s, fresh k s -> dec raw (get s) = Done (Ok (x, false))) -> updates fields fresh ((k, raw), set x).
Proof using. intros Hk Hd. eexists. split; [exact Hk|]. intros s Hs. unfold rawField. cbn. by rewrite Hd. Qed.

(** Setters of different fields are independent. *)
#[local] Ltac fields_apart :=
  let E1 := fresh in let E2 := fresh in intros ? ? E1 E2;
  rewrite !elem_of_cons, elem_of_nil in E1, E2; destruct_or!; subst; intros ?;
  first [done | split; [by intros [] | intros ? E1; first [exact E1 | intros ?; discriminate]]].

#[local] Ltac field_updated := eapply updates_field; [reflexivity|intros s Hs; cbn in Hs].

Lemma decodeExec_document exec extra kind codeV main binary code :
  exec ≡ₚ execMembers kind codeV main binary ++ extra ->
  Forall (fun kv => ignored execFields (rawEntry kv)) extra ->
  raws_valid (JObject exec) = true -> validUTF8 kind = true -> validUTF8 main = true ->
  unmarshalCode (text codeV) FunctionCode_zero = Done (Ok code) ->
  decodeExec (text (JObject exec)) Exec_zero =
    Done (Ok ({| exec_Kind := kind; Entities.Code := code; Main := main; Binary := binary |}, false)).
Proof using.
  intros Hp Hx Hv Hk Hm Hc. unfold decodeExec. rewrite decodeRawStruct_text by done.
  rewrite (decodeRawMembers_permuted execFields (fun k e => k = "code" -> Entities.Code e = FunctionCode_zero) _
    [(("kind", quote kind), set_Kind kind); (("code", text codeV), set_ExecCode code);
     (("main", quote main), set_Main main); (("binary", text (JBool binary)), set_Binary binary)]
    (List.map rawEntry extra)).
  - done.
  - rewrite Hp, List.map_app. done.
  - by apply Forall_map.
  - repeat apply Forall_cons_2; [..|apply Forall_nil_2]; field_updated.
    + by apply remembering_string.
    + unfold method. by rewrite Hs, Hc.
    + by apply remembering_string.
    + by destruct binary.
  - cbn. repeat constructor; set_solver.
  - fields_apart.
  - by repeat constructor.
Qed.
(** C17: a function's document, as text and with its members in any order and any others in between, is
    decoded into the function. *)
Theorem unmarshalFunction_document members exec extra extraExec name namespace kind codeV main binary limitsV seed
    (annotations : Annotations) code limits :
  members ≡ₚ functionMembers name namespace exec (marshalAnnotations seed annotations) limitsV ++ extra ->
  exec ≡ₚ execMembers kind codeV main binary ++ extraExec ->
  Forall (fun kv => ignored functionFields (rawEntry kv)) extra ->
  Forall (fun kv => ignored execFields (rawEntry kv)) extraExec ->
  raws_valid (JObject members) = true -> Forall (fun s => validUTF8 s = true) [name; namespace; kind; main] ->
  map_Forall (fun k v => survives (k, v)) annotations ->
  unmarshalCode (text codeV) FunctionCode_zero = Done (Ok code) -> unmarshalLimits (text limitsV) = Ok limits ->
  unmarshalFunction (text (JObject members)) =
    Done (Ok {| f_Name := name; f_Namespace := namespace;
                f_Exec := {| exec_Kind := kind; Entities.Code := code; Main := main; Binary := binary |};
                f_Annotations := annotations; f_Limits := limits |}).
Proof using.
  intros Hp He Hx Hxe Hv Hs Ha Hc Hl. rewrite !Forall_cons in Hs. destruct Hs as (Hn & Hns & Hk & Hm & _).
  assert (Hve : raws_valid (JObject exec) = true).
  { cbn [raws_valid] in Hv. rewrite forallb_forall in Hv. apply (Hv ("exec", JObject exec)).
    apply list_elem_of_In. rewrite Hp. set_solver. }
  unfold unmarshalFunction, UnmarshalRaw, decodeFunction. rewrite decodeRawStruct_text by done.
  rewrite (decodeRawMembers_permuted functionFields (fun k f => k = "exec" -> f_Exec f = Exec_zero) _
    [(("name", quote name), set_Name name); (("namespace", quote namespace), set_Namespace namespace);
     (("exec", text (JObject exec)),
        set_Exec {| exec_Kind := kind; Entities.Code := code; Main := main; Binary := binary |});
     (("annotations", text (marshalAnnotations seed annotations)), set_Annotations annotations);
     (("limits", text limitsV), set_Limits limits)]
    (List.map rawEntry extra)).
  - done.
  - rewrite Hp, List.map_app. done.
  - by apply Forall_map.
  - repeat apply Forall_cons_2; [..|apply Forall_nil_2]; field_updated.
    + by apply remembering_string.
    + by apply remembering_string.
    + rewrite Hs by done. by eapply decodeExec_document.
    + unfold method. by rewrite Annotations_text.
    + unfold method. by rewrite Hl.
  - cbn. repeat constructor; set_solver.
  - fields_apart.
  - by repeat constructor.
Qed.
End roundtrip.

(** ** A document

    As the controller writes it, with members of its own. *)
Module Whisk.
#[export] Existing Instance Stored.whole_floats.

Definition code : ActivationDoc.value :=
  JObject [("attachmentName", JString "couch:a1"); ("attachmentType", JString binaryType); ("length", JInt 5)].
Definition limits : ActivationDoc.value :=
  JObject [("timeout", JInt 3000); ("memory", JInt 256); ("logs", JInt 10); ("concurrency", JInt 1)].

Definition reader : FastJSON := Tree.reader [
  (text code, TObject [("attachmentName", TString "couch:a1"); ("attachmentType", TString binaryType);
                       ("length", TInt 5)]);
  (text limits, TObject [("timeout", TInt 3000); ("memory", TInt 256); ("logs", TInt 10); ("concurrency", TInt 1)])].
#[export] Existing Instance reader.

Definition annotations : Annotations := {["web-export" := VBool true; "raw" := VString "<x>"]}.

Definition exec : list (string * ActivationDoc.value) :=
  [("kind", JString "go:1.20"); ("binary", JBool true); ("image", JString "go"); ("code", code);
   ("main", JString "main")].

Definition members : list (string * ActivationDoc.value) :=
  [("_id", JString "ns/fn"); ("name", JString "fn"); ("exec", JObject exec);
   ("annotations", marshalAnnotations 0 annotations); ("version", JString "0.0.1"); ("limits", limits);
   ("namespace", JString "ns")].

Definition document : string := text (JObject members).

Definition function : EntityFunction :=
  {| f_Name := "fn"; f_Namespace := "ns";
     f_Exec := {| exec_Kind := "go:1.20";
                  Entities.Code := {| Resolved := ""; AttachmentID := "a1"; IsBinary := true |};
                  Main := "main"; Binary := true |};
     f_Annotations := annotations;
     f_Limits := {| Timeout := 3000 * Millisecond; lim_Memory := 256 * Megabyte; lim_Logs := 10 * Kilobyte |} |}.
End Whisk.

Import Whisk.

(** Numbers, arrays and wrong types of values; keys of another case, and a member twice. *)
Example ParseFloat_cases :
  ParseFloat "0.1" = Some (S754_finite false 7205759403792794 (-56)) /\
  ParseFloat "-25e-1" = Some (S754_finite true 5629499534213120 (-51)) /\
  ParseFloat "1e400" = None /\ ParseFloat "1e-400" = Some (S754_zero false) /\
  unmarshalFunction (GoStrings.Join ["{"; "NAME"; ": "; "fn"; ", "; "name"; ":"; "f2"; ", "; "limits"; ":[]}"]
                       (String double_quote "")) = Done (Err (ErrText "cannot parse JSON")) /\
  f_Name <$> (match unmarshalFunction (GoStrings.Join ["{"; "NAME"; ": "; "fn"; ", "; "name"; ":"; "f2"; "}"]
                       (String double_quote "")) with Done (Ok f) => Some f | _ => None end) = Some "f2".
Proof. vm_compute. split_and!; reflexivity. Qed.

(** Lists of the same elements. *)
#[local] Ltac split_at a r :=
  lazymatch r with
  | a :: ?t => let T := type of a in constr:((@nil T, t))
  | ?b :: ?t => lazymatch split_at a t with (?l1, ?l2) => constr:((b :: l1, l2)) end
  end.
#[local] Ltac permutation :=
  cbv [members exec functionMembers execMembers app];
  repeat match goal with
    |- ?a :: _ ≡ₚ ?r =>
        lazymatch split_at a r with (?l1, ?l2) => apply (Permutation_cons_app l1 l2); cbv [app] end
  end; reflexivity.

Lemma unmarshalFunction_document_witness : unmarshalFunction document = Done (Ok function).
Proof.
  eapply (unmarshalFunction_document members exec [("_id", JString "ns/fn"); ("version", JString "0.0.1")]
    [("image", JString "go")] "fn" "ns" "go:1.20" code "main" true limits 0 annotations).
  - permutation.
  - permutation.
  - by repeat constructor.
  - by repeat constructor.
  - vm_compute. reflexivity.
  - by repeat constructor.
  - apply map_Forall_insert_2; [|apply map_Forall_singleton]; split_and!; vm_compute; reflexivity.
  - vm_compute. reflexivity.
  - vm_compute. reflexivity.
Defined.
