(* ===== verification/RuntimesSpec.v ===== *)
(** * The table of runtimes

    What [RuntimeManifests.Decode] makes of a configuration, whatever the order
    in which the families are ranged over; the configuration of the tests; and
    what the order decides when names clash. *)
From S2P Require Export JsonDecode.

(** The versions with their families, in the order in which they are written. *)
Definition versions (rawManifests : list (string * list RuntimeManifest)) : list (string * RuntimeManifest) :=
  flat_map (fun fam => List.map (pair fam.1) fam.2) rawManifests.

(** What a version is found under. *)
Definition entries (fv : string * RuntimeManifest) : list (string * RuntimeManifest) :=
  (rm_Kind fv.2, fv.2) :: (if Default fv.2 then [(defaultName fv.1, fv.2)] else []).

Definition defaults (l : list (string * RuntimeManifest)) : list string :=
  fst <$> filter (fun fv => Default fv.2 = true) l.

Definition defaultCount (family : list RuntimeManifest) : nat :=
  length (filter (fun v => Default v = true) family).

Fixpoint addVersions (l : list (string * RuntimeManifest)) (manifests : RuntimeManifests) :
    result RuntimeManifests :=
  match l with
  | [] => Ok manifests
  | (f, v) :: l' => manifests' ← addVersion f manifests v; addVersions l' manifests'
  end.

Lemma addVersions_app l l' m : addVersions (l ++ l') m = (m' ← addVersions l m; addVersions l' m').
Proof. revert m. induction l as [|[f v] l IH]; intros m; [done|]. cbn [addVersions app].
  destruct (addVersion f m v); [apply IH|done].
Qed.

Lemma addFamilies_versions raw m : addFamilies m raw = addVersions (versions raw) m.
Proof.
  revert m. induction raw as [|[f vs] raw IH]; intros m; [done|]. unfold versions. cbn.
  rewrite addVersions_app. assert (Hf : addFamily f m vs = addVersions (List.map (pair f) vs) m).
  { clear IH. revert m. induction vs as [|v vs IHv]; intros m; [done|]. cbn [addFamily List.map addVersions].
    destruct (addVersion f m v); [apply IHv|done]. }
  rewrite Hf. destruct (addVersions (List.map (pair f) vs) m); [apply IH|done].
Qed.

Lemma defaultName_inj f f' : defaultName f = defaultName f' -> f = f'.
Proof.
  unfold defaultName. intros H. pose proof (f_equal String.length H) as Hl. rewrite !length_app_str in Hl.
  rewrite <- (take_str_app f ":default"), H. replace (String.length f) with (String.length f') by lia.
  by rewrite take_str_app.
Qed.

#[export] Instance defaultName_Inj : Inj (=) (=) defaultName := defaultName_inj.

(** No version has a kind that is the name of a default. *)
Definition noneClashes (l : list (string * RuntimeManifest)) : Prop :=
  forall fv f, fv ∈ l -> f ∈ l.*1 -> rm_Kind fv.2 <> defaultName f.

Lemma defaults_cons fv l : defaults (fv :: l) = (if Default fv.2 then [fv.1] else []) ++ defaults l.
Proof. unfold defaults. rewrite filter_cons. by destruct (Default fv.2); case_decide. Qed.

Lemma addVersions_spec l m :
  (forall fv f, fv ∈ l -> f ∈ defaults l -> rm_Kind fv.2 <> defaultName f) ->
  if bool_decide (NoDup (defaults l) /\ Forall (fun f => m !! defaultName f = None) (defaults l))
  then addVersions l m = Ok (foldl (fun m kv => <[kv.1 := kv.2]> m) m (flat_map entries l))
  else exists e, addVersions l m = Err e.
Proof.
  revert m. induction l as [|[f v] l IH]; intros m Hk; [done|].
  rewrite defaults_cons in *. cbn [fst snd] in *.
  assert (Hl : forall fv f, fv ∈ l -> f ∈ defaults l -> rm_Kind fv.2 <> defaultName f) by set_solver.
  assert (Hv : forall g, g ∈ defaults l -> <[rm_Kind v := v]> m !! defaultName g = m !! defaultName g).
  { intros g Hg. apply lookup_insert_ne. apply (Hk (f, v)); set_solver. }
  cbn [addVersions flat_map entries fst snd app]. unfold addVersion, RuntimeManifests in *. destruct (Default v) eqn:Hd; cbn [app].
  - rewrite lookup_insert_ne by (apply (Hk (f, v)); set_solver).
    destruct (m !! defaultName f) eqn:Hf; cbn [mbind result_MBind].
    { rewrite bool_decide_eq_false_2; [by eexists|]. intros [_ [??]%Forall_cons]. congruence. }
    specialize (IH (<[defaultName f := v]> (<[rm_Kind v := v]> m)) Hl).
    erewrite bool_decide_ext; [exact IH|]. rewrite NoDup_cons, Forall_cons, !Forall_forall.
    split.
    + intros [[Hn Hnd] [_ Ha]]. split; [done|]. intros g Hg.
      rewrite lookup_insert_ne by (intros ->%defaultName_inj; done). rewrite Hv by done. by apply Ha.
    + intros [Hnd Ha]. split_and!; [|done|done|].
      * intros Hin. specialize (Ha f Hin). by rewrite lookup_insert_eq in Ha.
      * intros g Hg. specialize (Ha g Hg). rewrite <- Hv by done. apply lookup_insert_None in Ha. apply Ha.
  - cbn [mbind result_MBind]. specialize (IH (<[rm_Kind v := v]> m) Hl).
    erewrite bool_decide_ext; [exact IH|]. rewrite !Forall_forall.
    split; intros [? Ha]; (split; [done|]); intros g Hg; specialize (Ha g Hg); [by rewrite Hv|by rewrite <- Hv].
Qed.

(** ** Families of distinct names *)
Lemma elem_of_versions raw f v :
  (f, v) ∈ versions raw <-> exists vs, (f, vs) ∈ raw /\ v ∈ vs.
Proof.
  unfold versions. rewrite list_elem_of_In, in_flat_map. split.
  - intros ([g vs] & Hg & Hin). cbn in Hin. apply in_map_iff in Hin as (v' & [= <- <-] & Hv).
    exists vs. by rewrite !list_elem_of_In.
  - intros (vs & Hf & Hv). exists (f, vs). rewrite <- list_elem_of_In. split; [done|]. cbn.
    apply in_map. by apply list_elem_of_In.
Qed.

Lemma defaults_family f vs l :
  defaults (List.map (pair f) vs ++ l) = replicate (defaultCount vs) f ++ defaults l.
Proof.
  unfold defaultCount. induction vs as [|v vs IH]; [done|]. cbn [List.map app]. rewrite defaults_cons, IH.
  rewrite filter_cons. cbn. destruct (Default v); by case_decide.
Qed.

Lemma elem_of_defaults l f : f ∈ defaults l <-> exists v, (f, v) ∈ l /\ Default v = true.
Proof.
  unfold defaults. rewrite list_elem_of_fmap. setoid_rewrite list_elem_of_filter. split.
  - intros ([g v] & -> & ? & ?). by exists v.
  - intros (v & ? & ?). by exists (f, v).
Qed.

Lemma NoDup_replicate_small {A} n (x : A) : NoDup (replicate n x) <-> (n <= 1)%nat.
Proof.
  destruct n as [|[|n]]; cbn [replicate].
  - split; [lia|constructor].
  - split; [lia|]. intros _. apply NoDup_singleton.
  - split; [|lia]. intros [Hx _]%NoDup_cons. set_solver.
Qed.

Lemma NoDup_defaults raw :
  NoDup raw.*1 -> NoDup (defaults (versions raw)) <-> Forall (fun fam => (defaultCount fam.2 <= 1)%nat) raw.
Proof.
  induction raw as [|[f vs] raw IH]; intros Hnd; [split; constructor|].
  cbn in Hnd. apply NoDup_cons in Hnd as [Hf Hnd]. specialize (IH Hnd).
  change (versions ((f, vs) :: raw)) with (List.map (pair f) vs ++ versions raw).
  rewrite defaults_family, NoDup_app, NoDup_replicate_small, Forall_cons, IH. cbn [snd]. split; [tauto|].
  intros [? ?]. split_and!; [done| |done]. intros g [-> _]%elem_of_replicate (v & Hv & _)%elem_of_defaults.
  apply elem_of_versions in Hv as (vs' & Hvs & _). apply Hf. apply list_elem_of_fmap. by exists (f, vs').
Qed.

(** The names that versions are found under: their kinds, and the names of the defaults. *)
Definition kinds (l : list (string * RuntimeManifest)) : list string := (fun fv => rm_Kind fv.2) <$> l.

Lemma entries_names l : (flat_map entries l).*1 ≡ₚ kinds l ++ (defaultName <$> defaults l).
Proof.
  induction l as [|[f v] l IH]; [done|]. rewrite defaults_cons. cbn [flat_map].
  rewrite !fmap_app, IH. unfold entries. cbn [fst snd].
  change (kinds ((f, v) :: l)) with (rm_Kind v :: kinds l). rewrite fmap_cons, <- !app_comm_cons.
  apply Permutation_skip. destruct (Default v); cbn [fmap list_fmap app fst]; [|done].
  apply Permutation_middle.
Qed.

Lemma elem_of_entries l k v :
  (k, v) ∈ flat_map entries l <->
  exists f, (f, v) ∈ l /\ (rm_Kind v = k \/ Default v = true /\ k = defaultName f).
Proof.
  rewrite list_elem_of_In, in_flat_map. unfold entries. split.
  - intros ([f w] & Hl & Hin). apply list_elem_of_In in Hl. cbn in Hin.
    destruct Hin as [[= <- <-]|Hin]; [by exists f; auto|].
    destruct (Default w) eqn:Hd; [|done]. destruct Hin as [[= <- <-]|[]]. exists f. auto.
  - intros (f & Hl & Hk). exists (f, v). split; [by apply list_elem_of_In|]. cbn.
    destruct Hk as [->|[-> ->]]; cbn; auto.
Qed.

Section configuration.
Context {MR : MapRange string (list RuntimeManifest)} (raw : gmap string (list RuntimeManifest)).

Lemma elem_of_configured seed f v :
  (f, v) ∈ versions (go_range seed raw) <-> exists vs, raw !! f = Some vs /\ v ∈ vs.
Proof.
  rewrite elem_of_versions. setoid_rewrite (go_range_perm seed raw). by setoid_rewrite elem_of_map_to_list.
Qed.

(** The kinds are distinct, and none has the form of the name of a default. *)
Definition wellNamed : Prop :=
  NoDup (kinds (versions (map_to_list raw))) /\
  (forall f f' vs v, raw !! f = Some vs -> v ∈ vs -> is_Some (raw !! f') -> rm_Kind v <> defaultName f').

Lemma versions_perm l l' : l ≡ₚ l' -> versions l ≡ₚ versions l'.
Proof using. intros Hl. unfold versions. by apply Permutation_flat_map. Qed.

Lemma range_distinct seed : NoDup (go_range seed raw).*1.
Proof using. rewrite go_range_perm. apply NoDup_fst_map_to_list. Qed.

Lemma entries_distinct seed :
  wellNamed -> NoDup (defaults (versions (go_range seed raw))) ->
  NoDup (flat_map entries (versions (go_range seed raw))).*1.
Proof using.
  intros [Hk Hc] Hd. rewrite entries_names, NoDup_app. split_and!.
  - unfold kinds. rewrite (versions_perm _ _ (go_range_perm seed raw)). exact Hk.
  - intros k Hin (f' & -> & (v' & Hf' & _)%elem_of_defaults)%list_elem_of_fmap.
    apply list_elem_of_fmap in Hin as ([f v] & Heq & Hv). cbn in Heq.
    apply elem_of_configured in Hv as (vs & Hvs & Hv). apply elem_of_configured in Hf' as (vs' & Hvs' & _).
    by eapply (Hc f f').
  - by apply (NoDup_fmap_2 _).
Qed.

(** C27: a configuration in which kinds are distinct and none looks like the name of a default is accepted
    if no family has two defaults, and is an error otherwise. The table then finds every version
    under its kind, the default of a family under [family:default], and nothing else, in whatever
    order the families are ranged over. *)
Theorem Decode_spec seed :
  wellNamed ->
  match Runtimes.Decode seed raw with
  | Err _ => exists f vs, raw !! f = Some vs /\ (2 <= defaultCount vs)%nat
  | Ok table =>
      (forall f vs, raw !! f = Some vs -> (defaultCount vs <= 1)%nat) /\
      forall k v, table !! k = Some v <->
        exists f vs, raw !! f = Some vs /\ v ∈ vs /\ (rm_Kind v = k \/ Default v = true /\ k = defaultName f)
  end.
Proof using.
  intros Hw. unfold Runtimes.Decode. rewrite addFamilies_versions.
  set (l := versions (go_range seed raw)).
  assert (Hk : forall fv f, fv ∈ l -> f ∈ defaults l -> rm_Kind fv.2 <> defaultName f).
  { intros [f v] f' (vs & Hvs & Hv)%elem_of_configured (v' & (vs' & Hvs' & _)%elem_of_configured & _)%elem_of_defaults.
    by eapply (proj2 Hw f f'). }
  pose proof (addVersions_spec l ∅ Hk) as Hs.
  pose proof (NoDup_defaults _ (range_distinct seed)) as Hd. rewrite Forall_forall in Hd.
  case_bool_decide as Hb.
  - rewrite Hs. destruct Hb as [Hb _]. split.
    { intros f vs Hf. apply (proj1 Hd Hb (f, vs)). rewrite go_range_perm. by apply elem_of_map_to_list. }
    intros k v. transitivity (collect (flat_map entries l) !! k = Some v); [done|].
    rewrite collect_to_map, <- elem_of_list_to_map, list_elem_of_In, <- in_rev, <- list_elem_of_In, elem_of_entries.
    + unfold l. setoid_rewrite elem_of_configured. naive_solver.
    + rewrite <- Permutation_rev. by apply entries_distinct.
  - destruct Hs as [e ->]. apply not_and_l in Hb as [Hb|Hb]; [|by exfalso; apply Hb, Forall_true].
    destruct (decide (Forall (fun fam => (defaultCount fam.2 <= 1)%nat) (go_range seed raw))) as [Hf|Hf].
    { exfalso. apply Hb, Hd. by rewrite Forall_forall in Hf. }
    apply not_Forall_Exists, Exists_exists in Hf as ([f vs] & Hin & Hf); [|apply _]. exists f, vs. cbn in Hf. fold (defaultCount vs) in Hf.
    rewrite go_range_perm in Hin. apply elem_of_map_to_list in Hin. split; [done|lia].
Qed.
End configuration.

(** ** The configuration of the tests *)
#[local] Existing Instances Stored.ascii.

Definition runtimesFull : string := documentText [
  "{'runtimes':{'nodejs':[{'kind':'nodejs:14','default':true,'image':{'prefix':'testregistry',";
  "'name':'action-nodejs-v14','tag':'testtag'},'stemCells':[{'count':3,'memory':'256 MB'}],";
  "'deprecated':false,'attached':{'attachmentName':'codefile','attachmentType':'text/plain'},";
  "'extensions':{'js':{'binary':false}}},{'kind':'nodejs-lambda:14','default':false,";
  "'image':{'prefix':'testregistry','name':'action-nodejs-v14-lambda','tag':'testtag'},";
  "'deprecated':false,'attached':{'attachmentName':'codefile','attachmentType':'text/plain'},";
  "'extensions':{'js':{'binary':false}}},{'kind':'nodejs:18','default':false,";
  "'image':{'prefix':'testregistry','name':'action-nodejs-v18','tag':'testtag'},";
  "'deprecated':false,'attached':{'attachmentName':'codefile','attachmentType':'text/plain'},";
  "'extensions':{'js':{'binary':false}}},{'kind':'nodejs-lambda:18','default':false,";
  "'image':{'prefix':'testregistry','name':'action-nodejs-v18-lambda','tag':'testtag'},";
  "'deprecated':false,'attached':{'attachmentName':'codefile','attachmentType':'text/plain'},";
  "'extensions':{'js':{'binary':false}}}],'python':[{'kind':'python:3.9','default':true,";
  "'image':{'prefix':'testregistry','name':'action-python-v3.9','tag':'testtag'},";
  "'deprecated':false,'attached':{'attachmentName':'codefile','attachmentType':'text/plain'},";
  "'extensions':{'py':{'binary':false}}}],'go':[{'kind':'go:1.15','default':false,";
  "'image':{'prefix':'testregistry','name':'actionloop-golang-v1.15','tag':'testtag'},";
  "'deprecated':false,'attached':{'attachmentName':'codefile','attachmentType':'text/plain'},";
  "'extensions':{'go':{'binary':false}}},{'kind':'go:1.17','default':true,";
  "'image':{'prefix':'testregistry','name':'actionloop-golang-v1.17','tag':'testtag'},";
  "'deprecated':false,'attached':{'attachmentName':'codefile','attachmentType':'text/plain'},";
  "'extensions':{'go':{'binary':false}}}],'php':[{'kind':'php:8.0','default':true,";
  "'image':{'prefix':'testregistry','name':'actionloop-php-v8.0','tag':'testtag'},";
  "'deprecated':false,'attached':{'attachmentName':'codefile','attachmentType':'text/plain'},";
  "'extensions':{'php':{'binary':false}}}]}}"].

(** What is found under a name. *)
Definition found (name : string) : result (option (string * string * list RuntimeStemcellConfig)) :=
  (fun table => (fun v => (rm_Kind v, Image v, Stemcells v)) <$> table !! name) <$> Decoder.DecodeManifests 0 runtimesFull.

Example runtimesFull_decodes :
  found "nodejs:default" = Ok (Some ("nodejs:14", "testregistry/action-nodejs-v14:testtag",
    [{| Count := 3; sc_Memory := 256 * Megabyte |}])) /\
  found "nodejs-lambda:18" = Ok (Some ("nodejs-lambda:18", "testregistry/action-nodejs-v18-lambda:testtag", [])) /\
  found "go:default" = Ok (Some ("go:1.17", "testregistry/actionloop-golang-v1.17:testtag", [])) /\
  found "go:1.16" = Ok None.
Proof. vm_compute. split_and!; reflexivity. Qed.

(** Two defaults; a size that is no size; a text that is no document; the order of clashing names. *)
Definition version_ (kind : string) (d : bool) : RuntimeManifest :=
  {| rm_Kind := kind; Default := d; Image := "i"; Stemcells := [] |}.

Example Decode_errors :
  Runtimes.Decode 0 {["go" := [version_ "go:1" true; version_ "go:2" true]]} =
    Err (Errorf "at least two versions of family %q specified as default" []) /\
  is_ok (Decoder.DecodeManifests 0 (documentText ["{'runtimes':{'go':[{'stemCells':[{'memory':256}]}]}}"])) = false /\
  is_ok (Decoder.DecodeManifests 0 "{}") = false /\ is_ok (Decoder.DecodeManifests 0 "") = false /\
  is_ok (Decoder.DecodeManifests 0 (documentText ["{'runtimes':null}"])) = true.
Proof. vm_compute. split_and!; reflexivity. Qed.

(** A kind that is the name of another family's default: the order of the families decides. *)
Example order_decides :
  is_ok (addFamilies ∅ [("a", [version_ "b:default" false]); ("b", [version_ "b:1" true])]) = false /\
  is_ok (addFamilies ∅ [("b", [version_ "b:1" true]); ("a", [version_ "b:default" false])]) = true.
Proof. vm_compute. split; reflexivity. Qed.

Definition configured : gmap string (list RuntimeManifest) :=
  <["go" := [version_ "go:1.15" false; version_ "go:1.17" true]]> {["python" := [version_ "python:3.9" true]]}.

Lemma Decode_spec_witness :
  wellNamed configured /\ is_ok (Runtimes.Decode 0 configured) = true /\
  exists f vs, configured !! f = Some vs /\ version_ "go:1.17" true ∈ vs /\
    (rm_Kind (version_ "go:1.17" true) = "go:default" \/
     Default (version_ "go:1.17" true) = true /\ "go:default" = defaultName f).
Proof.
  assert (Hw : wellNamed configured).
  { split; [refine (bool_decide_unpack _ _); vm_compute; exact I|].
    intros f f' vs v Hf Hv Hf'. unfold configured in *.
    destruct Hf' as [vs' Hf'].
    apply lookup_insert_Some in Hf as [[<- <-]|[_ [<- <-]%lookup_singleton_Some]];
      apply lookup_insert_Some in Hf' as [[<- <-]|[_ [<- <-]%lookup_singleton_Some]];
      apply list_elem_of_In in Hv; cbn in Hv; intuition (subst v; discriminate). }
  split; [exact Hw|]. split; [vm_compute; reflexivity|].
  assert (Hf : (fun t : RuntimeManifests => t !! "go:default") <$> Runtimes.Decode 0 configured =
    Ok (Some (version_ "go:1.17" true))) by (vm_compute; reflexivity).
  pose proof (Decode_spec configured 0 Hw) as Hs.
  destruct (Runtimes.Decode 0 configured) as [table|e]; [|discriminate Hf].
  apply Hs. injection Hf as Hf. exact Hf.
Defined.
