(* ===== verification/Composition.v ===== *)
(** * From the runtime's answer to the controller and the database

    The runner with the decoders of JsonDecode.v put together with what is made
    of its activations: the results are objects, so that every activation can be
    written, sent to the controller and stored. *)
From S2P Require Export JsonDecode KafkaSpec UnitsFloat.
Import JSON Print Copy Marshal Decoder.

#[local] Arguments classifyFailure : simpl never.
#[local] Arguments initialize : simpl never.
#[local] Arguments runContainer : simpl never.
#[local] Arguments useContainer : simpl never.
#[local] Arguments collectDeferred : simpl never.
#[local] Arguments returnDeferred : simpl never.
#[local] Arguments invokeBody : simpl never.

(** ** What the runner leaves alone *)
Section kept.
Context (formatTime : Z -> string).

(** The result is one that [Invoke] accepted, or not set. *)
Definition accepted (t : string) : Prop := t = "" \/ exists l, Parse t = Some (DObject l).

(** An activation that differs from another one in its function, times, response and logs. *)
Definition kept (a a' : Activation) : Prop :=
  act_ActivationID a' = act_ActivationID a /\ act_Namespace a' = act_Namespace a /\
  act_Annotations a' = act_Annotations a /\
  (accepted (Result (Response a)) -> accepted (Result (Response a'))).

(** The same, for the same function. *)
Definition follows (a a' : Activation) : Prop := act_Function a' = act_Function a /\ kept a a'.

Ltac keeps := unfold follows, kept; split_and!; try done; try by (intros _; left).

Lemma kept_trans a b c : kept a b -> kept b c -> kept a c.
Proof using. unfold kept. intros (?&?&?&?) (?&?&?&?). split_and!; congruence || auto. Qed.

Lemma follows_trans a b c : follows a b -> follows b c -> follows a c.
Proof using. intros [??] [??]. split; [congruence|by eapply kept_trans]. Qed.

Lemma follows_classify c response err m1 m2 a :
  always (classifyFailure unmarshalRuntimeError c response err m1 m2 a) (follows a).
Proof using. unfold classifyFailure. cbn. intros st. go_cases; by keeps. Qed.

Lemma unmarshalResult_object t keys : unmarshalResult t = Ok (Some keys) -> exists l, Parse t = Some (DObject l).
Proof using.
  unfold unmarshalResult, Unmarshal. destruct (Parse t) as [d|]; [|done].
  destruct d; cbn; try done. intros _. eauto.
Qed.

Lemma follows_run msg fn c a :
  always (runContainer unmarshalResult unmarshalRuntimeError msg fn c a) (fun r => follows a r.1).
Proof using.
  unfold runContainer. cbn. intros t1 [response [err|]] t2.
  - destruct (as_ResponseLimit err); [by keeps|]. apply always_bind.
    eapply always_mono; [|apply follows_classify]. intros a' Ha. exact Ha.
  - cbn. destruct (unmarshalResult response) as [[keys|]|] eqn:E; [| |by keeps].
    + apply unmarshalResult_object in E. destruct (decide _); keeps; intros _; by right.
    + keeps. intros _. right. by exists [].
Qed.

Lemma follows_init msg fn c a :
  always (initialize unmarshalRuntimeError msg fn c a)
    (fun r => match r with inl a' | inr a' => follows a a' end).
Proof using.
  unfold initialize. cbn. intros t1 [response [err|]] t2; [|by keeps].
  destruct (as_ResponseLimit err); [by keeps|]. apply always_bind.
  eapply always_mono; [|apply follows_classify]. intros a' Ha. exact Ha.
Qed.

Lemma follows_use msg fn c reused a :
  always (useContainer unmarshalResult unmarshalRuntimeError msg fn c reused a) (fun r => follows a r.1).
Proof using.
  unfold useContainer. destruct reused; [apply follows_run|]. apply always_bind.
  eapply always_mono; [|apply follows_init]. intros [a1|a1] H1; [|exact H1].
  eapply always_mono; [|apply follows_run]. intros [a2 b] H2. by eapply follows_trans.
Qed.

Lemma follows_collect fn c a broken :
  always (collectDeferred formatTime fn c a broken) (fun r => follows a r.1).
Proof using. unfold collectDeferred. cbn. intros t [logs [|]]; cbn; intros; by keeps. Qed.

Notation invoke := (Invoke unmarshalResult unmarshalRuntimeError formatTime).

(** The limits of the function that was fetched, if one was. *)
Definition limitsOf (tr : list event) (a : Activation) : Prop :=
  af_Limits (act_Function a) = Limits_zero \/
  exists fn, EFetch (Ok fn) ∈ tr /\ af_Limits (act_Function a) = f_Limits fn.

Lemma follows_pool msg fn a :
  af_Limits (act_Function a) = f_Limits fn -> forall c reused,
  always (a ← (if bool_decide (CausedBy msg = "") then
                 now ← trigger ClockNow;
                 Ret (set_WaitTime (now - TransactionStart msg) a)
               else Ret a);
          '(a, broken) ← useContainer unmarshalResult unmarshalRuntimeError msg fn c reused a;
          '(a, broken) ← collectDeferred formatTime fn c a broken;
          _ ← returnDeferred c broken;
          Ret a) (follows a).
Proof using.
  intros Ha c reused. apply always_bind.
  assert (Hw : always (if bool_decide (CausedBy msg = "") then
                 now ← trigger ClockNow; Ret (set_WaitTime (now - TransactionStart msg) a)
               else Ret a) (follows a)) by (case_bool_decide; cbn; intros; by keeps).
  eapply always_mono; [|exact Hw]. intros a1 H1. apply always_bind.
  eapply always_mono; [|apply follows_use]. intros [a2 b2] H2. apply always_bind.
  eapply always_mono; [|apply follows_collect]. intros [a3 b3] H3. apply always_bind.
  unfold returnDeferred. destruct b3; cbn; intros _; (eapply follows_trans; [|exact H3]);
    by eapply follows_trans.
Qed.

Lemma body_keeps msg a a' tr :
  af_Limits (act_Function a) = Limits_zero ->
  happens (invokeBody unmarshalResult unmarshalRuntimeError formatTime msg a) [] a' tr ->
  kept a a' /\ limitsOf tr a'.
Proof using.
  intros Ha. unfold invokeBody. cbn. intros (f & tr1 & -> & Hr). destruct f as [fn|err].
  2: { destruct Hr as [<- ->]. destruct (isFunctionNotFound err); (split; [by keeps|by left]). }
  cbn in Hr. destruct Hr as (got & tr2 & -> & Hr). cbn in Hr.
  assert (Htr : forall X (p : runM X) (s : list event) x s', happens p s x s' -> exists t, s' = s ++ t).
  { intros X p. induction p as [b|Y e k IH]; cbn; intros s x s'.
    - intros [_ ->]. exists []. by rewrite app_nil_r.
    - intros (y & s1 & -> & [t ->]%IH). eexists. by rewrite <- (assoc (++)). }
  set (a0 := set_Function _ _ _ a) in Hr. assert (H0 : kept a a0) by by keeps.
  destruct got as [[c reused]|err].
  - destruct (Htr _ _ _ _ _ Hr) as [t ->].
    pose proof (follows_pool msg fn a0 eq_refl c reused) as Hf.
    apply (runs_always _ _ _ _ _ _ Hr) in Hf. destruct Hf as [Hf Hk].
    split; [by eapply kept_trans|]. right. exists fn. rewrite Hf. split; [|done]. set_solver.
  - destruct Hr as [<- ->]. split.
    + eapply kept_trans; [exact H0|]. go_cases; by keeps.
    + right. exists fn. split; [set_solver|]. go_cases.
Qed.

(** What becomes of the new activation. *)
Lemma Invoke_keeps msg a tr :
  happens (invoke msg) [] a tr ->
  act_ActivationID a = ActivationID msg /\ act_Namespace a = id_Namespace (Identity msg) /\
  act_Annotations a = act_Annotations (newActivation msg 0) /\ accepted (Result (Response a)) /\
  limitsOf tr a.
Proof using.
  unfold Invoke. cbn. intros (now & tr1 & -> & Hr). cbn in Hr.
  apply runs_bind in Hr as (a1 & tr2 & Hb & Hr).
  apply body_keeps in Hb as [(H1 & H2 & H3 & H4) Hl]; [|done].
  apply runs_bind in Hr as (w & tr3 & Hw & [<- ->]).
  split_and!; [done..|by apply H4; left|].
  destruct Hl as [Hl|(fn & Hfn & Hl)]; [by left|right; exists fn; split; [|done]].
  destruct (negb _ && _); cbn in Hw; [destruct Hw as (x & tr4 & -> & _ & ->)|destruct Hw as [_ ->]; done].
  set_solver.
Qed.
End kept.

(** ** Documents of activations *)
Section documents.
Context `{Unicode} `{FloatText} {MA : MapRange string any} (formatTime : Z -> string).

Notation invoke := (Invoke unmarshalResult unmarshalRuntimeError formatTime).

Lemma newActivation_annotations msg now : annotations_valid (act_Annotations (newActivation msg now)).
Proof using.
  cbn. unfold annotations_valid. apply map_Forall_union_2.
  - intros k v Hv. rewrite lookup_fmap in Hv. apply fmap_Some in Hv as (s & _ & ->). done.
  - case_bool_decide; [apply map_Forall_empty|by apply map_Forall_singleton].
Qed.

(** The memory of every function is a 64-bit size. *)
Definition memoryInRange (tr : list event) : Prop :=
  forall fn, EFetch (Ok fn) ∈ tr -> 0 <= lim_Memory (f_Limits fn) < 2 ^ 64.

Lemma limits_finite tr a : memoryInRange tr -> limitsOf tr a -> finite_gbs a.
Proof using.
  intros Hr Hl. unfold finite_gbs, activationGigabyteSeconds. case_match; [done|].
  assert (Hm : 0 <= lim_Memory (af_Limits (act_Function a)) < 2 ^ 64).
  { destruct Hl as [->|(fn & Hfn & ->)]; [cbn; lia|by apply Hr]. }
  pose proof (GigabyteSeconds_sized _ (time_Sub (End_ a) (Entities.Start a)) Hm ltac:(unfold time_Sub; lia)) as Hs.
  by destruct (GigabyteSeconds _ _).
Qed.

(** The result in the document: an object. *)
Lemma result_object a :
  one_of (Response a) -> accepted (Result (Response a)) ->
  exists l, resultDoc (Response a) = Some (DObject l) /\
    if bool_decide (Error (Response a) = "") then Parse (Result (Response a)) = Some (DObject l)
    else l = [("error", DString (coerce (Error (Response a))))].
Proof using.
  unfold resultDoc. intros Ho Ha. case_bool_decide as He; [|by eexists].
  destruct Ha as [Ha|[l Ha]]; [|by exists l].
  destruct Ho as [[_ Hr]|[Hn _]]; [by destruct Hr|done].
Qed.

Lemma stands_for_Parse t d : stands_for t d -> Parse t = Some d.
Proof using.
  intros Hs. apply Parse_value. rewrite <- (app_str_nil_r t). by apply Hs.
Qed.

(** What there is to know of an activation that [Invoke] returns. *)
Lemma Invoke_facts msg a tr :
  happens (invoke msg) [] a tr -> memoryInRange tr ->
  act_ActivationID a = ActivationID msg /\ act_Namespace a = id_Namespace (Identity msg) /\
  finite_gbs a /\ annotations_valid (act_Annotations a) /\
  exists l, resultDoc (Response a) = Some (DObject l) /\
    if bool_decide (Error (Response a) = "") then Parse (Result (Response a)) = Some (DObject l)
    else l = [("error", DString (coerce (Error (Response a))))].
Proof using.
  intros Hr Hm. destruct (Invoke_keeps _ _ _ _ Hr) as (H1 & H2 & H3 & H4 & H5).
  apply happens_Invoke in Hr as (_ & _ & _ & Ho & _); [|done].
  split_and!; [done|done|by eapply limits_finite|rewrite H3; apply newActivation_annotations|].
  by apply result_object.
Qed.

(** C15: every activation that [Invoke] returns, whatever the runtime and the other components answered, for
    functions whose memory limit is a 64-bit size, has a document that can be written and read, under its
    identifier and with an object as its result: the one that the function returned, or one with the
    error under [error]. This is what is sent to the controller, and the batcher gets a text made of it.
    If namespace and identifier need no escapes, so that they can be put into a text as they are, that
    text is one that the database can read, with the identifier under which it is to be found. *)
Theorem Invoke_document msg a tr :
  happens (invoke msg) [] a tr -> memoryInRange tr ->
  exists t doc stored l,
    marshalActivation json_Marshal a = Ok t /\ Parse t = Some doc /\
    jget ["activationId"] doc = Some (DString (coerce (ActivationID msg))) /\
    jget ["response"; "result"] doc = Some (DObject l) /\
    (if bool_decide (Error (Response a) = "") then Parse (Result (Response a)) = Some (DObject l)
     else l = [("error", DString (coerce (Error (Response a))))]) /\
    Documents.WriteActivation a = Ok stored /\
    (forall_str unescaped (id_Namespace (Identity msg) +:+ "/" +:+ ActivationID msg) = true ->
     Parse stored = Some (storedDoc a) /\
     jget ["_id"] (storedDoc a) = Some (DString (id_Namespace (Identity msg) +:+ "/" +:+ ActivationID msg)) /\
     jget ["response"; "result"] (storedDoc a) = Some (DObject l)).
Proof using.
  intros Hr Hm. destruct (Invoke_facts _ _ _ Hr Hm) as (H1 & H2 & H3 & H4 & l & H5 & H6).
  assert (Hi : identifier a = id_Namespace (Identity msg) +:+ "/" +:+ ActivationID msg)
    by (unfold identifier; by rewrite H1, H2).
  destruct (marshalActivation_ok a _ H3 H4 H5) as [Hma Hst].
  destruct (activationDoc_fields a _ H5) as (A1 & _ & _ & _ & A5 & _). rewrite H1 in A1.
  exists (text (activationValue a)), (docOf (activationValue a)),
    (addId (text (activationValue a)) (act_Namespace a) (act_ActivationID a)), l.
  split_and!; [done|by apply stands_for_Parse|done|done|done|unfold Documents.WriteActivation; by rewrite Hma|].
  intros Hu. destruct (WriteActivation_reads a) as (t & Ht & Hp); [by split_and!; [| |eexists|rewrite Hi]|].
  unfold Documents.WriteActivation in Ht. rewrite Hma in Ht. injection Ht as <-.
  destruct (storedDoc_fields a _ H5) as (Hid & _ & Hres). by rewrite <- Hi.
Qed.
End documents.

(** ** Answers *)
Section answers.
Context `{Unicode} `{FloatText} {MA : MapRange string any} (formatTime : Z -> string) (InstanceID : Z).

Notation invoke_ := (invokeMessage json_Marshal unmarshalResult unmarshalRuntimeError formatTime InstanceID).

(** A completion message for an invocation: an object with the transaction, and as its response the
    activation with an object as its result, if it carries it, or else the identifier of the activation. *)
Definition answers (msg : ActivationMessage) (carries : bool) (doc : jdoc) : Prop :=
  jget ["transid"] doc =
    Some (DArray [DString (TransactionID msg); DNumber (fmt_d (UnixMilli (TransactionStart msg)))]) /\
  jget ["invoker"; "instance"] doc = Some (DNumber (fmt_d InstanceID)) /\
  if carries then exists l,
     jget ["response"; "activationId"] doc = Some (DString (coerce (ActivationID msg))) /\
     jget ["response"; "response"; "result"] doc = Some (DObject l)
  else jget ["response"] doc = Some (DString (ActivationID msg)).

(** What a controller makes of a text: [%q] and JSON agree on the characters of [jsonSafe], and on no
    others of ASCII. *)
Definition understood (msg : ActivationMessage) (carries : bool) (value : string) : Prop :=
  if forall_str jsonSafe (TransactionID msg) && (carries || forall_str jsonSafe (ActivationID msg))
  then exists doc, Parse value = Some doc /\ answers msg carries doc
  else Parse value = None.

Lemma object_unread_rest s kd r :
  field s = Some (kd, r) -> fields r = None -> JSON.value (String "{" s) = None.
Proof using. intros Hf Hl. by rewrite value_object, (field_not_end _ _ Hf), Hf, Hl. Qed.

Lemma fields_unread s : field s = None -> fields (String "," s) = None.
Proof using. intros Hf. rewrite fields_eq, expect_char, expect_here by done. cbn. by rewrite Hf. Qed.

(** A completion message whose response cannot be read. *)
Lemma completion_unread tid start response sys :
  isASCII tid = true -> (forall rest, JSON.value (response +:+ rest) = None) ->
  Parse (CombinedCompletionMessage InstanceID tid start response sys) = None.
Proof using.
  intros Ht Hr. unfold CombinedCompletionMessage. apply Parse_none. destruct (forall_str jsonSafe tid) eqn:Hs.
  - eapply object_unread_rest.
    { apply member_reads; [done|]. eapply array_reads; [by rewrite value_Quote, Hs|].
      eapply elems_comma; [by apply int_stands|]. apply elems_close. }
    apply fields_unread. apply member_unread; [done|]. apply Hr.
  - apply object_unread; [|done]. apply member_unread; [done|].
    apply array_unread; [by rewrite value_Quote, Hs|]. unfold Quote. by rewrite Ht.
Qed.

Lemma mini_understood msg sys :
  isASCII (TransactionID msg) = true -> isASCII (ActivationID msg) = true ->
  understood msg false
    (MiniCombinedCompletionMessage InstanceID (TransactionID msg) (TransactionStart msg) (ActivationID msg) sys).
Proof using.
  intros Ht Hi. unfold understood, MiniCombinedCompletionMessage. cbn [orb].
  destruct (forall_str jsonSafe (ActivationID msg)) eqn:His.
  - assert (Hst : stands_for (Quote (ActivationID msg)) (DString (ActivationID msg)))
      by (intros rest _; by rewrite value_Quote, His).
    pose proof (completion_reads InstanceID _ (TransactionStart msg) _ _ sys Ht Hst) as Hc. rewrite andb_true_r.
    destruct (forall_str jsonSafe (TransactionID msg)); [|done]. eexists. split; [exact Hc|]. by split_and!.
  - rewrite andb_false_r. apply completion_unread; [done|]. intros rest. by rewrite value_Quote, His.
Qed.

Lemma ack_understood msg a tr :
  isASCII (TransactionID msg) = true -> (IsBlocking msg = false -> isASCII (ActivationID msg) = true) ->
  happens (Invoke unmarshalResult unmarshalRuntimeError formatTime msg) [] a tr ->
  memoryInRange tr -> understood msg (IsBlocking msg) (ackResponse json_Marshal InstanceID msg a).
Proof using.
  intros Ht Hi Hr Hm. destruct (Invoke_facts _ _ _ _ Hr Hm) as (H1 & _ & H3 & H4 & l & H5 & _).
  destruct (marshalActivation_ok a _ H3 H4 H5) as [Hma Hst].
  unfold ackResponse. rewrite Hma. destruct (IsBlocking msg) eqn:Hb; cbn [negb]; [|by apply mini_understood; auto].
  unfold understood. cbn [orb]. rewrite andb_true_r.
  pose proof (completion_reads InstanceID _ (TransactionStart msg) _ _ (isSystemError a) Ht Hst) as Hc.
  destruct (forall_str jsonSafe (TransactionID msg)); [|done]. eexists. split; [exact Hc|].
  destruct (activationDoc_fields a _ H5) as (A1 & _ & _ & _ & A5 & _). rewrite H1 in A1.
  split_and!; [done|done|]. by exists l.
Qed.

(** C5: whatever happens to an invocation, skipped, failed or completed, and whatever bytes the runtime
    answered, exactly one text is written for it, to the topic of its controller. If its caller waits and
    it was not skipped the text carries the activation, and otherwise the identifier of the activation.
    For identifiers in ASCII, and memory limits that are 64-bit sizes, the controller can read it as an
    object with the transaction, the number of the invoker, and the identifier or the activation, whose
    result is an object, if the quoted identifiers (of the transaction, and of the activation if it is
    not carried) are made of printable characters and of backspaces, tabs, line feeds, form feeds and
    carriage returns; and if there is any other character in them, it is no JSON and cannot be read. *)
Theorem answers_read msg tr :
  runs invoking_observed (invoke_ msg) [] tt tr ->
  exists value carries, (forall topic v, WAck topic v ∈ tr <-> topic = ackTopic msg /\ v = value) /\
    length (List.filter (fun e => match e with WAck _ _ => true | _ => false end) tr) = 1%nat /\
    (if carries : bool then IsBlocking msg = true else IsBlocking msg = false \/ forall e, WInner e ∉ tr) /\
    (isASCII (TransactionID msg) = true -> (carries = false -> isASCII (ActivationID msg) = true) ->
     (forall fn, WInner (EFetch (Ok fn)) ∈ tr -> 0 <= lim_Memory (f_Limits fn) < 2 ^ 64) ->
     understood msg carries value).
Proof using.
  intros Hr. apply invokeMessage_runs in Hr as (blocked & now & Hr). cbv zeta in Hr.
  set (start := WBlocked _ _ :: _) in Hr.
  assert (Hs : forall t v, WAck t v ∉ start) by (intros t v; destruct (IsBlocking msg); set_solver).
  assert (Hin : forall e, WInner e ∉ start) by (intros e; destruct (IsBlocking msg); set_solver).
  assert (Hf : List.filter (fun e => match e with WAck _ _ => true | _ => false end) start = [])
    by (subst start; by destruct (IsBlocking msg)).
  destruct (blocked || tooOld msg now).
  - exists (MiniCombinedCompletionMessage InstanceID (TransactionID msg) (TransactionStart msg) (ActivationID msg) false), false.
    rewrite Hr. split_and!; [|by rewrite List.filter_app, Hf| |].
    + intros t v. set_solver.
    + right. set_solver.
    + intros Ht Hi _. by apply mini_understood; auto.
  - destruct Hr as (a & tr0 & t1 & t2 & Hinv & Hr).
    assert (Hi : List.filter (fun e => match e with WAck _ _ => true | _ => false end) (WInner <$> tr0) = [])
      by (clear; by induction tr0).
    exists (ackResponse json_Marshal InstanceID msg a), (IsBlocking msg). rewrite Hr. split_and!; [|by rewrite !List.filter_app, Hf, Hi| |].
    + intros t v. set_solver.
    + destruct (IsBlocking msg); [done|by left].
    + intros Ht Hid Hm. apply (ack_understood msg a tr0 Ht Hid Hinv).
      intros fn Hfn. apply Hm. set_solver.
Qed.
End answers.

(** ** A concrete invocation *)
#[local] Existing Instances Stored.whole_floats Stored.ascii.

Module Answered.
Definition done_ : option (Activation * list event) :=
  attempt (runner_handle None) (Invoke unmarshalResult unmarshalRuntimeError some_time test_message) [].

(** The same through Kafka, for a caller that waits. *)
Definition answered : option (unit * list wevent) :=
  attempt invoking_handle
    (invokeMessage json_Marshal unmarshalResult unmarshalRuntimeError some_time 7 Stored.request) [].

Lemma invoking_handle_sound X (op : sum_op kafka_op runner_op X) tr x tr' :
  invoking_handle X op tr = Some (x, tr') -> invoking_observed X op tr x tr'.
Proof.
  destruct op as [e|e]; cbn; [destruct e; cbn; intros ?; by simplify_eq|].
  destruct (runner_handle None X e []) as [[y evs]|] eqn:He; [|done].
  apply runner_handle_sound in He. unfold observed in He. intros [= <- <-]. by rewrite He.
Qed.

(** The functions that are fetched. *)
Definition fetched (tr : list event) : list EntityFunction :=
  omap (fun e => match e with EFetch (Ok fn) => Some fn | _ => None end) tr.

Lemma elem_of_fetched fn tr : EFetch (Ok fn) ∈ tr -> fn ∈ fetched tr.
Proof. intros Hf. apply list_elem_of_omap. by exists (EFetch (Ok fn)). Qed.

Lemma only_test_fn tr : fetched tr = [test_fn] -> memoryInRange tr.
Proof. intros Hf fn Hfn%elem_of_fetched. rewrite Hf in Hfn. assert (fn = test_fn) as -> by set_solver. done. Qed.

Definition inner (tr : list wevent) : list event :=
  omap (fun e => match e with WInner e => Some e | _ => None end) tr.

Lemma done_facts : match done_ with Some (a, tr) => fetched tr = [test_fn] | None => False end.
Proof. vm_compute. reflexivity. Qed.

Lemma answered_facts :
  match answered with Some (_, tr) => fetched (inner tr) = [test_fn] | None => False end.
Proof. vm_compute. reflexivity. Qed.
End Answered.

Lemma Invoke_document_witness :
  exists a tr t l, Answered.done_ = Some (a, tr) /\ Documents.WriteActivation a = Ok t /\
    Parse t = Some (storedDoc a) /\
    jget ["_id"] (storedDoc a) = Some (DString "guest/a1") /\
    jget ["response"; "result"] (storedDoc a) = Some (DObject l).
Proof.
  pose proof Answered.done_facts as Hf. destruct Answered.done_ as [[a tr]|] eqn:E; [|destruct Hf].
  destruct (Invoke_document some_time test_message a tr) as (t & doc & stored & l & _ & _ & _ & _ & _ & Ht & Hread).
  - apply (attempt_runs (runner_handle None) observed (runner_handle_sound None) _ [] a tr E).
  - by apply Answered.only_test_fn.
  - destruct (Hread eq_refl) as (Hp & Hid & Hres).
    exists a, tr, stored, l. split; [reflexivity|]. split; [exact Ht|]. split; [exact Hp|]. split; [exact Hid|exact Hres].
Defined.

Lemma answers_read_witness :
  exists tr value carries, Answered.answered = Some (tt, tr) /\ WAck "completed0" value ∈ tr /\
    understood 7 Stored.request carries value.
Proof.
  pose proof Answered.answered_facts as Hf. destruct Answered.answered as [[[] tr]|] eqn:E; [|destruct Hf].
  destruct (answers_read some_time 7 Stored.request tr) as (value & carries & Hack & _ & _ & Hu).
  - apply (attempt_runs invoking_handle invoking_observed Answered.invoking_handle_sound _ [] tt tr E).
  - exists tr, value, carries. split; [reflexivity|]. split; [by apply Hack|]. apply Hu.
    + reflexivity.
    + intros _. reflexivity.
    + intros fn Hfn. apply (Answered.only_test_fn (Answered.inner tr)); [exact Hf|].
      apply list_elem_of_omap. by exists (WInner (EFetch (Ok fn))).
Defined.
