(* ===== verification/FunctionCache.v ===== *)
(** * The cache of functions

    [pkg/entities/function_cache.go]: [CachedFunctionReader.GetFunction] as a
    program over the cache, the mutex, the once-functions stored in the cache
    and the reader behind it. *)
From S2P Require Export Couch.

(** [cacheKey]. *)
Record cacheKey := { name : string; revision : string }.

#[export] Instance cacheKey_eq_dec : EqDecision cacheKey.
Proof. solve_decision. Defined.

(** ** The LRU cache

    Interface of [github.com/hashicorp/golang-lru/v2], which is not part of the
    repository: the operations that are called and what they do to the entries.
    Entries are the numbers of once-functions; [lru_Add] tells which key it
    evicted, if any. *)
Class LRU := {
  lru : Type;
  lru_New : Z -> result lru;
  peek : lru -> cacheKey -> option nat;
  lru_Get : cacheKey -> lru -> lru;
  lru_Add : cacheKey -> nat -> lru -> lru * option cacheKey;
  lru_Remove : cacheKey -> lru -> lru
}.

Class LRULaws `{LRU} := {
  lru_New_peek size c : lru_New size = Ok c -> forall k, peek c k = None;
  lru_Get_peek k c k' : peek (lru_Get k c) k' = peek c k';
  lru_Add_peek k v c k' :
    peek (lru_Add k v c).1 k' =
    if decide (k' = k) then Some v
    else if decide ((lru_Add k v c).2 = Some k') then None else peek c k';
  lru_Add_evicted k v c k' : (lru_Add k v c).2 = Some k' -> k' <> k /\ peek c k' <> None;
  lru_Remove_peek k c k' : peek (lru_Remove k c) k' = if decide (k' = k) then None else peek c k'
}.

Section cache.
Context `{LRULaws}.

(** ** Operations

    A once-function is called with [OnceEnter], which waits while another
    goroutine runs it: either its result is known, or the caller runs it and
    ends it with [OnceFinish]. *)
Inductive cache_op : Type -> Type :=
| CacheGet (k : cacheKey) : cache_op (option nat)
| CacheAddOnce (k : cacheKey) : cache_op nat
| CacheRemove (k : cacheKey) : cache_op unit
| MuxLock : cache_op unit
| MuxUnlock : cache_op unit
| OnceEnter (id : nat) : cache_op (cacheKey + result EntityFunction)
| OnceFinish (id : nat) (r : result EntityFunction) : cache_op unit
| ReaderGetFunction (id : nat) (k : cacheKey) : cache_op (result EntityFunction)
  (* the call returns to its caller *)
| Returned (k : cacheKey) (r : result EntityFunction) : cache_op unit.

Notation cacheM := (proc cache_op).

(** [NewCachedFunctionReader]. *)
Definition NewCachedFunctionReader (size : Z) : result lru :=
  match lru_New size with
  | Err err => Err (Errorf "failed to create LRU cache: %w" [err])
  | Ok cache => Ok cache
  end.

(** Calling an entry: the function given to [sync.OnceValues], with the key it was made for. *)
Definition callEntry (id : nat) : cacheM (result EntityFunction) :=
  o ← trigger (OnceEnter id);
  match o with
  | inr r => Ret r
  | inl key =>
      r ← trigger (ReaderGetFunction id key);
      _ ← (if is_ok r then Ret tt else trigger (CacheRemove key));
      _ ← trigger (OnceFinish id r);
      Ret r
  end.

(** The part after the first look at the cache missed. *)
Definition addEntry (key : cacheKey) : cacheM (result EntityFunction) :=
  _ ← trigger MuxLock;
  entry ← trigger (CacheGet key);
  match entry with
  | Some id => _ ← trigger MuxUnlock; callEntry id
  | None =>
      id ← trigger (CacheAddOnce key);
      _ ← trigger MuxUnlock;
      callEntry id
  end.

Definition cachedGetFunction (fqdn rev : string) : cacheM (result EntityFunction) :=
  let key := {| name := fqdn; revision := rev |} in
  entry ← trigger (CacheGet key);
  match entry with
  | Some id => callEntry id
  | None => addEntry key
  end.

(** ** Meaning *)
Inductive once := OnceFresh | OnceRunning | OnceDone (r : result EntityFunction).

(** The cache, the mutex, all once-functions ever made with their keys, and what
    happened so far: the calls of the reader (by which entry, for which key, with
    which result), the keys that left the cache, and what was returned for which key. *)
Record cache_state := mkCacheState {
  s_cache : lru;
  s_locked : bool;
  s_entries : list (cacheKey * once);
  s_reads : list (nat * cacheKey * result EntityFunction);
  s_dropped : list cacheKey;
  s_returned : list (cacheKey * result EntityFunction)
}.

Definition set_cache (c : lru) (dropped : list cacheKey) (s : cache_state) : cache_state :=
  mkCacheState c (s_locked s) (s_entries s) (s_reads s) (s_dropped s ++ dropped) (s_returned s).
Definition set_locked (b : bool) (s : cache_state) : cache_state :=
  mkCacheState (s_cache s) b (s_entries s) (s_reads s) (s_dropped s) (s_returned s).
Definition set_entries (l : list (cacheKey * once)) (s : cache_state) : cache_state :=
  mkCacheState (s_cache s) (s_locked s) l (s_reads s) (s_dropped s) (s_returned s).

Definition cache_exec (X : Type) (op : cache_op X) : cache_state -> X -> cache_state -> Prop :=
  match op in cache_op X return cache_state -> X -> cache_state -> Prop with
  | CacheGet k => fun s x s' => x = peek (s_cache s) k /\ s' = set_cache (lru_Get k (s_cache s)) [] s
  | CacheAddOnce k => fun s x s' =>
      let '(c, evicted) := lru_Add k (List.length (s_entries s)) (s_cache s) in
      x = List.length (s_entries s) /\
      s' = set_cache c (match evicted with Some k' => [k'] | None => [] end)
             (set_entries (s_entries s ++ [(k, OnceFresh)]) s)
  | CacheRemove k => fun s _ s' =>
      s' = set_cache (lru_Remove k (s_cache s))
             (match peek (s_cache s) k with Some _ => [k] | None => [] end) s
  | MuxLock => fun s _ s' => s_locked s = false /\ s' = set_locked true s
  | MuxUnlock => fun s _ s' => s' = set_locked false s
  | OnceEnter id => fun s x s' =>
      match s_entries s !! id with
      | Some (k, OnceFresh) => x = inl k /\ s' = set_entries (<[id := (k, OnceRunning)]> (s_entries s)) s
      | Some (_, OnceDone r) => x = inr r /\ s' = s
      | _ => False
      end
  | OnceFinish id r => fun s _ s' =>
      exists k o, s_entries s !! id = Some (k, o) /\
        s' = set_entries (<[id := (k, OnceDone r)]> (s_entries s)) s
  | ReaderGetFunction id k => fun s x s' =>
      s' = mkCacheState (s_cache s) (s_locked s) (s_entries s) (s_reads s ++ [(id, k, x)])
             (s_dropped s) (s_returned s)
  | Returned k r => fun s _ s' =>
      s' = mkCacheState (s_cache s) (s_locked s) (s_entries s) (s_reads s) (s_dropped s)
             (s_returned s ++ [(k, r)])
  end.

(** A goroutine that calls the method. *)
Inductive cache_client : proc cache_op unit -> Prop :=
| cache_call fqdn rev :
    cache_client (r ← cachedGetFunction fqdn rev;
                  trigger (Returned {| name := fqdn; revision := rev |} r)).

Definition new_cache (c : lru) : cache_state := mkCacheState c false [] [] [] [].

Definition cache_reachable (size : Z) (s : cache_state) : Prop :=
  exists c ps, NewCachedFunctionReader size = Ok c /\
    reachable cache_exec cache_client (new_cache c) (s, ps).

(** ** Ghost tokens: what a goroutine knows and owns *)
Inductive ctoken :=
| CIdle
| CLocked
| CMissed (k : cacheKey)
| CAttached (id : nat) (k : cacheKey) (holdsLock : bool)
| CRunning (id : nat) (k : cacheKey)
| CFailed (id : nat) (k : cacheKey) (e : go_error)
| CRead (id : nat) (k : cacheKey) (r : result EntityFunction)
| CHas (k : cacheKey) (r : result EntityFunction).

Definition cache_wp (X : Type) (op : cache_op X) : ctoken -> (X -> ctoken -> Prop) -> Prop :=
  match op in cache_op X return ctoken -> (X -> ctoken -> Prop) -> Prop with
  | CacheGet k => fun t Q =>
      (t = CIdle /\ Q None CIdle /\ forall id, Q (Some id) (CAttached id k false)) \/
      (t = CLocked /\ Q None (CMissed k) /\ forall id, Q (Some id) (CAttached id k true))
  | CacheAddOnce k => fun t Q => t = CMissed k /\ forall id, Q id (CAttached id k true)
  | CacheRemove k => fun t Q =>
      exists id e, t = CFailed id k e /\ Q tt (CRead id k (Err e))
  | MuxLock => fun t Q => t = CIdle /\ Q tt CLocked
  | MuxUnlock => fun t Q => exists id k, t = CAttached id k true /\ Q tt (CAttached id k false)
  | OnceEnter id => fun t Q => exists k, t = CAttached id k false /\
      (forall r, Q (inr r) (CHas k r)) /\ Q (inl k) (CRunning id k)
  | OnceFinish id r => fun t Q => exists k, t = CRead id k r /\ Q tt (CHas k r)
  | ReaderGetFunction id k => fun t Q => t = CRunning id k /\
      (forall fn, Q (Ok fn) (CRead id k (Ok fn))) /\ (forall e, Q (Err e) (CFailed id k e))
  | Returned k r => fun t Q => t = CHas k r /\ Q tt CIdle
  end.

Lemma cache_wp_mono X (op : cache_op X) t (Q Q' : X -> ctoken -> Prop) :
  (forall x t', Q x t' -> Q' x t') -> cache_wp X op t Q -> cache_wp X op t Q'.
Proof using. intros HQ. destruct op; cbn; naive_solver. Qed.

Lemma wp_callEntry id k Q :
  (forall r, Q r (CHas k r)) -> wp cache_wp (callEntry id) (CAttached id k false) Q.
Proof using.
  intros HQ. cbn. exists k. split; [done|]. split; [exact HQ|]. split; [done|]. split.
  - intros fn. cbn. exists k. split; [done|apply HQ].
  - intros e. cbn. exists id, e. split; [done|]. exists k. split; [done|apply HQ].
Qed.

Lemma wp_client p : cache_client p -> wp cache_wp p CIdle (fun _ t => t = CIdle).
Proof using.
  intros [fqdn rev]. set (k := {| name := fqdn; revision := rev |}).
  apply wp_bind; [apply cache_wp_mono|].
  assert (Hfin : forall r, wp cache_wp (trigger (Returned k r)) (CHas k r) (fun _ t => t = CIdle))
    by (intros r; cbn; done).
  unfold cachedGetFunction. fold k. left. split; [done|]. split; [|by intros id; apply wp_callEntry].
  split; [done|]. right. split; [done|]. split.
  - split; [done|]. intros id. exists id, k. split; [done|]. by apply wp_callEntry.
  - intros id. exists id, k. split; [done|]. by apply wp_callEntry.
Qed.
End cache.
