(* ===== verification/FunctionCacheSpec.v ===== *)
(** * The cache of functions: single flight

    However calls interleave, every entry is read at most once, what a call
    returns is what the reader answered for its key, failures are not cached,
    and a key is read again only after it has left the cache. *)
From S2P Require Export FunctionCache.

(** The positions of a key do not change when the list they are read from grows. *)
Lemma positions_same {B} `{EqDecision B} (k : B) (u v : list B) (ns : list nat) :
  Forall (fun n => u !! n = v !! n) ns ->
  filter (fun n => u !! n = Some k) ns = filter (fun n => v !! n = Some k) ns.
Proof.
  induction 1 as [|n ns Hn Hns IH]; [done|]. rewrite !filter_cons, IH, Hn. done.
Qed.

Section spec.
Context `{LRULaws}.

Definition holdsLock (t : ctoken) : bool :=
  match t with CLocked | CMissed _ | CAttached _ _ true => true | _ => false end.

Definition runsEntry (t : ctoken) : option nat :=
  match t with CRunning id _ | CFailed id _ _ | CRead id _ _ => Some id | _ => None end.

Definition failed_result (r : result EntityFunction) : bool := negb (is_ok r).

Definition token_ok (s : cache_state) (t : ctoken) : Prop :=
  match t with
  | CIdle | CLocked => True
  | CMissed k => peek (s_cache s) k = None
  | CAttached id k _ => exists o, s_entries s !! id = Some (k, o)
  | CRunning id k => s_entries s !! id = Some (k, OnceRunning) /\ id ∉ (s_reads s).*1.*1
  | CFailed id k e => s_entries s !! id = Some (k, OnceRunning) /\ (id, k, Err e) ∈ s_reads s
  | CRead id k r => s_entries s !! id = Some (k, OnceRunning) /\ (id, k, r) ∈ s_reads s /\
      (is_ok r = false -> forall k', peek (s_cache s) k' <> Some id)
  | CHas k r => exists id, (id, k, r) ∈ s_reads s
  end.

Definition count (k : cacheKey) (l : list cacheKey) : nat := List.length (filter (fun x => x = k) l).

#[local] Arguments count : simpl never.

Definition cached (s : cache_state) (k : cacheKey) : nat :=
  match peek (s_cache s) k with Some _ => 1 | None => 0 end.

(** What holds of the state alone. *)
Record state_ok (s : cache_state) : Prop := {
  so_cached k id : peek (s_cache s) k = Some id ->
    exists o, s_entries s !! id = Some (k, o) /\ forall e, o <> OnceDone (Err e);
  so_once : NoDup (s_reads s).*1.*1;
  so_reads id k r : (id, k, r) ∈ s_reads s ->
    s_entries s !! id = Some (k, OnceRunning) \/ s_entries s !! id = Some (k, OnceDone r);
  so_done id k r : s_entries s !! id = Some (k, OnceDone r) -> (id, k, r) ∈ s_reads s;
  so_returned k r : (k, r) ∈ s_returned s -> exists id, (id, k, r) ∈ s_reads s;
  so_count k : count k (s_entries s).*1 = (count k (s_dropped s) + cached s k)%nat
}.

Record cache_inv (s : cache_state) (ts : list ctoken) : Prop := {
  ci_state : state_ok s;
  ci_tokens : Forall (token_ok s) ts;
  ci_lock : List.length (filter holdsLock ts) = Nat.b2n (s_locked s);
  ci_runs : NoDup (omap runsEntry ts)
}.

#[export] Instance cache_inv_proper s : Proper ((≡ₚ) ==> iff) (cache_inv s).
Proof using.
  intros ts ts' Hp. split; intros [H1 H2 H3 H4]; split; try done;
    (rewrite <- Hp || rewrite Hp); done.
Qed.

Lemma count_app k l l' : count k (l ++ l') = (count k l + count k l')%nat.
Proof using. unfold count. by rewrite filter_app, length_app. Qed.

Lemma count_nil k : count k [] = 0%nat.
Proof using. done. Qed.

Lemma count_one k k' : count k [k'] = if decide (k' = k) then 1%nat else 0%nat.
Proof using. unfold count. rewrite filter_cons, filter_nil. by case_decide. Qed.

(** The key of a read is the key of its entry, its result is unique. *)
Lemma reads_unique s id k k' r r' :
  state_ok s -> (id, k, r) ∈ s_reads s -> (id, k', r') ∈ s_reads s -> k = k' /\ r = r'.
Proof using.
  intros Hs H1 H2. pose proof (so_once s Hs) as Hn. rewrite <- list_fmap_compose in Hn.
  assert ((id, k, r) = (id, k', r')) as [=]; [|done].
  apply list_elem_of_lookup in H1 as [i Hi], H2 as [j Hj].
  assert (i = j) as <-; [|congruence].
  eapply (NoDup_lookup _ i j id Hn); by rewrite list_lookup_fmap, ?Hi, ?Hj.
Qed.

(** A goroutine that holds the lock is the only one. *)
Lemma lock_alone s t ts t' :
  cache_inv s (t :: ts) -> holdsLock t = true -> t' ∈ ts -> holdsLock t' = false.
Proof using.
  intros Hi Ht Hin. pose proof (ci_lock _ _ Hi) as Hl. rewrite filter_cons, Ht in Hl.
  rewrite decide_True in Hl by done. cbn in Hl.
  destruct (holdsLock t') eqn:E; [|done].
  assert (Hf : t' ∈ filter holdsLock ts) by (apply list_elem_of_filter; by rewrite E).
  destruct (filter holdsLock ts); [by apply not_elem_of_nil in Hf|].
  cbn in Hl. destruct (s_locked s); cbn in Hl; lia.
Qed.

Lemma runs_alone s t ts id t' :
  cache_inv s (t :: ts) -> runsEntry t = Some id -> t' ∈ ts -> runsEntry t' <> Some id.
Proof using.
  intros Hi Ht Hin Ht'. pose proof (ci_runs _ _ Hi) as Hn. cbn in Hn. rewrite Ht in Hn.
  apply NoDup_cons in Hn as [Hn _]. apply Hn, list_elem_of_omap. by exists t'.
Qed.

(** Replacing the token of the goroutine that moves. *)
Lemma cache_inv_move s s' t t' ts :
  cache_inv s (t :: ts) -> state_ok s' ->
  (forall u, u ∈ ts -> token_ok s u -> token_ok s' u) -> token_ok s' t' ->
  (Nat.b2n (holdsLock t) + Nat.b2n (s_locked s') = Nat.b2n (holdsLock t') + Nat.b2n (s_locked s))%nat ->
  (runsEntry t' = None \/ runsEntry t' = runsEntry t \/
     exists id, runsEntry t' = Some id /\ forall u, u ∈ ts -> runsEntry u <> Some id) ->
  cache_inv s' (t' :: ts).
Proof using.
  intros Hi Hs Hts Ht' Hl Hr. pose proof Hi as [H1 H2 H3 H4].
  apply Forall_cons in H2 as [Ht H2]. split; [done| | |].
  - apply Forall_cons. split; [done|]. rewrite Forall_forall in *. auto.
  - rewrite filter_cons in *. destruct (holdsLock t), (holdsLock t');
      repeat (rewrite decide_True in * by done); repeat (rewrite decide_False in * by (by intros []));
      cbn in *; lia.
  - cbn in *. destruct Hr as [->|[->|(id & -> & Hid)]]; [|done|].
    + destruct (runsEntry t); [by apply NoDup_cons in H4 as [_ H4]|done].
    + apply NoDup_cons. split.
      * intros (u & Hu & Hru)%list_elem_of_omap. by apply (Hid u).
      * destruct (runsEntry t); [by apply NoDup_cons in H4 as [_ H4]|done].
Qed.

(** ** The operations keep the invariant *)

(** Only the cache changes, and no key gets a new entry. *)
Lemma token_ok_shrunk s c dropped t :
  (forall k, peek c k = peek (s_cache s) k \/ peek c k = None) ->
  token_ok s t -> token_ok (set_cache c dropped s) t.
Proof using.
  intros Hc. destruct t as [| |k|id k b|id k|id k e|id k r|k r]; cbn; try done.
  - intros Hk. destruct (Hc k) as [->| ->]; done.
  - intros (H1 & H2 & H3). split_and!; [done|done|]. intros Hr k'.
    destruct (Hc k') as [->| ->]; [by apply H3|done].
Qed.

Lemma state_ok_shrunk s c dropped :
  state_ok s -> (forall k, peek c k = peek (s_cache s) k \/ peek c k = None) ->
  (forall k, (count k dropped + cached (set_cache c dropped s) k = cached s k)%nat) ->
  state_ok (set_cache c dropped s).
Proof using.
  intros [H1 H2 H3 H4 H5 H6] Hc Hd. split; cbn; try done.
  - intros k id Hk. destruct (Hc k) as [Heq|Heq]; rewrite Heq in Hk; [by apply H1|done].
  - intros k. rewrite count_app, H6, <- (Hd k). lia.
Qed.

Lemma sound_CacheGet s k ts t Q :
  cache_inv s (t :: ts) ->
  cache_wp _ (CacheGet k) t Q ->
  exists t', Q (peek (s_cache s) k) t' /\
    cache_inv (set_cache (lru_Get k (s_cache s)) [] s) (t' :: ts).
Proof using H0.
  intros Hi Hw. pose proof (ci_state _ _ Hi) as Hs.
  assert (Hp : forall k', peek (lru_Get k (s_cache s)) k' = peek (s_cache s) k' \/
    peek (lru_Get k (s_cache s)) k' = None) by (intros k'; left; apply lru_Get_peek).
  assert (Hs' : state_ok (set_cache (lru_Get k (s_cache s)) [] s)).
  { apply state_ok_shrunk; [done|done|]. intros k'. unfold cached. cbn. by rewrite lru_Get_peek. }
  assert (Hmove : forall t', token_ok (set_cache (lru_Get k (s_cache s)) [] s) t' ->
    holdsLock t' = holdsLock t -> runsEntry t' = None ->
    cache_inv (set_cache (lru_Get k (s_cache s)) [] s) (t' :: ts)).
  { intros t' Ht' Hl Hr. eapply cache_inv_move; [exact Hi|done| |done|cbn; by rewrite Hl|by left].
    intros u _. by apply token_ok_shrunk. }
  destruct (peek (s_cache s) k) as [id|] eqn:Hk.
  - destruct (so_cached s Hs k id Hk) as (o & Ho & _).
    destruct Hw as [(-> & _ & HQ)|(-> & _ & HQ)]; eexists; (split; [apply HQ|]); apply Hmove; try done;
      by exists o.
  - destruct Hw as [(-> & HQ & _)|(-> & HQ & _)]; eexists; (split; [apply HQ|]); apply Hmove; try done.
    cbn. by rewrite lru_Get_peek.
Qed.

Lemma sound_CacheAddOnce s k c evicted ts t Q :
  lru_Add k (List.length (s_entries s)) (s_cache s) = (c, evicted) ->
  cache_inv s (t :: ts) -> cache_wp _ (CacheAddOnce k) t Q ->
  exists t', Q (List.length (s_entries s)) t' /\
    cache_inv (set_cache c (match evicted with Some k' => [k'] | None => [] end)
                 (set_entries (s_entries s ++ [(k, OnceFresh)]) s)) (t' :: ts).
Proof using H0.
  intros Hadd Hi (-> & HQ). eexists. split; [apply HQ|].
  pose proof (ci_state _ _ Hi) as Hs. pose proof (ci_tokens _ _ Hi) as Ht.
  apply Forall_cons in Ht as [Hmiss Ht]. cbn in Hmiss.
  pose proof (lru_Add_peek k (List.length (s_entries s)) (s_cache s)) as Hpeek.
  pose proof (lru_Add_evicted k (List.length (s_entries s)) (s_cache s)) as Hev.
  rewrite Hadd in Hpeek, Hev. cbn in Hpeek, Hev.
  assert (Hold : forall id x, s_entries s !! id = Some x ->
    (s_entries s ++ [(k, OnceFresh)]) !! id = Some x) by (intros; by apply lookup_app_l_Some).
  eapply cache_inv_move; [exact Hi| | | |cbn; lia|by left].
  - destruct Hs as [H1 H2 H3 H4 H5 H6]. split; cbn; try done.
    + intros k' id. rewrite Hpeek. case_decide as Hk; [subst k'|].
      * intros [= <-]. exists OnceFresh. split; [|done]. by rewrite lookup_app_r, Nat.sub_diag by lia.
      * case_decide; [done|]. intros Hid. destruct (H1 k' id Hid) as (o & Ho & Hne). eauto.
    + intros id k' r Hr. destruct (H3 id k' r Hr); auto.
    + intros id k' r [Hr|[? Hr]]%lookup_app_Some; [by apply H4|].
      apply list_lookup_singleton_Some in Hr as [_ [=]].
    + intros k'. rewrite fmap_app, !count_app, H6. unfold cached. cbn.
      rewrite Hpeek, count_one. destruct (decide (k' = k)) as [->|Hk].
      * rewrite decide_True, Hmiss by done. destruct evicted as [k2|]; [|rewrite count_nil; lia].
        destruct (Hev k2 eq_refl) as [Hne _]. rewrite count_one, decide_False by done. lia.
      * rewrite (decide_False (P := k = k')) by congruence.
        destruct evicted as [k2|]; [|rewrite count_nil, decide_False by done; lia].
        destruct (Hev k2 eq_refl) as [_ Hin]. rewrite count_one.
        destruct (decide (k2 = k')) as [->|Hk2].
        -- rewrite decide_True by done. destruct (peek (s_cache s) k'); [lia|done].
        -- rewrite decide_False by congruence. lia.
  - intros u Hu Hok. pose proof (lock_alone _ _ _ u Hi eq_refl Hu) as Hlu.
    destruct u as [| |k'|id k' b|id k'|id k' e|id k' r|k' r]; cbn in *; try done.
    + destruct Hok as (o & Ho). eauto.
    + destruct Hok as [? ?]; auto.
    + destruct Hok as [? ?]; auto.
    + destruct Hok as (Hr1 & Hr2 & Hr3). split_and!; [by apply Hold|done|]. intros Hr k2.
      rewrite Hpeek. case_decide; [|case_decide; [done|by apply Hr3]].
      intros [= <-]. apply lookup_lt_Some in Hr1. lia.
  - cbn. exists OnceFresh. by rewrite lookup_app_r, Nat.sub_diag by lia.
Qed.

Lemma sound_CacheRemove s k ts t Q :
  cache_inv s (t :: ts) -> cache_wp _ (CacheRemove k) t Q ->
  exists t', Q tt t' /\
    cache_inv (set_cache (lru_Remove k (s_cache s))
                 (match peek (s_cache s) k with Some _ => [k] | None => [] end) s) (t' :: ts).
Proof using H0.
  intros Hi (id & e & -> & HQ). eexists. split; [exact HQ|].
  pose proof (ci_state _ _ Hi) as Hs. pose proof (ci_tokens _ _ Hi) as Ht.
  apply Forall_cons in Ht as [[Hrun Hread] Ht].
  assert (Hp : forall k', peek (lru_Remove k (s_cache s)) k' = peek (s_cache s) k' \/
    peek (lru_Remove k (s_cache s)) k' = None)
    by (intros k'; rewrite lru_Remove_peek; case_decide; auto).
  eapply cache_inv_move; [exact Hi| | | |cbn; lia|by right; left].
  - apply state_ok_shrunk; [done|done|]. intros k'. unfold cached. cbn. rewrite lru_Remove_peek.
    destruct (decide (k' = k)) as [->|Hk].
    + destruct (peek (s_cache s) k); [|done]. by rewrite count_one, decide_True.
    + destruct (peek (s_cache s) k); [|done]. by rewrite count_one, decide_False by congruence.
  - intros u _. by apply token_ok_shrunk.
  - cbn. split_and!; [done|done|]. intros _ k'. rewrite lru_Remove_peek. case_decide as Hk; [done|].
    intros Hid. destruct (so_cached s Hs k' id Hid) as (o & Ho & _). congruence.
Qed.

Lemma sound_MuxLock s ts t Q :
  s_locked s = false -> cache_inv s (t :: ts) -> cache_wp _ MuxLock t Q ->
  exists t', Q tt t' /\ cache_inv (set_locked true s) (t' :: ts).
Proof using.
  intros Hl Hi [-> HQ]. eexists. split; [exact HQ|].
  eapply cache_inv_move; [exact Hi| | |done|cbn; rewrite Hl; done|by left].
  - destruct (ci_state _ _ Hi). by split.
  - intros u _. by destruct u.
Qed.

Lemma sound_MuxUnlock s ts t Q :
  cache_inv s (t :: ts) -> cache_wp _ MuxUnlock t Q ->
  exists t', Q tt t' /\ cache_inv (set_locked false s) (t' :: ts).
Proof using.
  intros Hi (id & k & -> & HQ). eexists. split; [exact HQ|].
  assert (Hl : s_locked s = true).
  { pose proof (ci_lock _ _ Hi) as Hl. rewrite filter_cons, decide_True in Hl by done.
    by destruct (s_locked s). }
  pose proof (ci_tokens _ _ Hi) as [Ht _]%Forall_cons.
  eapply cache_inv_move; [exact Hi| | |exact Ht|cbn; rewrite Hl; done|by left].
  - destruct (ci_state _ _ Hi). by split.
  - intros u _. by destruct u.
Qed.

(** An entry moves on: fresh to running, running to done. *)
Lemma state_ok_entry s id k o o' :
  state_ok s -> s_entries s !! id = Some (k, o) ->
  (forall e, o' = OnceDone (Err e) -> forall k', peek (s_cache s) k' <> Some id) ->
  (forall r, (id, k, r) ∈ s_reads s -> o' = OnceRunning \/ o' = OnceDone r) ->
  (forall r, o' = OnceDone r -> (id, k, r) ∈ s_reads s) ->
  state_ok (set_entries (<[id := (k, o')]> (s_entries s)) s).
Proof using.
  intros [H1 H2 H3 H4 H5 H6] Hid Herr Hrd Hdone.
  pose proof (lookup_lt_Some _ _ _ Hid) as Hlt.
  split; cbn; try done.
  - intros k' id' Hk. destruct (H1 k' id' Hk) as (o1 & Ho & Hne).
    destruct (decide (id' = id)) as [->|Hn].
    + rewrite list_lookup_insert_eq by done. rewrite Hid in Ho. injection Ho as -> ->.
      exists o'. split; [done|]. intros e He. by apply (Herr e He k').
    + rewrite list_lookup_insert_ne by done. eauto.
  - intros id' k' r Hr. destruct (decide (id' = id)) as [->|Hn].
    + rewrite list_lookup_insert_eq by done.
      assert (k' = k) as -> by (destruct (H3 _ _ _ Hr); congruence).
      destruct (Hrd r Hr) as [->| ->]; auto.
    + rewrite list_lookup_insert_ne by done. auto.
  - intros id' k' r. destruct (decide (id' = id)) as [->|Hn].
    + rewrite list_lookup_insert_eq by done. intros [= <- Hr]. auto.
    + rewrite list_lookup_insert_ne by done. auto.
  - intros k'. rewrite list_fmap_insert, list_insert_id; [apply H6|].
    by rewrite list_lookup_fmap, Hid.
Qed.

Lemma sound_OnceEnter s id ts t Q x s' :
  cache_exec _ (OnceEnter id) s x s' -> cache_inv s (t :: ts) -> cache_wp _ (OnceEnter id) t Q ->
  exists t', Q x t' /\ cache_inv s' (t' :: ts).
Proof using.
  intros He Hi (k & -> & Hdone & Hfresh). cbn in He.
  pose proof (ci_state _ _ Hi) as Hs. pose proof (ci_tokens _ _ Hi) as Ht.
  apply Forall_cons in Ht as [[o Ho] Ht]. rewrite Ho in He.
  destruct o as [| |r]; [|done|]; destruct He as [-> ->]; eexists; (split; [eauto|]).
  - assert (Hno : forall k' r, (id, k', r) ∈ s_reads s -> False)
      by (intros k' r [?|?]%(so_reads s Hs); congruence).
    pose proof (lookup_lt_Some _ _ _ Ho) as Hlt.
    assert (Hne : forall id' k', s_entries s !! id' = Some (k', OnceRunning) ->
      <[id := (k, OnceRunning)]> (s_entries s) !! id' = Some (k', OnceRunning)).
    { intros id' k' Hid'. rewrite list_lookup_insert_ne; [done|]. intros <-. congruence. }
    eapply cache_inv_move; [exact Hi| | | |cbn; lia|].
    + eapply state_ok_entry; try done. intros r Hr. by destruct (Hno k r).
    + intros u Hu Hok. destruct u as [| |k'|id' k' b|id' k'|id' k' e|id' k' r|k' r]; cbn in *; try done;
        [|naive_solver..].
      destruct Hok as [o Ho']. destruct (decide (id' = id)) as [->|Hn].
      * rewrite list_lookup_insert_eq by done. replace k' with k by congruence. eauto.
      * rewrite list_lookup_insert_ne by done. eauto.
    + cbn. split; [by apply list_lookup_insert_eq|].
      rewrite list_elem_of_fmap. intros ([id' k'] & ? & ([[? ?] r] & ? & Hr)%list_elem_of_fmap).
      cbn in *. simplify_eq. by eapply Hno.
    + right; right. exists id. split; [done|]. intros u Hu Hru.
      pose proof (Forall_forall (token_ok s) ts) as [Hall _]. specialize (Hall Ht u Hu).
      destruct u; cbn in *; simplify_eq; naive_solver.
  - eapply cache_inv_move; [exact Hi|done|done| |done|by left].
    exists id. by apply so_done.
Qed.

Lemma sound_OnceFinish s id r ts t Q s' :
  cache_exec _ (OnceFinish id r) s tt s' -> cache_inv s (t :: ts) ->
  cache_wp _ (OnceFinish id r) t Q ->
  exists t', Q tt t' /\ cache_inv s' (t' :: ts).
Proof using.
  intros (k' & o & Ho & ->) Hi (k & -> & HQ). eexists. split; [exact HQ|].
  pose proof (ci_state _ _ Hi) as Hs. pose proof (ci_tokens _ _ Hi) as Ht.
  apply Forall_cons in Ht as [(Hrun & Hrd & Hc) Ht].
  rewrite Hrun in Ho. injection Ho as <- <-.
  eapply cache_inv_move; [exact Hi| | |by exists id|done|by left].
  - eapply state_ok_entry; try done.
    + intros e [= ->]. by apply Hc.
    + intros r' Hr'. right. by destruct (reads_unique _ _ _ _ _ _ Hs Hrd Hr') as [_ ->].
    + by intros ? [= <-].
  - intros u Hu Hok. pose proof (runs_alone _ _ _ id u Hi eq_refl Hu) as Hne.
    pose proof (lookup_lt_Some _ _ _ Hrun) as Hlt.
    destruct u as [| |k'|id' k' b|id' k'|id' k' e|id' k' r'|k' r']; cbn in *; try done;
      try (rewrite list_lookup_insert_ne by congruence; done).
    destruct Hok as [o Ho']. destruct (decide (id' = id)) as [->|Hn].
    + rewrite list_lookup_insert_eq by done. replace k' with k by congruence. eauto.
    + rewrite list_lookup_insert_ne by done. eauto.
Qed.

Lemma sound_ReaderGetFunction s id k x ts t Q s' :
  cache_exec _ (ReaderGetFunction id k) s x s' -> cache_inv s (t :: ts) ->
  cache_wp _ (ReaderGetFunction id k) t Q ->
  exists t', Q x t' /\ cache_inv s' (t' :: ts).
Proof using H0.
  intros -> Hi (-> & Hok & Herr).
  pose proof (ci_state _ _ Hi) as Hs. pose proof (ci_tokens _ _ Hi) as Ht.
  apply Forall_cons in Ht as [(Hrun & Hno) Ht].
  set (s' := mkCacheState _ _ _ (s_reads s ++ [(id, k, x)]) _ _).
  assert (Hin : (id, k, x) ∈ s_reads s') by (cbn; set_solver).
  assert (Hmove : forall t', token_ok s' t' -> holdsLock t' = false -> runsEntry t' = Some id ->
    cache_inv s' (t' :: ts)).
  { intros t' Ht' Hl Hr. eapply cache_inv_move; [exact Hi| | |done|by rewrite Hl|].
    - destruct Hs as [H1 H2 H3 H4 H5 H6]. split; cbn; try done.
      + rewrite !fmap_app. apply NoDup_app. split_and!; [done| |by apply NoDup_singleton].
        set_solver.
      + intros id' k' r [Hr'|Heq%list_elem_of_singleton]%elem_of_app; [by apply H3|].
        simplify_eq. by left.
      + intros id' k' r Hr'. apply elem_of_app. auto.
      + intros k' r Hr'. destruct (H5 k' r Hr') as [id' ?]. exists id'. apply elem_of_app. auto.
    - intros u Hu Huok. pose proof (runs_alone _ _ _ id u Hi eq_refl Hu) as Hne.
      destruct u as [| |k'|id' k' b|id' k'|id' k' e|id' k' r'|k' r']; cbn in *; try done; set_solver.
    - right; left. by rewrite Hr. }
  destruct x as [fn|e]; eexists; (split; [eauto|]); apply Hmove; done.
Qed.

Lemma sound_Returned s k r ts t Q s' :
  cache_exec _ (Returned k r) s tt s' -> cache_inv s (t :: ts) -> cache_wp _ (Returned k r) t Q ->
  exists t', Q tt t' /\ cache_inv s' (t' :: ts).
Proof using.
  intros -> Hi (-> & HQ). eexists. split; [exact HQ|].
  pose proof (ci_state _ _ Hi) as Hs. pose proof (ci_tokens _ _ Hi) as [(id & Hr) Ht]%Forall_cons.
  eapply cache_inv_move; [exact Hi| | |done|done|by left].
  - destruct Hs as [H1 H2 H3 H4 H5 H6]. split; cbn; try done.
    intros k' r' [?|Heq%list_elem_of_singleton]%elem_of_app; [by apply H5|].
    simplify_eq. by exists id.
  - intros u _. by destruct u.
Qed.

Lemma op_sound X (op : cache_op X) s x s' T1 t T2 Q :
  cache_exec X op s x s' -> cache_inv s (T1 ++ t :: T2) -> cache_wp X op t Q ->
  exists t', Q x t' /\ cache_inv s' (T1 ++ t' :: T2).
Proof using H0.
  intros He Hi Hw. setoid_rewrite <- Permutation_middle. rewrite <- Permutation_middle in Hi.
  destruct op as [k|k|k| | |id|id r|id k|k r].
  - destruct He as [-> ->]. by eapply sound_CacheGet.
  - cbn in He. destruct (lru_Add k _ _) as [c evicted] eqn:Ha. destruct He as [-> ->].
    by eapply sound_CacheAddOnce.
  - cbn in He. subst. destruct x. by eapply sound_CacheRemove.
  - destruct x, He as [Hl ->]. by eapply sound_MuxLock.
  - cbn in He. subst. destruct x. by eapply sound_MuxUnlock.
  - by eapply sound_OnceEnter.
  - destruct x. by eapply sound_OnceFinish.
  - by eapply sound_ReaderGetFunction.
  - destruct x. by eapply sound_Returned.
Qed.

Lemma start_sound s ts : cache_inv s ts -> cache_inv s (ts ++ [CIdle]).
Proof using.
  intros Hi. rewrite <- Permutation_cons_append. destruct Hi as [H1 H2 H3 H4].
  split; [done| | |done].
  - by constructor.
  - by rewrite filter_cons, decide_False by (by intros []).
Qed.

Lemma reachable_ok size s : cache_reachable size s -> state_ok s.
Proof using H0.
  intros (c & ps & Hnew & Hr). assert (Hc : forall k, peek c k = None).
  { apply (lru_New_peek size). unfold NewCachedFunctionReader in Hnew.
    destruct (lru_New size); by simplify_eq. }
  destruct (wp_adequate cache_wp cache_exec cache_client CIdle (fun t => t = CIdle) cache_inv
    op_sound start_sound wp_client (new_cache c) (s, ps)) as (ts & _ & [Hs _ _ _]); try done.
  split; [|done|done|by constructor]. split; cbn; try done.
  - intros k id. by rewrite Hc.
  - constructor.
  - by intros ? ? ? ?%elem_of_nil.
  - by intros ? ? ?%elem_of_nil.
  - intros k. unfold cached. cbn. by rewrite Hc.
Qed.

(** The entries of a key, by number. *)
Definition entries_of (k : cacheKey) (l : list (cacheKey * once)) : list nat :=
  filter (fun i => l.*1 !! i = Some k) (seq 0 (List.length l)).

Lemma entries_of_count k l : List.length (entries_of k l) = count k l.*1.
Proof using.
  unfold entries_of. induction l as [|[k' o] l IH] using rev_ind; [done|].
  rewrite length_app, Nat.add_1_r, seq_S, filter_app, length_app, fmap_app, count_app, <- IH.
  f_equal.
  - f_equal. apply positions_same, Forall_forall. intros i Hi%elem_of_seq.
    by rewrite lookup_app_l by (rewrite length_fmap; lia).
  - change ([(k', o)].*1) with [k']. rewrite count_one. cbn [filter].
    rewrite filter_cons, filter_nil. rewrite lookup_app_r, length_fmap, Nat.sub_diag by
      (rewrite length_fmap; lia). cbn. repeat case_decide; congruence || done.
Qed.

Lemma reads_bounded s k :
  state_ok s ->
  (List.length (filter (fun rd => rd.1.2 = k) (s_reads s)) <= count k (s_dropped s) + cached s k)%nat.
Proof using.
  intros Hs. rewrite <- (so_count s Hs k), <- entries_of_count.
  rewrite <- (length_fmap (fun rd => rd.1.1)). apply NoDup_incl_length.
  - apply NoDup_ListNoDup. eapply sublist_NoDup; [apply (so_once s Hs)|].
    rewrite <- list_fmap_compose. apply fmap_sublist, sublist_filter.
  - intros id Hid%list_elem_of_In. apply list_elem_of_In.
    apply list_elem_of_fmap in Hid as ([[id' k'] r] & -> & [Hk Hr]%list_elem_of_filter). cbn in *. subst k'.
    apply list_elem_of_filter. rewrite list_lookup_fmap, elem_of_seq.
    destruct (so_reads s Hs _ _ _ Hr) as [He|He]; pose proof (lookup_lt_Some _ _ _ He); rewrite He;
      (split; [done|lia]).
Qed.

(** C12: However calls of [GetFunction] interleave, with any number of callers, keys, evictions
    and failures: every entry is read from the underlying reader at most once; every call returns
    what the reader answered for exactly the name and revision it asked for; an entry that is
    still cached never holds a failure; and the reader is asked for a key at most once more than
    the key has left the cache, so while a key stays cached all its callers share one read. *)
Theorem single_flight size s :
  cache_reachable size s ->
  NoDup (s_reads s).*1.*1 /\
  (forall k r, (k, r) ∈ s_returned s -> exists id, (id, k, r) ∈ s_reads s) /\
  (forall k id e, peek (s_cache s) k = Some id -> s_entries s !! id <> Some (k, OnceDone (Err e))) /\
  (forall k, (List.length (filter (fun rd => rd.1.2 = k) (s_reads s)) <=
              count k (s_dropped s) + cached s k)%nat).
Proof using H0.
  intros Hs%reachable_ok. split_and!.
  - apply (so_once s Hs).
  - apply (so_returned s Hs).
  - intros k id e Hk He. destruct (so_cached s Hs k id Hk) as (o & Ho & Hne).
    by apply (Hne e); congruence.
  - intros k. by apply reads_bounded.
Qed.
End spec.

(** ** A cache to run the program with: keys by recency *)
Module ListLRU.
Record t := { capacity : nat; items : list (cacheKey * nat) }.

Definition find (k : cacheKey) (l : list (cacheKey * nat)) : option nat :=
  snd <$> List.find (fun kv => bool_decide (kv.1 = k)) l.
#[local] Arguments find : simpl never.

Definition without (k : cacheKey) (l : list (cacheKey * nat)) : list (cacheKey * nat) :=
  filter (fun kv => kv.1 <> k) l.

Definition add (k : cacheKey) (v : nat) (c : t) : t * option cacheKey :=
  let rest := without k (items c) in
  if decide (List.length rest < capacity c)%nat
  then ({| capacity := capacity c; items := (k, v) :: rest |}, None)
  else match last rest with
       | Some (old, _) => ({| capacity := capacity c; items := (k, v) :: without old rest |}, Some old)
       | None => ({| capacity := capacity c; items := [(k, v)] |}, None)
       end.

#[export] Instance list_lru : LRU := {
  lru := t;
  lru_New size := if size <=? 0 then Err (Errorf "must provide a positive size" [])
                  else Ok {| capacity := Z.to_nat size; items := [] |};
  peek c k := find k (items c);
  lru_Get k c :=
    match find k (items c) with
    | Some v => {| capacity := capacity c; items := (k, v) :: without k (items c) |}
    | None => c
    end;
  lru_Add := add;
  lru_Remove k c := {| capacity := capacity c; items := without k (items c) |}
}.

Lemma find_cons k v l k' : find k' ((k, v) :: l) = if decide (k' = k) then Some v else find k' l.
Proof. unfold find. cbn. case_bool_decide; case_decide; congruence || done. Qed.

Lemma find_without k l k' : find k' (without k l) = if decide (k' = k) then None else find k' l.
Proof.
  unfold without. induction l as [|[k2 v] l IH]; [by case_decide|].
  rewrite filter_cons, find_cons. cbn [fst]. destruct (decide (k2 = k)) as [->|Hk].
  - rewrite decide_False by (intros []; done). rewrite IH. repeat case_decide; congruence || done.
  - rewrite decide_True by done. rewrite find_cons, IH. repeat case_decide; congruence || done.
Qed.

Lemma find_last l k v : last l = Some (k, v) -> find k l <> None.
Proof.
  intros (l' & ->)%last_Some. induction l' as [|[k' w] l' IH]; cbn; rewrite find_cons; by case_decide.
Qed.

#[export] Instance list_lru_laws : LRULaws.
Proof.
  split; cbn.
  - intros size c. destruct (size <=? 0); [done|]. by intros [= <-].
  - intros k c k'. destruct (find k (items c)) as [v|] eqn:Hk; [|done]. cbn.
    rewrite find_cons, find_without. repeat case_decide; congruence || done.
  - intros k v c k'. unfold add. case_decide as Hlt; cbn.
    + rewrite find_cons, find_without. repeat case_decide; congruence || done.
    + destruct (last _) as [[old w]|] eqn:Hlast; cbn.
      * rewrite find_cons, !find_without. repeat case_decide; congruence || done.
      * rewrite find_cons. apply last_None in Hlast.
        pose proof (find_without k (items c) k') as Hf. rewrite Hlast in Hf. cbn in Hf.
        repeat case_decide; congruence || done.
  - intros k v c k'. unfold add. case_decide as Hlt; cbn; [done|].
    destruct (last _) as [[old w]|] eqn:Hlast; cbn; [|done]. intros [= <-].
    pose proof (find_last _ _ _ Hlast) as Hf. rewrite find_without in Hf. by case_decide.
  - intros k c k'. apply find_without.
Qed.
End ListLRU.

(** A handler that answers every read with [answer]. *)
Definition cache_handle `{LRU} (answer : cacheKey -> result EntityFunction) (X : Type)
    (op : cache_op X) : cache_state -> option (X * cache_state) :=
  match op in cache_op X return cache_state -> option (X * cache_state) with
  | CacheGet k => fun s => Some (peek (s_cache s) k, set_cache (lru_Get k (s_cache s)) [] s)
  | CacheAddOnce k => fun s =>
      let '(c, evicted) := lru_Add k (List.length (s_entries s)) (s_cache s) in
      Some (List.length (s_entries s),
            set_cache c (match evicted with Some k' => [k'] | None => [] end)
              (set_entries (s_entries s ++ [(k, OnceFresh)]) s))
  | CacheRemove k => fun s =>
      Some (tt, set_cache (lru_Remove k (s_cache s))
                  (match peek (s_cache s) k with Some _ => [k] | None => [] end) s)
  | MuxLock => fun s => if s_locked s then None else Some (tt, set_locked true s)
  | MuxUnlock => fun s => Some (tt, set_locked false s)
  | OnceEnter id => fun s =>
      match s_entries s !! id with
      | Some (k, OnceFresh) => Some (inl k, set_entries (<[id := (k, OnceRunning)]> (s_entries s)) s)
      | Some (_, OnceDone r) => Some (inr r, s)
      | _ => None
      end
  | OnceFinish id r => fun s =>
      match s_entries s !! id with
      | Some (k, _) => Some (tt, set_entries (<[id := (k, OnceDone r)]> (s_entries s)) s)
      | None => None
      end
  | ReaderGetFunction id k => fun s =>
      Some (answer k, mkCacheState (s_cache s) (s_locked s) (s_entries s)
                        (s_reads s ++ [(id, k, answer k)]) (s_dropped s) (s_returned s))
  | Returned k r => fun s =>
      Some (tt, mkCacheState (s_cache s) (s_locked s) (s_entries s) (s_reads s) (s_dropped s)
                  (s_returned s ++ [(k, r)]))
  end.

Lemma cache_handle_sound `{LRU} answer X (op : cache_op X) s x s' :
  cache_handle answer X op s = Some (x, s') -> cache_exec X op s x s'.
Proof.
  destruct op as [k|k|k| | |id|id r|id k|k r]; cbn; intros He; try by simplify_eq.
  - destruct (lru_Add _ _ _) as [c evicted]. by simplify_eq.
  - destruct (s_locked s); by simplify_eq.
  - destruct (s_entries s !! id) as [[k []]|]; by simplify_eq.
  - destruct (s_entries s !! id) as [[k o]|]; [|done]. simplify_eq. eauto.
Qed.

(** Two callers ask for the same function at once, the second while the first is reading; a third
    one asks for another key, whose read fails and leaves the cache. *)
Module SharedRead.
Definition fn : EntityFunction :=
  {| f_Name := "fn"; f_Namespace := "ns";
     f_Exec := {| exec_Kind := "go:1.20";
                  Code := {| Resolved := "code"; AttachmentID := ""; IsBinary := false |};
                  Main := ""; Binary := false |};
     f_Annotations := ∅; f_Limits := {| Timeout := 0; lim_Memory := 0; lim_Logs := 0 |} |}.

Definition good := {| name := "ns/fn"; revision := "1" |}.
Definition bad := {| name := "ns/other"; revision := "1" |}.

Definition answer (k : cacheKey) : result EntityFunction :=
  if decide (k = good) then Ok fn else Err (Errorf "boom" []).

Definition caller (k : cacheKey) : proc cache_op unit :=
  r ← cachedGetFunction (name k) (revision k);
  trigger (Returned {| name := name k; revision := revision k |} r).

(** The first caller gets as far as running its entry before the others arrive. *)
Definition script : list (cue (E := cache_op)) :=
  Start (caller good) :: replicate 6 (Move 0%nat) ++
  Start (caller good) :: Move 1%nat ::
  Start (caller bad) :: replicate 10 (Move 2%nat) ++
  replicate 3 (Move 0%nat) ++ replicate 2 (Move 1%nat).

Definition empty : @lru ListLRU.list_lru := {| ListLRU.capacity := 2; ListLRU.items := [] |}.

Definition final : option (config (S := cache_state (H := ListLRU.list_lru))) :=
  play (cache_handle answer) script (new_cache empty, []).

Lemma final_run :
  match final with
  | Some (s, _) =>
      (s_reads s).*1 = [(1%nat, bad); (0%nat, good)] /\
      (s_returned s).*1 = [bad; good; good] /\ s_dropped s = [bad]
  | None => False
  end.
Proof. vm_compute. done. Qed.

Lemma script_calls :
  Forall (fun q => match q with Start p => cache_client p | Move _ => True end) script.
Proof.
  assert (Hc : forall k, cache_client (caller k)) by (intros [n r]; constructor).
  unfold script. repeat (apply Forall_cons || apply Forall_app || split); auto;
    by apply Forall_replicate.
Qed.

Lemma shared_reachable (c : config (S := cache_state (H := ListLRU.list_lru))) :
  final = Some c -> cache_reachable (H := ListLRU.list_lru) 2 c.1.
Proof.
  unfold final. intros Hf. exists empty, c.2. split; [done|].
  pose proof (play_reachable (cache_handle answer) cache_exec (cache_handle_sound answer) cache_client
    (new_cache empty) script (new_cache empty, []) c script_calls (rtc_refl _ _) Hf) as Hr.
  destruct c. exact Hr.
Qed.
End SharedRead.

Lemma single_flight_witness :
  exists s, cache_reachable (H := ListLRU.list_lru) 2 s /\
    (s_reads s).*1 = [(1%nat, SharedRead.bad); (0%nat, SharedRead.good)] /\
    (s_returned s).*1 = [SharedRead.bad; SharedRead.good; SharedRead.good] /\
    s_dropped s = [SharedRead.bad] /\
    NoDup (s_reads s).*1.*1.
Proof.
  pose proof SharedRead.final_run as Hrun.
  destruct SharedRead.final as [c|] eqn:E; [|destruct Hrun].
  pose proof (SharedRead.shared_reachable c E) as Hr. destruct c as [s ps]. exists s.
  split; [exact Hr|].
  pose proof (single_flight (H0 := ListLRU.list_lru_laws) 2 s Hr) as (Hn & _).
  destruct Hrun as (H1 & H2 & H3). split_and!; assumption.
Defined.
