(* ===== verification/CouchSpec.v ===== *)
(** * CouchDB: what the client guarantees

    Retries are spaced and bounded, fetched functions are those of the
    database, and HTTP clients are replaced in time but not more often. *)
From S2P Require Export FunctionDecodeSpec Couch.

(** ** Retries *)

(** The wait after the [k]th failure. *)
Definition backoff (k : nat) : Z := Z.min (baseRetryInterval * 2 ^ Z.of_nat k) maxRetryInterval.

Definition waited (n : nat) : Z := sumZ backoff (seq 1 n).

Lemma grow_backoff k : grow (backoff k) = backoff (S k).
Proof.
  unfold grow, backoff. rewrite Nat2Z.inj_succ, Z.pow_succ_r by lia.
  unfold retryIntervalFactor, baseRetryInterval, maxRetryInterval, Second, Millisecond.
  assert (0 < 2 ^ Z.of_nat k) by (apply Z.pow_pos_nonneg; lia).
  destruct (Z.ltb_spec (5 * (1000 * (1000 * 1000)))
              (Z.min (50 * (1000 * 1000) * 2 ^ Z.of_nat k) (5 * (1000 * (1000 * 1000))) * 2)); lia.
Qed.

Lemma waited_S n : waited (S n) = waited n + backoff (S n).
Proof. unfold waited. rewrite seq_S, sumZ_app. cbn. lia. Qed.

Lemma waited_nonneg n : 0 <= waited n.
Proof.
  apply sumZ_nonneg. intros k _. unfold backoff, baseRetryInterval, maxRetryInterval, Second, Millisecond.
  assert (0 < 2 ^ Z.of_nat k) by (apply Z.pow_pos_nonneg; lia). lia.
Qed.

Lemma backoff_0 : backoff 0 = baseRetryInterval.
Proof. reflexivity. Qed.

(** 29 waits are longer than the time that retries are made for. *)
Lemma waited_29 : maxRetryDuration <= waited 29.
Proof. vm_compute. done. Qed.

(** The failures that are not about a deadline; they alone are recorded and waited for. *)
Definition proper (errs : list go_error) : list go_error := filter (fun e => isDeadlineExceeded e = false) errs.

Definition option_list {A} (o : option A) : list A := match o with Some a => [a] | None => [] end.

(** The error of a request that was given up. *)
Definition gaveUp (errs : list go_error) : go_error :=
  Errorf "failed to successfully reach database after %d retries: %w" (option_list (last (proper errs))).

Section retries.
Context `{HttpTimeouts}.

(** What a run of the loop ends in: failed tries, with a wait after each proper failure, and then an answer
    or the last of these failures. *)
Definition request_ends (s0 s' : cstate) (method : string) (url : couch_url)
    (r : result couch_response) : Prop :=
  exists errs,
    exchanges s' = exchanges s0 ++ ((fun x => (method, url, x)) <$>
      ((Err <$> errs) ++ match r with Ok resp => [Ok resp] | Err _ => [] end)) /\
    sleeps s' = sleeps s0 ++ (backoff <$> seq 1 (List.length (proper errs))) /\
    (List.length (proper errs) <= 29)%nat /\
    (List.length errs <= List.length (proper errs) + maxTimeouts + 1)%nat /\
    match r with Ok _ => True | Err err => err = gaveUp errs end.

(** What is outside is not made up by the client. *)
Definition foreign_result (r : result couch_response) : Prop :=
  match r with
  | Err err => foreign err
  | Ok resp => forall e, cr_Body resp = Err e -> foreign e
  end.

(** The state of the loop after the failures [errs], of which [m] were timeouts of the HTTP client. *)
Record loop_inv (s0 : cstate) (method : string) (url : couch_url) (errs : list go_error) (m : nat)
    (lastErr : option go_error) (s : cstate) : Prop := {
  li_deadline : deadline s = now s0 + maxRetryDuration;
  li_now : now s0 + waited (List.length (proper errs)) + ioTimeout * Z.of_nat m <= now s;
  li_waits : (List.length (proper errs) <= 29)%nat;
  li_timeouts : (m <= S maxTimeouts)%nat;
  li_sleeps : sleeps s = sleeps s0 ++ (backoff <$> seq 1 (List.length (proper errs)));
  li_tries : exchanges s = exchanges s0 ++ ((fun x => (method, url, x)) <$> (Err <$> errs));
  li_count : (List.length errs <= List.length (proper errs) + m + (if ended s then 1 else 0))%nat;
  li_bound : (List.length errs <= List.length (proper errs) + maxTimeouts + 1)%nat;
  li_last : lastErr = last (proper errs);
  li_foreign : Forall foreign errs
}.

Lemma loop_inv_ended s0 method url errs m lastErr s s1 :
  loop_inv s0 method url errs m lastErr s -> passes s s1 ->
  sleeps s1 = sleeps s -> exchanges s1 = exchanges s -> loop_inv s0 method url errs m lastErr s1.
Proof using.
  intros [] (Hn & Hd & He & _) Hs Hx. split; try congruence; try done; [lia|].
  destruct (ended s); [by rewrite He|]. destruct (ended s1); lia.
Qed.

(** Before the context has ended there is room for another failure of either kind. *)
Lemma loop_inv_room s0 method url errs m lastErr s :
  loop_inv s0 method url errs m lastErr s -> (deadline s <= now s -> ended s = true) -> ended s = false ->
  (List.length (proper errs) <= 28)%nat /\ (m <= maxTimeouts)%nat.
Proof using.
  intros [] Hend He. assert (Hlt : now s < deadline s) by (destruct (Z.le_gt_cases (deadline s) (now s)); [|lia];
    by rewrite Hend in He).
  pose proof ioTimeout_pos as Hpos. pose proof waited_29 as H29.
  pose proof (waited_nonneg (List.length (proper errs))) as Hw.
  assert (0 <= ioTimeout * Z.of_nat m) by nia. split.
  - destruct (decide (List.length (proper errs) = 29)%nat) as [E|]; [|lia]. rewrite E in *. lia.
  - unfold maxTimeouts. assert (Z.of_nat m <= maxRetryDuration / ioTimeout) by (apply Z.div_le_lower_bound; lia). lia.
Qed.

Lemma proper_snoc errs err :
  proper (errs ++ [err]) = proper errs ++ (if isDeadlineExceeded err then [] else [err]).
Proof using.
  unfold proper. rewrite filter_app, filter_cons, filter_nil. by destruct (isDeadlineExceeded err).
Qed.

Lemma gaveUp_foreign errs : Forall foreign errs ->
  foreign (gaveUp errs) /\ isDeadlineExceeded (gaveUp errs) = false.
Proof using.
  intros Hf. unfold gaveUp. destruct (last (proper errs)) as [e|] eqn:Hl; [|done].
  apply last_Some_elem_of, list_elem_of_filter in Hl as [Hd Hin]. rewrite Forall_forall in Hf.
  destruct (Hf e Hin) as [Ha Hb]. cbn [option_list].
  unfold foreign, isDeadlineExceeded, isNotFound, isFunctionNotFound in *. by rewrite !errors_Is_wrap, Hd, Ha, Hb.
Qed.

(** One more try, which failed. *)
Lemma loop_inv_tried s0 method url content errs m lastErr s s1 err :
  loop_inv s0 method url errs m lastErr s -> couch_exec _ (SingleRequest method url content) s (Err err) s1 ->
  exchanges s1 = exchanges s0 ++ ((fun x => (method, url, x)) <$> (Err <$> (errs ++ [err]))) /\
  List.length (errs ++ [err]) = S (List.length errs) /\ Forall foreign (errs ++ [err]).
Proof using.
  intros [] (_ & _ & Hx & Hf & _). split_and!.
  - by rewrite Hx, li_tries0, !fmap_app, <- (assoc (++)).
  - rewrite length_app. cbn. lia.
  - apply Forall_app. by split; [|apply Forall_singleton].
Qed.

(** A failure that is about a deadline: the context has ended, or a timeout of the HTTP client has passed. *)
Lemma loop_inv_deadline s0 method url content errs m lastErr s s1 err :
  loop_inv s0 method url errs m lastErr s -> ended s = false -> (m <= maxTimeouts)%nat ->
  couch_exec _ (SingleRequest method url content) s (Err err) s1 -> isDeadlineExceeded err = true ->
  loop_inv s0 method url (errs ++ [err]) (if ended s1 then m else S m) lastErr s1.
Proof using.
  intros Hi He Hm Hexec Hd. destruct (loop_inv_tried _ _ _ _ _ _ _ _ _ _ Hi Hexec) as (Hx & Hl & Hf).
  destruct Hi as [Id In Iw It Is Ix Ic Ib Il If], Hexec as ((Hn & Hdl & _) & Hs & _ & _ & Hio).
  pose proof (proper_snoc errs err) as Hpr. rewrite Hd, app_nil_r in Hpr. rewrite He in Ic. rewrite <- Hpr in *.
  assert (Hsm : ioTimeout * Z.of_nat (S m) = ioTimeout * Z.of_nat m + ioTimeout) by (rewrite Nat2Z.inj_succ; ring).
  destruct (ended s1) eqn:He1; [|destruct (Hio Hd) as [|Hlate]; [done|]];
    split; try congruence; try done; try lia; rewrite ?He1; lia.
Qed.

(** Any other failure, after which the loop waits. *)
Lemma loop_inv_failure s0 method url content errs m lastErr s s1 s2 err u :
  loop_inv s0 method url errs m lastErr s -> ended s = false -> (List.length (proper errs) <= 28)%nat ->
  couch_exec _ (SingleRequest method url content) s (Err err) s1 -> isDeadlineExceeded err = false ->
  couch_exec _ (Sleep (backoff (S (List.length (proper errs))))) s1 u s2 ->
  List.length (proper (errs ++ [err])) = S (List.length (proper errs)) /\
  loop_inv s0 method url (errs ++ [err]) m (Some err) s2.
Proof using.
  intros Hi He Hk Hexec Hd ((_ & Hdl2 & _) & Hn2 & Hs2 & Hx2).
  destruct (loop_inv_tried _ _ _ _ _ _ _ _ _ _ Hi Hexec) as (Hx & Hl & Hf).
  destruct Hi as [Id In Iw It Is Ix Ic Ib Il If], Hexec as ((Hn & Hdl & _) & Hs & _).
  pose proof (proper_snoc errs err) as Hpr. rewrite Hd in Hpr. rewrite He in Ic.
  assert (Hlen : List.length (proper (errs ++ [err])) = S (List.length (proper errs)))
    by (rewrite Hpr, length_app; cbn; lia).
  split; [done|]. split; try congruence; try done; try lia.
  - rewrite Hlen, waited_S. lia.
  - rewrite Hs2, Hs, Is, Hlen, seq_S, fmap_app, <- (assoc (++)). done.
  - rewrite Hpr, last_snoc. done.
Qed.

Lemma requestLoop_ends method url content s0 fuel : forall errs m lastErr s r s',
  loop_inv s0 method url errs m lastErr s ->
  (31 + maxTimeouts <= List.length (proper errs) + m + fuel \/ (ended s = true /\ 1 <= fuel))%nat ->
  couch_runs (requestLoop fuel method url content (backoff (List.length (proper errs))) lastErr) s r s' ->
  request_ends s0 s' method url r /\ foreign_result r.
Proof using.
  induction fuel as [|fuel IH]; intros errs m lastErr s r s' Hi Hfuel Hruns.
  { exfalso. pose proof (li_waits _ _ _ _ _ _ _ Hi). pose proof (li_timeouts _ _ _ _ _ _ _ Hi). lia. }
  cbn in Hruns. destruct Hruns as (x & s1 & (Hp & -> & Hs & Hx) & Hruns).
  pose proof (loop_inv_ended _ _ _ _ _ _ _ _ Hi Hp Hs Hx) as Hi1. destruct (ended s1) eqn:He1.
  { cbn in Hruns. destruct Hruns as [<- ->]. destruct Hi1. subst lastErr. split.
    - exists errs. rewrite app_nil_r. by split_and!.
    - by apply gaveUp_foreign. }
  assert (Hend : ended s = false).
  { destruct Hp as (_ & _ & He & _). destruct (ended s); [by rewrite He in He1|done]. }
  destruct (loop_inv_room _ _ _ _ _ _ _ Hi1) as [Hk Hm]; [|done|].
  { destruct Hp as (_ & Hd & _ & He). by rewrite Hd. }
  destruct Hfuel as [Hfuel|[? _]]; [|congruence].
  destruct Hruns as (x & s2 & Hexec & Hruns). destruct x as [resp|err]; cbn in Hruns.
  { destruct Hruns as [<- ->], Hexec as (_ & Hs2 & Hx2 & Herr). split; [|exact Herr].
    destruct Hi1 as [Id In Iw It Is Ix Ic Ib Il If]. exists errs. split_and!; [|congruence|done|done|done].
    by rewrite Hx2, Ix, fmap_app, <- (assoc (++)). }
  destruct (isDeadlineExceeded err) eqn:Edl.
  - pose proof (loop_inv_deadline _ _ _ _ _ _ _ _ _ _ Hi1 He1 Hm Hexec Edl) as Hi2.
    pose proof (proper_snoc errs err) as Hpr. rewrite Edl, app_nil_r in Hpr. rewrite <- Hpr in Hruns.
    eapply IH; [exact Hi2| |exact Hruns]. rewrite Hpr. destruct (ended s2); [right; split; [done|lia]|left; lia].
  - cbn in Hruns. destruct Hruns as (u & s3 & Hsleep & Hruns). rewrite grow_backoff in Hruns, Hsleep.
    destruct (loop_inv_failure _ _ _ _ _ _ _ _ _ _ _ u Hi1 He1 Hk Hexec Edl Hsleep) as [Hlen Hi3].
    rewrite <- Hlen in Hruns. eapply IH; [exact Hi3|left; lia|exact Hruns].
Qed.

Lemma request_loop method url rev content :
  request method url rev content =
  requestLoop requestTries method (withRev rev url) content (backoff 0) None.
Proof. by rewrite backoff_0. Qed.

Lemma first_backoffs :
  backoff <$> seq 1 6 = (fun ms => ms * Millisecond) <$> [100; 200; 400; 800; 1600; 3200].
Proof. reflexivity. Qed.

Lemma later_backoffs k : (7 <= k)%nat -> backoff k = 5000 * Millisecond.
Proof.
  intros Hk. unfold backoff, maxRetryInterval, baseRetryInterval, Second, Millisecond.
  assert (2 ^ 7 <= 2 ^ Z.of_nat k) by (apply Z.pow_le_mono_r; lia). lia.
Qed.

Lemma request_runs method url rev content s r s' :
  deadline s = now s + maxRetryDuration ->
  couch_runs (request method url rev content) s r s' ->
  request_ends s s' method (withRev rev url) r /\ foreign_result r.
Proof using.
  intros Hd Hr. rewrite request_loop in Hr.
  eapply (requestLoop_ends _ _ _ s requestTries [] 0); [|left; unfold requestTries; cbn; lia|exact Hr].
  split; try done; cbn; rewrite ?app_nil_r; try done; lia.
Qed.

(** C36: a request is tried until an answer arrives or its context, of two minutes, has ended: with at most 29
    waits, one after each failure that is not about a deadline, of 100, 200, 400, 800, 1600, 3200 and from then
    on 5000 milliseconds. A timeout of the HTTP client itself counts as one of the deadline: it is tried again
    at once, as often as such timeouts fit into the two minutes. The error that a request fails with in the
    end is that of its last failure that was not about a deadline, or none if there was no other. *)
Theorem request_retries method url rev content s r s' :
  deadline s = now s + maxRetryDuration ->
  couch_runs (request method url rev content) s r s' ->
  request_ends s s' method (withRev rev url) r /\ foreign_result r /\
  backoff <$> seq 1 6 =
    (fun ms => ms * Millisecond) <$> [100; 200; 400; 800; 1600; 3200] /\
  (forall k, (7 <= k)%nat -> backoff k = 5000 * Millisecond).
Proof using.
  intros Hd Hr. rewrite (assoc and). split; [|split; [exact first_backoffs|exact later_backoffs]].
  by apply request_runs in Hr.
Qed.
End retries.

(** The dialer of [http.DefaultTransport], for examples. *)
Program Definition default_dialer : HttpTimeouts := {| ioTimeout := 30 * Second |}.
Next Obligation. done. Qed.

#[local] Existing Instance default_dialer.

(** An environment that answers the [n]th request with [answers n], after [waits n], for examples. *)
Section environment.
Context (answers : nat -> result couch_response) (waits : nat -> Z).

Definition couch_handle (X : Type) (op : couch_op X) (s : cstate) : option (X * cstate) :=
  match op in couch_op X return option (X * cstate) with
  | WithTimeout d => Some (tt, mkCstate (now s) (now s + d) false (sleeps s) (exchanges s))
  | CtxEnded =>
      let e := ended s || (deadline s <=? now s) in
      Some (e, mkCstate (now s) (deadline s) e (sleeps s) (exchanges s))
  | SingleRequest method url _ =>
      let x := answers (List.length (exchanges s)) in
      let t := now s + waits (List.length (exchanges s)) in
      Some (x, mkCstate t (deadline s) (ended s || (deadline s <=? t)) (sleeps s)
                 (exchanges s ++ [(method, url, x)]))
  | Sleep d =>
      Some (tt, mkCstate (now s + Z.max 0 d) (deadline s)
                  (ended s || (deadline s <=? now s + Z.max 0 d)) (sleeps s ++ [d]) (exchanges s))
  end.

Context (answers_foreign : forall n, 0 <= waits n /\
  match answers n with
  | Err e => foreign e /\ (isDeadlineExceeded e = true -> ioTimeout <= waits n)
  | Ok resp => forall e, cr_Body resp = Err e -> foreign e
  end).

Lemma couch_handle_sound X (op : couch_op X) s x s' :
  couch_handle X op s = Some (x, s') -> couch_exec X op s x s'.
Proof using answers_foreign.
  assert (Hend : forall t s', deadline s' <= t -> ended s' || (deadline s' <=? t) = true)
    by (intros t s0 ?; apply orb_true_iff; right; by apply Z.leb_le).
  specialize (answers_foreign (List.length (exchanges s))) as [Hw Ha].
  destruct op; cbn -[Z.leb Z.add]; intros [= <- <-]; cbn -[Z.leb Z.add]; unfold passes;
    cbn -[Z.leb Z.add]; [done|..];
    split_and!; try done; try lia; try (by intros ->); try (by apply Hend).
  destruct (answers _); [done|]. destruct Ha as [? Hd]. split; [done|]. intros Hx%Hd. right. apply Z.add_le_mono_l. exact Hx.
Qed.
End environment.

Definition fresh_context : cstate := mkCstate 0 maxRetryDuration false [] [].

(** The client times out, is refused, and gets an answer. *)
Definition third_time (resp : couch_response) (n : nat) : result couch_response :=
  match n with O => Err DeadlineExceeded | S O => Err (ErrText "connection refused") | _ => Ok resp end.

Definition first_slow (n : nat) : Z := match n with O => 30 * Second | _ => 0 end.

Lemma third_time_foreign n : 0 <= first_slow n /\
  match third_time {| cr_StatusCode := 200; cr_Body := Ok "{}" |} n with
  | Err e => foreign e /\ (isDeadlineExceeded e = true -> ioTimeout <= first_slow n)
  | Ok resp => forall e, cr_Body resp = Err e -> foreign e
  end.
Proof. by destruct n as [|[|n]]. Qed.

Lemma request_retries_witness :
  let s := fresh_context in
  let url := JoinPath [functionsDB; "ns%2Ffn"] in
  let resp := {| cr_StatusCode := 200; cr_Body := Ok "{}" |} in
  let s' := mkCstate (30 * Second + 100 * Millisecond) maxRetryDuration false [100 * Millisecond]
    ((fun n => ("GET", url, third_time resp n)) <$> [0; 1; 2]%nat) in
  request_ends s s' "GET" url (Ok resp) /\ foreign_result (Ok resp).
Proof.
  intros s url resp s'.
  destruct (request_retries "GET" url "" None s (Ok resp) s') as (Hr & Hf & _); [reflexivity| |by split].
  apply (attempt_runs (couch_handle (third_time resp) first_slow) couch_exec).
  - apply couch_handle_sound, third_time_foreign.
  - vm_compute. reflexivity.
Defined.

(** ** Functions *)

(** The database answered a request for a document. *)
Definition answered (more : list (string * couch_url * result couch_response)) (url : couch_url)
    (status : Z) (body : string) : Prop :=
  ("GET", url, Ok {| cr_StatusCode := status; cr_Body := Ok body |}) ∈ more.

Arguments request : simpl never.
#[local] Opaque request.

(** One document: failed tries, then nothing or an answer, which is the result. *)
Lemma getRequest_runs `{HttpTimeouts} url rev s r s' :
  couch_runs (getRequest url rev) s r s' ->
  exists more, exchanges s' = exchanges s ++ more /\
    (forall x, x ∈ more -> x.1 = ("GET", withRev rev url)) /\
    (forall body, answered more (withRev rev url) 404 body -> r = Err errNotFound) /\
    match r with
    | Ok body => answered more (withRev rev url) 200 body
    | Err e =>
        isFunctionNotFound e = false /\
        (isNotFound e = true -> exists body, answered more (withRev rev url) 404 body)
    end.
Proof.
  unfold getRequest, mbind, proc_MBind. rewrite runs_bind.
  intros ([] & s1 & (? & s2 & (Hn & Hd & Hs & Hx) & [_ ->]) & Hr). rewrite runs_bind in Hr.
  destruct Hr as (resp & s3 & Hr & [<- <-]).
  apply request_runs in Hr as [(errs & He & _) Hres]; [|congruence].
  set (tries := (Err <$> errs) ++ match resp with Ok resp => [Ok resp] | Err _ => [] end) in *.
  exists ((fun x => ("GET", withRev rev url, x)) <$> tries).
  split; [congruence|]. split.
  { intros y (z & -> & _)%list_elem_of_fmap. done. }
  assert (Hans : forall status body, answered ((fun x => ("GET", withRev rev url, x)) <$> tries)
    (withRev rev url) status body <-> Ok {| cr_StatusCode := status; cr_Body := Ok body |} ∈ tries).
  { intros status body. unfold answered. rewrite list_elem_of_fmap. split.
    - by intros (y & [= <-] & Hy).
    - intros Hy. by eexists. }
  assert (Herrs : forall es (resp : couch_response), ~ Ok resp ∈ (Err <$> es : list (result couch_response)))
    by (intros es rsp (? & ? & _)%list_elem_of_fmap; done).
  setoid_rewrite Hans. subst tries. destruct resp as [[status body]|e].
  - split.
    + intros b [Hy|Hy]%elem_of_app; [by apply Herrs in Hy|].
      apply list_elem_of_singleton in Hy. by injection Hy as <- <-.
    + destruct body as [b|e]; cbn [readResponse cr_Body cr_StatusCode].
      * destruct (Z.eqb_spec status 404) as [->|]; [split; [done|]; intros _; exists b; set_solver|].
        destruct (Z.eqb_spec status 200) as [->|]; [set_solver|done].
      * destruct (Hres e eq_refl) as [H1 H2]. unfold isFunctionNotFound, isNotFound in *.
        rewrite !errors_Is_wrap. by rewrite H1, H2.
  - destruct Hres as [H1 H2]. rewrite app_nil_r. split.
    + intros b Hb. by apply Herrs in Hb.
    + cbn [readResponse]. unfold isFunctionNotFound, isNotFound in *. rewrite !errors_Is_wrap. by rewrite H1, H2.
Qed.

Lemma genericNotFound_spec e fmt :
  isFunctionNotFound e = false ->
  isFunctionNotFound (Errorf fmt [genericNotFound e]) = isNotFound e.
Proof.
  intros H. unfold isFunctionNotFound in *. rewrite errors_Is_wrap. unfold genericNotFound.
  by destruct (isNotFound e).
Qed.

Definition resolve (body : string) (fn : EntityFunction) : EntityFunction :=
  set_Code (set_Resolved (if IsBinary (Code (f_Exec fn)) then EncodeToString StdEncoding body
                          else body)) fn.

(** C37: a function that [GetFunction] returns is the document the database
    answered, decoded, with its code as the document has it or, if the document
    refers to an attachment, as the database answered under the attachment's
    name, encoded if it is binary; it reports that the function does not exist
    exactly if the database answered so for the document or for the attachment;
    it panics only where decoding the document does; all requests are for these
    two, at the revision asked for. *)
Theorem GetFunction_spec `{HttpTimeouts, FastJSON} fqdn rev s r s' :
  (forall data e, ParseBytes data = Err e -> isFunctionNotFound e = false) ->
  couch_runs (GetFunction unmarshalFunction fqdn rev) s r s' ->
  exists more, exchanges s' = exchanges s ++ more /\
    match r with
    | Done (Ok fn) => exists doc fn0,
        answered more (withRev rev (documentURL fqdn)) 200 doc /\ unmarshalFunction doc = Done (Ok fn0) /\
        (AttachmentID (Code (f_Exec fn0)) = "" /\ fn = fn0 \/
         exists body, AttachmentID (Code (f_Exec fn0)) <> "" /\
           answered more (withRev rev (attachmentURL fqdn (AttachmentID (Code (f_Exec fn0))))) 200 body /\
           fn = resolve body fn0)
    | Done (Err e) => isFunctionNotFound e = true <->
        exists url body, answered more url 404 body
    | Panics => exists doc,
        answered more (withRev rev (documentURL fqdn)) 200 doc /\ unmarshalFunction doc = Panics
    end /\
    (forall x, x ∈ more -> x.1 = ("GET", withRev rev (documentURL fqdn)) \/
       exists id, x.1 = ("GET", withRev rev (attachmentURL fqdn id))).
Proof.
  intros Hparse Hr. pose proof (unmarshalFunction_errors Hparse) as Hum.
  unfold GetFunction in Hr. apply runs_bind in Hr as (doc & s1 & Hdoc & Hr).
  apply getRequest_runs in Hdoc as (m1 & Hx1 & Hu1 & H404 & Hd).
  destruct doc as [bs|e1].
  2:{ cbn in Hr. destruct Hr as [<- ->]. exists m1. split; [done|]. split; [|by auto].
      destruct Hd as [Hf Hd]. rewrite genericNotFound_spec by done. split; [by intros (b & Hb)%Hd; eauto|].
      intros (url & b & Hb). pose proof (Hu1 _ Hb) as Hurl. cbn in Hurl. injection Hurl as ->.
      by specialize (H404 b Hb) as [= ->]. }
  assert (Hno : forall b u, ~ answered m1 u 404 b).
  { intros b u Hb. pose proof (Hu1 _ Hb) as Hurl. cbn in Hurl. injection Hurl as ->.
    by specialize (H404 b Hb). }
  destruct (unmarshalFunction bs) as [[fn0|e]|] eqn:Hbs.
  3:{ cbn in Hr. destruct Hr as [<- ->]. exists m1. split; [done|]. split; [|by auto]. by exists bs. }
  2:{ cbn in Hr. destruct Hr as [<- ->]. exists m1. split; [done|]. split; [|by auto].
      unfold isFunctionNotFound. rewrite errors_Is_wrap. fold (isFunctionNotFound e).
      rewrite (Hum _ _ Hbs). split; [done|]. intros (u & b & Hb). by apply Hno in Hb. }
  destruct (bool_decide_reflect (AttachmentID (Code (f_Exec fn0)) = "")) as [Ha|Ha].
  { cbn in Hr. destruct Hr as [<- ->]. exists m1. split; [done|]. split; [|by auto].
    exists bs, fn0. eauto. }
  apply runs_bind in Hr as (att & s2 & Hatt & Hr).
  apply getRequest_runs in Hatt as (m2 & Hx2 & Hu2 & H404' & Hd2).
  exists (m1 ++ m2). assert (Hurls : forall x, x ∈ m1 ++ m2 ->
    x.1 = ("GET", withRev rev (documentURL fqdn)) \/
    exists id, x.1 = ("GET", withRev rev (attachmentURL fqdn id))).
  { intros x [Hx|Hx]%elem_of_app; eauto. }
  assert (s' = s2) as ->.
  { destruct att as [b|e]; [destruct (IsBinary _)|]; cbn in Hr; by destruct Hr. }
  split; [by rewrite Hx2, Hx1, (assoc (++))|]. split; [|done].
  destruct att as [b|e].
  - assert (r = Done (Ok (resolve b fn0))) as ->.
    { unfold resolve. destruct (IsBinary _); cbn in Hr; by destruct Hr as [<- _]. }
    exists bs, fn0. split; [apply elem_of_app; by left|]. split; [done|]. right. exists b.
    split; [done|]. split; [apply elem_of_app; by right|done].
  - cbn in Hr. destruct Hr as [<- _]. destruct Hd2 as [Hf Hd2].
    rewrite genericNotFound_spec by done. split.
    + intros (b & Hb)%Hd2. exists (withRev rev (attachmentURL fqdn (AttachmentID (Code (f_Exec fn0))))), b.
      apply elem_of_app. by right.
    + intros (u & b & [Hb|Hb]%elem_of_app); [by apply Hno in Hb|].
      pose proof (Hu2 _ Hb) as Hurl. cbn in Hurl. injection Hurl as ->.
      by specialize (H404' b Hb) as [= ->].
Qed.

#[local] Transparent request.

#[local] Existing Instance Whisk.reader.
#[local] Opaque Whisk.document.

Definition database (n : nat) : result couch_response :=
  match n with
  | O => Ok {| cr_StatusCode := 200; cr_Body := Ok Whisk.document |}
  | S O => Ok {| cr_StatusCode := 200; cr_Body := Ok "hello" |}
  | _ => Ok {| cr_StatusCode := 404; cr_Body := Ok "" |}
  end.

Lemma database_foreign n : 0 <= 0 /\
  match database n with
  | Err e => foreign e /\ (isDeadlineExceeded e = true -> ioTimeout <= 0)
  | Ok resp => forall e, cr_Body resp = Err e -> foreign e
  end.
Proof. by destruct n as [|[|n]]. Qed.

Lemma Whisk_errors data e : ParseBytes data = Err e -> isFunctionNotFound e = false.
Proof. unfold ParseBytes. cbn. case_match; [done|]. by intros [= <-]. Qed.

Lemma GetFunction_spec_witness :
  exists more body,
    answered more (attachmentURL "ns/fn" "a1") 200 body /\
    resolve "hello" Whisk.function = resolve body Whisk.function.
Proof.
  destruct (attempt (couch_handle database (fun _ => 0)) (GetFunction unmarshalFunction "ns/fn" "") fresh_context)
    as [[r s']|] eqn:E; [|vm_compute in E; discriminate E].
  assert (r = Done (Ok (resolve "hello" Whisk.function))) as ->
    by (vm_compute in E; injection E as <- _; vm_compute; reflexivity).
  assert (Hx : exchanges s' = [("GET", documentURL "ns/fn", database 0); ("GET", attachmentURL "ns/fn" "a1", database 1)])
    by (vm_compute in E; injection E as <-; vm_compute; reflexivity).
  apply (attempt_runs (couch_handle database (fun _ => 0)) couch_exec) in E;
    [|apply couch_handle_sound, database_foreign].
  destruct (GetFunction_spec "ns/fn" "" fresh_context _ s' Whisk_errors E)
    as (more & Hmore & (doc & fn0 & Hdoc & Hfn0 & Hres) & _).
  rewrite Hx in Hmore. cbn [exchanges fresh_context app] in Hmore. subst more. clear E Hx.
  assert (doc = Whisk.document) as ->.
  { unfold answered in Hdoc. rewrite !elem_of_cons, elem_of_nil in Hdoc.
    destruct Hdoc as [[= ->]|[[= _]|[]]]; reflexivity. }
  assert (fn0 = Whisk.function) as -> by (vm_compute in Hfn0; injection Hfn0 as <-; vm_compute; reflexivity).
  destruct Hres as [[Ha _]|(body & _ & Hb & Heq)]; [discriminate Ha|].
  eexists _, body. split; [exact Hb|exact Heq].
Defined.

(** The name of a function is escaped in two ways: the path its document is
    fetched under always reads back as its name, while the path of its
    attachment reads back with its spaces replaced by plus signs, that is, as the
    name only if there is no space in it. *)
Theorem attachment_path_reads_as fqdn id :
  path (documentURL fqdn) = [functionsDB; PathEscape fqdn] /\
  PathUnescape (PathEscape fqdn) = Some fqdn /\
  path (attachmentURL fqdn id) = [functionsDB; QueryEscape fqdn; id] /\
  PathUnescape (QueryEscape fqdn) = Some (map_str space_to_plus fqdn) /\
  (PathUnescape (QueryEscape fqdn) = Some fqdn <-> one_of_chars " " fqdn = false).
Proof.
  split_and!; try done.
  - apply PathUnescape_PathEscape.
  - apply PathUnescape_QueryEscape.
  - rewrite PathUnescape_QueryEscape, space_to_plus_id. split; [by intros [=]|by intros ->].
Qed.

(** ** The HTTP client

    The time, the client in use, all clients created (the newest first) and all
    clients handed out with the time of that. *)
Record clients := mkClients {
  time : Z;
  current : client_state;
  created : list (nat * Z);
  handed : list (nat * Z)
}.

(** The two sections of [getClient], each under the lock, by any thread. *)
Inductive getClient_step : clients -> clients -> Prop :=
| getClient_read t c id :
    time c <= t -> fresh t (current c) = Some id ->
    getClient_step c (mkClients t (current c) (created c) ((id, t) :: handed c))
| getClient_stale t c :
    time c <= t -> fresh t (current c) = None ->
    getClient_step c (mkClients t (current c) (created c) (handed c))
| getClient_locked t c newId :
    time c <= t ->
    getClient_step c
      (mkClients t (getClientLocked t newId (current c)).2
         (match fresh t (current c) with None => (newId, t) :: created c | Some _ => created c end)
         (((getClientLocked t newId (current c)).1, t) :: handed c)).

Definition no_clients (t : Z) : clients := mkClients t None [] [].

(** Created within the lifetime before the instant of use. *)
Definition young (c : list (nat * Z)) (use : nat * Z) : Prop :=
  exists t0, (use.1, t0) ∈ c /\ t0 <= use.2 < t0 + maxConnectionLifetime.

Definition apart (newer older : nat * Z) : Prop := older.2 + maxConnectionLifetime <= newer.2.

Record clients_inv (c : clients) : Prop := {
  ci_head : match current c with
            | Some x => exists l, created c = x :: l
            | None => created c = []
            end;
  ci_past : Forall (fun x => x.2 <= time c) (created c);
  ci_apart : Sorted apart (created c);
  ci_young : Forall (young (created c)) (handed c)
}.

Lemma fresh_young t c id :
  clients_inv c -> time c <= t -> fresh t (current c) = Some id -> young (created c) (id, t).
Proof.
  intros [Hh Hp _ _] Ht Hf. destruct (current c) as [[i t0]|]; [|done]. cbn in Hf.
  destruct (Z.ltb_spec (t - t0) maxConnectionLifetime); [|done]. injection Hf as <-.
  destruct Hh as (l & Hl). exists t0. rewrite Hl in *. apply Forall_cons in Hp as [Hp _].
  cbn in *. split; [set_solver|lia].
Qed.

Lemma young_cons x c use : young c use -> young (x :: c) use.
Proof. intros (t0 & ? & ?). exists t0. split; [set_solver|done]. Qed.

Lemma getClient_step_inv c c' : getClient_step c c' -> clients_inv c -> clients_inv c'.
Proof.
  assert (Hlater : forall t l, time c <= t -> Forall (fun x : nat * Z => x.2 <= time c) l ->
    Forall (fun x => x.2 <= t) l) by (intros t l ? Hl; eapply Forall_impl; [exact Hl|cbn; lia]).
  intros Hs Hi. pose proof Hi as [Hh Hp Ha Hy].
  destruct Hs as [t c id Ht Hf|t c Ht Hf|t c newId Ht].
  - split; cbn; [done|by apply Hlater|done|]. constructor; [by apply fresh_young|done].
  - split; cbn; [done|by apply Hlater|done|done].
  - unfold getClientLocked. destruct (fresh t (current c)) as [id|] eqn:Hf.
    + split; cbn; [done|by apply Hlater|done|]. constructor; [by apply fresh_young|done].
    + split; cbn.
      * by eexists.
      * constructor; [done|by apply Hlater].
      * constructor; [done|]. destruct (current c) as [[i t0]|].
        -- destruct Hh as (l & ->). constructor. unfold apart. cbn in Hf |- *.
           destruct (Z.ltb_spec (t - t0) maxConnectionLifetime); [done|lia].
        -- rewrite Hh. constructor.
      * constructor.
        -- exists t. unfold maxConnectionLifetime, Second, Millisecond. cbn. split; [set_solver|lia].
        -- eapply Forall_impl; [exact Hy|]. intros. by apply young_cons.
Qed.

(** Whatever threads ask for an HTTP client at the same time, none is given
    one that is as old as the maximal lifetime of a connection, and clients are
    created at least that lifetime apart. *)
Theorem getClient_lifetime t0 c :
  rtc getClient_step (no_clients t0) c ->
  Forall (young (created c)) (handed c) /\ Sorted apart (created c).
Proof.
  intros Hr. assert (clients_inv c) as [_ _ ? ?]; [|done].
  assert (Hinit : clients_inv (no_clients t0)) by (split; cbn; constructor || done).
  revert Hinit. induction Hr as [|a b c Hs _ IH]; [done|].
  intros Ha. apply IH. by eapply getClient_step_inv.
Qed.

(** Two threads that both found no client; the second attaches to the first one's. *)
Lemma getClient_lifetime_witness :
  Forall (young [(7%nat, 1)]) [(7%nat, 2); (7%nat, 1)] /\ Sorted apart [(7%nat, 1)].
Proof.
  apply (getClient_lifetime 0 (mkClients 2 (Some (7%nat, 1)) [(7%nat, 1)] [(7%nat, 2); (7%nat, 1)])).
  eapply rtc_l; [apply (getClient_stale 0); [cbn; lia|reflexivity]|].
  eapply rtc_l; [apply (getClient_stale 1); [cbn; lia|reflexivity]|].
  eapply rtc_l; [apply (getClient_locked 1 _ 7); cbn; lia|].
  eapply rtc_l; [apply (getClient_locked 2 _ 8); cbn; lia|].
  apply rtc_refl.
Defined.
