(* ===== verification/Main.v ===== *)
(** * The main program

    Parts of [cmd/invoker/main.go] that are not in other files: the addresses
    and the number of workers, the set of blocked namespaces that is refreshed
    for the Kafka runner, and the lag that is reported for the topic, with
    [FetchLastOffset] of [pkg/kafka/kafka.go]. *)
From S2P Require Export Couch KafkaRunner.

(** ** Addresses and workers *)
Definition usableIPs : list string :=
  (fun i => "172.18.0." +:+ fmt_d i) <$> seqZ 2 253.

(** The number of workers; [None] if the program ends since there are not enough addresses. A
    minimum of zero panics. *)
Definition workerCount (UserMemory MinimumFunctionMemory : Z) : outcome (option Z) :=
  if MinimumFunctionMemory =? 0 then Panics
  else
    let workers := i64 (UserMemory / MinimumFunctionMemory) in
    if Z.of_nat (List.length usableIPs) <? workers then Done None else Done (Some workers).

(** With the addresses of the main program the workers never run out of them: as many containers of
    at least the minimum size as fit into the memory have an address each. *)
Lemma workerCount_enough user min workers :
  0 <= user < 2 ^ 63 -> 0 < min -> workerCount user min = Done (Some workers) ->
  NoDup usableIPs /\ forall sizes, Forall (fun m => min <= m) sizes -> sumZ id sizes <= user ->
    (List.length sizes <= List.length usableIPs)%nat.
Proof.
  intros Hu Hm Hw. split.
  { apply (bool_decide_eq_true_1 (NoDup usableIPs)). vm_compute. reflexivity. }
  intros sizes Hs Hsum. unfold workerCount in Hw. destruct (Z.eqb_spec min 0); [lia|].
  assert (0 <= user / min <= user) by (split; [apply Z.div_pos; lia|apply Z.div_le_upper_bound; nia]).
  rewrite i64_small in Hw by lia.
  destruct (Z.ltb_spec (Z.of_nat (List.length usableIPs)) (user / min)) as [|Hle]; [done|].
  assert (Hlen : Z.of_nat (List.length sizes) * min <= sumZ id sizes).
  { clear Hsum. induction Hs as [|m l Hml Hl IH]; cbn [List.length sumZ]; unfold id in *; lia. }
  assert (Z.of_nat (List.length sizes) <= user / min) by (apply Z.div_le_lower_bound; lia). lia.
Qed.

(** ** Blocked namespaces

    A round of the goroutine that refreshes them: the set the Kafka runner holds afterwards, a nil
    map reading like an empty one. *)
Definition refreshBlocked (fetched : result (gset string)) : gset string :=
  match fetched with
  | Err _ => ∅
  | Ok blockedNamespaces => blockedNamespaces
  end.

(** The runner's look at the set. *)
Definition isNamespaceBlocked (BlockedNamespaces : gset string) (namespace : string) : bool :=
  bool_decide (namespace ∈ BlockedNamespaces).

(** While the database answers, exactly the namespaces it lists are blocked; when it fails to
    answer, no namespace is blocked any more, whatever was blocked before. *)
Theorem refreshBlocked_fails_open fetched namespace :
  match fetched with
  | Ok s => isNamespaceBlocked (refreshBlocked fetched) namespace = bool_decide (namespace ∈ s)
  | Err _ => isNamespaceBlocked (refreshBlocked fetched) namespace = false
  end.
Proof. destruct fetched as [s|e]; [done|]. apply bool_decide_eq_false. set_solver. Qed.

(** The goroutine that refreshes the set: its [select], the fetch, and the assignment under the mutex. *)
Inductive refresh_op : Type -> Type :=
| AwaitTick : refresh_op bool           (* false: the context has ended *)
| FetchBlocked : refresh_op (result (gset string))
| StoreBlocked (BlockedNamespaces : gset string) : refresh_op unit.

Definition refreshRound : proc refresh_op bool :=
  tick ← trigger AwaitTick;
  if tick : bool then
    fetched ← trigger FetchBlocked;
    _ ← trigger (StoreBlocked (refreshBlocked fetched));
    Ret true
  else Ret false.

(** At most [n] rounds of its loop; the result says whether it has returned. *)
Fixpoint refresher (n : nat) : proc refresh_op bool :=
  match n with
  | O => Ret false
  | S n' => again ← refreshRound; if again : bool then refresher n' else Ret true
  end.

(** The ticks, the answers of the database, the set the Kafka runner sees, and whether the context has ended. *)
Record refreshed := mkRefreshed {
  ticks : nat;
  answers : list (result (gset string));
  seen : gset string;
  ctx_ended : bool
}.

Definition refresh_exec (X : Type) (op : refresh_op X) : refreshed -> X -> refreshed -> Prop :=
  match op in refresh_op Y return refreshed -> Y -> refreshed -> Prop with
  | AwaitTick => fun s tick s' =>
      if tick then s' = mkRefreshed (S (ticks s)) (answers s) (seen s) (ctx_ended s)
      else s' = mkRefreshed (ticks s) (answers s) (seen s) true
  | FetchBlocked => fun s r s' => s' = mkRefreshed (ticks s) (answers s ++ [r]) (seen s) (ctx_ended s)
  | StoreBlocked b => fun s _ s' => s' = mkRefreshed (ticks s) (answers s) b (ctx_ended s)
  end.

(** Every tick is one request to the database, whose answer is what the runner sees until the next, and the
    goroutine returns only once the context has ended. *)
Theorem refresher_follows n s returned s' :
  ctx_ended s = false -> runs refresh_exec (refresher n) s returned s' ->
  exists more, answers s' = answers s ++ more /\ ticks s' = (ticks s + List.length more)%nat /\
    seen s' = default (seen s) (refreshBlocked <$> last more) /\ ctx_ended s' = returned /\
    (returned = false -> List.length more = n).
Proof.
  revert s. induction n as [|n IH]; intros s Hs Hr.
  { destruct Hr as [<- ->]. exists []. rewrite app_nil_r. split_and!; [done|cbn; lia|done|done|done]. }
  cbn [refresher] in Hr. apply runs_bind in Hr as (again & s1 & (tick & s2 & Ht & Hr1) & Hr). destruct tick; cbn in Ht, Hr1.
  - destruct Hr1 as (fetched & s3 & -> & [] & s4 & -> & <- & ->). subst s2.
    apply IH in Hr as (more & Ha & Hti & Hse & Hc & Hl); [|done]. cbn in Ha, Hti, Hse.
    exists (fetched :: more). rewrite Ha, Hti, Hse, <- app_assoc. split_and!; [done|cbn; lia| |done|].
    + change (fetched :: more) with ([fetched] ++ more). rewrite last_app. by destruct (last more).
    + intros Hret. cbn. by rewrite Hl.
  - destruct Hr1 as [<- ->], Hr as [<- ->]. subst s2. exists []. rewrite app_nil_r. split_and!; (done || cbn; lia).
Qed.

(** ** The server's routes *)
Inductive route := Ping | InvokeFunction | Metrics | PprofIndex | PprofCmdline | PprofProfile | PprofSymbol | PprofTrace.

(** [mux.Handle] in its order. *)
Definition routes : list (string * route) :=
  [("/ping", Ping); ("/invoke", InvokeFunction); ("/metrics", Metrics); ("/debug/pprof/", PprofIndex);
   ("/debug/pprof/cmdline", PprofCmdline); ("/debug/pprof/profile", PprofProfile);
   ("/debug/pprof/symbol", PprofSymbol); ("/debug/pprof/trace", PprofTrace)].

(** [http.ServeMux], for a path without dots and empty elements: a pattern that ends in a slash stands for all
    paths below it, and the longest pattern wins; without one the answer is 404. *)
Definition matches (pattern path : string) : bool :=
  if HasSuffix pattern "/" then HasPrefix path pattern else bool_decide (path = pattern).

Definition longer (path : string) (best : option (string * route)) (r : string * route) : option (string * route) :=
  if matches r.1 path
  then match best with
       | Some b => if (String.length b.1 <? String.length r.1)%nat then Some r else Some b
       | None => Some r
       end
  else best.

Definition handlerFor (path : string) : option route := snd <$> fold_left (longer path) routes None.

Lemma longer_matches path rs best r :
  fold_left (longer path) rs best = Some r -> best = Some r \/ r ∈ rs /\ matches r.1 path = true.
Proof.
  revert best. induction rs as [|r' rs IH]; intros best; [by left|]. cbn [fold_left].
  intros [Hb|[Hin Hm]]%IH; [|right; split; [by right|done]]. unfold longer in Hb.
  destruct (matches r'.1 path) eqn:Hm; [|by left].
  destruct best as [b|]; [case_match; [|by left]|]; injection Hb as ->; right; split; [by left|done|by left|done].
Qed.

(** Invocations are reached under one path only. *)
Theorem handlerFor_invoke path : handlerFor path = Some InvokeFunction <-> path = "/invoke".
Proof.
  split; [|by intros ->]. unfold handlerFor. destruct (fold_left _ _ _) as [[p h]|] eqn:Hf; [|done].
  intros [= ->]. apply longer_matches in Hf as [|[Hin Hm]]; [done|].
  unfold routes in Hin. rewrite !elem_of_cons, elem_of_nil in Hin. destruct_or!; try done.
  injection Hin as ->. by apply bool_decide_eq_true in Hm.
Qed.

Example handlerFor_cases :
  handlerFor "/ping" = Some Ping /\ handlerFor "/debug/pprof/trace" = Some PprofTrace /\
  handlerFor "/debug/pprof/heap" = Some PprofIndex /\ handlerFor "/invoke/" = None /\ handlerFor "/" = None.
Proof. vm_compute. auto. Qed.

(** ** The lag of the topic *)

(** What is used of a response of [ListOffsets]: the last offsets of the partitions by topic. *)
Definition FetchLastOffset (response : result (gmap string (list Z))) (topic : string) : result Z :=
  match response with
  | Err err => Err (Errorf "failed to read offsets from kafka: %w" [err])
  | Ok topics =>
      match topics !! topic with
      | None => Err (Errorf "offsets from kafka didn't contain %q" [])
      | Some [] => Err (ErrText "offsets didn't contain expected partition 0")
      | Some (LastOffset :: _) => Ok LastOffset
      end
  end.

(** The value of the gauge; the conversion to a floating-point number is left out. *)
Definition topicLag (lastCommittedOffset : Z) (response : result (gmap string (list Z))) (topic : string) : Z :=
  if lastCommittedOffset =? 0 then 0
  else match FetchLastOffset response topic with
       | Err _ => 0
       | Ok lastOffsetOnTopic =>
           let lag := i64 (lastOffsetOnTopic - lastCommittedOffset) in
           if lag <? 0 then 0 else lag
       end.

Lemma topicLag_nonneg committed response topic : 0 <= topicLag committed response topic.
Proof.
  unfold topicLag. destruct (committed =? 0); [lia|].
  destruct (FetchLastOffset response topic) as [last|e]; [|lia].
  destruct (Z.ltb_spec (i64 (last - committed)) 0); lia.
Qed.
