(* ===== verification/Startup.v ===== *)
(** * The start of the invoker

    [cmd/invoker/main.go] up to the point where everything runs: the
    configuration, what is built in which order, and where the program ends
    with [logger.Fatal]. *)
From S2P Require Export Main KafkaSetup Crypto Runtimes FunctionCache.

Local Open Scope go_scope.

(** ** Levels of the log, [pkg/logging/level.go] *)
Definition DebugLevel : Z := 0.
Definition InfoLevel : Z := 1.
Definition WarnLevel : Z := 2.
Definition ErrorLevel : Z := 3.

Definition lower (c : ascii) : ascii :=
  if in_range "A" "Z" c then Ascii.ascii_of_N (Ascii.N_of_ascii c + 32) else c.

(** [strings.ToLower] of a text that is not ASCII is left open. *)
Class Lowercase := { ToLower_u : string -> string }.

Definition ToLower `{Lowercase} (s : string) : string := if isASCII s then map_str lower s else ToLower_u s.

(** [Level.Decode]; the value of the receiver, which an error leaves as it was. *)
Definition Level_Decode `{Lowercase} (s : string) : result Z :=
  let l := ToLower s in
  if bool_decide (l = "debug") then Ok DebugLevel
  else if bool_decide (l = "info") then Ok InfoLevel
  else if bool_decide (l = "warn") then Ok WarnLevel
  else if bool_decide (l = "error") then Ok ErrorLevel
  else Err (Errorf "failed to parse log level %q" []).

(** ** The configuration *)
Record couchConfig := { URL : string; Username : string; Password : string }.

Record containerConfig :=
  { APIHost : string; DNSServers : list string; Network : string; Subnet : string; BridgeName : string }.

Record config := {
  ID : Z; LogLevel : Z; Couch : couchConfig; KafkaHosts : string; UserMemory : Z; MinimumFunctionMemory : Z;
  EncryptionKeys : Keys; RuntimesManifest : RuntimeManifests; Containers : containerConfig
}.

(** ** What main calls *)
Inductive informer := Nodes | Services | Endpoints_.

Section startup.
Context `{PEM} `{LRU} {MK : MapRange string string}.

Inductive setup_op : Type -> Type :=
| ProcessConfig : setup_op (result config)
| LoadTLSConfig : setup_op (result tls_config)
| ParseURL (url : string) : setup_op (option go_error)
| NewActivationBatcher : setup_op unit
| CreateTopic_ (host topic : string) (tlsConfig : tls_config) : setup_op (option go_error)
| OpenKafka (reader : kafka_reader_config) (writer : kafka_writer_config) (client : kafka_client_config) : setup_op unit
| NewDockerClient : setup_op (option go_error)
| InClusterConfig : setup_op (option go_error)
| NewForConfig : setup_op (option go_error)
| AddEventHandler (i : informer) : setup_op (option go_error)
| NewContainerPool_ (memory maxIdle : Z) (ips : list string) : setup_op unit
| StartInformers : setup_op unit
| WaitForCacheSync : setup_op unit
| ReconcileFirewall : setup_op (option go_error)
| StartReconcileLoop : setup_op unit
| StartWorker (decryptor : Decryptor) : setup_op unit
| RegisterLagGauge (topic : string) : setup_op unit
| StartBlockedRefresh : setup_op unit
| StartServer (address : string) : setup_op unit
  (* [logger.Fatal] or a panic: the process ends *)
| Exits (message : string) : setup_op Empty_set.

Notation setupM := (proc setup_op).

Definition exits {A} (message : string) : setupM A :=
  x ← trigger (Exits message); match x : Empty_set with end.

(** A call whose error is fatal. *)
Definition orFatal (message : string) (call : setup_op (option go_error)) : setupM unit :=
  r ← trigger call;
  match r with None => Ret tt | Some _ => exits message end.

Definition okOrFatal {A} (message : string) (r : result A) : setupM A :=
  match r with Ok a => Ret a | Err _ => exits message end.

Definition topicName (c : config) : string := "invoker" +:+ fmt_d (ID c).

(** Configuration, TLS and the clients of the database. *)
Definition loadConfig : setupM (config * tls_config) :=
  c ← trigger ProcessConfig;
  c ← okOrFatal "failed to process config" c;
  t ← trigger LoadTLSConfig;
  t ← okOrFatal "failed to load cluster TLS config" t;
  Ret (c, t).

Definition setupDatabase (c : config) : setupM unit :=
  _ ← orFatal "failed to parse CouchDB URL" (ParseURL (URL (Couch c)));
  _ ← okOrFatal "failed to create cached function reader" (NewCachedFunctionReader 128);
  trigger NewActivationBatcher.

Definition setupKafka (c : config) (t : tls_config) : setupM unit :=
  _ ← orFatal "failed to create topic" (CreateTopic_ (KafkaHosts c) (topicName c) t);
  trigger (OpenKafka (NewKafkaReader (KafkaHosts c) (topicName c) t) (NewKafkaWriter (KafkaHosts c) t)
             (NewKafkaClient (KafkaHosts c) t)).

Definition setupInformers : setupM unit :=
  _ ← orFatal "failed to create docker client" NewDockerClient;
  _ ← orFatal "failed to load Kubernetes config" InClusterConfig;
  _ ← orFatal "failed to create Kubernetes client" NewForConfig;
  _ ← orFatal "failed to register event handler to node informer" (AddEventHandler Nodes);
  _ ← orFatal "failed to register event handler to service informer" (AddEventHandler Services);
  orFatal "failed to register event handler to endpoints informer" (AddEventHandler Endpoints_).

(** The first reconciliation of the firewall, with synced informers. *)
Definition setupFirewall : setupM unit :=
  _ ← trigger StartInformers;
  _ ← trigger WaitForCacheSync;
  _ ← orFatal "failed to reconcile firewall" ReconcileFirewall;
  trigger StartReconcileLoop.

(** The goroutines of the group, with their number of workers. *)
Definition startWork (c : config) (decryptor : Decryptor) : setupM Z :=
  match workerCount (UserMemory c) (MinimumFunctionMemory c) with
  | Panics => exits "integer divide by zero"
  | Done None => exits "not enough IPs for the theoretical limit of containers"
  | Done (Some workers) =>
      _ ← for_each (seqZ 0 workers) (fun _ => trigger (StartWorker decryptor));
      _ ← trigger (RegisterLagGauge (topicName c));
      _ ← trigger StartBlockedRefresh;
      _ ← trigger (StartServer ":8443");
      Ret workers
  end.

(** [main] up to the wait for a signal. *)
Definition startup (seed : nat) : setupM Z :=
  '(c, t) ← loadConfig;
  _ ← setupDatabase c;
  _ ← setupKafka c t;
  _ ← setupInformers;
  _ ← trigger (NewContainerPool_ (UserMemory c) (15 * 60 * Second) usableIPs);
  decryptor ← okOrFatal "failed to create decryptor" (NewDecryptor seed (EncryptionKeys c));
  _ ← setupFirewall;
  startWork c decryptor.

(** ** Every execution *)

(** What happened so far, the latest first. *)
Inductive sevent :=
| Configured (c : config)
| TopicCreated (topic : string)
| PoolStarted (memory : Z)
| HandlerAdded (i : informer)
| InformersStarted
| CachesWaited
| FirewallReconciled
| WorkerStarted
| ServerStarted
| Ended.

Definition setup_event (X : Type) (op : setup_op X) : X -> list sevent :=
  match op in setup_op Y return Y -> list sevent with
  | ProcessConfig => fun r => match r with Ok c => [Configured c] | Err _ => [] end
  | CreateTopic_ _ topic _ => fun r => match r with None => [TopicCreated topic] | Some _ => [] end
  | AddEventHandler i => fun r => match r with None => [HandlerAdded i] | Some _ => [] end
  | NewContainerPool_ memory _ _ => fun _ => [PoolStarted memory]
  | StartInformers => fun _ => [InformersStarted]
  | WaitForCacheSync => fun _ => [CachesWaited]
  | ReconcileFirewall => fun r => match r with None => [FirewallReconciled] | Some _ => [] end
  | StartWorker _ => fun _ => [WorkerStarted]
  | StartServer _ => fun _ => [ServerStarted]
  | _ => fun _ => []
  end.

Definition sevent_is (e e' : sevent) : bool :=
  match e, e' with
  | WorkerStarted, WorkerStarted | ServerStarted, ServerStarted => true
  | _, _ => false
  end.

Definition workersStarted (tr : list sevent) : nat := length (List.filter (sevent_is WorkerStarted) tr).

(** Nothing is received yet. *)
Definition idle (tr : list sevent) : Prop := WorkerStarted ∉ tr /\ ServerStarted ∉ tr.

(** Everything that an invocation needs is there; the informers had their handlers before they started. *)
Definition ready (c : config) (tr : list sevent) : Prop :=
  TopicCreated (topicName c) ∈ tr /\ PoolStarted (UserMemory c) ∈ tr /\
  exists l1 l2 l3 l4,
    tr = l1 ++ FirewallReconciled :: l2 ++ CachesWaited :: l3 ++ InformersStarted :: l4 /\
    HandlerAdded Nodes ∈ l4 /\ HandlerAdded Services ∈ l4 /\ HandlerAdded Endpoints_ ∈ l4.

(** What has to hold when a call is made. *)
Definition allowed (c : config) (X : Type) (op : setup_op X) (tr : list sevent) : Prop :=
  match op with
  | StartWorker _ => ready c tr /\ (workersStarted tr < length usableIPs)%nat
  | StartServer _ => ready c tr
  | Exits _ => idle tr
  | WaitForCacheSync => InformersStarted ∈ tr
  | ReconcileFirewall => CachesWaited ∈ tr /\ idle tr
  | _ => True
  end.

(** Every execution, with any answers, in which the configuration is [c]. *)
Definition setup_wp (c : config) (X : Type) (op : setup_op X) (tr : list sevent)
    (Q : X -> list sevent -> Prop) : Prop :=
  allowed c X op tr /\
  forall x, (forall c', Configured c' ∈ setup_event X op x -> c' = c) -> Q x (setup_event X op x ++ tr).

Notation every c p tr Q := (wp (setup_wp c) p tr Q).

Lemma setup_wp_mono c X (op : setup_op X) tr (Q Q' : X -> list sevent -> Prop) :
  (forall x tr', Q x tr' -> Q' x tr') -> setup_wp c X op tr Q -> setup_wp c X op tr Q'.
Proof using. intros HQ [Ha Hx]. split; [done|]. auto. Qed.

Lemma every_bind {A B} c (p : setupM A) (f : A -> setupM B) tr Q :
  every c p tr (fun a tr' => every c (f a) tr' Q) -> every c (proc_bind p f) tr Q.
Proof using. apply wp_bind, setup_wp_mono. Qed.

Lemma every_exits {A} c m tr (Q : A -> list sevent -> Prop) : idle tr -> every c (exits m) tr Q.
Proof using. intros Hi. split; [done|]. by intros []. Qed.

Lemma every_orFatal c m (call : setup_op (option go_error)) tr Q :
  allowed c _ call tr -> idle tr -> (forall e, setup_event _ call (Some e) = []) ->
  Q tt (setup_event _ call None ++ tr) -> every c (orFatal m call) tr Q.
Proof using.
  intros Ha Hi He HQ. split; [done|]. intros [e|] _; [|exact HQ]. rewrite He. by apply every_exits.
Qed.

Lemma every_okOrFatal {A} c m (r : result A) tr (Q : A -> list sevent -> Prop) :
  idle tr -> (forall a, r = Ok a -> Q a tr) -> every c (okOrFatal m r) tr Q.
Proof using. intros Hi HQ. destruct r; [by apply HQ|by apply every_exits]. Qed.

Lemma ready_cons c e tr : ready c tr -> ready c (e :: tr).
Proof using.
  intros (? & ? & l1 & l2 & l3 & l4 & -> & ?). split_and!; [set_solver..|].
  by exists (e :: l1), l2, l3, l4.
Qed.

Lemma workersStarted_cons tr : workersStarted (WorkerStarted :: tr) = S (workersStarted tr).
Proof using. done. Qed.

Lemma every_workers c decryptor (l : list Z) tr Q :
  ready c tr -> (length l + workersStarted tr <= length usableIPs)%nat -> ServerStarted ∉ tr ->
  (forall tr', ready c tr' -> workersStarted tr' = (length l + workersStarted tr)%nat -> ServerStarted ∉ tr' ->
     Q tt tr') ->
  every c (for_each l (fun _ => trigger (StartWorker decryptor))) tr Q.
Proof using.
  revert tr. induction l as [|z l IH]; intros tr Hr Hn Hs HQ; [by apply HQ|]. cbn [length] in *.
  split; [split; [done|lia]|]. intros x _. cbn [setup_event app]. apply IH.
  - by apply ready_cons.
  - rewrite workersStarted_cons. lia.
  - set_solver.
  - intros tr' Hr' Hn' Hs'. apply HQ; [done| |done]. rewrite workersStarted_cons in Hn'. lia.
Qed.

Lemma workerCount_bound user min workers :
  workerCount user min = Done (Some workers) ->
  min <> 0 /\ workers = i64 (user / min) /\ workers <= Z.of_nat (length usableIPs).
Proof using.
  unfold workerCount. destruct (Z.eqb_spec min 0); [done|].
  destruct (Z.ltb_spec (Z.of_nat (List.length usableIPs)) (i64 (user / min))); [done|]. by intros [= <-].
Qed.

Lemma idle_events tr : Forall (fun e => e <> WorkerStarted /\ e <> ServerStarted) tr -> idle tr.
Proof using. rewrite Forall_forall. intros Hf. split; intros Hin; by apply Hf in Hin as [??]. Qed.

Ltac idle_now := apply idle_events; by repeat constructor.
Ltac stage :=
  first [ apply every_orFatal; [first [done|split; [set_solver|idle_now]]|idle_now|done|]
        | apply every_okOrFatal; [idle_now|intros ? _]
        | apply every_bind
        | split; [first [done|set_solver]|intros ? ?]];
  cbn [setup_event app].

(** All that is [ready] before the workers start. *)
Definition prepared (c : config) : list sevent :=
  [FirewallReconciled; CachesWaited; InformersStarted; PoolStarted (UserMemory c); HandlerAdded Endpoints_;
   HandlerAdded Services; HandlerAdded Nodes; TopicCreated (topicName c); Configured c].

Lemma prepared_ready c : ready c (prepared c).
Proof using. unfold prepared. split_and!; [set_solver..|]. exists [], [], []. eexists. split; [done|set_solver]. Qed.

Lemma every_startWork c decryptor :
  every c (startWork c decryptor) (prepared c) (fun workers tr =>
    ready c tr /\ ServerStarted ∈ tr /\ MinimumFunctionMemory c <> 0 /\
    workers = i64 (UserMemory c / MinimumFunctionMemory c) /\
    workersStarted tr = Z.to_nat workers /\ (workersStarted tr <= length usableIPs)%nat).
Proof using.
  unfold startWork. pose proof (workerCount_bound (UserMemory c) (MinimumFunctionMemory c)) as Hw.
  destruct (workerCount _ _) as [[workers|]|]; [|apply every_exits, idle_events; by repeat constructor..].
  destruct (Hw workers eq_refl) as (Hmin & Heq & Hle). apply every_bind, every_workers.
  - apply prepared_ready.
  - rewrite length_seqZ. change (workersStarted (prepared c)) with 0%nat. lia.
  - unfold prepared. set_solver.
  - intros tr Hr Hn Hs. rewrite length_seqZ in Hn. change (workersStarted (prepared c)) with 0%nat in Hn.
    split; [done|]. intros ? _. split; [done|]. intros ? _. split; [done|]. intros ? _.
    cbn [setup_event app]. cbv [proc_MBind]. cbn [proc_bind wp].
    assert (Hc : workersStarted (ServerStarted :: tr) = workersStarted tr) by done.
    rewrite Hc, Hn. split_and!; [by apply ready_cons|by left|done|done|by rewrite Nat.add_0_r|lia].
Qed.

(** C18: in every execution of [main] the program is ready before it starts any worker or the server: its
    topic has been created, the container pool set up for the configured memory, the informers been
    given their handlers, then started, then waited for, and then the firewall reconciled. It ends with an error only
    before anything is received. Otherwise it starts the server and as many workers as containers of the
    minimum size fit into the memory, no more than there are addresses. *)
Theorem startup_ready seed c :
  every c (startup seed) [] (fun workers tr =>
    ready c tr /\ ServerStarted ∈ tr /\ MinimumFunctionMemory c <> 0 /\
    workers = i64 (UserMemory c / MinimumFunctionMemory c) /\
    workersStarted tr = Z.to_nat workers /\ (workersStarted tr <= length usableIPs)%nat).
Proof using.
  unfold startup, loadConfig, setupDatabase, setupKafka, setupInformers, setupFirewall.
  do 2 stage. split; [done|]. intros r Hc. apply every_bind. destruct r as [c'|e]; [|by apply every_exits, idle_events; repeat constructor].
  assert (c' = c) as -> by (apply Hc; cbn; set_solver). cbn [app setup_event okOrFatal].
  repeat stage. exact (every_startWork c _).
Qed.
End startup.

(** The inputs of the tests. *)
Example Level_Decode_cases :
  let _ := {| ToLower_u s := s |} in
  Level_Decode "DeBuG" = Ok DebugLevel /\ Level_Decode "iNFO" = Ok InfoLevel /\ Level_Decode "warn" = Ok WarnLevel /\
  Level_Decode "ERROR" = Ok ErrorLevel /\ is_ok (Level_Decode "") = false /\ is_ok (Level_Decode "neverheard") = false.
Proof. split_and!; reflexivity. Qed.
