(* ===== verification/Perf.v ===== *)
(** * The performance tools

    [cmd/createperf/main.go] and [cmd/lifecycleperf/main.go]: threads that take
    the index of their next measurement from an atomic counter and write into
    an array shared without a lock. *)
From S2P Require Export Entities.

(** ** An array with a counter

    The last index that was taken, [-1] at first, and the measurements. *)
Record board := { last_ : Z; slots : list (option Z) }.

(** [make] and the initial value of the counter. *)
Definition new_board (n : nat) : board := {| last_ := -1; slots := replicate n None |}.

(** [atomic.AddInt64(&last, 1)]. *)
Definition take (b : board) : Z * board :=
  let j := i64 (last_ b + 1) in (j, {| last_ := j; slots := slots b |}).

(** Writing a measurement; [None] is the panic for an index out of range. *)
Definition put (j t : Z) (b : board) : option board :=
  if (0 <=? j) && (j <? Z.of_nat (length (slots b)))
  then Some {| last_ := last_ b; slots := <[Z.to_nat j := Some t]> (slots b) |} else None.

Lemma sumZ_update {A} (f : A -> Z) (l : list A) i x y :
  l !! i = Some x -> sumZ f (<[i := y]> l) = sumZ f l - f x + f y.
Proof.
  intros Hi. rewrite insert_take_drop by (by eapply lookup_lt_Some).
  rewrite <- (take_drop_middle l i x Hi) at 3. rewrite !sumZ_app, !sumZ_cons. lia.
Qed.

Section board.
Context {T : Type} (holds lost : T -> option Z).

(** Threads and an array: indices are held by one thread each, those that nobody holds and nobody gave up
    are written if they were taken, and the others are not. *)
Record board_inv (b : board) (ts : list T) : Prop := {
  bi_last : -1 <= last_ b;
  bi_held i th j : ts !! i = Some th -> holds th = Some j ->
    0 <= j <= last_ b /\ slots b !! Z.to_nat j = Some None;
  bi_lost i th j : ts !! i = Some th -> lost th = Some j -> 0 <= j <= last_ b;
  bi_one i i' th th' j : ts !! i = Some th -> ts !! i' = Some th' ->
    holds th = Some j -> holds th' = Some j -> i = i';
  bi_free j : last_ b < j < Z.of_nat (length (slots b)) -> slots b !! Z.to_nat j = Some None;
  bi_done j : 0 <= j <= last_ b -> slots b !! Z.to_nat j = Some None ->
    exists i th, ts !! i = Some th /\ (holds th = Some j \/ lost th = Some j)
}.

Lemma new_board_inv n ts :
  Forall (fun th => holds th = None /\ lost th = None) ts -> board_inv (new_board n) ts.
Proof using.
  intros Hf. rewrite Forall_lookup in Hf. split; cbn.
  - lia.
  - intros i th j Hi Hh. destruct (Hf _ _ Hi) as [He _]. congruence.
  - intros i th j Hi Hh. destruct (Hf _ _ Hi) as [_ He]. congruence.
  - intros i i' th th' j Hi _ Hh. destruct (Hf _ _ Hi) as [He _]. congruence.
  - intros j Hj. rewrite length_replicate in Hj. apply lookup_replicate_2. lia.
  - lia.
Qed.

(** The threads after one has changed. *)
Lemma changed_inv i th' (ts : list T) k u :
  <[i := th']> ts !! k = Some u -> (k = i /\ u = th') \/ (k <> i /\ ts !! k = Some u).
Proof using. rewrite list_lookup_insert_Some. intros [(<- & <- & _)|[Hne Hk]]; auto. Qed.

Lemma changed_other i th th' (ts : list T) k u (P : T -> Prop) :
  ts !! i = Some th -> (P th -> P th') -> ts !! k = Some u -> P u ->
  exists k' u', <[i := th']> ts !! k' = Some u' /\ P u'.
Proof using.
  intros Hi Hp Hk Hu. destruct (decide (k = i)) as [->|Hne].
  - exists i, th'. split; [apply list_lookup_insert_eq; by eapply lookup_lt_Some|]. apply Hp. congruence.
  - exists k, u. by rewrite list_lookup_insert_ne.
Qed.

(** A thread that holds the same as before, or gave up what it held. *)
Lemma board_inv_local b ts i th th' :
  ts !! i = Some th ->
  (holds th' = holds th /\ lost th' = lost th) \/ (holds th' = None /\ lost th' = holds th /\ lost th = None) ->
  board_inv b ts -> board_inv b (<[i := th']> ts).
Proof using.
  intros Hi Hth [H1 H2 H3 H4 H5 H6]. split; auto.
  - intros k u j [[-> ->]|[_ Hk]]%changed_inv Hu; [|by apply (H2 k u)].
    destruct Hth as [[He _]|(He & _)]; rewrite He in Hu; [by apply (H2 i th)|done].
  - intros k u j [[-> ->]|[_ Hk]]%changed_inv Hu; [|by apply (H3 k u)].
    destruct Hth as [[_ He]|(_ & He & _)]; rewrite He in Hu; [by apply (H3 i th)|].
    by destruct (H2 i th j Hi Hu).
  - assert (Hh : forall k u j, <[i := th']> ts !! k = Some u -> holds u = Some j ->
      exists v, ts !! k = Some v /\ holds v = Some j).
    { intros k u j [[-> ->]|[_ Hk]]%changed_inv Hu; [|eauto]. exists th. split; [done|].
      destruct Hth as [[He _]|(He & _)]; congruence. }
    intros k k' u u' j Hk Hk' Hu Hu'. destruct (Hh _ _ _ Hk Hu) as (v & ? & ?), (Hh _ _ _ Hk' Hu') as (v' & ? & ?).
    by eapply H4.
  - intros j Hj Hs. destruct (H6 j Hj Hs) as (k & u & Hk & Hu).
    eapply changed_other; [exact Hi| |exact Hk|exact Hu]. intros Ho.
    destruct Hth as [[-> ->]|(_ & -> & Hn)]; [done|]. destruct Ho as [Ho|Ho]; [by right|congruence].
Qed.

(** Taking an index within the array, or beyond it. *)
Lemma board_inv_take b ts i th th' :
  ts !! i = Some th -> holds th = None -> lost th = None -> lost th' = None ->
  last_ b + 1 < 2 ^ 63 ->
  holds th' = (if last_ b + 1 <? Z.of_nat (length (slots b)) then Some (last_ b + 1) else None) ->
  board_inv b ts ->
  fst (take b) = last_ b + 1 /\ board_inv (snd (take b)) (<[i := th']> ts).
Proof using.
  intros Hi Hh Hl Hl' Hmax Hth [H1 H2 H3 H4 H5 H6]. unfold take. cbn.
  rewrite i64_small by lia. split; [done|].
  assert (Hold : forall k u j, <[i := th']> ts !! k = Some u -> holds u = Some j ->
    (k = i /\ j = last_ b + 1 /\ j < Z.of_nat (length (slots b))) \/ (k <> i /\ ts !! k = Some u /\ j <= last_ b)).
  { intros k u j [[-> ->]|[Hne Hk]]%changed_inv Hu.
    - left. rewrite Hth in Hu. destruct (Z.ltb_spec (last_ b + 1) (Z.of_nat (length (slots b)))); [|done].
      injection Hu as <-. done.
    - right. split; [done|]. split; [done|]. apply (H2 k u j Hk Hu). }
  split; cbn.
  - lia.
  - intros k u j Hk Hu. destruct (Hold _ _ _ Hk Hu) as [(-> & -> & Hlen)|(Hne & Hk' & Hj)].
    + split; [lia|]. apply H5. lia.
    + destruct (H2 k u j Hk' Hu). split; [lia|done].
  - intros k u j [[-> ->]|[_ Hk]]%changed_inv Hu; [congruence|]. specialize (H3 k u j Hk Hu). lia.
  - intros k k' u u' j Hk Hk' Hu Hu'.
    destruct (Hold _ _ _ Hk Hu) as [(-> & -> & _)|(? & Hk1 & ?)],
      (Hold _ _ _ Hk' Hu') as [(-> & ? & _)|(? & Hk2 & ?)]; try lia; try done. by eapply H4.
  - intros j Hj. apply H5. lia.
  - intros j Hj Hs. destruct (decide (j = last_ b + 1)) as [->|Hne].
    + exists i, th'. split; [apply list_lookup_insert_eq; by eapply lookup_lt_Some|]. left. rewrite Hth.
      apply lookup_lt_Some in Hs. destruct (Z.ltb_spec (last_ b + 1) (Z.of_nat (length (slots b)))); [done|lia].
    + destruct (H6 j ltac:(lia) Hs) as (k & u & Hk & Hu).
      eapply changed_other; [exact Hi| |exact Hk|exact Hu]. rewrite Hh, Hl. by intros [|].
Qed.

(** Writing at the index that is held: it is in range, and nothing was written there. *)
Lemma board_inv_put b ts i th th' j t :
  ts !! i = Some th -> holds th = Some j -> lost th = None -> holds th' = None -> lost th' = None ->
  board_inv b ts ->
  exists b', put j t b = Some b' /\ last_ b' = last_ b /\ length (slots b') = length (slots b) /\
    slots b' !! Z.to_nat j = Some (Some t) /\
    (forall k, k <> Z.to_nat j -> slots b' !! k = slots b !! k) /\ board_inv b' (<[i := th']> ts).
Proof using.
  intros Hi Hh Hl Hh' Hl' [H1 H2 H3 H4 H5 H6]. destruct (H2 i th j Hi Hh) as [Hj Hs].
  pose proof (lookup_lt_Some _ _ _ Hs) as Hlen. unfold put.
  destruct (Z.leb_spec 0 j); [|lia]. destruct (Z.ltb_spec j (Z.of_nat (length (slots b)))); [|lia]. cbn.
  exists {| last_ := last_ b; slots := <[Z.to_nat j := Some t]> (slots b) |}. cbn.
  split; [done|]. split; [done|]. split; [by rewrite length_insert|].
  split; [by apply list_lookup_insert_eq|]. split; [intros k Hk; by apply list_lookup_insert_ne|].
  split; cbn; rewrite ?length_insert; auto.
  - intros k u j' [[-> ->]|[Hne Hk]]%changed_inv Hu; [congruence|].
    destruct (H2 k u j' Hk Hu) as [Hj' Hs']. split; [done|]. rewrite list_lookup_insert_ne; [done|].
    intros He. assert (j' = j) as -> by lia. by destruct (Hne (H4 _ _ _ _ _ Hk Hi Hu Hh)).
  - intros k u j' [[-> ->]|[_ Hk]]%changed_inv Hu; [congruence|]. by apply (H3 k u).
  - intros k k' u u' j' [[-> ->]|[_ Hk]]%changed_inv [[-> ->]|[_ Hk']]%changed_inv Hu Hu'; try congruence. by eapply H4.
  - intros j' Hj'. rewrite list_lookup_insert_ne by lia. apply H5. lia.
  - intros j' Hj' Hs'. apply list_lookup_insert_Some in Hs' as [(_ & ? & _)|[Hne Hs']]; [done|].
    destruct (H6 j' Hj' Hs') as (k & u & Hk & Hu). exists k, u.
    rewrite list_lookup_insert_ne; [done|]. intros <-. assert (u = th) as -> by congruence.
    rewrite Hh, Hl in Hu. destruct Hu as [[= ->]|]; done.
Qed.
End board.

(** ** [createperf]

    A thread is about to take an index, creates a container, removes it, or has returned, with an error
    (and the index it had, if it did not write there) or without. *)
Module Create.
Inductive create_thread :=
| Looping
| Creating (j : Z)
| Removing
| Failed (j : option Z)
| Finished.

Record create_state := { bd : board; threads : list create_thread; crashed : bool }.

Definition holds (th : create_thread) : option Z := match th with Creating j => Some j | _ => None end.
Definition lost (th : create_thread) : option Z := match th with Failed j => j | _ => None end.

Definition next (s : create_state) (b : board) (i : nat) (th : create_thread) : create_state :=
  {| bd := b; threads := <[i := th]> (threads s); crashed := crashed s |}.

Inductive create_step (N : Z) : create_state -> create_state -> Prop :=
| step_take s i : threads s !! i = Some Looping ->
    let '(j, b) := take (bd s) in
    create_step N s (next s b i (if N <=? j then Finished else Creating j))
| step_create_fails s i j : threads s !! i = Some (Creating j) -> create_step N s (next s (bd s) i (Failed (Some j)))
| step_created s i j t : threads s !! i = Some (Creating j) ->
    create_step N s match put j t (bd s) with
             | Some b => next s b i Removing
             | None => {| bd := bd s; threads := threads s; crashed := true |}
             end
| step_removed s i : threads s !! i = Some Removing -> create_step N s (next s (bd s) i Looping)
| step_remove_fails s i : threads s !! i = Some Removing -> create_step N s (next s (bd s) i (Failed None)).

Definition create_start (N : nat) (parallelism : nat) : create_state :=
  {| bd := new_board N; threads := replicate parallelism Looping; crashed := false |}.

Definition finished (th : create_thread) : Z := match th with Finished => 1 | _ => 0 end.

Record inv (N : nat) (p : nat) (s : create_state) : Prop := {
  inv_board : board_inv holds lost (bd s) (threads s);
  inv_crashed : crashed s = false;
  inv_slots : length (slots (bd s)) = N;
  inv_threads : length (threads s) = p;
  inv_last : last_ (bd s) <= Z.of_nat N - 1 + sumZ finished (threads s);
  inv_finished i : threads s !! i = Some Finished -> Z.of_nat N <= last_ (bd s)
}.

Lemma finished_bounds (l : list create_thread) : 0 <= sumZ finished l <= Z.of_nat (length l).
Proof.
  induction l as [|th l IH]; cbn [sumZ length]; [lia|]. destruct th; cbn [finished]; lia.
Qed.

(** A thread that goes on without the array. *)
Lemma create_inv_local N p s i th th' :
  threads s !! i = Some th ->
  (holds th' = holds th /\ lost th' = lost th) \/ (holds th' = None /\ lost th' = holds th /\ lost th = None) ->
  finished th = 0 -> finished th' = 0 -> inv N p s -> inv N p (next s (bd s) i th').
Proof.
  intros Hi Hth Hf Hf' [H1 H2 H3 H4 H5 H6]. split; cbn; [|done|done|by rewrite length_insert| |].
  - by eapply board_inv_local.
  - rewrite (sumZ_update _ _ _ _ _ Hi). lia.
  - intros k [[-> <-]|[_ Hk]]%changed_inv; [done|]. by apply (H6 k).
Qed.

Lemma create_inv_step N p s s' : Z.of_nat N + Z.of_nat p < 2 ^ 63 -> inv N p s -> create_step (Z.of_nat N) s s' -> inv N p s'.
Proof.
  intros Hmax Hinv Hs. destruct Hs as [s i Hi|s i j Hi|s i j t Hi|s i Hi|s i Hi].
  - pose proof (finished_bounds (threads s)) as Hb. destruct Hinv as [H1 H2 H3 H4 H5 H6].
    destruct (board_inv_take holds lost (bd s) (threads s) i Looping
      (if Z.of_nat N <=? last_ (bd s) + 1 then Finished else Creating (last_ (bd s) + 1))) as [Hj Hbd];
      try done; [by case_match|lia|rewrite H3;
        destruct (Z.leb_spec (Z.of_nat N) (last_ (bd s) + 1)), (Z.ltb_spec (last_ (bd s) + 1) (Z.of_nat N));
        cbn; lia || done|].
    unfold take in Hj, Hbd. cbn [fst snd] in Hj, Hbd. rewrite Hj in *.
    split; cbn; [done|done|done|by rewrite length_insert| |].
    + rewrite (sumZ_update _ _ _ _ _ Hi).
      destruct (Z.leb_spec (Z.of_nat N) (last_ (bd s) + 1)); cbn [finished]; lia.
    + intros k [[-> Hk]|[_ Hk]]%changed_inv.
      * destruct (Z.leb_spec (Z.of_nat N) (last_ (bd s) + 1)); [lia|done].
      * specialize (H6 k Hk). lia.
  - eapply create_inv_local; [done|right|..]; done.
  - destruct Hinv as [H1 H2 H3 H4 H5 H6].
    destruct (board_inv_put holds lost (bd s) (threads s) i (Creating j) Removing j t) as (b & Hp & Hl & Hlen & _ & _ & Hbd);
      try done. rewrite Hp.
    split; cbn; [done|done|by rewrite Hlen|by rewrite length_insert| |]; rewrite Hl.
    + rewrite (sumZ_update _ _ _ _ _ Hi). cbn [finished]. lia.
    + intros k [[-> Hk]|[_ Hk]]%changed_inv; [done|by apply (H6 k)].
  - eapply create_inv_local; [done|left|..]; done.
  - eapply create_inv_local; [done|left|..]; done.
Qed.

Lemma create_inv_reachable N p s :
  Z.of_nat N + Z.of_nat p < 2 ^ 63 -> rtc (create_step (Z.of_nat N)) (create_start N p) s -> inv N p s.
Proof.
  intros Hmax. revert s. apply rtc_ind_r; [|intros s s' _ Hs IH; by eapply create_inv_step].
  split; cbn; [|done|apply length_replicate|apply length_replicate| |].
  - apply new_board_inv, Forall_replicate. done.
  - pose proof (finished_bounds (replicate p Looping)). lia.
  - intros i Hi. by apply lookup_replicate in Hi as [? _].
Qed.

(** In every interleaving of its threads [createperf] never writes outside of its array and writes
    every measurement once, since an index is only ever held by one thread, and nothing was written
    there before; and if all threads return without an error, and there is one, every one of the
    measurements was taken. *)
Theorem createperf_measures N p s :
  Z.of_nat N + Z.of_nat p < 2 ^ 63 -> rtc (create_step (Z.of_nat N)) (create_start N p) s ->
  crashed s = false /\
  (forall i j, threads s !! i = Some (Creating j) ->
     slots (bd s) !! Z.to_nat j = Some None /\
     forall i', threads s !! i' = Some (Creating j) -> i' = i) /\
  ((0 < p)%nat -> Forall (eq Finished) (threads s) ->
     forall j, (j < N)%nat -> exists t, slots (bd s) !! j = Some (Some t)).
Proof.
  intros Hmax Hr. destruct (create_inv_reachable N p s Hmax Hr) as [H1 H2 H3 H4 H5 H6]. split; [done|]. split.
  - intros i j Hi. split; [by apply (bi_held _ _ _ _ H1 i (Creating j))|].
    intros i' Hi'. by apply (bi_one _ _ _ _ H1 i' i (Creating j) (Creating j) j).
  - intros Hp Hf j Hj. rewrite Forall_lookup in Hf.
    assert (exists th, threads s !! 0%nat = Some th) as [th Hth] by (apply lookup_lt_is_Some_2; lia).
    pose proof (Hf _ _ Hth) as <-. pose proof (H6 _ Hth) as Hlast.
    destruct (slots (bd s) !! j) as [[t|]|] eqn:Hs; [by exists t| |apply lookup_ge_None_1 in Hs; lia].
    destruct (bi_done _ _ _ _ H1 (Z.of_nat j) ltac:(lia)) as (i & u & Hi & Hu); [by rewrite Nat2Z.id|].
    pose proof (Hf _ _ Hi) as <-. by destruct Hu.
Qed.

(** One container, one thread. *)
Lemma createperf_measures_witness :
  exists s, rtc (create_step 1) (create_start 1 1) s /\ exists t, slots (bd s) !! 0%nat = Some (Some t).
Proof.
  set (s0 := create_start 1 1).
  set (s1 := next s0 (take (bd s0)).2 0 (Creating 0)).
  set (s2 := next s1 {| last_ := 0; slots := [Some 7] |} 0 Removing).
  set (s3 := next s2 (bd s2) 0 Looping).
  set (s4 := next s3 (take (bd s3)).2 0 Finished).
  assert (Hr : rtc (create_step 1) s0 s4).
  { eapply rtc_l; [exact (step_take 1 s0 0 eq_refl)|].
    eapply rtc_l; [exact (step_created 1 s1 0 0 7 eq_refl)|].
    eapply rtc_l; [exact (step_removed 1 s2 0 eq_refl)|].
    eapply rtc_l; [exact (step_take 1 s3 0 eq_refl)|]. apply rtc_refl. }
  exists s4. split; [exact Hr|].
  destruct (createperf_measures 1 1 s4 ltac:(reflexivity) Hr) as (_ & _ & Hall).
  apply (Hall ltac:(lia)); [|lia]. repeat constructor.
Defined.
End Create.

(** ** [lifecycleperf]

    A thread creates its container, pauses and unpauses it [N] times, with an index of its own array for
    each, and removes it in a deferred call. The state of a thread has the number of its loop; one that
    failed has the numbers of indices it took, and the one it did not write to. *)
Module Lifecycle.
Inductive cycle_thread :=
| Starting
| Before (i : Z)
| Pausing (i j : Z)
| Paused (i : Z)
| Unpausing (i j : Z)
| Failed (pauses unpauses : Z) (pause unpause : option Z)
| Finished.

Record cycle_state := { pauseTimes : board; unpauseTimes : board; threads : list cycle_thread; crashed : bool }.

Definition next (s : cycle_state) (p u : board) (k : nat) (th : cycle_thread) : cycle_state :=
  {| pauseTimes := p; unpauseTimes := u; threads := <[k := th]> (threads s); crashed := crashed s |}.
Definition crash (s : cycle_state) : cycle_state :=
  {| pauseTimes := pauseTimes s; unpauseTimes := unpauseTimes s; threads := threads s; crashed := true |}.

Inductive cycle_step (N : Z) : cycle_state -> cycle_state -> Prop :=
| step_create s k : threads s !! k = Some Starting ->
    cycle_step N s (next s (pauseTimes s) (unpauseTimes s) k (Before 0))
| step_create_fails s k : threads s !! k = Some Starting ->
    cycle_step N s (next s (pauseTimes s) (unpauseTimes s) k (Failed 0 0 None None))
| step_loop s k i : threads s !! k = Some (Before i) -> i < N ->
    cycle_step N s (next s (take (pauseTimes s)).2 (unpauseTimes s) k (Pausing i (take (pauseTimes s)).1))
| step_ends s k i : threads s !! k = Some (Before i) -> N <= i ->
    cycle_step N s (next s (pauseTimes s) (unpauseTimes s) k Finished)
| step_paused s k i j t : threads s !! k = Some (Pausing i j) ->
    cycle_step N s match put j t (pauseTimes s) with
             | Some b => next s b (unpauseTimes s) k (Paused i)
             | None => crash s
             end
| step_pause_fails s k i j : threads s !! k = Some (Pausing i j) ->
    cycle_step N s (next s (pauseTimes s) (unpauseTimes s) k (Failed (i + 1) i (Some j) None))
| step_unpause s k i : threads s !! k = Some (Paused i) ->
    cycle_step N s (next s (pauseTimes s) (take (unpauseTimes s)).2 k (Unpausing i (take (unpauseTimes s)).1))
| step_unpaused s k i j t : threads s !! k = Some (Unpausing i j) ->
    cycle_step N s match put j t (unpauseTimes s) with
             | Some b => next s (pauseTimes s) b k (Before (i + 1))
             | None => crash s
             end
| step_unpause_fails s k i j : threads s !! k = Some (Unpausing i j) ->
    cycle_step N s (next s (pauseTimes s) (unpauseTimes s) k (Failed (i + 1) (i + 1) None (Some j))).

(** The arrays have room for [N] measurements of every thread. *)
Definition cycle_start (N parallelism : nat) : cycle_state :=
  {| pauseTimes := new_board (N * parallelism); unpauseTimes := new_board (N * parallelism);
     threads := replicate parallelism Starting; crashed := false |}.

Definition pausing (th : cycle_thread) : option Z := match th with Pausing _ j => Some j | _ => None end.
Definition unpausing (th : cycle_thread) : option Z := match th with Unpausing _ j => Some j | _ => None end.
Definition lostPause (th : cycle_thread) : option Z := match th with Failed _ _ p _ => p | _ => None end.
Definition lostUnpause (th : cycle_thread) : option Z := match th with Failed _ _ _ u => u | _ => None end.

(** The indices a thread has taken. *)
Definition pauses (N : Z) (th : cycle_thread) : Z :=
  match th with
  | Starting => 0
  | Before i => i
  | Pausing i _ | Paused i | Unpausing i _ => i + 1
  | Failed p _ _ _ => p
  | Finished => N
  end.
Definition unpauses (N : Z) (th : cycle_thread) : Z :=
  match th with
  | Starting => 0
  | Before i | Pausing i _ | Paused i => i
  | Unpausing i _ => i + 1
  | Failed _ u _ _ => u
  | Finished => N
  end.

Definition thread_ok (N : Z) (th : cycle_thread) : Prop :=
  0 <= unpauses N th <= N /\ 0 <= pauses N th <= N /\
  match th with Pausing i _ | Paused i | Unpausing i _ => i < N | _ => True end.

Record inv (N p : nat) (s : cycle_state) : Prop := {
  inv_pause : board_inv pausing lostPause (pauseTimes s) (threads s);
  inv_unpause : board_inv unpausing lostUnpause (unpauseTimes s) (threads s);
  inv_crashed : crashed s = false;
  inv_slots : length (slots (pauseTimes s)) = (N * p)%nat /\ length (slots (unpauseTimes s)) = (N * p)%nat;
  inv_threads : length (threads s) = p;
  inv_ok : Forall (thread_ok (Z.of_nat N)) (threads s);
  inv_pauses : last_ (pauseTimes s) + 1 = sumZ (pauses (Z.of_nat N)) (threads s);
  inv_unpauses : last_ (unpauseTimes s) + 1 = sumZ (unpauses (Z.of_nat N)) (threads s)
}.

(** A thread that can still take an index: there is one left. *)
Lemma room (f : cycle_thread -> Z) N (l : list cycle_thread) k th :
  Forall (fun th => 0 <= f th <= N) l -> l !! k = Some th -> f th < N ->
  sumZ f l < N * Z.of_nat (length l).
Proof.
  intros Hf Hk Hlt. rewrite <- (take_drop_middle l k th Hk) in *.
  apply Forall_app in Hf as [H1 H2]. apply Forall_cons in H2 as [_ H2].
  assert (Hle : forall l', Forall (fun th => 0 <= f th <= N) l' -> sumZ f l' <= N * Z.of_nat (length l')).
  { intros l' Hl. induction Hl as [|x l' Hx _ IH]; cbn [sumZ length]; lia. }
  apply Hle in H1, H2. rewrite sumZ_app, sumZ_cons, length_app. cbn [length] in *. lia.
Qed.

Lemma inv_next N p s pb ub k th th' :
  threads s !! k = Some th -> inv N p s ->
  board_inv pausing lostPause pb (<[k := th']> (threads s)) ->
  board_inv unpausing lostUnpause ub (<[k := th']> (threads s)) ->
  length (slots pb) = length (slots (pauseTimes s)) -> length (slots ub) = length (slots (unpauseTimes s)) ->
  thread_ok (Z.of_nat N) th' ->
  last_ pb - last_ (pauseTimes s) = pauses (Z.of_nat N) th' - pauses (Z.of_nat N) th ->
  last_ ub - last_ (unpauseTimes s) = unpauses (Z.of_nat N) th' - unpauses (Z.of_nat N) th ->
  inv N p (next s pb ub k th').
Proof.
  intros Hk [H1 H2 H3 [H4 H4'] H5 H6 H7 H8] Hp Hu Hlp Hlu Hok Hdp Hdu.
  split; cbn; [done|done|done|by rewrite Hlp, Hlu|by rewrite length_insert|by apply Forall_insert| |];
    rewrite (sumZ_update _ _ _ _ _ Hk); lia.
Qed.

Lemma inv_thread N p s k th : inv N p s -> threads s !! k = Some th -> thread_ok (Z.of_nat N) th.
Proof. intros Hinv Hk. eapply Forall_lookup_1; [apply (inv_ok _ _ _ Hinv)|exact Hk]. Qed.

Lemma pauses_left N p s k th :
  inv N p s -> threads s !! k = Some th -> pauses (Z.of_nat N) th < Z.of_nat N ->
  last_ (pauseTimes s) + 1 < Z.of_nat (N * p).
Proof.
  intros [H1 H2 H3 H4 H5 H6 H7 H8] Hk Hlt. rewrite H7.
  replace (Z.of_nat (N * p)) with (Z.of_nat N * Z.of_nat (length (threads s))) by (rewrite H5; lia).
  eapply room; [|exact Hk|done]. eapply Forall_impl; [exact H6|]. by intros th' (_ & ? & _).
Qed.

Lemma unpauses_left N p s k th :
  inv N p s -> threads s !! k = Some th -> unpauses (Z.of_nat N) th < Z.of_nat N ->
  last_ (unpauseTimes s) + 1 < Z.of_nat (N * p).
Proof.
  intros [H1 H2 H3 H4 H5 H6 H7 H8] Hk Hlt. rewrite H8.
  replace (Z.of_nat (N * p)) with (Z.of_nat N * Z.of_nat (length (threads s))) by (rewrite H5; lia).
  eapply room; [|exact Hk|done]. eapply Forall_impl; [exact H6|]. by intros th' (? & _).
Qed.

Lemma inv_take_pause N p s k i :
  Z.of_nat (N * p) < 2 ^ 63 -> inv N p s -> threads s !! k = Some (Before i) -> i < Z.of_nat N ->
  inv N p (next s (take (pauseTimes s)).2 (unpauseTimes s) k (Pausing i (take (pauseTimes s)).1)).
Proof.
  intros Hmax Hinv Hk Hi. pose proof (pauses_left N p s k _ Hinv Hk Hi) as Hl.
  pose proof (inv_thread _ _ _ _ _ Hinv Hk) as Hok. destruct (inv_slots _ _ _ Hinv) as [Hs _].
  destruct (board_inv_take pausing lostPause (pauseTimes s) (threads s) k (Before i)
    (Pausing i (last_ (pauseTimes s) + 1))) as [Hj Hbd]; try done; [lia| |by apply Hinv|].
  { rewrite Hs. cbn. destruct (Z.ltb_spec (last_ (pauseTimes s) + 1) (Z.of_nat (N * p))); [done|lia]. }
  rewrite Hj. eapply inv_next; [exact Hk|exact Hinv|exact Hbd| |done|done| | |].
  - eapply board_inv_local; [exact Hk|by left|apply Hinv].
  - unfold thread_ok in *. cbn in *. lia.
  - unfold take in *. cbn in *. lia.
  - cbn. lia.
Qed.

Lemma inv_take_unpause N p s k i :
  Z.of_nat (N * p) < 2 ^ 63 -> inv N p s -> threads s !! k = Some (Paused i) ->
  inv N p (next s (pauseTimes s) (take (unpauseTimes s)).2 k (Unpausing i (take (unpauseTimes s)).1)).
Proof.
  intros Hmax Hinv Hk. pose proof (inv_thread _ _ _ _ _ Hinv Hk) as Hok.
  assert (Hi : i < Z.of_nat N) by apply Hok.
  pose proof (unpauses_left N p s k _ Hinv Hk Hi) as Hl. destruct (inv_slots _ _ _ Hinv) as [_ Hs].
  destruct (board_inv_take unpausing lostUnpause (unpauseTimes s) (threads s) k (Paused i)
    (Unpausing i (last_ (unpauseTimes s) + 1))) as [Hj Hbd]; try done; [lia| |by apply Hinv|].
  { rewrite Hs. cbn. destruct (Z.ltb_spec (last_ (unpauseTimes s) + 1) (Z.of_nat (N * p))); [done|lia]. }
  rewrite Hj. eapply inv_next; [exact Hk|exact Hinv| |exact Hbd|done|done| | |].
  - eapply board_inv_local; [exact Hk|by left|apply Hinv].
  - unfold thread_ok in *. cbn in *. lia.
  - cbn. lia.
  - unfold take in *. cbn in *. lia.
Qed.

(** A thread that goes on without the arrays. *)
Lemma cycle_inv_local N p s k th th' :
  threads s !! k = Some th -> inv N p s ->
  pausing th' = None -> unpausing th' = None -> lostPause th = None -> lostUnpause th = None ->
  lostPause th' = pausing th -> lostUnpause th' = unpausing th ->
  thread_ok (Z.of_nat N) th' -> pauses (Z.of_nat N) th' = pauses (Z.of_nat N) th ->
  unpauses (Z.of_nat N) th' = unpauses (Z.of_nat N) th ->
  inv N p (next s (pauseTimes s) (unpauseTimes s) k th').
Proof.
  intros Hk Hinv ???????? Hp. eapply inv_next; [exact Hk|exact Hinv| | |done|done|done|lia|lia].
  - eapply board_inv_local; [exact Hk|by right|apply Hinv].
  - eapply board_inv_local; [exact Hk|by right|apply Hinv].
Qed.

Lemma cycle_inv_step N p s s' : Z.of_nat (N * p) < 2 ^ 63 -> inv N p s -> cycle_step (Z.of_nat N) s s' -> inv N p s'.
Proof.
  intros Hmax Hinv Hs.
  destruct Hs as [s k Hk|s k Hk|s k i Hk Hi|s k i Hk Hi|s k i j t Hk|s k i j Hk|s k i Hk|s k i j t Hk|s k i j Hk];
    pose proof (inv_thread _ _ _ _ _ Hinv Hk) as Hok; unfold thread_ok in Hok; cbn in Hok.
  - eapply cycle_inv_local; try done; unfold thread_ok; cbn; lia.
  - eapply cycle_inv_local; try done; unfold thread_ok; cbn; lia.
  - by apply inv_take_pause.
  - eapply cycle_inv_local; try done; unfold thread_ok; cbn; lia.
  - destruct (board_inv_put pausing lostPause (pauseTimes s) (threads s) k (Pausing i j) (Paused i) j t)
      as (b & Hp & Hl & Hlen & _ & _ & Hbd); try done; [apply Hinv|]. rewrite Hp.
    eapply inv_next; [exact Hk|exact Hinv|exact Hbd| |done|done| | |]; [|unfold thread_ok; cbn; lia|cbn; lia|cbn; lia].
    eapply board_inv_local; [exact Hk|by left|apply Hinv].
  - eapply cycle_inv_local; try done; unfold thread_ok; cbn; lia.
  - by apply inv_take_unpause.
  - destruct (board_inv_put unpausing lostUnpause (unpauseTimes s) (threads s) k (Unpausing i j) (Before (i + 1)) j t)
      as (b & Hp & Hl & Hlen & _ & _ & Hbd); try done; [apply Hinv|]. rewrite Hp.
    eapply inv_next; [exact Hk|exact Hinv| |exact Hbd|done|done| | |]; [|unfold thread_ok; cbn; lia|cbn; lia|cbn; lia].
    eapply board_inv_local; [exact Hk|by left|apply Hinv].
  - eapply cycle_inv_local; try done; unfold thread_ok; cbn; lia.
Qed.

Lemma cycle_inv_reachable N p s :
  Z.of_nat (N * p) < 2 ^ 63 -> rtc (cycle_step (Z.of_nat N)) (cycle_start N p) s -> inv N p s.
Proof.
  intros Hmax. revert s. apply rtc_ind_r; [|intros s s' _ Hs IH; by eapply cycle_inv_step].
  assert (Hz : forall f : cycle_thread -> Z, f Starting = 0 -> sumZ f (replicate p Starting) = 0).
  { intros f Hf. induction p as [|p' IH]; [done|]. cbn [replicate sumZ]. rewrite IH; lia. }
  split; cbn; rewrite ?length_replicate, ?Hz; try done.
  - by apply new_board_inv, Forall_replicate.
  - by apply new_board_inv, Forall_replicate.
  - apply Forall_replicate. unfold thread_ok. cbn. lia.
Qed.

(** When all threads have returned without an error, every index has been written. *)
Lemma all_written (holds lost : cycle_thread -> option Z) (b : board) (l : list cycle_thread) n j :
  board_inv holds lost b l -> holds Finished = None -> lost Finished = None ->
  Forall (eq Finished) l -> last_ b + 1 = Z.of_nat n -> length (slots b) = n -> (j < n)%nat ->
  exists t, slots b !! j = Some (Some t).
Proof.
  intros Hb Hh Hl Hf Hlast Hlen Hj.
  destruct (slots b !! j) as [[t|]|] eqn:Hs; [by exists t| |apply lookup_ge_None_1 in Hs; lia].
  destruct (bi_done _ _ _ _ Hb (Z.of_nat j) ltac:(lia)) as (k & u & Hk & Hu); [by rewrite Nat2Z.id|].
  rewrite Forall_lookup in Hf. pose proof (Hf _ _ Hk) as <-. rewrite Hh, Hl in Hu. by destruct Hu.
Qed.

(** In every interleaving of its threads [lifecycleperf] never takes an index outside of its arrays,
    which have as much room as there are measurements, although the threads share the indices and some
    may fail on the way; and if all threads return without an error, every pause and every unpause of
    every thread has its measurement. *)
Theorem lifecycleperf_measures N p s :
  Z.of_nat (N * p) < 2 ^ 63 -> rtc (cycle_step (Z.of_nat N)) (cycle_start N p) s ->
  crashed s = false /\
  (Forall (eq Finished) (threads s) -> forall j, (j < N * p)%nat ->
     (exists t, slots (pauseTimes s) !! j = Some (Some t)) /\
     (exists t, slots (unpauseTimes s) !! j = Some (Some t))).
Proof.
  intros Hmax Hr. destruct (cycle_inv_reachable N p s Hmax Hr) as [H1 H2 H3 [H4 H4'] H5 H6 H7 H8]. split; [done|].
  intros Hf j Hj.
  assert (Hsum : forall f : cycle_thread -> Z, f Finished = Z.of_nat N -> sumZ f (threads s) = Z.of_nat (N * p)).
  { intros f Hn. rewrite <- H5. clear -Hf Hn. induction Hf as [|th l <- _ IH]; cbn [sumZ length]; lia. }
  rewrite Hsum in H7, H8 by done. split; by eapply all_written.
Qed.

(** One thread that pauses and unpauses its container once. *)
Lemma lifecycleperf_measures_witness :
  exists s, rtc (cycle_step 1) (cycle_start 1 1) s /\ Forall (eq Finished) (threads s) /\
    exists t, slots (unpauseTimes s) !! 0%nat = Some (Some t).
Proof.
  set (s0 := cycle_start 1 1).
  set (s1 := next s0 (pauseTimes s0) (unpauseTimes s0) 0 (Before 0)).
  set (s2 := next s1 (take (pauseTimes s1)).2 (unpauseTimes s1) 0 (Pausing 0 0)).
  set (s3 := next s2 {| last_ := 0; slots := [Some 5] |} (unpauseTimes s2) 0 (Paused 0)).
  set (s4 := next s3 (pauseTimes s3) (take (unpauseTimes s3)).2 0 (Unpausing 0 0)).
  set (s5 := next s4 (pauseTimes s4) {| last_ := 0; slots := [Some 3] |} 0 (Before 1)).
  set (s6 := next s5 (pauseTimes s5) (unpauseTimes s5) 0 Finished).
  assert (Hr : rtc (cycle_step 1) s0 s6).
  { eapply rtc_l; [exact (step_create 1 s0 0 eq_refl)|].
    eapply rtc_l; [exact (step_loop 1 s1 0 0 eq_refl eq_refl)|].
    eapply rtc_l; [exact (step_paused 1 s2 0 0 0 5 eq_refl)|].
    eapply rtc_l; [exact (step_unpause 1 s3 0 0 eq_refl)|].
    eapply rtc_l; [exact (step_unpaused 1 s4 0 0 0 3 eq_refl)|].
    eapply rtc_l; [exact (step_ends 1 s5 0 1 eq_refl ltac:(discriminate))|]. apply rtc_refl. }
  exists s6. split; [exact Hr|].
  assert (Hf : Forall (eq Finished) (threads s6)) by (apply Forall_cons_2; [reflexivity|apply Forall_nil_2]).
  split; [exact Hf|].
  destruct (lifecycleperf_measures 1 1 s6 ltac:(reflexivity) Hr) as [_ Hall].
  apply (Hall Hf). apply Nat.lt_0_succ.
Defined.
End Lifecycle.
