(* ===== verification/Firewall.v ===== *)
(** * The firewall of the container network

    [pkg/firewall/firewall.go]: the table the reconciler writes, computed from
    the one it reads and from the cluster's nodes, services and endpoints.
    Tables are texts in the format of iptables-save. *)
From S2P Require Export Urls.

(** ** What is read of the cluster *)
Record Node := { node_Name : string; Addresses : list (string * string) }.
Record Endpoints := { ep_Namespace : string; ep_Name : string; Subsets : list (list string) }.
Record Service := { svc_Namespace : string; svc_Name : string; ClusterIP : string }.

Definition NodeExternalIP : string := "ExternalIP".
Definition coreDNSService : string * string := ("serverless-coredns", "serverless-coredns").
Definition kubeAPIService : string * string := ("default", "kubernetes").

(** ** Chains and rules *)
Definition firewallChain : string := ":WHISK-FIREWALL - [0:0]".
Definition perContainerChain : string := ":PER-CONTAINER-FIREWALL - [0:0]".
Definition perContainerForwardRule : string := "-A FORWARD -j PER-CONTAINER-FIREWALL".
Definition firewallForwardRule : string := "-A FORWARD -j WHISK-FIREWALL".
Definition firewallInputRule : string := "-A INPUT -j WHISK-FIREWALL".

(** ** Lines: [bufio.Scanner] *)
Definition nl : ascii := "010"%char.

Fixpoint splitLines (s : string) : list string :=
  match s with
  | EmptyString => []
  | String c s' =>
      if Ascii.eqb c nl then "" :: splitLines s'
      else match splitLines s' with
           | [] => [String c ""]
           | l :: ls => String c l :: ls
           end
  end.

(** A longer line ends the scan, with an error nobody asks for. *)
Definition MaxScanTokenSize : nat := Z.to_nat 65536.

Fixpoint scannable (ls : list string) : list string :=
  match ls with
  | [] => []
  | l :: ls' => if (String.length l <? MaxScanTokenSize)%nat then l :: scannable ls' else []
  end.

Definition scanLines (s : string) : list string :=
  (fun l => TrimSuffix l (String "013"%char "")) <$> scannable (splitLines s).

(** ** Reading the current table *)
Inductive warning :=
| PerContainerNotFirstInForward
| FirewallNotSecondInForward
| FirewallNotFirstInInput
| MalformedRule (line : string)
| NoFirewallChain
| NoPerContainerChain.

Record scan := mkScan {
  sc_rules : list string;
  currentChain : string;
  ruleIndexInChain : nat;
  containsPerContainerChain : bool;
  containsFirewallChain : bool;
  warnings : list warning
}.

Definition scan_start : scan := mkScan [] "" 0 false false [].

(** [strings.SplitN(line, " ", 3)[1]], if there is such a part. *)
Fixpoint before_space (s : string) : string :=
  match s with
  | EmptyString => EmptyString
  | String c s' => if Ascii.eqb c " " then "" else String c (before_space s')
  end.
Fixpoint after_space (s : string) : option string :=
  match s with
  | EmptyString => None
  | String c s' => if Ascii.eqb c " " then Some s' else after_space s'
  end.
Definition secondPart (line : string) : option string := before_space <$> after_space line.

Definition chainOrRule (line : string) : bool :=
  HasPrefix line "*" || HasPrefix line ":" || HasPrefix line "-".

(** The rules that are rebuilt. *)
Definition ours (line : string) : bool :=
  HasPrefix line "-A WHISK-FIREWALL" || HasPrefix line firewallForwardRule ||
  HasPrefix line perContainerForwardRule || HasPrefix line firewallInputRule.

(** The check of the positions of the rules, which only logs. *)
Definition checkPosition (st : scan) (line : string) : scan :=
  match secondPart line with
  | None => mkScan (sc_rules st) (currentChain st) (ruleIndexInChain st)
              (containsPerContainerChain st) (containsFirewallChain st)
              (warnings st ++ [MalformedRule line])
  | Some chain =>
      let index := if bool_decide (currentChain st = chain) then S (ruleIndexInChain st) else O in
      let warn :=
        if bool_decide (chain = "FORWARD") then
          if bool_decide (index = 0%nat) && negb (HasPrefix line perContainerForwardRule)
          then [PerContainerNotFirstInForward]
          else if bool_decide (index = 1%nat) && negb (HasPrefix line firewallForwardRule)
          then [FirewallNotSecondInForward] else []
        else if bool_decide (chain = "INPUT") then
          if bool_decide (index = 0%nat) && negb (HasPrefix line firewallInputRule)
          then [FirewallNotFirstInInput] else []
        else [] in
      mkScan (sc_rules st) chain index (containsPerContainerChain st) (containsFirewallChain st)
        (warnings st ++ warn)
  end.

Definition appendRule (line : string) (st : scan) : scan :=
  mkScan (sc_rules st ++ [line]) (currentChain st) (ruleIndexInChain st)
    (containsPerContainerChain st) (containsFirewallChain st) (warnings st).

Definition scanLine (st : scan) (line : string) : scan :=
  if negb (chainOrRule line) then st
  else if bool_decide (line = firewallChain) then
    appendRule line (mkScan (sc_rules st) (currentChain st) (ruleIndexInChain st)
                       (containsPerContainerChain st) true (warnings st))
  else if bool_decide (line = perContainerChain) then
    appendRule line (mkScan (sc_rules st) (currentChain st) (ruleIndexInChain st) true
                       (containsFirewallChain st) (warnings st))
  else if HasPrefix line "-A" then
    if ours line then checkPosition st line else appendRule line (checkPosition st line)
  else appendRule line st.

(** ** The new table *)
Section reconciler.
Context (ContainerSubnet ContainerBridge : string).

Definition quote_char : string := String "034"%char "".

Definition serviceRule (destination action comment : string) : string :=
  "-A WHISK-FIREWALL -i " +:+ ContainerBridge +:+ " ! -o " +:+ ContainerBridge +:+ " -d " +:+
  destination +:+ " -j " +:+ action +:+ " -m comment --comment " +:+ quote_char +:+ comment +:+
  quote_char.

Definition linkLocalRule : string :=
  "-A WHISK-FIREWALL -i " +:+ ContainerBridge +:+ " ! -o " +:+ ContainerBridge +:+ " -s " +:+
  ContainerSubnet +:+ " -d 169.254.0.0/16 -j REJECT -m comment --comment " +:+ quote_char +:+
  "link local subnet" +:+ quote_char.

Definition nodeRules (node : Node) : list string :=
  (fun a => serviceRule a.2 "REJECT" ("node: " +:+ node_Name node)) <$>
  filter (fun a => a.1 = NodeExternalIP) (Addresses node).

(** The rules of the chain WHISK-FIREWALL. *)
Definition firewallBlock (nodes : list Node) (kubeAPIEndpoints : Endpoints) (coreDNS : Service)
    (coreDNSEndpoints : Endpoints) : list string :=
  ["-A WHISK-FIREWALL -m conntrack --ctstate ESTABLISHED -j ACCEPT"] ++
  concat (nodeRules <$> nodes) ++
  ((fun ip => serviceRule ip "REJECT" "kube api service") <$> concat (Subsets kubeAPIEndpoints)) ++
  [serviceRule (ClusterIP coreDNS) "ACCEPT" "CoreDNS service"] ++
  ((fun ip => serviceRule ip "ACCEPT" "CoreDNS pod") <$> concat (Subsets coreDNSEndpoints)) ++
  [serviceRule "10.0.0.0/8" "REJECT" "cluster services";
   serviceRule ContainerSubnet "REJECT" "bridge gateway"; linkLocalRule;
   "-A WHISK-FIREWALL -j RETURN"].

Definition missingChains (st : scan) : list string :=
  (if containsFirewallChain st then [] else [firewallChain]) ++
  (if containsPerContainerChain st then [] else [perContainerChain]).

Definition jumps : list string :=
  ["-I FORWARD -j WHISK-FIREWALL"; "-I FORWARD -j PER-CONTAINER-FIREWALL";
   "-I INPUT -j WHISK-FIREWALL"].

Definition newRules (current : string) (nodes : list Node) (kubeAPIEndpoints : Endpoints)
    (coreDNS : Service) (coreDNSEndpoints : Endpoints) : list string :=
  let st := fold_left scanLine (scanLines current) scan_start in
  sc_rules st ++ missingChains st ++ jumps ++
  firewallBlock nodes kubeAPIEndpoints coreDNS coreDNSEndpoints ++ ["COMMIT"].

Definition reconcile (current : string) (nodes : list Node) (kubeAPIEndpoints : Endpoints)
    (coreDNS : Service) (coreDNSEndpoints : Endpoints) : string :=
  Join (newRules current nodes kubeAPIEndpoints coreDNS coreDNSEndpoints) (String nl "") +:+
  String nl "".

Definition reconcileWarnings (current : string) : list warning :=
  let st := fold_left scanLine (scanLines current) scan_start in
  warnings st ++ (if containsFirewallChain st then [] else [NoFirewallChain]) ++
  (if containsPerContainerChain st then [] else [NoPerContainerChain]).
End reconciler.
