(* ===== verification/FirewallSpec.v ===== *)
(** * The firewall: the chains after a reconciliation

    What the table written by the reconciler means: which rules each chain has
    once it is restored, in terms of the rules it had before. *)
From S2P Require Export Firewall.

(** ** Restoring a table

    Interface of iptables-restore, which is not part of the repository: the
    rules of each chain after the lines of a table have been processed.  The
    table is flushed first; [-A] appends a rule to a chain, [-I] puts it at the
    front; a declaration of a chain and the lines that begin and end the table
    touch no rule of another chain, and none of an empty chain. *)
Class TableRestore := { rules_of : list string -> string -> list string }.

Definition spaceless (c : string) : Prop := one_of_chars " " c = false.
Definition append_line (c r : string) : string := "-A " +:+ c +:+ " " +:+ r.
Definition insert_line (c r : string) : string := "-I " +:+ c +:+ " " +:+ r.
Definition declare_line (c policy : string) : string := ":" +:+ c +:+ " " +:+ policy.

Class TableRestoreLaws `{TableRestore} := {
  restore_nil c : rules_of [] c = [];
  restore_append ls c r c' : spaceless c ->
    rules_of (ls ++ [append_line c r]) c' =
    if bool_decide (c = c') then rules_of ls c' ++ [r] else rules_of ls c';
  restore_insert ls c r c' : spaceless c ->
    rules_of (ls ++ [insert_line c r]) c' =
    if bool_decide (c = c') then r :: rules_of ls c' else rules_of ls c';
  restore_declare ls c p c' : spaceless c -> c <> c' \/ rules_of ls c' = [] ->
    rules_of (ls ++ [declare_line c p]) c' = rules_of ls c';
  restore_table ls t c : rules_of (ls ++ ["*" +:+ t]) c = rules_of ls c;
  restore_commit ls c : rules_of (ls ++ ["COMMIT"]) c = rules_of ls c
}.

(** ** Lines *)
Definition one_line (s : string) : Prop := one_of_chars nl s = false.

Lemma splitLines_cons l s : one_line l -> splitLines (l +:+ String nl s) = l :: splitLines s.
Proof.
  unfold one_line. induction l as [|c l IH]; intros Hl; [done|].
  rewrite app_str_cons. cbn [splitLines]. cbn [one_of_chars] in Hl.
  apply orb_false_iff in Hl as [Hc Hl]. rewrite Ascii.eqb_sym in Hc. rewrite Hc.
  by rewrite IH.
Qed.

(** The text of some lines reads back as these lines. *)
Lemma splitLines_Join ls :
  ls <> [] -> Forall one_line ls -> splitLines (Join ls (String nl "") +:+ String nl "") = ls.
Proof.
  intros Hne Hls. induction Hls as [|l ls Hl Hls IH]; [done|].
  destruct ls as [|l' ls]; [by cbn [Join]; rewrite splitLines_cons|].
  change (Join (l :: l' :: ls) (String nl ""))
    with (l +:+ String nl (Join (l' :: ls) (String nl ""))).
  rewrite <- app_str_assoc, app_str_cons, splitLines_cons by done. f_equal. by apply IH.
Qed.

Lemma splitLines_one_line s : Forall one_line (splitLines s).
Proof.
  induction s as [|c s IH]; cbn [splitLines]; [constructor|].
  destruct (Ascii.eqb_spec c nl) as [|Hc]; [by constructor|].
  destruct (splitLines s) as [|l ls]; constructor; try done.
  - unfold one_line. cbn [one_of_chars]. by rewrite (proj2 (Ascii.eqb_neq nl c)).
  - unfold one_line. cbn [one_of_chars]. apply Forall_cons in IH as [IH _].
    by rewrite (proj2 (Ascii.eqb_neq nl c)).
  - by apply Forall_cons in IH as [_ IH].
Qed.

(** The text of a table. *)
Definition table_text (ls : list string) : string := Join ls (String nl "") +:+ String nl "".

(** A line that is too long ends the scan: the table written is that of the lines before it, so that the
    rules after it are lost with it. *)
Theorem long_line_cuts_table ContainerSubnet ContainerBridge pre long post nodes api dns dnsEndpoints :
  pre <> [] -> Forall one_line (pre ++ long :: post) ->
  Forall (fun l => (String.length l < MaxScanTokenSize)%nat) pre -> (MaxScanTokenSize <= String.length long)%nat ->
  reconcile ContainerSubnet ContainerBridge (table_text (pre ++ long :: post)) nodes api dns dnsEndpoints =
  reconcile ContainerSubnet ContainerBridge (table_text pre) nodes api dns dnsEndpoints.
Proof.
  intros Hne Hone Hpre Hlong.
  assert (Hscan : scanLines (table_text (pre ++ long :: post)) = scanLines (table_text pre)).
  { unfold scanLines, table_text. rewrite !splitLines_Join; [|done|by apply Forall_app in Hone as [? _]|by destruct pre|done].
    f_equal. clear -Hpre Hlong. induction Hpre as [|l pre Hl Hpre IH]; cbn [scannable app].
    - by rewrite (proj2 (Nat.ltb_ge _ _)).
    - by rewrite (proj2 (Nat.ltb_lt _ _)), IH. }
  unfold reconcile, newRules. by rewrite Hscan.
Qed.

Lemma one_line_take n s : one_line s -> one_line (take_str n s).
Proof.
  unfold one_line. revert n. induction s as [|c s IH]; intros [|n]; cbn [take_str one_of_chars]; auto.
  intros [? ?]%orb_false_iff. apply orb_false_iff. auto.
Qed.

Lemma scanLines_one_line s : Forall one_line (scanLines s).
Proof.
  unfold scanLines. apply Forall_fmap. pose proof (splitLines_one_line s) as Hs.
  induction Hs as [|l ls Hl Hls IH]; cbn [scannable]; [constructor|].
  destruct (_ <? _)%nat; [|constructor]. constructor; [|done].
  cbn. unfold TrimSuffix. destruct (HasSuffix _ _); [by apply one_line_take|done].
Qed.

(** ** Reading the current table *)
Definition kept (line : string) : bool := chainOrRule line && negb (ours line).

Lemma checkPosition_rules st line :
  sc_rules (checkPosition st line) = sc_rules st /\
  containsFirewallChain (checkPosition st line) = containsFirewallChain st /\
  containsPerContainerChain (checkPosition st line) = containsPerContainerChain st.
Proof. unfold checkPosition. by destruct (secondPart line). Qed.

Lemma ours_append line : ours line = true -> HasPrefix line "-A" = true.
Proof.
  unfold ours. intros H.
  assert (Hp : exists p, HasPrefix line ("-A" +:+ p) = true)
    by (repeat apply orb_prop in H as [H|H]; [eexists " WHISK-FIREWALL"|eexists " FORWARD -j WHISK-FIREWALL"
        |eexists " FORWARD -j PER-CONTAINER-FIREWALL"|eexists " INPUT -j WHISK-FIREWALL"]; exact H).
  destruct Hp as (p & Hp). apply HasPrefix_inv in Hp. rewrite Hp, <- app_str_assoc. apply HasPrefix_app.
Qed.

Lemma scanLine_spec st line :
  sc_rules (scanLine st line) = sc_rules st ++ (if kept line then [line] else []) /\
  containsFirewallChain (scanLine st line) =
    containsFirewallChain st || bool_decide (line = firewallChain) /\
  containsPerContainerChain (scanLine st line) =
    containsPerContainerChain st || bool_decide (line = perContainerChain).
Proof.
  unfold scanLine, kept. destruct (chainOrRule line) eqn:Hc; cbn [negb andb].
  2:{ rewrite app_nil_r. split; [done|]. rewrite !bool_decide_eq_false_2, !orb_false_r; [done|..];
      intros ->; by vm_compute in Hc. }
  destruct (bool_decide_reflect (line = firewallChain)) as [->|H1].
  { cbn. rewrite !orb_true_r, !orb_false_r. done. }
  destruct (bool_decide_reflect (line = perContainerChain)) as [->|H2].
  { cbn. rewrite !orb_true_r, !orb_false_r. done. }
  rewrite !orb_false_r. pose proof (checkPosition_rules st line) as (Hr & Hf & Hp).
  destruct (HasPrefix line "-A") eqn:HA.
  - destruct (ours line); cbn [negb].
    + by rewrite app_nil_r.
    + cbn. by rewrite Hr.
  - destruct (ours line) eqn:Ho; [apply ours_append in Ho; congruence|done].
Qed.

Lemma bool_decide_elem_cons (x l : string) ls :
  bool_decide (x ∈ l :: ls) = bool_decide (l = x) || bool_decide (x ∈ ls).
Proof.
  rewrite <- bool_decide_or. apply bool_decide_ext. rewrite elem_of_cons. naive_solver.
Qed.

Lemma scan_spec ls st :
  sc_rules (fold_left scanLine ls st) = sc_rules st ++ filter kept ls /\
  containsFirewallChain (fold_left scanLine ls st) =
    containsFirewallChain st || bool_decide (firewallChain ∈ ls) /\
  containsPerContainerChain (fold_left scanLine ls st) =
    containsPerContainerChain st || bool_decide (perContainerChain ∈ ls).
Proof.
  revert st. induction ls as [|l ls IH]; intros st; cbn [fold_left].
  - rewrite filter_nil, app_nil_r, !bool_decide_eq_false_2, !orb_false_r by set_solver. done.
  - destruct (IH (scanLine st l)) as (-> & -> & ->).
    destruct (scanLine_spec st l) as (-> & -> & ->).
    rewrite !bool_decide_elem_cons, <- !orb_assoc, <- (assoc (++)). split_and!; [|done..].
    f_equal. rewrite filter_cons. destruct (kept l); [by rewrite decide_True|].
    by rewrite decide_False by naive_solver.
Qed.

(** ** The new chains *)
Definition declaration (line : string) : Prop :=
  (exists t, line = "*" +:+ t) \/ (exists c p, spaceless c /\ line = declare_line c p).
Definition rule_line (line : string) : Prop :=
  exists c r, spaceless c /\ line = append_line c r.

(** The rule that a line appends to the chain [c]. *)
Definition rule_in (c line : string) : option string :=
  if HasPrefix line (append_line c "") then Some (drop_str (String.length (append_line c "")) line)
  else None.

Lemma HasPrefix_cons a b s p :
  HasPrefix (String a s) (String b p) = Ascii.eqb a b && HasPrefix s p.
Proof.
  unfold HasPrefix. cbn. destruct (Ascii.ascii_dec b a) as [->|Hab].
  - by rewrite Ascii.eqb_refl.
  - by rewrite (proj2 (Ascii.eqb_neq a b)).
Qed.

(** A field and what follows it determine each other. *)
Lemma HasPrefix_field c d r p :
  spaceless c -> spaceless d ->
  HasPrefix (c +:+ " " +:+ r) (d +:+ " " +:+ p) = bool_decide (c = d) && HasPrefix r p.
Proof.
  unfold spaceless. revert d. induction c as [|a c IH]; intros [|b d] Hc Hd;
    cbn [one_of_chars] in Hc, Hd;
    change ("" +:+ " " +:+ r) with (String " " r); change ("" +:+ " " +:+ p) with (String " " p);
    rewrite ?app_str_cons, ?HasPrefix_cons.
  - done.
  - apply orb_false_iff in Hd as [Hb _]. by rewrite Hb.
  - apply orb_false_iff in Hc as [Ha _]. rewrite Ascii.eqb_sym, Ha. done.
  - apply orb_false_iff in Hc as [_ Hc], Hd as [_ Hd]. rewrite IH by done.
    rewrite andb_assoc. f_equal. destruct (Ascii.eqb_spec a b) as [->|Hab]; cbn.
    + apply bool_decide_ext. naive_solver.
    + symmetry. apply bool_decide_eq_false. congruence.
Qed.

Lemma HasPrefix_spaceless c r p :
  spaceless p -> HasPrefix (c +:+ " " +:+ r) p = HasPrefix c p.
Proof.
  unfold spaceless. revert p. induction c as [|a c IH]; intros [|b p] Hp; try done;
    cbn [one_of_chars] in Hp; apply orb_false_iff in Hp as [Hb Hp].
  - change ("" +:+ " " +:+ r) with (String " " r). rewrite HasPrefix_cons, Hb. done.
  - rewrite app_str_cons, !HasPrefix_cons. by rewrite IH.
Qed.

Lemma HasPrefix_append_line c r p :
  HasPrefix (append_line c r) ("-A " +:+ p) = HasPrefix (c +:+ " " +:+ r) p.
Proof. done. Qed.

Lemma HasPrefix_nil s : HasPrefix s "" = true.
Proof. by destruct s. Qed.

Lemma rule_in_append c r d :
  spaceless c -> spaceless d ->
  rule_in d (append_line c r) = if bool_decide (c = d) then Some r else None.
Proof.
  intros Hc Hd. unfold rule_in. unfold append_line at 2. rewrite HasPrefix_append_line.
  rewrite HasPrefix_field, HasPrefix_nil, andb_true_r by done.
  case_bool_decide as Heq; [subst d|done]. f_equal. unfold append_line.
  rewrite !app_str_assoc, app_str_nil_r. apply drop_str_app.
Qed.

Section chains.
Context `{TableRestoreLaws}.

Lemma restore_rules ls rules c :
  spaceless c -> Forall rule_line rules ->
  rules_of (ls ++ rules) c = rules_of ls c ++ omap (rule_in c) rules.
Proof.
  intros Hc Hr. induction rules as [|l rules IH] using rev_ind; [by rewrite !app_nil_r|].
  apply Forall_app in Hr as [Hr Hl]. apply Forall_singleton in Hl as (d & r & Hd & ->).
  rewrite (assoc (++)), restore_append, omap_app, IH by done. cbn [omap list_omap].
  rewrite rule_in_append by done. case_bool_decide; [by rewrite (assoc (++))|by rewrite app_nil_r].
Qed.

Lemma restore_declarations decls ls c :
  Forall declaration decls -> rules_of ls c = [] -> rules_of (ls ++ decls) c = [].
Proof.
  intros Hd Hnil. induction decls as [|l decls IH] using rev_ind; [by rewrite app_nil_r|].
  apply Forall_app in Hd as [Hd Hl]. apply Forall_singleton in Hl as [(t & ->)|(d & p & Hs & ->)];
    rewrite (assoc (++)).
  - rewrite restore_table. by apply IH.
  - rewrite restore_declare; [by apply IH|done|right; by apply IH].
Qed.
End chains.

(** The table that is read: its declarations, then its rules. *)
Definition table_lines (current : string) : list string := filter chainOrRule (scanLines current).

Definition saved_table (current : string) : Prop :=
  exists decls rules, table_lines current = decls ++ rules /\
    Forall declaration decls /\ Forall rule_line rules.

Definition toFirewall : string := "-j WHISK-FIREWALL".
Definition toPerContainer : string := "-j PER-CONTAINER-FIREWALL".
Definition jumpsTo (targets : list string) (r : string) : bool := existsb (HasPrefix r) targets.

Lemma ours_append_line c r :
  spaceless c ->
  ours (append_line c r) =
    HasPrefix c "WHISK-FIREWALL" ||
    (bool_decide (c = "FORWARD") && jumpsTo [toFirewall; toPerContainer] r) ||
    (bool_decide (c = "INPUT") && jumpsTo [toFirewall] r).
Proof.
  intros Hc. unfold ours, append_line, jumpsTo. cbn [existsb].
  change (HasPrefix ("-A " +:+ c +:+ " " +:+ r) "-A WHISK-FIREWALL")
    with (HasPrefix (c +:+ " " +:+ r) "WHISK-FIREWALL").
  change (HasPrefix ("-A " +:+ c +:+ " " +:+ r) firewallForwardRule)
    with (HasPrefix (c +:+ " " +:+ r) ("FORWARD" +:+ " " +:+ toFirewall)).
  change (HasPrefix ("-A " +:+ c +:+ " " +:+ r) perContainerForwardRule)
    with (HasPrefix (c +:+ " " +:+ r) ("FORWARD" +:+ " " +:+ toPerContainer)).
  change (HasPrefix ("-A " +:+ c +:+ " " +:+ r) firewallInputRule)
    with (HasPrefix (c +:+ " " +:+ r) ("INPUT" +:+ " " +:+ toFirewall)).
  rewrite HasPrefix_spaceless, !HasPrefix_field by done.
  destruct (HasPrefix c _), (bool_decide (c = "FORWARD")), (bool_decide (c = "INPUT")),
    (HasPrefix r toFirewall), (HasPrefix r toPerContainer); done.
Qed.

Lemma declaration_not_ours l : declaration l -> ours l = false.
Proof. by intros [(t & ->)|(c & p & _ & ->)]. Qed.

(** What removing our own rules does to a chain. *)
Lemma omap_not_ours c rules :
  spaceless c -> Forall rule_line rules ->
  omap (rule_in c) (filter (fun l => negb (ours l)) rules) =
  filter (fun r => negb (ours (append_line c r))) (omap (rule_in c) rules).
Proof.
  intros Hc Hr. induction Hr as [|l rules (d & r & Hd & ->) Hr IH]; [done|].
  rewrite filter_cons. cbn [omap list_omap]. rewrite rule_in_append by done.
  case_bool_decide as Heq; [subst d|].
  - rewrite filter_cons. destruct (ours (append_line c r)); cbn [negb].
    + by rewrite !decide_False by (by intros []).
    + rewrite !decide_True by done. cbn [omap list_omap]. rewrite rule_in_append by done.
      rewrite bool_decide_eq_true_2 by done. by rewrite IH.
  - destruct (ours (append_line d r)); cbn [negb].
    + by rewrite !decide_False by (by intros []).
    + rewrite !decide_True by done. cbn [omap list_omap]. rewrite rule_in_append by done.
      by rewrite bool_decide_eq_false_2.
Qed.

Lemma kept_lines current decls rules :
  table_lines current = decls ++ rules -> Forall declaration decls ->
  filter kept (scanLines current) = decls ++ filter (fun l => negb (ours l)) rules.
Proof.
  intros Ht Hd. assert (filter kept (scanLines current) =
    filter (fun l => negb (ours l)) (table_lines current)) as ->.
  { unfold table_lines. rewrite list_filter_filter. apply list_filter_iff. intros l. unfold kept.
    rewrite andb_True. naive_solver. }
  rewrite Ht, filter_app. f_equal. apply filter_all. intros l Hl.
  rewrite Forall_forall in Hd. by rewrite (declaration_not_ours l) by auto.
Qed.

Definition firewallName : string := "WHISK-FIREWALL".
Definition perContainerName : string := "PER-CONTAINER-FIREWALL".

(** The rules of our own chain, as the restored chain has them. *)
Definition firewallRules (subnet bridge : string) (nodes : list Node) (kube : Endpoints)
    (dns : Service) (dnsEps : Endpoints) : list string :=
  drop_str (String.length (append_line firewallName "")) <$>
  firewallBlock subnet bridge nodes kube dns dnsEps.

(** The rules that jump to the chains of the invoker, in front of chain [c]. *)
Definition jumpsOf (c : string) : list string :=
  if bool_decide (c = "FORWARD") then [toPerContainer; toFirewall]
  else if bool_decide (c = "INPUT") then [toFirewall] else [].

Definition foreign (c r : string) : bool := negb (jumpsTo (jumpsOf c) r).

Lemma block_lines subnet bridge nodes kube dns dnsEps :
  Forall (fun l => exists r, l = append_line firewallName r)
    (firewallBlock subnet bridge nodes kube dns dnsEps).
Proof.
  assert (Hs : forall d a c, exists r, serviceRule bridge d a c = append_line firewallName r).
  { intros d a c. eexists ("-i " +:+ _). reflexivity. }
  unfold firewallBlock. repeat apply Forall_app_2.
  - constructor; [by eexists "-m conntrack --ctstate ESTABLISHED -j ACCEPT"|constructor].
  - apply Forall_concat, Forall_fmap, Forall_true. intros n. cbn.
    apply Forall_fmap, Forall_true. intros a. apply Hs.
  - apply Forall_fmap, Forall_true. intros ip. apply Hs.
  - constructor; [apply Hs|constructor].
  - apply Forall_fmap, Forall_true. intros ip. apply Hs.
  - repeat apply Forall_cons_2; [apply Hs|apply Hs| | |constructor].
    + eexists ("-i " +:+ _). reflexivity.
    + by eexists "-j RETURN".
Qed.

Lemma omap_block c subnet bridge nodes kube dns dnsEps :
  spaceless c ->
  omap (rule_in c) (firewallBlock subnet bridge nodes kube dns dnsEps) =
  if bool_decide (c = firewallName) then firewallRules subnet bridge nodes kube dns dnsEps else [].
Proof.
  intros Hc. unfold firewallRules. pose proof (block_lines subnet bridge nodes kube dns dnsEps) as Hb.
  induction Hb as [|l ls (r & ->) _ IH]; [by case_bool_decide|].
  cbn [omap list_omap]. rewrite rule_in_append by done.
  destruct (bool_decide_reflect (firewallName = c)) as [<-|Hne].
  - rewrite bool_decide_eq_true_2 in * by done. rewrite IH. cbn [fmap list_fmap]. f_equal.
  - rewrite bool_decide_eq_false_2 in * by done. done.
Qed.

Section reconciled.
Context `{TableRestoreLaws} (subnet bridge : string).
Context (nodes : list Node) (kube : Endpoints) (dns : Service) (dnsEps : Endpoints).

Notation block := (firewallBlock subnet bridge nodes kube dns dnsEps).
Notation new current := (newRules subnet bridge current nodes kube dns dnsEps).

Lemma new_lines_one_line current : Forall one_line block -> Forall one_line (new current).
Proof using.
  intros Hb. unfold newRules.
  destruct (scan_spec (scanLines current) scan_start) as (Hr & _ & _).
  rewrite Hr. cbn [sc_rules scan_start]. rewrite app_nil_l.
  unfold missingChains. rewrite !Forall_app. split_and!.
  - apply Forall_filter, scanLines_one_line.
  - by destruct (containsFirewallChain _); repeat constructor.
  - by destruct (containsPerContainerChain _); repeat constructor.
  - repeat constructor.
  - done.
  - repeat constructor.
Qed.

Lemma new_not_nil current : new current <> [].
Proof using.
  intros Hn%(f_equal (@List.length string)). unfold newRules in Hn. rewrite !length_app in Hn.
  cbn in Hn. lia.
Qed.

Lemma missing_chains_keep ls st c :
  rules_of ls c = [] \/
    (c <> firewallName /\ (c = perContainerName -> containsPerContainerChain st = true)) ->
  rules_of (ls ++ missingChains st) c = rules_of ls c.
Proof using H0.
  intros Hc. unfold missingChains.
  assert (H1 : rules_of (ls ++ (if containsFirewallChain st then [] else [firewallChain])) c = rules_of ls c).
  { destruct (containsFirewallChain st); [by rewrite app_nil_r|].
    apply (restore_declare ls firewallName "- [0:0]"); [done|]. naive_solver. }
  rewrite (assoc (++)). destruct (containsPerContainerChain st); [by rewrite app_nil_r|].
  etrans; [|exact H1]. apply (restore_declare _ perContainerName "- [0:0]"); [done|].
  rewrite H1. naive_solver.
Qed.

(** Chain by chain. *)
Lemma new_chain current c :
  saved_table current -> spaceless c ->
  (c = perContainerName -> perContainerChain ∈ scanLines current \/ rules_of (table_lines current) c = []) ->
  rules_of (new current) c =
    jumpsOf c ++ filter (fun r => negb (ours (append_line c r))) (rules_of (table_lines current) c) ++
    (if bool_decide (c = firewallName) then firewallRules subnet bridge nodes kube dns dnsEps else []).
Proof using H0.
  intros (decls & rules & Ht & Hd & Hr) Hc Hper. unfold newRules.
  destruct (scan_spec (scanLines current) scan_start) as (Hsr & _ & Hsp).
  cbn [sc_rules scan_start containsPerContainerChain] in Hsr, Hsp.
  rewrite Hsr, (kept_lines current decls rules Ht Hd).
  set (st := fold_left _ _ _) in *. set (mine := filter (fun l => negb (ours l)) rules).
  assert (Hold : rules_of (table_lines current) c = omap (rule_in c) rules).
  { rewrite Ht, restore_rules by done. rewrite <- (app_nil_l decls).
    by rewrite restore_declarations by (done || apply restore_nil). }
  assert (Hmine : rules_of ([] ++ decls ++ mine) c =
    filter (fun r => negb (ours (append_line c r))) (rules_of (table_lines current) c)).
  { rewrite Hold. unfold mine. rewrite <- omap_not_ours by done. rewrite (assoc (++)).
    rewrite restore_rules by (done || by apply Forall_filter).
    by rewrite restore_declarations by (done || apply restore_nil). }
  assert (Hfront : rules_of (([] ++ decls ++ mine) ++ missingChains st) c =
    filter (fun r => negb (ours (append_line c r))) (rules_of (table_lines current) c)).
  { rewrite missing_chains_keep; [done|].
    destruct (decide (c = firewallName)) as [->|Hne].
    { left. rewrite Hmine. apply filter_none. intros r _. rewrite ours_append_line by done. by intros []. }
    destruct (decide (c = perContainerName)) as [Hpc|]; [|by right].
    destruct (Hper Hpc) as [Hin|Hnil].
    - right. split; [done|]. intros _. rewrite Hsp. by apply bool_decide_eq_true_2.
    - left. by rewrite Hmine, Hnil. }
  assert (Hjumps : forall ls, rules_of (ls ++ jumps) c = jumpsOf c ++ rules_of ls c).
  { intros ls. change jumps with ([insert_line "FORWARD" toFirewall] ++
      [insert_line "FORWARD" toPerContainer] ++ [insert_line "INPUT" toFirewall]).
    rewrite !(assoc (++)), !restore_insert by done. unfold jumpsOf.
    rewrite !(bool_decide_ext (_ = c) (c = _)) by done. by repeat case_bool_decide; subst. }
  replace (([] ++ decls ++ mine) ++ missingChains st ++ jumps ++ block ++ ["COMMIT"])
    with ((((([] ++ decls ++ mine) ++ missingChains st) ++ jumps) ++ block) ++ ["COMMIT"])
    by (by rewrite <- !(assoc (++))).
  rewrite restore_commit, restore_rules, omap_block, Hjumps, Hfront, <- (assoc (++)); try done.
  eapply Forall_impl; [apply block_lines|]. intros l (r & ->). by exists firewallName, r.
Qed.

Lemma jumps_foreign c r :
  spaceless c -> HasPrefix c firewallName = false -> negb (ours (append_line c r)) = foreign c r.
Proof using.
  intros Hc Hp. rewrite ours_append_line by done. unfold foreign, jumpsOf, firewallName in *. rewrite Hp.
  repeat case_bool_decide; subst; cbn; rewrite ?orb_false_r; done || by rewrite (orb_comm (HasPrefix r _)).
Qed.

Lemma new_foreign_chain current c :
  saved_table current -> spaceless c -> HasPrefix c firewallName = false ->
  (c = perContainerName -> perContainerChain ∈ scanLines current \/ rules_of (table_lines current) c = []) ->
  rules_of (new current) c = jumpsOf c ++ filter (foreign c) (rules_of (table_lines current) c).
Proof using H0.
  intros Hs Hc Hp Hper. rewrite new_chain by done.
  rewrite (bool_decide_eq_false_2 (c = firewallName)) by (intros ->; by vm_compute in Hp).
  rewrite app_nil_r. f_equal. apply list_filter_iff. intros r. by rewrite jumps_foreign.
Qed.

Lemma new_firewall_chain current :
  saved_table current ->
  rules_of (new current) firewallName = firewallRules subnet bridge nodes kube dns dnsEps.
Proof using H0.
  intros Hs. rewrite new_chain by done. rewrite filter_none; [done|].
  intros r _. rewrite ours_append_line by done. by intros [].
Qed.
End reconciled.

(** A chain whose name only begins like that of the invoker's. *)
Lemma new_namesake_chain `{TableRestoreLaws} subnet bridge nodes kube dns dnsEps current c :
  saved_table current -> spaceless c -> c <> firewallName -> HasPrefix c firewallName = true ->
  rules_of (newRules subnet bridge current nodes kube dns dnsEps) c = [].
Proof.
  intros Hs Hc Hne Hp. rewrite new_chain; [|done|done|by intros ->].
  unfold jumpsOf. rewrite !(bool_decide_eq_false_2 (c = _)) by (try done; by intros ->).
  rewrite app_nil_r, filter_none; [done|]. intros r _. rewrite ours_append_line by done.
  change "WHISK-FIREWALL" with firewallName. rewrite Hp. by intros [].
Qed.

(** No line is so long that the scan ends there. *)
Definition short_lines (current : string) : Prop :=
  Forall (fun l => (String.length l < MaxScanTokenSize)%nat) (splitLines current).

(** All the lines of a table that matter, without the ends of lines of other systems. *)
Definition whole_table (current : string) : list string :=
  filter chainOrRule ((fun l => TrimSuffix l (String "013"%char "")) <$> splitLines current).

Lemma scanLines_short current :
  short_lines current -> scanLines current = (fun l => TrimSuffix l (String "013"%char "")) <$> splitLines current.
Proof.
  unfold short_lines, scanLines. intros Hs. f_equal. induction Hs as [|l ls Hl Hls IH]; [done|].
  cbn [scannable]. by rewrite (proj2 (Nat.ltb_lt _ _)), IH.
Qed.

(** C23: restoring the table that the reconciler writes, if it was made from a table all of whose lines are
    shorter than 64 KiB, leaves the chains FORWARD and INPUT with the jumps to the invoker's chains in front
    of all the other rules they had, in their order; only rules that begin with one of these jumps are
    gone. The chain WHISK-FIREWALL consists of exactly the rules computed from the cluster, and a chain
    whose name only begins with WHISK-FIREWALL is empty, whatever it had before. Every other chain keeps
    its rules. *)
Theorem reconcile_chains `{TableRestoreLaws} subnet bridge current nodes kube dns dnsEps c :
  short_lines current ->
  saved_table current -> Forall one_line (firewallBlock subnet bridge nodes kube dns dnsEps) ->
  spaceless c ->
  let old := rules_of (whole_table current) in
  let new := rules_of (splitLines (reconcile subnet bridge current nodes kube dns dnsEps)) in
  (c = perContainerName -> perContainerChain ∈ whole_table current \/ old c = []) ->
  new "FORWARD" = [toPerContainer; toFirewall] ++ filter (foreign "FORWARD") (old "FORWARD") /\
  new "INPUT" = [toFirewall] ++ filter (foreign "INPUT") (old "INPUT") /\
  new firewallName = firewallRules subnet bridge nodes kube dns dnsEps /\
  (c <> firewallName -> HasPrefix c firewallName = true -> new c = []) /\
  (c <> "FORWARD" -> c <> "INPUT" -> HasPrefix c firewallName = false -> new c = old c).
Proof.
  intros Hl Hs Hb Hc old new Hper. unfold new, reconcile.
  rewrite splitLines_Join by (by apply new_lines_one_line || apply new_not_nil).
  assert (Hold : old = rules_of (table_lines current)).
  { unfold old, whole_table. by rewrite <- scanLines_short. }
  rewrite Hold in *. unfold whole_table in Hper. rewrite <- scanLines_short in Hper by done.
  split_and!.
  - by rewrite (new_foreign_chain subnet bridge nodes kube dns dnsEps current "FORWARD").
  - by rewrite (new_foreign_chain subnet bridge nodes kube dns dnsEps current "INPUT").
  - by apply new_firewall_chain.
  - by apply new_namesake_chain.
  - intros Hf Hi Hp. rewrite new_foreign_chain; [|done..|].
    2: { intros [Hin|]%Hper; [left|by right]. by apply list_elem_of_filter in Hin as [_ ?]. }
    unfold jumpsOf. rewrite !bool_decide_eq_false_2 by done. cbn [app]. apply filter_all. intros r _.
    unfold foreign, jumpsOf. by rewrite !bool_decide_eq_false_2 by done.
Qed.

(** C38: the reconciliation is idempotent, chain by chain: reconciling a table
    whose chain is that of a reconciled one, for the same cluster, leaves the
    chain as it is. *)
Theorem reconcile_idempotent `{TableRestoreLaws} subnet bridge current saved nodes kube dns dnsEps c :
  saved_table current -> saved_table saved ->
  Forall one_line (firewallBlock subnet bridge nodes kube dns dnsEps) ->
  spaceless c -> c = firewallName \/ HasPrefix c firewallName = false ->
  let after text := rules_of (splitLines (reconcile subnet bridge text nodes kube dns dnsEps)) in
  (c = perContainerName -> perContainerChain ∈ scanLines current /\ perContainerChain ∈ scanLines saved) ->
  rules_of (table_lines saved) c = after current c ->
  after saved c = after current c.
Proof.
  intros Hs Hs' Hb Hc Hp after Hper Hsave. unfold after, reconcile in *.
  pose proof (splitLines_Join (newRules subnet bridge saved nodes kube dns dnsEps)) as Hsaved.
  pose proof (splitLines_Join (newRules subnet bridge current nodes kube dns dnsEps)) as Hcurrent.
  rewrite Hsaved by (by apply new_lines_one_line || apply new_not_nil).
  rewrite Hcurrent in * by (by apply new_lines_one_line || apply new_not_nil).
  destruct Hp as [->|Hp]; [by rewrite !new_firewall_chain|].
  rewrite !new_foreign_chain by naive_solver. f_equal.
  rewrite Hsave, new_foreign_chain, filter_app by naive_solver.
  rewrite list_filter_filter. rewrite filter_none.
  - cbn [app]. apply list_filter_iff. naive_solver.
  - intros r Hr. unfold foreign, jumpsTo. intros Hf. apply negb_prop_elim in Hf. apply Hf.
    apply Is_true_eq_left, existsb_exists. exists r. split; [by apply list_elem_of_In|].
    rewrite <- (app_str_nil_r r) at 1. apply HasPrefix_app.
Qed.

(** ** A concrete way of restoring a table *)
Module TableScript.
Definition apply_line (c : string) (rules : list string) (line : string) : list string :=
  let rest := drop_str 3 line in
  if HasPrefix line "-A " then
    if bool_decide (before_space rest = c) then rules ++ [default "" (after_space rest)] else rules
  else if HasPrefix line "-I " then
    if bool_decide (before_space rest = c) then default "" (after_space rest) :: rules else rules
  else rules.

#[export] Instance script : TableRestore := {| rules_of ls c := fold_left (apply_line c) ls [] |}.

Lemma fields c r : spaceless c ->
  before_space (c +:+ " " +:+ r) = c /\ after_space (c +:+ " " +:+ r) = Some r.
Proof.
  unfold spaceless. induction c as [|a c IH]; [done|]. cbn [one_of_chars].
  intros [Ha Hc]%orb_false_iff. rewrite app_str_cons. cbn [before_space after_space].
  rewrite Ascii.eqb_sym, Ha. by destruct (IH Hc) as [-> ->].
Qed.

#[export] Instance script_laws : TableRestoreLaws.
Proof.
  split; cbn [rules_of script]; intros; rewrite ?fold_left_app; cbn [fold_left]; try done.
  - unfold apply_line. change (drop_str 3 (append_line c r)) with (c +:+ " " +:+ r).
    change (HasPrefix (append_line c r) "-A ") with (HasPrefix (c +:+ " " +:+ r) "").
    rewrite HasPrefix_nil. by destruct (fields c r) as [-> ->].
  - unfold apply_line. change (drop_str 3 (insert_line c r)) with (c +:+ " " +:+ r).
    change (HasPrefix (insert_line c r) "-A ") with false.
    change (HasPrefix (insert_line c r) "-I ") with (HasPrefix (c +:+ " " +:+ r) "").
    rewrite HasPrefix_nil. by destruct (fields c r) as [-> ->].
Qed.
End TableScript.
Import TableScript.

Definition small_table : string :=
  Join ["*filter"; ":INPUT ACCEPT [0:0]"; ":FORWARD DROP [0:0]"; ":DOCKER - [0:0]";
        "-A FORWARD -j DOCKER"; "-A FORWARD -j WHISK-FIREWALL"; "COMMIT"; "# done"] (String nl "").

Definition no_endpoints : Endpoints := {| ep_Namespace := ""; ep_Name := ""; Subsets := [["10.1.1.1"]] |}.
Definition some_dns : Service := {| svc_Namespace := "dns"; svc_Name := "dns"; ClusterIP := "10.2.2.2" |}.
Definition some_nodes : list Node :=
  [{| node_Name := "n1"; Addresses := [("ExternalIP", "1.2.3.4"); ("InternalIP", "10.3.3.3")] |}].

Lemma small_table_saved : saved_table small_table.
Proof.
  exists ["*filter"; ":INPUT ACCEPT [0:0]"; ":FORWARD DROP [0:0]"; ":DOCKER - [0:0]"],
    ["-A FORWARD -j DOCKER"; "-A FORWARD -j WHISK-FIREWALL"].
  split_and!; [vm_compute; reflexivity| |].
  - repeat apply Forall_cons_2; [left|right..|constructor].
    + by exists "filter".
    + by exists "INPUT", "ACCEPT [0:0]".
    + by exists "FORWARD", "DROP [0:0]".
    + by exists "DOCKER", "- [0:0]".
  - repeat apply Forall_cons_2; [by exists "FORWARD", "-j DOCKER"|by exists "FORWARD", toFirewall|constructor].
Qed.

Lemma reconcile_chains_witness :
  rules_of (splitLines (reconcile "172.18.0.0/16" "br0" small_table some_nodes no_endpoints some_dns
                          no_endpoints)) "FORWARD" = [toPerContainer; toFirewall; "-j DOCKER"].
Proof.
  refine (eq_trans (proj1 (reconcile_chains "172.18.0.0/16" "br0" small_table some_nodes no_endpoints
    some_dns no_endpoints "OUTPUT" _ small_table_saved _ _ _)) _).
  - apply Forall_forall. intros l Hin. apply Nat.ltb_lt. revert l Hin. apply Forall_forall. repeat constructor.
  - repeat constructor.
  - reflexivity.
  - intros [=].
  - vm_compute. reflexivity.
Defined.

(** The table above with the chains of its reconciliation. *)
Definition reconciled_table : string :=
  Join (["*filter"; ":INPUT ACCEPT [0:0]"; ":FORWARD DROP [0:0]"; ":DOCKER - [0:0]";
         firewallChain; perContainerChain; "-A INPUT -j WHISK-FIREWALL";
         "-A FORWARD -j PER-CONTAINER-FIREWALL"; "-A FORWARD -j WHISK-FIREWALL"; "-A FORWARD -j DOCKER"] ++
        firewallBlock "172.18.0.0/16" "br0" some_nodes no_endpoints some_dns no_endpoints ++ ["COMMIT"])
    (String nl "").

Lemma reconciled_table_saved : saved_table reconciled_table.
Proof.
  exists ["*filter"; ":INPUT ACCEPT [0:0]"; ":FORWARD DROP [0:0]"; ":DOCKER - [0:0]";
          firewallChain; perContainerChain],
    (["-A INPUT -j WHISK-FIREWALL"; "-A FORWARD -j PER-CONTAINER-FIREWALL";
      "-A FORWARD -j WHISK-FIREWALL"; "-A FORWARD -j DOCKER"] ++
     firewallBlock "172.18.0.0/16" "br0" some_nodes no_endpoints some_dns no_endpoints).
  split_and!; [vm_compute; reflexivity| |].
  - repeat apply Forall_cons_2; [left|right..|constructor].
    + by exists "filter".
    + by exists "INPUT", "ACCEPT [0:0]".
    + by exists "FORWARD", "DROP [0:0]".
    + by exists "DOCKER", "- [0:0]".
    + by exists firewallName, "- [0:0]".
    + by exists perContainerName, "- [0:0]".
  - apply Forall_app_2.
    + repeat apply Forall_cons_2; [by exists "INPUT", toFirewall|by exists "FORWARD", toPerContainer
        |by exists "FORWARD", toFirewall|by exists "FORWARD", "-j DOCKER"|constructor].
    + eapply Forall_impl; [apply block_lines|]. intros l (r & ->). by exists firewallName, r.
Qed.

Lemma reconcile_idempotent_witness :
  let after text := rules_of (splitLines (reconcile "172.18.0.0/16" "br0" text some_nodes no_endpoints
                                            some_dns no_endpoints)) in
  after reconciled_table "FORWARD" = after small_table "FORWARD".
Proof.
  apply (reconcile_idempotent "172.18.0.0/16" "br0" small_table reconciled_table some_nodes no_endpoints
    some_dns no_endpoints "FORWARD" small_table_saved reconciled_table_saved).
  - repeat constructor.
  - reflexivity.
  - by right.
  - intros [=].
  - vm_compute. reflexivity.
Defined.
