(* ===== verification/FirewallSync.v ===== *)
(** * The firewall: following the cluster

    [Reconcile] of [pkg/firewall/firewall.go] as a program over the listers and
    iptables, [FilteredEventHandler] of [pkg/firewall/events.go], and the
    goroutine of [cmd/invoker/main.go] that reconciles when it is poked. *)
From S2P Require Export FirewallSpec Proc.

(** ** [Reconcile] *)
Inductive fw_op : Type -> Type :=
| ListNodes : fw_op (result (list Node))
| GetEndpoints (namespace name : string) : fw_op (result Endpoints)
| GetService (namespace name : string) : fw_op (result Service)
| LockMux : fw_op unit
| UnlockMux : fw_op unit
| GetState : fw_op (result string)
| WriteState (table : string) : fw_op (option go_error).

Notation fwM := (proc fw_op).

Section reconcile.
Context (subnet bridge : string).

(** The part under the mutex, which is unlocked on return. *)
Definition writeTable (nodes : list Node) (kube : Endpoints) (dns : Service) (dnsEps : Endpoints)
    (current : string) : fwM (option go_error) :=
  err ← trigger (WriteState (reconcile subnet bridge current nodes kube dns dnsEps));
  _ ← trigger UnlockMux;
  Ret match err with
      | Some e => Some (Errorf "failed to write iptables: %w" [e])
      | None => None
      end.

Definition updateTable (nodes : list Node) (kube : Endpoints) (dns : Service) (dnsEps : Endpoints) :
    fwM (option go_error) :=
  _ ← trigger LockMux;
  current ← trigger GetState;
  match current with
  | Err e =>
      _ ← trigger UnlockMux;
      Ret (Some (Errorf "failed to get current iptables: %w" [e]))
  | Ok current => writeTable nodes kube dns dnsEps current
  end.

Definition getDNSEndpoints (nodes : list Node) (kube : Endpoints) (dns : Service) :
    fwM (option go_error) :=
  eps ← trigger (GetEndpoints (svc_Namespace dns) (svc_Name dns));
  match eps with
  | Err e => Ret (Some (Errorf "failed to get CoreDNS service endpoints: %w" [e]))
  | Ok eps => updateTable nodes kube dns eps
  end.

Definition getDNSService (nodes : list Node) (kube : Endpoints) : fwM (option go_error) :=
  dns ← trigger (GetService coreDNSService.1 coreDNSService.2);
  match dns with
  | Err e => Ret (Some (Errorf "failed to get CoreDNS service: %w" [e]))
  | Ok dns => getDNSEndpoints nodes kube dns
  end.

Definition getKubeEndpoints (nodes : list Node) : fwM (option go_error) :=
  kube ← trigger (GetEndpoints kubeAPIService.1 kubeAPIService.2);
  match kube with
  | Err e => Ret (Some (Errorf "failed to get default service endpoints: %w" [e]))
  | Ok kube => getDNSService nodes kube
  end.

Definition Reconcile : fwM (option go_error) :=
  nodes ← trigger ListNodes;
  match nodes with
  | Err e => Ret (Some (Errorf "failed to get nodes: %w" [e]))
  | Ok nodes => getKubeEndpoints nodes
  end.
End reconcile.

(** ** The filter of events *)
Inductive kobject :=
| ONode (n : Node)
| OService (s : Service)
| OEndpoints (e : Endpoints)
| OOther.

Inductive kevent :=
| EvAdd (obj : kobject) (isInInitialList : bool)
| EvUpdate (old changed : kobject)
| EvDelete (obj : kobject).

Definition isRelevantService (s : Service) : bool :=
  bool_decide (svc_Namespace s = coreDNSService.1) && bool_decide (svc_Name s = coreDNSService.2).

Definition isRelevantEndpoints (e : Endpoints) : bool :=
  bool_decide (ep_Namespace e = coreDNSService.1) && bool_decide (ep_Name e = coreDNSService.2) ||
  bool_decide (ep_Namespace e = kubeAPIService.1) && bool_decide (ep_Name e = kubeAPIService.2).

Section filter.
(** [equality.Semantic.DeepEqual] on the two types it is used at. *)
Context (addressesEqual : list (string * string) -> list (string * string) -> bool).
Context (subsetsEqual : list (list string) -> list (list string) -> bool).

Definition relevant (obj : kobject) : bool :=
  match obj with
  | OService s => isRelevantService s
  | OEndpoints e => isRelevantEndpoints e
  | _ => true
  end.

(** Whether [f] is called. *)
Definition FilteredEventHandler (ev : kevent) : bool :=
  match ev with
  | EvAdd obj isInInitialList => if isInInitialList then false else relevant obj
  | EvUpdate old changed =>
      match old with
      | ONode oldObj =>
          match changed with
          | ONode newObj => negb (addressesEqual (Addresses oldObj) (Addresses newObj))
          | _ => false
          end
      | OService oldObj =>
          match changed with
          | OService newObj =>
              isRelevantService newObj && negb (bool_decide (ClusterIP oldObj = ClusterIP newObj))
          | _ => false
          end
      | OEndpoints oldObj =>
          match changed with
          | OEndpoints newObj =>
              isRelevantEndpoints newObj && negb (subsetsEqual (Subsets oldObj) (Subsets newObj))
          | _ => false
          end
      | OOther => false
      end
  | EvDelete obj => relevant obj
  end.

(** ** The cluster as the listers show it *)
Record cluster := mkCluster {
  c_nodes : gmap string Node;
  c_services : gmap (string * string) Service;
  c_endpoints : gmap (string * string) Endpoints
}.

Definition svc_key (s : Service) : string * string := (svc_Namespace s, svc_Name s).
Definition ep_key (e : Endpoints) : string * string := (ep_Namespace e, ep_Name e).

Definition store (obj : kobject) (c : cluster) : cluster :=
  match obj with
  | ONode n => mkCluster (<[node_Name n := n]> (c_nodes c)) (c_services c) (c_endpoints c)
  | OService s => mkCluster (c_nodes c) (<[svc_key s := s]> (c_services c)) (c_endpoints c)
  | OEndpoints e => mkCluster (c_nodes c) (c_services c) (<[ep_key e := e]> (c_endpoints c))
  | OOther => c
  end.

Definition remove_object (obj : kobject) (c : cluster) : cluster :=
  match obj with
  | ONode n => mkCluster (delete (node_Name n) (c_nodes c)) (c_services c) (c_endpoints c)
  | OService s => mkCluster (c_nodes c) (delete (svc_key s) (c_services c)) (c_endpoints c)
  | OEndpoints e => mkCluster (c_nodes c) (c_services c) (delete (ep_key e) (c_endpoints c))
  | OOther => c
  end.

Definition apply_event (ev : kevent) (c : cluster) : cluster :=
  match ev with
  | EvAdd obj _ => store obj c
  | EvUpdate _ changed => store changed c
  | EvDelete obj => remove_object obj c
  end.

(** An update is notified with the object that was stored before. *)
Definition event_ok (ev : kevent) (c : cluster) : Prop :=
  match ev with
  | EvAdd _ initial => initial = false
  | EvUpdate (ONode o) (ONode n) => node_Name n = node_Name o /\ c_nodes c !! node_Name o = Some o
  | EvUpdate (OService o) (OService n) => svc_key n = svc_key o /\ c_services c !! svc_key o = Some o
  | EvUpdate (OEndpoints o) (OEndpoints n) => ep_key n = ep_key o /\ c_endpoints c !! ep_key o = Some o
  | EvUpdate OOther OOther => True
  | EvUpdate _ _ => False
  | EvDelete _ => True
  end.

(** What the table is computed from. *)
Definition inputs (c : cluster) :
    gmap string Node * option Endpoints * option Service * option Endpoints :=
  (c_nodes c, c_endpoints c !! kubeAPIService, c_services c !! coreDNSService,
   c_endpoints c !! coreDNSService).

(** ** No event is lost *)
Context (addressesEqual_sound : forall a b, addressesEqual a b = true -> a = b).
Context (subsetsEqual_sound : forall a b, subsetsEqual a b = true -> a = b).

Lemma relevant_false_service s : isRelevantService s = false -> svc_key s <> coreDNSService.
Proof using.
  unfold isRelevantService, svc_key. intros H [= H1 H2].
  by rewrite !bool_decide_eq_true_2 in H by (cbn; congruence).
Qed.

Lemma relevant_false_endpoints e :
  isRelevantEndpoints e = false -> ep_key e <> coreDNSService /\ ep_key e <> kubeAPIService.
Proof using.
  unfold isRelevantEndpoints, ep_key. intros [H1 H2]%orb_false_iff.
  split; intros [= E1 E2];
    [rewrite !bool_decide_eq_true_2 in H1 by (cbn; congruence)
    |rewrite !bool_decide_eq_true_2 in H2 by (cbn; congruence)]; done.
Qed.

Lemma unhandled_change ev c :
  event_ok ev c -> FilteredEventHandler ev = false -> inputs (apply_event ev c) = inputs c.
Proof using addressesEqual_sound subsetsEqual_sound.
  assert (Hsvc : forall s (f : option Service), isRelevantService s = false ->
    inputs (mkCluster (c_nodes c) (partial_alter (fun _ => f) (svc_key s) (c_services c)) (c_endpoints c)) =
    inputs c).
  { intros s f Hs%relevant_false_service. unfold inputs. cbn. by rewrite lookup_partial_alter_ne. }
  assert (Hep : forall e (f : option Endpoints), isRelevantEndpoints e = false ->
    inputs (mkCluster (c_nodes c) (c_services c) (partial_alter (fun _ => f) (ep_key e) (c_endpoints c))) =
    inputs c).
  { intros e f [H1 H2]%relevant_false_endpoints. unfold inputs. cbn.
    by rewrite !lookup_partial_alter_ne. }
  destruct ev as [obj initial|old changed|obj]; cbn [event_ok FilteredEventHandler apply_event].
  - intros ->. destruct obj; try done; intros; [by apply Hsvc|by apply Hep].
  - destruct old as [o|o|o|], changed as [n|n|n|]; try done; cbn [store].
    + intros [Hn Ho] Hf%negb_false_iff%addressesEqual_sound. unfold inputs. cbn.
      assert (n = o) as -> by (destruct n, o; cbn in *; congruence). by rewrite insert_id.
    + intros [Hn Ho] Hf. destruct (isRelevantService n) eqn:Hr; [|by apply Hsvc].
      apply negb_false_iff, bool_decide_eq_true in Hf.
      assert (n = o) as -> by (unfold svc_key in *; destruct n, o; cbn in *; congruence).
      unfold inputs. cbn. by rewrite insert_id.
    + intros [Hn Ho] Hf. destruct (isRelevantEndpoints n) eqn:Hr; [|by apply Hep].
      apply negb_false_iff, subsetsEqual_sound in Hf.
      assert (n = o) as -> by (unfold ep_key in *; destruct n, o; cbn in *; congruence).
      unfold inputs. cbn. by rewrite insert_id.
  - intros _. destruct obj; try done; intros; [by apply Hsvc|by apply Hep].
Qed.

(** The handler lets through every event that matters: it calls its function
    for every change of the cluster that changes anything the firewall is
    computed from. *)
Theorem FilteredEventHandler_complete ev c :
  event_ok ev c -> inputs (apply_event ev c) <> inputs c -> FilteredEventHandler ev = true.
Proof using addressesEqual_sound subsetsEqual_sound.
  intros Hev Hin. destruct (FilteredEventHandler ev) eqn:E; [done|].
  by pose proof (unhandled_change ev c Hev E).
Qed.
End filter.

(** ** The goroutine that reconciles

    The cluster and the notifications that are still to be delivered; the
    channel [firewallPoke], of capacity one; the reconciliation that runs, if
    any; the table written last, and whether the last reconciliation failed. *)
Record world := mkWorld {
  w_cluster : cluster;
  w_pending : list kevent;
  w_poke : bool;
  w_running : option (fwM (option go_error));
  w_written : option string;
  w_failed : bool
}.

Section world.
Context (subnet bridge : string).
Context (addressesEqual : list (string * string) -> list (string * string) -> bool).
Context (subsetsEqual : list (list string) -> list (list string) -> bool).
Notation handler := (FilteredEventHandler addressesEqual subsetsEqual).

(** The listers answer from the cluster; iptables may answer or do anything. *)
Definition fw_exec (X : Type) (op : fw_op X) (c : cluster) (written : option string) :
    X -> option string -> Prop :=
  match op in fw_op X return X -> option string -> Prop with
  | ListNodes => fun x w => w = written /\
      forall nodes, x = Ok nodes -> nodes ≡ₚ (map_to_list (c_nodes c)).*2
  | GetEndpoints ns name => fun x w => w = written /\
      forall e, x = Ok e -> c_endpoints c !! (ns, name) = Some e
  | GetService ns name => fun x w => w = written /\
      forall s, x = Ok s -> c_services c !! (ns, name) = Some s
  | LockMux | UnlockMux => fun _ w => w = written
  | GetState => fun _ w => w = written
  | WriteState table => fun x w => x = None -> w = Some table
  end.

Inductive world_step : world -> world -> Prop :=
| world_change ev w :
    event_ok ev (w_cluster w) ->
    world_step w (mkWorld (apply_event ev (w_cluster w)) (w_pending w ++ [ev]) (w_poke w)
                    (w_running w) (w_written w) (w_failed w))
| world_notify ev rest w :
    w_pending w = ev :: rest ->
    world_step w (mkWorld (w_cluster w) rest (w_poke w || handler ev) (w_running w)
                    (w_written w) (w_failed w))
| world_poked w :
    w_poke w = true -> w_running w = None ->
    world_step w (mkWorld (w_cluster w) (w_pending w) false (Some (Reconcile subnet bridge))
                    (w_written w) (w_failed w))
| world_ticker w :
    w_running w = None ->
    world_step w (mkWorld (w_cluster w) (w_pending w) (w_poke w) (Some (Reconcile subnet bridge))
                    (w_written w) (w_failed w))
| world_op w X (op : fw_op X) k x written :
    w_running w = Some (Vis op k) -> fw_exec X op (w_cluster w) (w_written w) x written ->
    world_step w (mkWorld (w_cluster w) (w_pending w) (w_poke w) (Some (k x)) written (w_failed w))
| world_done w r :
    w_running w = Some (Ret r) ->
    world_step w (mkWorld (w_cluster w) (w_pending w) (w_poke w) None (w_written w)
                    (bool_decide (r <> None))).

(** The objects of the initial list, and the reconciliation that is forced at the start. *)
Definition start (c : cluster) (initial : list kobject) : world :=
  mkWorld c ((fun o => EvAdd o true) <$> initial) false (Some (Reconcile subnet bridge)) None true.

Definition well_keyed (c : cluster) : Prop :=
  map_Forall (fun k s => svc_key s = k) (c_services c).

Definition world_reachable (w : world) : Prop :=
  exists c initial, well_keyed c /\ rtc world_step (start c initial) w.

(** The table is the one computed from the cluster as it is now. *)
Definition up_to_date (c : cluster) (written : option string) : Prop :=
  exists current nodes kube dns dnsEps,
    written = Some (reconcile subnet bridge current nodes kube dns dnsEps) /\
    nodes ≡ₚ (map_to_list (c_nodes c)).*2 /\ c_endpoints c !! kubeAPIService = Some kube /\
    c_services c !! coreDNSService = Some dns /\ c_endpoints c !! coreDNSService = Some dnsEps.

(** ** Where a running reconciliation is, and that what it has read is current *)
Inductive stage :=
| AtStart
| HasNodes (n : list Node)
| HasKube (n : list Node) (k : Endpoints)
| HasDNS (n : list Node) (k : Endpoints) (d : Service)
| HasAll (n : list Node) (k : Endpoints) (d : Service) (e : Endpoints)
| Locked (n : list Node) (k : Endpoints) (d : Service) (e : Endpoints)
| HasState (n : list Node) (k : Endpoints) (d : Service) (e : Endpoints) (current : string)
| Written
| Unlocking (e : go_error)
| Finished (r : option go_error).

Definition program (st : stage) : fwM (option go_error) :=
  match st with
  | AtStart => Reconcile subnet bridge
  | HasNodes n => getKubeEndpoints subnet bridge n
  | HasKube n k => getDNSService subnet bridge n k
  | HasDNS n k d => getDNSEndpoints subnet bridge n k d
  | HasAll n k d e => updateTable subnet bridge n k d e
  | Locked n k d e =>
      current ← trigger GetState;
      match current with
      | Err err => _ ← trigger UnlockMux; Ret (Some (Errorf "failed to get current iptables: %w" [err]))
      | Ok current => writeTable subnet bridge n k d e current
      end
  | HasState n k d e current => writeTable subnet bridge n k d e current
  | Written => _ ← trigger UnlockMux; Ret None
  | Unlocking err => _ ← trigger UnlockMux; Ret (Some err)
  | Finished r => Ret r
  end.

Definition nodes_now (c : cluster) (n : list Node) : Prop := n ≡ₚ (map_to_list (c_nodes c)).*2.

Definition current_stage (c : cluster) (written : option string) (st : stage) : Prop :=
  match st with
  | AtStart => True
  | HasNodes n => nodes_now c n
  | HasKube n k => nodes_now c n /\ c_endpoints c !! kubeAPIService = Some k
  | HasDNS n k d => nodes_now c n /\ c_endpoints c !! kubeAPIService = Some k /\
      c_services c !! coreDNSService = Some d
  | HasAll n k d e | Locked n k d e | HasState n k d e _ =>
      nodes_now c n /\ c_endpoints c !! kubeAPIService = Some k /\
      c_services c !! coreDNSService = Some d /\ c_endpoints c !! coreDNSService = Some e
  | Written | Finished None => up_to_date c written
  | Unlocking _ | Finished (Some _) => True
  end.

(** A change that is known, but not yet acted upon. *)
Definition noticed (w : world) : Prop :=
  w_poke w = true \/ exists ev, ev ∈ w_pending w /\ handler ev = true.

Record world_inv (w : world) : Prop := {
  wi_keys : well_keyed (w_cluster w);
  wi_running : match w_running w with
               | Some p => exists st, p = program st /\
                   (noticed w \/ current_stage (w_cluster w) (w_written w) st)
               | None => noticed w \/ w_failed w = true \/ up_to_date (w_cluster w) (w_written w)
               end
}.

(** ** The invariant *)
Lemma current_stage_inputs c c' written st :
  inputs c' = inputs c -> current_stage c written st -> current_stage c' written st.
Proof using.
  unfold inputs. intros [= H1 H2 H3 H4]. unfold current_stage, up_to_date, nodes_now.
  rewrite H1, H2, H3, H4. done.
Qed.

Lemma up_to_date_inputs c c' written :
  inputs c' = inputs c -> up_to_date c written -> up_to_date c' written.
Proof using. apply (current_stage_inputs c c' written Written). Qed.

Lemma well_keyed_apply ev c : well_keyed c -> well_keyed (apply_event ev c).
Proof using.
  unfold well_keyed. intros Hc.
  assert (Hins : forall s, map_Forall (fun k s => svc_key s = k) (<[svc_key s := s]> (c_services c)))
    by (intros s; by apply map_Forall_insert_2).
  destruct ev as [[]|? []|[]]; cbn; try done; by apply map_Forall_delete.
Qed.

(** One operation leads from one stage to the next. *)
Lemma stage_step c written st :
  well_keyed c ->
  match program st with
  | Vis op k => forall x w', fw_exec _ op c written x w' ->
      exists st', k x = program st' /\ (current_stage c written st -> current_stage c w' st')
  | Ret r => st = Finished r
  end.
Proof using.
  intros Hk. destruct st as [|n|n kb|n kb d|n kb d e|n kb d e|n kb d e cur| |err|r]; cbn.
  - intros [nodes|e] w' [-> Hx]; [exists (HasNodes nodes); split; [done|intros _; by apply Hx]|].
    by exists (Finished (Some (Errorf "failed to get nodes: %w" [e]))).
  - intros [kube|e] w' [-> Hx]; [exists (HasKube n kube); split; [done|intros Hn; split; [done|by apply Hx]]|].
    by exists (Finished (Some (Errorf "failed to get default service endpoints: %w" [e]))).
  - intros [dns|e] w' [-> Hx]; [exists (HasDNS n kb dns); split; [done|intros []; split_and!; [done|done|by apply Hx]]|].
    by exists (Finished (Some (Errorf "failed to get CoreDNS service: %w" [e]))).
  - intros [eps|e] w' [-> Hx];
      [|by exists (Finished (Some (Errorf "failed to get CoreDNS service endpoints: %w" [e])))].
    exists (HasAll n kb d eps). split; [done|]. intros (H1 & H2 & H3).
    split_and!; try done. rewrite <- (Hk _ _ H3). by apply Hx.
  - intros x w' ->. by exists (Locked n kb d e).
  - intros [cur|err] w' ->; [by exists (HasState n kb d e cur)|].
    by exists (Unlocking (Errorf "failed to get current iptables: %w" [err])).
  - intros [err|] w' Hx; [by exists (Unlocking (Errorf "failed to write iptables: %w" [err]))|].
    exists Written. split; [done|]. intros (H1 & H2 & H3 & H4). rewrite (Hx eq_refl).
    by exists cur, n, kb, d, e.
  - intros x w' ->. by exists (Finished None).
  - intros x w' ->. by exists (Finished (Some err)).
  - done.
Qed.

Context (addressesEqual_sound : forall a b, addressesEqual a b = true -> a = b).
Context (subsetsEqual_sound : forall a b, subsetsEqual a b = true -> a = b).

Lemma noticed_app ev w w' :
  w_poke w' = w_poke w -> w_pending w' = w_pending w ++ [ev] ->
  noticed w \/ handler ev = true -> noticed w'.
Proof using.
  clear. unfold noticed. intros -> -> [[?|(x & Hx & ?)]|?]; [by left|right; exists x|right; exists ev];
    (split; [set_solver|done]).
Qed.

Lemma world_change_inv ev w :
  event_ok ev (w_cluster w) -> world_inv w ->
  world_inv (mkWorld (apply_event ev (w_cluster w)) (w_pending w ++ [ev]) (w_poke w)
               (w_running w) (w_written w) (w_failed w)).
Proof using addressesEqual_sound subsetsEqual_sound.
  intros Hev [Hk Hr]. split; cbn; [by apply well_keyed_apply|].
  set (w' := mkWorld _ _ _ _ _ _). pose proof (noticed_app ev w w' eq_refl eq_refl) as Hn.
  destruct (handler ev) eqn:Hh.
  - destruct (w_running w) as [p|]; [|left; auto].
    destruct Hr as (st & -> & _). exists st. split; [done|]. left. auto.
  - assert (Hin : inputs (apply_event ev (w_cluster w)) = inputs (w_cluster w))
      by (by eapply unhandled_change).
    destruct (w_running w) as [p|].
    + destruct Hr as (st & -> & [?|Hst]); exists st; (split; [done|]); [left; auto|right].
      by eapply current_stage_inputs.
    + destruct Hr as [?|[?|Hup]]; [left; auto|by right; left|right; right].
      by eapply up_to_date_inputs.
Qed.

Lemma world_notify_noticed w ev rest w' :
  w_pending w = ev :: rest -> w_pending w' = rest -> w_poke w' = w_poke w || handler ev ->
  noticed w -> noticed w'.
Proof using.
  unfold noticed. intros -> -> -> [->|(x & [->|Hx]%elem_of_cons & Hh)].
  - by left.
  - left. by rewrite Hh, orb_true_r.
  - right. by exists x.
Qed.

Lemma world_step_inv w w' : world_step w w' -> world_inv w -> world_inv w'.
Proof using addressesEqual_sound subsetsEqual_sound.
  intros Hs Hi. destruct Hs as [ev w Hev|ev rest w Hp|w Hp Hr|w Hr|w X op k x wr Hr Hx|w r Hr].
  - by apply world_change_inv.
  - destruct Hi as [Hk Hi]. split; cbn; [done|]. set (w' := mkWorld _ _ _ _ _ _).
    pose proof (world_notify_noticed w ev rest w' Hp eq_refl eq_refl) as Hn.
    destruct (w_running w) as [p|]; [|naive_solver].
    destruct Hi as (st & -> & ?). exists st. naive_solver.
  - destruct Hi as [Hk _]. split; cbn; [done|]. exists AtStart. split; [done|]. by right.
  - destruct Hi as [Hk _]. split; cbn; [done|]. exists AtStart. split; [done|]. by right.
  - destruct Hi as [Hk Hi]. split; cbn; [done|]. rewrite Hr in Hi. destruct Hi as (st & Hst & Hcur).
    pose proof (stage_step (w_cluster w) (w_written w) st Hk) as Hstep. rewrite <- Hst in Hstep.
    destruct (Hstep x wr Hx) as (st' & -> & Hnext). exists st'. split; [done|].
    destruct Hcur as [?|?]; [by left|right; auto].
  - destruct Hi as [Hk Hi]. split; cbn; [done|]. rewrite Hr in Hi. destruct Hi as (st & Hst & Hcur).
    pose proof (stage_step (w_cluster w) (w_written w) st Hk) as Hstep. rewrite <- Hst in Hstep.
    subst st. cbn in Hcur. destruct r as [e|]; [right; left; by apply bool_decide_eq_true_2|].
    destruct Hcur as [?|?]; [by left|by right; right].
Qed.

(** C24: whatever happens to the cluster and in whatever order its notifications
    and the steps of the reconciler are interleaved, once no relevant
    notification is outstanding, the goroutine is idle and its last
    reconciliation did not fail, the table it wrote last is the one computed
    from the cluster as it is now. *)
Theorem firewall_up_to_date w :
  world_reachable w -> w_running w = None -> w_poke w = false ->
  (forall ev, ev ∈ w_pending w -> handler ev = false) -> w_failed w = false ->
  up_to_date (w_cluster w) (w_written w).
Proof using addressesEqual_sound subsetsEqual_sound.
  intros (c & initial & Hk & Hr) Hrun Hpoke Hpend Hfail.
  assert (Hi : world_inv w).
  { assert (H0 : world_inv (start c initial)).
    { split; cbn; [done|]. exists AtStart. split; [done|]. by right. }
    revert H0. clear -Hr addressesEqual_sound subsetsEqual_sound.
    induction Hr as [|a b d Hs _ IH]; [done|]. intros Ha. apply IH. by eapply world_step_inv. }
  destruct Hi as [_ Hi]. rewrite Hrun in Hi.
  destruct Hi as [[Hp|(ev & Hin & Hh)]|[Hf|Hup]]; [congruence| |congruence|done].
  rewrite Hpend in Hh by done. done.
Qed.
End world.

(** ** Examples *)
#[local] Opaque reconcile.
Definition same_addresses (a b : list (string * string)) : bool := bool_decide (a = b).
Definition same_subsets (a b : list (list string)) : bool := bool_decide (a = b).

Lemma same_addresses_sound a b : same_addresses a b = true -> a = b.
Proof. apply bool_decide_eq_true. Qed.
Lemma same_subsets_sound a b : same_subsets a b = true -> a = b.
Proof. apply bool_decide_eq_true. Qed.

Definition a_node (ip : string) : Node := {| node_Name := "n1"; Addresses := [("ExternalIP", ip)] |}.
Definition kube_api : Endpoints :=
  {| ep_Namespace := "default"; ep_Name := "kubernetes"; Subsets := [["100.65.0.82"]] |}.
Definition core_dns : Service :=
  {| svc_Namespace := "serverless-coredns"; svc_Name := "serverless-coredns"; ClusterIP := "10.245.0.11" |}.
Definition core_dns_pods : Endpoints :=
  {| ep_Namespace := "serverless-coredns"; ep_Name := "serverless-coredns"; Subsets := [["10.244.3.35"]] |}.

Definition small_cluster : cluster :=
  mkCluster {["n1" := a_node "1.2.3.4"]} {[coreDNSService := core_dns]}
    {[kubeAPIService := kube_api; coreDNSService := core_dns_pods]}.

Lemma FilteredEventHandler_complete_witness :
  FilteredEventHandler same_addresses same_subsets
    (EvUpdate (ONode (a_node "1.2.3.4")) (ONode (a_node "1.2.3.5"))) = true.
Proof.
  apply (FilteredEventHandler_complete same_addresses same_subsets same_addresses_sound
           same_subsets_sound _ small_cluster).
  - by split.
  - intros Heq. apply (f_equal (fun x => x.1.1.1 !! "n1")) in Heq. vm_compute in Heq. congruence.
Defined.

(** The reconciliation that is forced at the start, to its end. *)
Lemma first_reconciliation subnet bridge addressesEqual subsetsEqual c nodes kube dns dnsEps current :
  well_keyed c -> nodes ≡ₚ (map_to_list (c_nodes c)).*2 ->
  c_endpoints c !! (kubeAPIService.1, kubeAPIService.2) = Some kube ->
  c_services c !! (coreDNSService.1, coreDNSService.2) = Some dns ->
  c_endpoints c !! (svc_Namespace dns, svc_Name dns) = Some dnsEps ->
  world_reachable subnet bridge addressesEqual subsetsEqual
    (mkWorld c [] false None (Some (reconcile subnet bridge current nodes kube dns dnsEps)) false).
Proof.
  intros Hk Hn Hkube Hdns Heps. exists c, []. split; [done|].
  eapply rtc_l; [eapply (world_op _ _ _ _ _ _ ListNodes _ (Ok nodes)); [reflexivity|]|].
  { split; [reflexivity|]. by intros ? [= <-]. }
  eapply rtc_l; [eapply (world_op _ _ _ _ _ _ (GetEndpoints _ _) _ (Ok kube)); [reflexivity|]|].
  { split; [reflexivity|]. by intros ? [= <-]. }
  eapply rtc_l; [eapply (world_op _ _ _ _ _ _ (GetService _ _) _ (Ok dns)); [reflexivity|]|].
  { split; [reflexivity|]. by intros ? [= <-]. }
  eapply rtc_l; [eapply (world_op _ _ _ _ _ _ (GetEndpoints _ _) _ (Ok dnsEps)); [reflexivity|]|].
  { split; [reflexivity|]. by intros ? [= <-]. }
  eapply rtc_l; [eapply (world_op _ _ _ _ _ _ LockMux _ tt); [reflexivity|reflexivity]|].
  eapply rtc_l; [eapply (world_op _ _ _ _ _ _ GetState _ (Ok current)); [reflexivity|reflexivity]|].
  eapply rtc_l; [eapply (world_op _ _ _ _ _ _ (WriteState _) _ None); [reflexivity|intros _; reflexivity]|].
  eapply rtc_l; [eapply (world_op _ _ _ _ _ _ UnlockMux _ tt); [reflexivity|reflexivity]|].
  eapply rtc_l; [eapply world_done; reflexivity|]. apply rtc_refl.
Qed.

Lemma firewall_up_to_date_witness :
  up_to_date "172.18.0.0/16" "br0" small_cluster
    (Some (reconcile "172.18.0.0/16" "br0" "*filter" [a_node "1.2.3.4"] kube_api core_dns core_dns_pods)).
Proof.
  refine (firewall_up_to_date "172.18.0.0/16" "br0" same_addresses same_subsets same_addresses_sound
    same_subsets_sound _ (first_reconciliation "172.18.0.0/16" "br0" same_addresses same_subsets
      small_cluster [a_node "1.2.3.4"] kube_api core_dns core_dns_pods "*filter" _ _ _ _ _) _ _ _ _).
  - by apply map_Forall_singleton.
  - reflexivity.
  - reflexivity.
  - reflexivity.
  - reflexivity.
  - reflexivity.
  - reflexivity.
  - by intros ev ?%not_elem_of_nil.
  - reflexivity.
Defined.
