(* ===== verification/FirewallExec.v ===== *)
(** * Running iptables in a container

    [pkg/firewall/docker_exec.go]: how the firewall's table is read, written and
    changed by commands in a proxy container. *)
From S2P Require Export Errors GoStrings.

(** Operations of the Docker client, of the attached connection and of [stdcopy]. *)
Inductive exec_op : Type -> Type :=
| ContainerExecCreate (container : string) (AttachStdin : bool) (Cmd : list string) : exec_op (result string)
| ContainerExecAttach (id : string) : exec_op (option go_error)
| ConnWrite (input : string) : exec_op (option go_error)
| CloseWrite : exec_op (option go_error)
| StdCopy : exec_op (result (string * string))
| ContainerExecInspect (id : string) : exec_op (result Z)
| CloseConn : exec_op unit.

Notation execM := (proc exec_op).

(** Once the connection is attached; [resp.Close] is deferred. *)
Definition execAttached (id input : string) : execM (result string) :=
  w ← (if bool_decide (input = "") then Ret (@None go_error)
       else
         e ← trigger (ConnWrite input);
         match e with
         | Some err => Ret (Some (Errorf "failed to write exec stdin: %w" [err]))
         | None =>
             e ← trigger CloseWrite;
             Ret match e with
                 | Some err => Some (Errorf "failed to close stdin: %w" [err])
                 | None => None
                 end
         end);
  match w with
  | Some err => Ret (Err err)
  | None =>
      out ← trigger StdCopy;
      match out with
      | Err err => Ret (Err (Errorf "failed to read exec output: %w" [err]))
      | Ok (stdout, stderr) =>
          i ← trigger (ContainerExecInspect id);
          Ret match i with
              | Err err => Err (Errorf "failed to inspect exec for status code: %w" [err])
              | Ok ExitCode =>
                  if negb (ExitCode =? 0)
                  then Err (Errorf "failed to execute command, exitCode: %d, stdout: %s, stderr: %s" [])
                  else Ok stdout
              end
      end
  end.

Definition exec_ (container : string) (args : list string) (input : string) : execM (result string) :=
  c ← trigger (ContainerExecCreate container (negb (bool_decide (input = ""))) args);
  match c with
  | Err err => Ret (Err (Errorf "failed to create exec: %w" [err]))
  | Ok id =>
      a ← trigger (ContainerExecAttach id);
      match a with
      | Some err => Ret (Err (Errorf "failed to attach to exec: %w" [err]))
      | None =>
          r ← execAttached id input;
          _ ← trigger CloseConn;
          Ret r
      end
  end.

Section iptables.
(** The name of the proxy container. *)
Context (containerName : string).

Definition GetState : execM (result string) :=
  exec_ containerName ["iptables-save"; "--table"; "filter"] "".

Definition WriteState (state : string) : execM (option go_error) :=
  r ← exec_ containerName ["iptables-restore"; "--table"; "filter"] state;
  Ret match r with Err err => Some err | Ok _ => None end.

Definition ExecIPTables (args : list string) : execM (option go_error) :=
  r ← exec_ containerName ("iptables" :: args) "";
  Ret match r with Err err => Some err | Ok _ => None end.
End iptables.

(** ** What a container receives *)
Inductive exec_event :=
| XCreate (Cmd : list string) (stdin : bool)
| XStdin (input : string)
| XEof
| XExit (code : result Z)
| XClose.

Definition exec_events (X : Type) (op : exec_op X) : X -> list exec_event :=
  match op in exec_op X return X -> list exec_event with
  | ContainerExecCreate _ stdin args => fun _ => [XCreate args stdin]
  | ContainerExecAttach _ => fun _ => []
  | ConnWrite input => fun e => match e with None => [XStdin input] | Some _ => [] end
  | CloseWrite => fun e => match e with None => [XEof] | Some _ => [] end
  | StdCopy => fun _ => []
  | ContainerExecInspect _ => fun r => [XExit r]
  | CloseConn => fun _ => [XClose]
  end.

Definition exec_observed (X : Type) (op : exec_op X) (tr : list exec_event) (x : X)
    (tr' : list exec_event) : Prop := tr' = tr ++ exec_events X op x.

(** A table counts as written only if iptables-restore was given the whole of it and the end of its
    input, and has exited with 0. *)
Theorem WriteState_success name state tr :
  runs exec_observed (WriteState name state) [] None tr -> state <> "" ->
  tr = [XCreate ["iptables-restore"; "--table"; "filter"] true; XStdin state; XEof; XExit (Ok 0); XClose].
Proof.
  intros Hr Hs. unfold WriteState in Hr. apply runs_bind in Hr as (r & tr1 & Hr & He & <-).
  destruct r as [out|]; [|done]. clear He.
  unfold exec_ in Hr. rewrite bool_decide_eq_false_2 in Hr by done. cbn in Hr.
  destruct Hr as (c & tr2 & -> & Hr). destruct c as [id|]; [|by destruct Hr]. cbn in Hr.
  destruct Hr as (a & tr3 & -> & Hr). destruct a; [by destruct Hr|].
  apply runs_bind in Hr as (r & tr4 & Hr & Hc). cbn in Hc. destruct Hc as (u & tr5 & -> & -> & ->).
  unfold execAttached in Hr. rewrite bool_decide_eq_false_2 in Hr by done. cbn in Hr.
  destruct Hr as (e & tr6 & -> & Hr). destruct e; [by destruct Hr|]. cbn in Hr.
  destruct Hr as (e & tr7 & -> & Hr). destruct e; [by destruct Hr|]. cbn in Hr.
  destruct Hr as (o & tr8 & -> & Hr). destruct o as [[so se]|]; [|by destruct Hr]. cbn in Hr.
  destruct Hr as (i & tr9 & -> & Hr & ->). destruct i as [code|]; [|done].
  destruct (code =? 0) eqn:Hc; [|done]. apply Z.eqb_eq in Hc. by rewrite Hc.
Qed.
