(* ===== verification/Shutdown.v ===== *)
(** * Graceful shutdown

    The end of [main] in [cmd/invoker/main.go]: its sequence of calls, next to
    the goroutines that read messages, handle requests, refresh the blocked
    namespaces and write activations.  An invocation is what it uses of the
    parts that are shut down; what it does in between is in KafkaRunner.v,
    HttpRunner.v and Runner.v.  [http.Server.Shutdown] refuses new requests and
    waits for those in flight, and the shutdown of the informers waits for
    their context, as documented. *)
From S2P Require Export Batcher.

(** ** The sequence of [main] *)
Inductive statement :=
| Sleep
| CancelInnerWork
| ShutdownServer
| WaitGroup
| CancelHelperWork
| ShutdownPool
| CloseKafkaReader
| CloseKafkaWriter
| ShutdownActivationWriter
| ShutdownInformers.

(** The calls after the [select], in their order. *)
Definition shutdownSequence : list statement :=
  [Sleep; CancelInnerWork; ShutdownServer; WaitGroup; CancelHelperWork; ShutdownPool;
   CloseKafkaReader; CloseKafkaWriter; ShutdownActivationWriter; ShutdownInformers].

(** Where [main] is: in the [select], or before or in the first of the calls that are left. *)
Inductive main_pc :=
| Selecting
| Before (todo : list statement)
| Inside (call : statement) (todo : list statement).

(** What invocations use that is shut down, the channel of the activation writer apart. *)
Inductive resource := ContainerPool | KafkaReader | KafkaWriter.

#[export] Instance resource_eq_dec : EqDecision resource.
Proof. solve_decision. Defined.

Section shutdown.
Context {message : Type}.

(** A worker of the group. *)
Inductive kafka_worker :=
| Reading
| Invoking (m : message)
| Returned.

(** What the calls of [main] change. *)
Record controls := mkControls {
  ctxDone : bool;               (* the context of the group *)
  helperDone : bool;            (* the context of the informers *)
  stopping : bool;              (* the server has been told to shut down *)
  down : list resource
}.

(** The goroutines. *)
Record work := mkWork {
  kafkaWorkers : list kafka_worker;
  requests : list message;      (* handlers of requests *)
  listenerReturned : bool;
  refresherReturned : bool;
  received : list message;      (* all messages and requests so far *)
  served : list message;        (* those whose invocation has returned *)
  late : bool                   (* something was used after it had been shut down *)
}.

Record program := mkProgram {
  signalled : bool;
  pc : main_pc;
  ctl : controls;
  wrk : work;
  docs : list string * batcher  (* what was sent to the activation writer, and the writer *)
}.

(** The effect of a call at its start. *)
Definition begin_call (st : statement) (c : controls) (b : batcher) : controls * batcher :=
  let '(mkControls ctx helper stop d) := c in
  match st with
  | Sleep | WaitGroup | ShutdownInformers => (c, b)
  | CancelInnerWork => (mkControls true helper stop d, b)
  | ShutdownServer => (mkControls ctx helper true d, b)
  | CancelHelperWork => (mkControls ctx true stop d, b)
  | ShutdownPool => (mkControls ctx helper stop (ContainerPool :: d), b)
  | CloseKafkaReader => (mkControls ctx helper stop (KafkaReader :: d), b)
  | CloseKafkaWriter => (mkControls ctx helper stop (KafkaWriter :: d), b)
  | ShutdownActivationWriter => (c, mkBatcher (activations b) true (workers b) (written b))
  end.

Definition isReturned (w : kafka_worker) : bool :=
  match w with Returned => true | _ => false end.

(** Whether a call can return. *)
Definition returns (st : statement) (c : controls) (w : work) (b : batcher) : bool :=
  match st with
  | ShutdownServer => bool_decide (List.length (requests w) = 0)%nat
  | WaitGroup => forallb isReturned (kafkaWorkers w) && listenerReturned w && refresherReturned w
  | ShutdownActivationWriter => forallb snd (workers b)
  | ShutdownInformers => helperDone c
  | _ => true
  end.

Definition invoked (k : kafka_worker) : option message :=
  match k with Invoking m => Some m | _ => None end.

(** The invocations that have not returned, through Kafka or requests. *)
Definition inFlight (w : work) : list message := omap invoked (kafkaWorkers w) ++ requests w.

Definition set_worker (i : nat) (k : kafka_worker) (w : work) : work :=
  mkWork (<[i := k]> (kafkaWorkers w)) (requests w) (listenerReturned w) (refresherReturned w)
    (received w) (served w) (late w).

Definition receive (m : message) (w : work) : work :=
  mkWork (kafkaWorkers w) (requests w) (listenerReturned w) (refresherReturned w)
    (received w ++ [m]) (served w) (late w).

Definition serve (m : message) (w : work) : work :=
  mkWork (kafkaWorkers w) (requests w) (listenerReturned w) (refresherReturned w)
    (received w) (served w ++ [m]) (late w).

Definition set_requests (l : list message) (w : work) : work :=
  mkWork (kafkaWorkers w) l (listenerReturned w) (refresherReturned w) (received w) (served w) (late w).

Definition set_late (l : bool) (w : work) : work :=
  mkWork (kafkaWorkers w) (requests w) (listenerReturned w) (refresherReturned w)
    (received w) (served w) (late w || l).

Definition set_returned (listener refresher : bool) (w : work) : work :=
  mkWork (kafkaWorkers w) (requests w) listener refresher (received w) (served w) (late w).

Definition cancel_ctx (c : controls) : controls :=
  mkControls true (helperDone c) (stopping c) (down c).

(** What the goroutine of the server returns, given the error of [ListenAndServeTLS]; an error it
    returns cancels the context of the group. *)
Definition ErrServerClosed : go_error := Sentinel "http.ErrServerClosed".

Definition listen (err : go_error) : option go_error :=
  if errors_Is err "http.ErrServerClosed" then None
  else Some (Errorf "failed running HTTP health server: %w" [err]).

Definition group_error (err : option go_error) (c : controls) : controls :=
  match err with Some _ => cancel_ctx c | None => c end.

Definition isDown (c : controls) (r : resource) : bool := bool_decide (r ∈ down c).

(** The steps of the goroutines.  [n] is the capacity of the channel of activations. *)
Inductive work_step (n : nat) :
    controls * work * (list string * batcher) -> controls * work * (list string * batcher) -> Prop :=
| worker_reads c w d i m :
    kafkaWorkers w !! i = Some Reading ->
    work_step n (c, w, d)
      (c, receive m (set_worker i (Invoking m) (set_late (isDown c KafkaReader) w)), d)
  (* an error other than that of the context, or a message that cannot be parsed *)
| worker_continues c w d i :
    kafkaWorkers w !! i = Some Reading ->
    work_step n (c, w, d) (c, set_late (isDown c KafkaReader) w, d)
| worker_returns c w d i :
    kafkaWorkers w !! i = Some Reading -> ctxDone c = true ->
    work_step n (c, w, d) (c, set_worker i Returned w, d)
| worker_answers c w d i m :
    kafkaWorkers w !! i = Some (Invoking m) ->
    work_step n (c, w, d) (c, set_late (isDown c KafkaWriter) w, d)
| worker_finishes c w d i m :
    kafkaWorkers w !! i = Some (Invoking m) ->
    work_step n (c, w, d) (c, serve m (set_worker i Reading w), d)
| request_arrives c w d m :
    stopping c = false ->
    work_step n (c, w, d) (c, receive m (set_requests (m :: requests w) w), d)
| request_finishes c w d m l l' :
    requests w = l ++ m :: l' ->
    work_step n (c, w, d) (c, serve m (set_requests (l ++ l') w), d)
| invocation_uses_pool c w d m :
    m ∈ inFlight w -> work_step n (c, w, d) (c, set_late (isDown c ContainerPool) w, d)
| invocation_writes c w d m doc d' :
    m ∈ inFlight w -> closed d.2 = false -> batch_step n d d' -> d'.1 = d.1 ++ [doc] ->
    work_step n (c, w, d) (c, w, d')
  (* a send to a closed channel panics *)
| invocation_panics c w d m :
    m ∈ inFlight w -> closed d.2 = true -> work_step n (c, w, d) (c, set_late true w, d)
  (* [ListenAndServeTLS] reports [ErrServerClosed] only once it has been told to shut down *)
| listener_returns c w d err :
    listenerReturned w = false -> (listen err = None -> stopping c = true) ->
    work_step n (c, w, d) (group_error (listen err) c, set_returned true (refresherReturned w) w, d)
| refresher_returns c w d :
    ctxDone c = true -> work_step n (c, w, d) (c, set_returned (listenerReturned w) true w, d)
| writer_works c w d d' :
    batch_step n d d' -> d'.1 = d.1 -> closed d'.2 = closed d.2 ->
    work_step n (c, w, d) (c, w, d').

(** The program: the signal, the goroutines, and [main]. *)
Inductive program_step (n : nat) : program -> program -> Prop :=
| step_signal s :
    program_step n s (mkProgram true (pc s) (ctl s) (wrk s) (docs s))
| step_work s c' w' d' :
    work_step n (ctl s, wrk s, docs s) (c', w', d') ->
    program_step n s (mkProgram (signalled s) (pc s) c' w' d')
| step_select s :
    pc s = Selecting -> signalled s || ctxDone (ctl s) = true ->
    program_step n s (mkProgram (signalled s) (Before shutdownSequence) (ctl s) (wrk s) (docs s))
| step_call s st todo c' b' :
    pc s = Before (st :: todo) -> begin_call st (ctl s) (docs s).2 = (c', b') ->
    program_step n s (mkProgram (signalled s) (Inside st todo) c' (wrk s) ((docs s).1, b'))
| step_return s st todo :
    pc s = Inside st todo -> returns st (ctl s) (wrk s) (docs s).2 = true ->
    program_step n s (mkProgram (signalled s) (Before todo) (ctl s) (wrk s) (docs s)).

(** [k] workers and an activation writer for [n] processors, before any message. *)
Definition program_start (n k : nat) : program :=
  mkProgram false Selecting (mkControls false false false [])
    (mkWork (replicate k Reading) [] false false [] [] false) ([], NewActivationBatcher n).

Definition program_reachable (n k : nat) : program -> Prop := rtc (program_step n) (program_start n k).

(** [main] has returned. *)
Definition exited (s : program) : bool := match pc s with Before [] => true | _ => false end.

(** The cases of a step of a goroutine. *)
#[local] Ltac step_cases Hs :=
  inversion Hs; subst;
  try match goal with |- context [group_error (listen ?e) _] => destruct (listen e); cbn [group_error] end.

(** ** Invariants *)
Definition quiet (c : controls) (w : work) : Prop :=
  stopping c = true /\ Forall (fun k => isReturned k = true) (kafkaWorkers w) /\ requests w = [].

(** What a call has achieved once it is called, and once it has returned. *)
Definition called (st : statement) (c : controls) (b : batcher) : Prop :=
  match st with
  | CancelInnerWork => ctxDone c = true
  | ShutdownServer => stopping c = true
  | CancelHelperWork => helperDone c = true
  | ShutdownActivationWriter => closed b = true
  | _ => True
  end.

Definition achieved (st : statement) (c : controls) (w : work) (b : batcher) : Prop :=
  called st c b /\
  match st with
  | ShutdownServer => requests w = []
  | WaitGroup => Forall (fun k => isReturned k = true) (kafkaWorkers w) /\
                 listenerReturned w = true /\ refresherReturned w = true
  | ShutdownActivationWriter => Forall (fun p => p.2 = true) (workers b)
  | _ => True
  end.

Definition position_ok (p : main_pc) (c : controls) (w : work) (b : batcher) : Prop :=
  match p with
  | Selecting => True
  | Before todo => exists past, shutdownSequence = past ++ todo /\
      Forall (fun st => achieved st c w b) past
  | Inside st todo => exists past, shutdownSequence = past ++ st :: todo /\
      Forall (fun st => achieved st c w b) past /\ called st c b
  end.

Record program_inv (n : nat) (s : program) : Prop := {
  pi_once : received (wrk s) ≡ₚ served (wrk s) ++ inFlight (wrk s);
  pi_late : late (wrk s) = false;
  pi_quiet : down (ctl s) <> [] \/ closed (docs s).2 = true -> quiet (ctl s) (wrk s);
  pi_docs : batcher_reachable n (docs s);
  pi_position : position_ok (pc s) (ctl s) (wrk s) (docs s).2
}.

Lemma quiet_none c w : quiet c w -> inFlight w = [].
Proof using.
  intros (_ & Hw & Hr). unfold inFlight. rewrite Hr, app_nil_r. clear Hr.
  induction Hw as [|k l Hk _ IH]; [done|]. by destruct k.
Qed.

Lemma inFlight_worker w i k : kafkaWorkers w !! i = Some k ->
  exists rest, inFlight w ≡ₚ option_list (invoked k) ++ rest /\
    forall k', inFlight (set_worker i k' w) ≡ₚ option_list (invoked k') ++ rest.
Proof using.
  intros Hi. exists (omap invoked (take i (kafkaWorkers w)) ++
    omap invoked (drop (S i) (kafkaWorkers w)) ++ requests w).
  assert (Hom : forall x, omap invoked (take i (kafkaWorkers w) ++ x :: drop (S i) (kafkaWorkers w)) ++ requests w
    ≡ₚ option_list (invoked x) ++ omap invoked (take i (kafkaWorkers w)) ++
       omap invoked (drop (S i) (kafkaWorkers w)) ++ requests w).
  { intros x. rewrite omap_app, <- (assoc (++)). cbn. destruct (invoked x); cbn; [|done].
    by rewrite <- Permutation_middle. }
  unfold inFlight. split.
  - by rewrite <- Hom, take_drop_middle.
  - intros k'. cbn [kafkaWorkers set_worker requests].
    by rewrite insert_take_drop, Hom by (by eapply lookup_lt_Some).
Qed.

Lemma worker_not_quiet c w i k :
  kafkaWorkers w !! i = Some k -> isReturned k = false -> ~ quiet c w.
Proof using.
  intros Hi Hk (_ & Hw & _). pose proof (Forall_lookup_1 _ _ _ _ Hw Hi). cbn in *. congruence.
Qed.

Lemma inFlight_not_quiet c w m : m ∈ inFlight w -> ~ quiet c w.
Proof using. intros Hm Hq. rewrite (quiet_none _ _ Hq) in Hm. by apply elem_of_nil in Hm. Qed.

(** The achievements of [main] are stable under the steps of the goroutines. *)
Lemma batch_step_stable n d d' :
  batch_step n d d' -> closed d'.2 = closed d.2 ->
  Forall (fun p => p.2 = true) (workers d.2) -> Forall (fun p => p.2 = true) (workers d'.2).
Proof using.
  intros Hs Hc Hw. destruct Hs; cbn in *; try done;
    [pose proof (Forall_lookup_1 _ _ _ _ Hw H0); done| | ].
  - apply Forall_insert; [done|]. exact (Forall_lookup_1 _ _ _ _ Hw H).
  - by apply Forall_insert.
Qed.

Lemma called_stable n c w d c' w' d' st :
  work_step n (c, w, d) (c', w', d') -> called st c d.2 -> called st c' d'.2.
Proof using.
  intros Hs. step_cases Hs; try done; destruct st; cbn; congruence || done.
Qed.

Lemma achieved_stable n c w d c' w' d' st :
  work_step n (c, w, d) (c', w', d') -> achieved st c w d.2 -> achieved st c' w' d'.2.
Proof using.
  intros Hs [Hc Ha]. split; [by eapply called_stable|].
  destruct st; try done; cbn in Hc.
  - step_cases Hs; cbn in *; try done; try congruence.
    match goal with H : requests _ = ?l ++ _ |- _ => rewrite Ha in H; by destruct l end.
  - destruct Ha as (Hw & Hl & Hr). step_cases Hs; cbn in *; try done;
      match goal with H : kafkaWorkers _ !! _ = Some _ |- _ =>
        pose proof (Forall_lookup_1 _ _ _ _ Hw H); done end.
  - step_cases Hs; cbn in *; try done; [congruence|].
    by eapply batch_step_stable.
Qed.

Lemma work_step_docs n c w d c' w' d' :
  work_step n (c, w, d) (c', w', d') ->
  closed d'.2 = closed d.2 /\ down c' = down c /\ (d' = d \/ batch_step n d d').
Proof using.
  intros Hs. step_cases Hs; split_and!; try done; eauto.
  match goal with H : batch_step n _ _ |- _ => destruct H end; cbn in *; try done.
  all: match goal with H : ?l = ?l ++ [_] |- _ =>
    by apply (f_equal (@List.length _)) in H; rewrite length_app in H; cbn in H; lia end.
Qed.

Lemma work_step_once n c w d c' w' d' :
  work_step n (c, w, d) (c', w', d') ->
  received w ≡ₚ served w ++ inFlight w -> received w' ≡ₚ served w' ++ inFlight w'.
Proof using.
  intros Hs Ho. step_cases Hs; try done;
    try (match goal with H : kafkaWorkers w !! ?i = Some ?k |- _ =>
      destruct (inFlight_worker w i k H) as (rest & Hr & Hk) end; rewrite Hr in Ho; cbn in Ho).
  - change (received w ++ [m] ≡ₚ served w ++ inFlight (set_worker i (Invoking m) w)).
    rewrite Hk, Ho, <- (assoc (++)). cbn. by rewrite (Permutation_app_comm rest).
  - change (received w ≡ₚ served w ++ inFlight (set_worker i Returned w)). by rewrite Hk, Ho.
  - change (received w ≡ₚ (served w ++ [m]) ++ inFlight (set_worker i Reading w)).
    by rewrite Hk, Ho, <- (assoc (++)).
  - cbn. rewrite Ho. unfold inFlight. cbn. rewrite <- !(assoc (++)). do 2 f_equiv.
    by rewrite (Permutation_app_comm _ [m]).
  - cbn. rewrite Ho. unfold inFlight. cbn. rewrite <- !(assoc (++)).
    match goal with H : requests w = _ |- _ => rewrite H end.
    f_equiv. rewrite (Permutation_app_comm [m]), <- !(assoc (++)). do 2 f_equiv.
    by rewrite Permutation_app_comm.
Qed.

Lemma work_step_late n c w d c' w' d' :
  work_step n (c, w, d) (c', w', d') -> late w = false ->
  (down c <> [] \/ closed d.2 = true -> quiet c w) -> late w' = false.
Proof using.
  intros Hs Hl Hq.
  assert (Hup : forall r, ~ quiet c w -> late w || isDown c r = false).
  { intros r Hn. rewrite Hl. apply bool_decide_eq_false. intros Hr. apply Hn, Hq. left.
    intros Hd. rewrite Hd in Hr. by apply elem_of_nil in Hr. }
  step_cases Hs; try done; cbn; try apply Hup;
    try (by eapply worker_not_quiet); try (by eapply inFlight_not_quiet).
  exfalso. eapply inFlight_not_quiet; [done|]. apply Hq. by right.
Qed.

Lemma work_step_quiet n c w d c' w' d' :
  work_step n (c, w, d) (c', w', d') -> quiet c w -> quiet c' w'.
Proof using.
  intros Hs Hq. pose proof Hq as (Hst & Hw & Hr). step_cases Hs; try done;
    try (exfalso; eapply worker_not_quiet; [done| |done]; done); cbn in *; try congruence.
  rewrite Hr in *. by destruct l.
Qed.

Lemma work_step_position n p c w d c' w' d' :
  work_step n (c, w, d) (c', w', d') -> position_ok p c w d.2 -> position_ok p c' w' d'.2.
Proof using.
  intros Hs. destruct p as [|todo|st todo]; cbn; [done|..].
  - intros (past & Hp & Ha). exists past. split; [done|]. eapply Forall_impl; [done|].
    intros st. by eapply achieved_stable.
  - intros (past & Hp & Ha & Hc). exists past. split_and!; [done| |by eapply called_stable].
    eapply Forall_impl; [done|]. intros st'. by eapply achieved_stable.
Qed.

(** What is shut down after the group: by then the invocations are over. *)
Lemma past_quiet st past todo c w b :
  shutdownSequence = past ++ st :: todo -> Forall (fun st => achieved st c w b) past ->
  st ∈ [ShutdownPool; CloseKafkaReader; CloseKafkaWriter; ShutdownActivationWriter] -> quiet c w.
Proof using.
  intros Hp Ha Hst.
  assert (Hin : ShutdownServer ∈ past /\ WaitGroup ∈ past).
  { assert (Hat : shutdownSequence !! List.length past = Some st) by (rewrite Hp; by apply list_lookup_middle).
    assert (Hto : take (List.length past) shutdownSequence = past) by (rewrite Hp; by rewrite take_app_length).
    rewrite <- Hto. revert Hat. clear Hp Hto Ha. generalize (List.length past). intros i Hat.
    do 10 (destruct i as [|i]; cbn in Hat;
      [injection Hat as <-; first [exfalso; set_solver|split; cbn; set_solver]|]).
    done. }
  rewrite Forall_forall in Ha. destruct Hin as [H1 H2].
  destruct (Ha _ H1) as [Hs Hr], (Ha _ H2) as [_ (Hw & _ & _)]. by split_and!.
Qed.

Lemma begin_call_spec n st c w d c' b' past todo :
  begin_call st c d.2 = (c', b') -> shutdownSequence = past ++ st :: todo ->
  Forall (fun st => achieved st c w d.2) past -> batcher_reachable n d ->
  (down c <> [] \/ closed d.2 = true -> quiet c w) ->
  called st c' b' /\ Forall (fun st => achieved st c' w b') past /\ batcher_reachable n (d.1, b') /\
  (down c' <> [] \/ closed b' = true -> quiet c' w).
Proof using.
  intros Hb Hp Ha Hr Hq. destruct c as [ctx helper stop dn], d as [sent b].
  assert (Hsame : forall c2 b2, (forall st', achieved st' (mkControls ctx helper stop dn) w b -> achieved st' c2 w b2) ->
    Forall (fun st => achieved st c2 w b2) past).
  { intros c2 b2 Hi. eapply Forall_impl; [done|]. apply Hi. }
  destruct st; cbn in Hb; injection Hb as <- <-; cbn in *;
    (split_and!; [done|apply Hsame; intros [] []; by split| | ]); try done;
    try (intros _; eapply past_quiet; [done..|]; set_solver).
  - intros Hd. destruct (Hq Hd) as (_ & ? & ?). by split_and!.
  - eapply rtc_r; [done|]. apply batch_shutdown.
Qed.

Lemma program_step_inv n s s' : program_step n s s' -> program_inv n s -> program_inv n s'.
Proof using.
  intros Hs [H1 H2 H3 H4 H5]. destruct Hs as [s|s c' w' d' Hw|s Hp _|s st todo c' b' Hp Hb|s st todo Hp Hret].
  - by split.
  - destruct (work_step_docs _ _ _ _ _ _ _ Hw) as (Hc & Hd & Hdocs). split; cbn.
    + by eapply work_step_once.
    + by eapply work_step_late.
    + rewrite Hc, Hd. intros Hq. eapply work_step_quiet; [done|]. by apply H3.
    + destruct Hdocs as [->|Hst]; [done|]. by eapply rtc_r.
    + by eapply work_step_position.
  - split; try done. cbn. exists []. done.
  - rewrite Hp in H5. destruct H5 as (past & Hpast & Ha).
    destruct (begin_call_spec n _ _ (wrk s) (docs s) _ _ _ _ Hb Hpast Ha H4 H3) as (Hc & Ha' & Hr & Hq).
    split; try done. cbn. by exists past.
  - rewrite Hp in H5. destruct H5 as (past & Hpast & Ha & Hc). split; try done. cbn.
    exists (past ++ [st]). rewrite <- (assoc (++)). split; [done|]. apply Forall_app. split; [done|].
    apply Forall_singleton. split; [done|]. destruct st; try done; cbn in Hret.
    + apply bool_decide_eq_true in Hret. by apply nil_length_inv.
    + apply andb_prop in Hret as [[Hret Hl]%andb_prop Hre]. split_and!; [|done..].
      apply Forall_forall. intros k Hk. by eapply forallb_forall in Hret; [|by apply list_elem_of_In].
    + apply Forall_forall. intros q Hq. by eapply forallb_forall in Hret; [|by apply list_elem_of_In].
Qed.

Lemma program_start_inv n k : program_inv n (program_start n k).
Proof using.
  split; try done; cbn.
  - unfold inFlight. cbn. rewrite app_nil_r. induction k as [|k IH]; cbn; done.
  - by intros [|].
  - apply rtc_refl.
Qed.

Lemma program_reachable_inv n k s : program_reachable n k s -> program_inv n s.
Proof using.
  intros Hr. pose proof (program_start_inv n k) as Hi. induction Hr as [|s1 s2 s3 Hs _ IH]; [done|].
  by eapply IH, program_step_inv.
Qed.

(** ** The program can always return *)
Notation steps n := (rtc (work_step n)).

Lemma steps_program n s c' w' d' :
  steps n (ctl s, wrk s, docs s) (c', w', d') ->
  rtc (program_step n) s (mkProgram (signalled s) (pc s) c' w' d').
Proof using.
  destruct s as [sig p c w d]. cbn. intros Hs.
  remember (c, w, d) as x eqn:Hx. remember (c', w', d') as y eqn:Hy.
  revert c w d Hx. induction Hs as [x|x [[c1 w1] d1] y Hs _ IH]; intros; simplify_eq.
  - apply rtc_refl.
  - eapply rtc_l; [|by apply IH]. apply (step_work n (mkProgram sig p c w d)). done.
Qed.

Lemma requests_finish n c w d :
  exists w', steps n (c, w, d) (c, w', d) /\ requests w' = [] /\ kafkaWorkers w' = kafkaWorkers w.
Proof using.
  destruct (requests w) as [|m l] eqn:Hr.
  { exists w. split_and!; [apply rtc_refl|done..]. }
  revert w m Hr. induction l as [|m' l IH]; intros w m Hr.
  - eexists. split_and!; [apply rtc_once, (request_finishes n c w d m [] []); done|done..].
  - destruct (IH (serve m (set_requests (m' :: l) w)) m' eq_refl) as (w' & Hs & Hr' & Hk).
    exists w'. split_and!; [|done..]. eapply rtc_l; [|done].
    by apply (request_finishes n c w d m [] (m' :: l)).
Qed.

Lemma worker_ends n c w d i k :
  ctxDone c = true -> kafkaWorkers w !! i = Some k ->
  exists w', steps n (c, w, d) (c, w', d) /\ kafkaWorkers w' = <[i := Returned]> (kafkaWorkers w).
Proof using.
  intros Hc Hi. pose proof (lookup_lt_Some _ _ _ Hi) as Hlt. destruct k as [|m|].
  - eexists. split; [apply rtc_once; by apply worker_returns|done].
  - eexists. split; [|].
    + eapply rtc_l; [by eapply worker_finishes|]. apply rtc_once.
      apply (worker_returns n c (serve m (set_worker i Reading w)) d i); [|done].
      cbn. by apply list_lookup_insert_eq.
    + cbn. by rewrite list_insert_insert_eq.
  - exists w. split; [apply rtc_refl|]. by rewrite list_insert_id.
Qed.

Lemma workers_end n c w d :
  ctxDone c = true ->
  exists w', steps n (c, w, d) (c, w', d) /\ Forall (fun k => isReturned k = true) (kafkaWorkers w').
Proof using.
  intros Hc.
  assert (Hj : forall j, exists w', steps n (c, w, d) (c, w', d) /\
    List.length (kafkaWorkers w') = List.length (kafkaWorkers w) /\
    forall i k, (i < j)%nat -> kafkaWorkers w' !! i = Some k -> isReturned k = true).
  { induction j as [|j (w1 & Hs & Hlen & IH)]; [exists w; split_and!; [apply rtc_refl|done|lia]|].
    destruct (kafkaWorkers w1 !! j) as [k|] eqn:Hk.
    - destruct (worker_ends n c w1 d j k Hc Hk) as (w2 & Hs2 & Hw2). exists w2.
      split_and!; [by etrans|by rewrite Hw2, length_insert|]. rewrite Hw2. intros i k' Hi.
      destruct (decide (i = j)) as [->|]; [|rewrite list_lookup_insert_ne by done; apply IH; lia].
      rewrite list_lookup_insert_eq by (by eapply lookup_lt_Some). by intros [= <-].
    - exists w1. split_and!; [done..|]. intros i k Hi.
      destruct (decide (i = j)) as [->|]; [congruence|]. apply IH; lia. }
  destruct (Hj (List.length (kafkaWorkers w))) as (w' & Hs & Hlen & Hall).
  exists w'. split; [done|]. apply Forall_lookup. intros i k Hk. eapply Hall; [|done].
  rewrite <- Hlen. by eapply lookup_lt_Some.
Qed.

Lemma group_ends n c w d :
  ctxDone c = true -> stopping c = true ->
  exists w', steps n (c, w, d) (c, w', d) /\ returns WaitGroup c w' d.2 = true.
Proof using.
  intros Hc Hst. destruct (workers_end n c w d Hc) as (w1 & Hs & Hall).
  exists (set_returned true true w1). split.
  - etrans; [exact Hs|]. destruct (listenerReturned w1) eqn:Hl.
    + apply rtc_once. pose proof (refresher_returns n c w1 d Hc) as Hr. by rewrite Hl in Hr.
    + eapply rtc_l; [by apply (listener_returns n c w1 d ErrServerClosed)|]. apply rtc_once.
      exact (refresher_returns n c (set_returned true _ w1) d Hc).
  - cbn. rewrite !andb_true_r. apply forallb_forall. intros k Hk%list_elem_of_In.
    rewrite Forall_forall in Hall. by apply Hall.
Qed.

(** The activation writer, once its channel is closed, empties it and ends. *)
Definition quiet_batch_step (n : nat) (d d' : list string * batcher) : Prop :=
  batch_step n d d' /\ d'.1 = d.1 /\ closed d'.2 = closed d.2.

Lemma writer_steps n c w d d' : rtc (quiet_batch_step n) d d' -> steps n (c, w, d) (c, w, d').
Proof using.
  induction 1 as [d|d d1 d' (Hs & H1 & H2) _ IH]; [apply rtc_refl|].
  eapply rtc_l; [|exact IH]. by apply writer_works.
Qed.

Lemma channel_drains n d i w :
  closed d.2 = true -> workers d.2 !! i = Some (w, false) ->
  exists d', rtc (quiet_batch_step n) d d' /\ closed d'.2 = true /\ activations d'.2 = [].
Proof using.
  destruct d as [sent b]. cbn. remember (activations b) as l eqn:Hl. revert b w Hl.
  induction l as [|doc l IH]; intros b w Hl Hc Hw; [exists (sent, b); by split_and!; [apply rtc_refl|..]|].
  edestruct (IH (mkBatcher l (closed b) (<[i := ((addActivation w doc).2, false)]> (workers b))
    (record_write (addActivation w doc).1 (written b)))) as (d' & Hs & Hc' & Ha); [done|done| |].
  { cbn. apply list_lookup_insert_eq. by eapply lookup_lt_Some. }
  exists d'. split_and!; [|done..]. eapply rtc_l; [|exact Hs]. split_and!; [|done..].
  by apply batch_take.
Qed.

Lemma writers_end n d :
  closed d.2 = true -> activations d.2 = [] ->
  exists d', rtc (quiet_batch_step n) d d' /\ forallb snd (workers d'.2) = true.
Proof using.
  intros Hc Ha.
  assert (Hj : forall j, exists d', rtc (quiet_batch_step n) d d' /\
    closed d'.2 = true /\ activations d'.2 = [] /\
    List.length (workers d'.2) = List.length (workers d.2) /\
    forall i p, (i < j)%nat -> workers d'.2 !! i = Some p -> p.2 = true).
  { induction j as [|j (d1 & Hs & Hc1 & Ha1 & Hlen & IH)]; [exists d; split_and!; [apply rtc_refl|done..|lia]|].
    destruct d1 as [sent b]. cbn in *.
    assert (Hne : forall i p, (i < S j)%nat -> i <> j -> workers b !! i = Some p -> p.2 = true)
      by (intros i p ? ?; apply IH; lia).
    destruct (workers b !! j) as [[w [|]]|] eqn:Hw.
    - exists (sent, b). split_and!; [done..|]. cbn. intros i p Hi.
      destruct (decide (i = j)) as [->|]; [rewrite Hw; by intros [= <-]|by apply Hne].
    - eexists (sent, mkBatcher [] true (<[j := ((flush w).2, true)]> (workers b)) _).
      split_and!; [eapply rtc_r; [done|]; split_and!; [by apply batch_end|done|done]|done|done| |]; cbn.
      + by rewrite length_insert.
      + intros i p Hi. destruct (decide (i = j)) as [->|]; [|rewrite list_lookup_insert_ne by done; by apply Hne].
        rewrite list_lookup_insert_eq by (by eapply lookup_lt_Some). by intros [= <-].
    - exists (sent, b). split_and!; [done..|]. cbn. intros i p Hi.
      destruct (decide (i = j)) as [->|]; [congruence|by apply Hne]. }
  destruct (Hj (List.length (workers d.2))) as (d' & Hs & _ & _ & Hlen & Hall).
  exists d'. split; [done|]. apply forallb_forall. intros p [i Hi]%list_elem_of_In%list_elem_of_lookup_1.
  eapply Hall; [|done]. rewrite <- Hlen. by eapply lookup_lt_Some.
Qed.

Lemma writer_ends n c w d :
  closed d.2 = true ->
  exists d', steps n (c, w, d) (c, w, d') /\ returns ShutdownActivationWriter c w d'.2 = true.
Proof using.
  intros Hc. destruct (forallb snd (workers d.2)) eqn:Hf; [exists d; by split; [apply rtc_refl|]|].
  assert (Hex : exists i p, workers d.2 !! i = Some (p, false)).
  { apply not_true_iff_false in Hf. revert Hf. clear. induction (workers d.2) as [|[p []] l IH]; cbn; [done|..].
    - intros Hf. destruct (IH Hf) as (i & q & Hq). by exists (S i), q.
    - intros _. by exists 0%nat, p. }
  destruct Hex as (i & p & Hp).
  destruct (channel_drains n d i p Hc Hp) as (d1 & Hs1 & Hc1 & Ha1).
  destruct (writers_end n d1 Hc1 Ha1) as (d2 & Hs2 & Hf2).
  exists d2. split; [|done]. apply writer_steps. by etrans.
Qed.

(** Every call of [main] returns, if the goroutines get to run. *)
Lemma call_returns n st past todo c w d :
  shutdownSequence = past ++ st :: todo -> Forall (fun st => achieved st c w d.2) past ->
  called st c d.2 ->
  exists w' d', steps n (c, w, d) (c, w', d') /\ returns st c w' d'.2 = true.
Proof using.
  intros Hp Ha Hc.
  assert (Hat : shutdownSequence !! List.length past = Some st) by (rewrite Hp; by apply list_lookup_middle).
  assert (Hto : take (List.length past) shutdownSequence = past) by (rewrite Hp; by rewrite take_app_length).
  assert (Hpast : forall st', st' ∈ take (List.length past) shutdownSequence -> called st' c d.2).
  { rewrite Hto, Forall_forall in *. intros st' Hst. by destruct (Ha _ Hst). }
  clear Hp Hto Ha. generalize dependent (List.length past). intros i Hat Hpast.
  destruct st; cbn in Hc; try (exists w, d; split; [apply rtc_refl|done]).
  - destruct (requests_finish n c w d) as (w' & Hs & Hr & _). exists w', d. split; [done|].
    cbn. by rewrite Hr.
  - assert (Hi : i = 3%nat) by (do 10 (destruct i as [|i]; [done|]); done). subst i.
    destruct (group_ends n c w d) as (w' & Hs & Hr);
      [apply (Hpast CancelInnerWork)|apply (Hpast ShutdownServer)|by exists w', d]; cbn; set_solver.
  - destruct (writer_ends n c w d Hc) as (d' & Hs & Hr). by exists w, d'.
  - assert (Hi : i = 9%nat) by (do 10 (destruct i as [|i]; [done|]); done). subst i.
    exists w, d. split; [apply rtc_refl|]. apply (Hpast CancelHelperWork). cbn. set_solver.
Qed.

Lemma main_runs n s todo :
  program_inv n s -> pc s = Before todo -> exists s', rtc (program_step n) s s' /\ exited s' = true.
Proof using.
  revert s. induction todo as [|st todo IH]; intros s Hi Hp.
  { exists s. split; [apply rtc_refl|]. unfold exited. by rewrite Hp. }
  destruct (begin_call st (ctl s) (docs s).2) as [c1 b1] eqn:Hb.
  set (s1 := mkProgram (signalled s) (Inside st todo) c1 (wrk s) ((docs s).1, b1)).
  assert (Hs1 : program_step n s s1) by by apply step_call.
  pose proof (program_step_inv _ _ _ Hs1 Hi) as Hi1.
  destruct (pi_position _ _ Hi1) as (past & Hpast & Ha & Hc).
  destruct (call_returns n st past todo _ _ _ Hpast Ha Hc) as (w' & d' & Hs & Hr).
  apply (steps_program n s1) in Hs.
  set (s2 := mkProgram (signalled s1) (pc s1) (ctl s1) w' d') in Hs.
  set (s3 := mkProgram (signalled s) (Before todo) c1 w' d').
  assert (Hs3 : program_step n s2 s3) by by apply (step_return n s2 st todo).
  assert (Hrun : rtc (program_step n) s s3) by (eapply rtc_l; [done|]; by eapply rtc_r).
  destruct (IH s3) as (s' & Hs' & He); [|done|exists s'; split; [by etrans|done]].
  clear -Hrun Hi. induction Hrun; [done|]. by eapply IHHrun, program_step_inv.
Qed.

(** C19: once a signal has arrived or a part of the group has failed, the shutdown never gets stuck: from every
    state the program can be in, whatever the workers, requests and writers are doing, it can go on
    until [main] returns. *)
Theorem shutdown_completes n k s :
  program_reachable n k s -> signalled s || ctxDone (ctl s) = true ->
  exists s', rtc (program_step n) s s' /\ exited s' = true.
Proof using.
  intros Hr Hsig. pose proof (program_reachable_inv _ _ _ Hr) as Hi.
  destruct (pc s) as [|todo|st todo] eqn:Hp.
  - pose proof (step_select n s Hp Hsig) as Hs. edestruct main_runs as (s' & Hs' & He);
      [by eapply program_step_inv|done|]. exists s'. split; [by eapply rtc_l|done].
  - by eapply main_runs.
  - pose proof (pi_position _ _ Hi) as Hpos. rewrite Hp in Hpos. destruct Hpos as (past & Hpast & Ha & Hc).
    destruct (call_returns n st past todo _ _ _ Hpast Ha Hc) as (w' & d' & Hs & Hret).
    apply steps_program in Hs. rewrite Hp in Hs.
    set (s2 := mkProgram _ _ _ _ _) in Hs.
    pose proof (step_return n s2 st todo eq_refl Hret) as Hs3.
    edestruct main_runs as (s' & Hs' & He);
      [eapply program_step_inv; [exact Hs3|]|done|exists s'; split; [etrans; [exact Hs|by eapply rtc_l]|done]].
    clear -Hs Hi. induction Hs; [done|]. by eapply IHHs, program_step_inv.
Qed.

(** A worker of the activation writer ends only after the channel is closed and empty. *)
Definition ended_ok (b : batcher) : Prop :=
  Forall (fun p => p.2 = true -> closed b = true /\ activations b = []) (workers b).

Lemma batcher_ended n d : batcher_reachable n d -> ended_ok d.2 /\ List.length (workers d.2) = n.
Proof using.
  unfold batcher_reachable. revert d.
  apply (rtc_ind_r (fun d => ended_ok d.2 /\ List.length (workers d.2) = n)); [|intros d d' _ Hs IH].
  { split; [by apply Forall_replicate|apply length_replicate]. }
  destruct IH as [He Hlen]. unfold ended_ok in *. destruct Hs; cbn in *;
    rewrite ?length_insert; (split; [|done]).
  - eapply Forall_impl; [done|]. cbn. intros p Hp Hend. destruct (Hp Hend); congruence.
  - apply Forall_insert; [|done]. eapply Forall_impl; [done|]. cbn. intros p Hp Hend.
    destruct (Hp Hend); congruence.
  - apply Forall_insert; [done|]. exact (Forall_lookup_1 _ _ _ _ He H).
  - eapply Forall_impl; [done|]. cbn. intros p Hp Hend. by destruct (Hp Hend).
  - apply Forall_insert; [|done]. eapply Forall_impl; [done|]. by split.
Qed.

Lemma all_ended_written n d :
  (0 < n)%nat -> batcher_reachable n d -> Forall doc_ok d.1 ->
  Forall (fun p => p.2 = true) (workers d.2) -> d.1 ≡ₚ concat (written d.2).
Proof using.
  intros Hn Hr Hd Hw. destruct (batcher_ended n d Hr) as [He Hlen].
  pose proof (batch_steps_inv _ _ _ Hr Hd (new_batcher_inv n)) as Hi.
  assert (Ha : activations d.2 = []).
  { destruct (workers d.2) as [|p l] eqn:Hl; [cbn in Hlen; lia|]. unfold ended_ok in He. rewrite Hl in He.
    apply Forall_cons in He as [He _], Hw as [Hw _]. by apply He. }
  rewrite (bi_once _ _ Hi), Ha, app_nil_r.
  assert (pending d.2 = []) as ->; [|by rewrite app_nil_r].
  pose proof (bi_ended _ _ Hi) as Hb. unfold pending. clear -Hw Hb.
  induction Hw as [|p l Hp _ IH]; [done|]. apply Forall_cons in Hb as [Hb Hb']. cbn.
  rewrite (Hb Hp). by apply IH.
Qed.

(** C13: shutting down loses no work. In every interleaving, no invocation uses the container pool
    or Kafka, or sends to the channel of activations, which would panic, after it has been shut
    down or closed; when one of them is, no invocation is in flight; every message or request that
    was received is either being served or has been served; and when [main] returns, all have
    been served, and each of their activations was in exactly one request to the database. *)
Theorem shutdown_loses_nothing n k s :
  (0 < n)%nat -> program_reachable n k s -> Forall doc_ok (docs s).1 ->
  late (wrk s) = false /\
  received (wrk s) ≡ₚ served (wrk s) ++ inFlight (wrk s) /\
  (down (ctl s) <> [] \/ closed (docs s).2 = true -> inFlight (wrk s) = []) /\
  (exited s = true -> received (wrk s) ≡ₚ served (wrk s) /\ (docs s).1 ≡ₚ concat (written (docs s).2)).
Proof using.
  intros Hn Hr Hd. pose proof (program_reachable_inv _ _ _ Hr) as [H1 H2 H3 H4 H5].
  split_and!; [done|done|intros Hq; by apply (quiet_none (ctl s)), H3|].
  unfold exited. destruct (pc s) as [|[|]|]; try done. intros _.
  destruct H5 as (past & Hp & Ha). rewrite app_nil_r in Hp. subst past.
  rewrite Forall_forall in Ha.
  destruct (Ha ShutdownActivationWriter ltac:(set_solver)) as [Hc Hw]. split.
  - by rewrite (quiet_none _ _ (H3 (or_intror Hc))), app_nil_r in H1.
  - by eapply all_ended_written.
Qed.
End shutdown.

(** ** A run: one worker, one message with its activation, and the shutdown *)
Ltac main_goes :=
  eapply rtc_l; [first [by apply step_select | by eapply step_return | by eapply step_call]|]; cbn.
Ltac work_goes tac := eapply rtc_l; [eapply step_work; cbn; tac|]; cbn.

Definition example_end : program (message := nat) :=
  mkProgram true (Before [])
    (mkControls true true true [KafkaWriter; KafkaReader; ContainerPool])
    (mkWork [Returned] [] true true [7%nat] [7%nat] false)
    (["{}"], mkBatcher [] true [(new_worker, true)] [["{}"]]).

Lemma example_run : program_reachable 1 1 example_end.
Proof.
  unfold program_reachable, program_start. cbn.
  work_goes ltac:(by apply (worker_reads 1 _ _ _ 0 7%nat)).
  work_goes ltac:(apply (invocation_writes 1 _ _ _ 7%nat "{}");
    [cbn; set_solver|done|by apply batch_send; cbn; try lia|done]).
  eapply rtc_l; [apply step_signal|]. cbn. main_goes. do 4 main_goes.
  work_goes ltac:(by apply (worker_finishes 1 _ _ _ 0 7%nat)).
  work_goes ltac:(by apply (worker_returns 1 _ _ _ 0)).
  work_goes ltac:(by apply refresher_returns). do 2 main_goes.
  work_goes ltac:(by apply (listener_returns 1 _ _ _ ErrServerClosed)). do 11 main_goes.
  work_goes ltac:(eapply writer_works; [by eapply (batch_take 1 _ _ _ _ 0)|done|done]).
  work_goes ltac:(eapply writer_works; [by eapply (batch_end 1 _ _ 0)|done|done]).
  do 3 main_goes. apply rtc_refl.
Qed.

Lemma shutdown_loses_nothing_witness :
  ["{}"] ≡ₚ concat [["{}"]] /\ late (wrk example_end) = false.
Proof.
  destruct (shutdown_loses_nothing 1 1 example_end ltac:(lia) example_run
    ltac:(by repeat constructor)) as (Hl & _ & _ & He).
  split; [exact (proj2 (He eq_refl))|exact Hl].
Defined.

Definition example_signalled : program (message := nat) :=
  let s := program_start 1 1 in mkProgram true (pc s) (ctl s) (wrk s) (docs s).

Lemma shutdown_completes_witness :
  exists s', rtc (program_step 1) example_signalled s' /\ exited s' = true.
Proof.
  apply (shutdown_completes 1 1); [|reflexivity]. apply rtc_once, (step_signal 1 (program_start 1 1)).
Defined.
